(** * js-xml: a shallow embedding of [lib/js-xml.ts]

    The development follows the source file top to bottom: character
    tables, the tree [builder], [parse] (with its local helpers [eat],
    [eatSpaces], [eatQuote], [clean], [checkEmpty]), [revive], the
    [formatter] with [escape], [normalizeNamespaces] and [stringify]; the
    reviver [simplify] of [lib/revivers.js] comes with [revive].  Theorems
    about them come after the definitions.

    Representation choices.

    - A JavaScript string is the list of its UTF-16 code units ([jstring]);
      the regular expressions of the source have no [u] flag, so they work
      on code units as well.
    - A JavaScript value is [value]: [undefined], [null], a string, an array
      or a plain object.  An object is the list of its own properties in
      enumeration order (insertion order: no key of the program is an array
      index).  [get] and [set] work on the own properties.  Where the
      source reads a plain object under a key that comes from its input
      ([elt[tag]], [elt.$[atb]], [entitiesByName[ent]], [ns[prefix]],
      [result[name]]) the read also finds what [Object.prototype] holds:
      [inherited] lists those names.  A value found there, a function or the
      prototype, is no [value]; a run that would go on with one ends in
      [Unmodelled], about which the model says nothing.  The same holds
      for a write under [__proto__] that changes a prototype, and for a
      numeric reference of 2^53 or more, which JavaScript rounds.
    - [throw] is the [Throw] constructor of [result].  It carries the
      constant part of the message; the line number and the excerpt that
      [parse]'s [error] appends are not modelled.
    - The cursor [pos] of [parse] over the immutable [str] is represented by
      the input that remains at [pos] ([str.substring(pos)]).  Every read of
      the source is at or after the cursor ([charCodeAt(pos)],
      [indexOf(_, pos)], [substring(beg, pos)] with [beg] a saved cursor),
      so the remaining input determines the behaviour.
    - The builder's current element [elt] and its [$parent] chain are a
      stack of open elements.  The source stores a child in its parent when
      it is pushed and mutates it afterwards through [elt]; as the parent is
      not read before the child is popped, the model writes the finished
      child into the parent's slot at [pop]. *)

From Stdlib Require Import String Ascii List ZArith Lia Bool Arith.
Import ListNotations.

Local Set Warnings "-register-all".

(** ** Strings *)

Definition jstring := list Z.

(** [js "abc"] is the JavaScript string with the code units of an ASCII
    literal. *)
Definition js (s : string) : jstring :=
  map (fun a => Z.of_N (N_of_ascii a)) (list_ascii_of_string s).

(** The double quote, and a string between double quotes. *)
Definition DQUOTE : Z := 34.
Definition dq (s : jstring) : jstring := DQUOTE :: s ++ [DQUOTE].

Fixpoint str_eqb (a b : jstring) : bool :=
  match a, b with
  | [], [] => true
  | x :: a', y :: b' => Z.eqb x y && str_eqb a' b'
  | _, _ => false
  end.

(** A code unit is a 16-bit number. *)
Definition is_unit (c : Z) : bool := (0 <=? c)%Z && (c <? 65536)%Z.
Definition is_jstring (s : jstring) : bool := forallb is_unit s.

(** ** Values *)

Inductive value : Type :=
| VUndefined
| VNull
| VStr (s : jstring)
| VArr (items : list value)
| VObj (props : list (jstring * value)).

Definition object := list (jstring * value).
Definition jsvalue : Type := value.

(** An induction principle for values. *)
Fixpoint value_ind' (P : value -> Prop)
  (HU : P VUndefined) (HN : P VNull) (HS : forall s, P (VStr s))
  (HA : forall l, Forall P l -> P (VArr l))
  (HO : forall o, Forall (fun kv => P (snd kv)) o -> P (VObj o))
  (v : value) {struct v} : P v :=
  match v with
  | VUndefined => HU
  | VNull => HN
  | VStr s => HS s
  | VArr l =>
      HA l ((fix all (l : list value) : Forall P l :=
               match l with
               | [] => Forall_nil P
               | x :: l' =>
                   Forall_cons x (value_ind' P HU HN HS HA HO x) (all l')
               end) l)
  | VObj o =>
      HO o ((fix all (o : object) : Forall (fun kv => P (snd kv)) o :=
               match o with
               | [] => Forall_nil _
               | (k, x) :: o' =>
                   Forall_cons (k, x) (value_ind' P HU HN HS HA HO x) (all o')
               end) o)
  end.

(** [v != null] *)
Definition nonnull (v : value) : bool :=
  match v with VUndefined | VNull => false | _ => true end.

(** [v !== undefined] *)
Definition defined (v : value) : bool :=
  match v with VUndefined => false | _ => true end.

(** Truthiness, as in [if (v)]. *)
Definition truthy (v : value) : bool :=
  match v with
  | VUndefined | VNull => false
  | VStr s => match s with [] => false | _ => true end
  | _ => true
  end.

Definition isArray (v : value) : bool :=
  match v with VArr _ => true | _ => false end.

(** [o[k]]: the own property, [undefined] when absent. *)
Fixpoint get (o : object) (k : jstring) : value :=
  match o with
  | [] => VUndefined
  | (k', v) :: o' => if str_eqb k' k then v else get o' k
  end.

(** [o[k] = v]: an existing key keeps its place, a new one goes last. *)
Fixpoint set (o : object) (k : jstring) (v : value) : object :=
  match o with
  | [] => [(k, v)]
  | (k', v') :: o' =>
      if str_eqb k' k then (k, v) :: o' else (k', v') :: set o' k v
  end.

(** *** Names that every object inherits

    A read [o[k]] on a plain object that has no property of its own under
    [k] finds what [Object.prototype] holds there: one of its functions, or
    under [__proto__] the prototype itself; none of them is null or
    [undefined].  [get] reads the own properties; every read of the source
    whose key comes from the input is a [get] together with a test of
    [inherited]. *)
Definition prototypeNames : list jstring :=
  map js
    [ "constructor"; "hasOwnProperty"; "isPrototypeOf";
      "propertyIsEnumerable"; "toLocaleString"; "toString"; "valueOf";
      "__proto__"; "__defineGetter__"; "__defineSetter__";
      "__lookupGetter__"; "__lookupSetter__" ]%string.

Definition inherited (k : jstring) : bool :=
  existsb (str_eqb k) prototypeNames.

(** [a[i] = v] on an array; JavaScript fills the gap with holes when [i] is
    past the end, read back as [undefined]. *)
Fixpoint set_index (a : list value) (i : nat) (v : value) : list value :=
  match i, a with
  | O, [] => [v]
  | O, _ :: a' => v :: a'
  | S i', [] => VUndefined :: set_index [] i' v
  | S i', x :: a' => x :: set_index a' i' v
  end.

(** Decimal digits of an array index. *)
Fixpoint dec_digits (fuel : nat) (n : nat) : jstring :=
  match fuel with
  | O => []
  | S f =>
      if Nat.ltb n 10 then [(48 + Z.of_nat n)%Z]
      else dec_digits f (Nat.div n 10) ++ [(48 + Z.of_nat (Nat.modulo n 10))%Z]
  end.
Definition index_key (n : nat) : jstring := dec_digits (S n) n.

Fixpoint indexed {A} (f : A -> value) (i : nat) (l : list A) : object :=
  match l with
  | [] => []
  | x :: l' => (index_key i, f x) :: indexed f (S i) l'
  end.

(** The own enumerable properties that [Object.keys] and [for..in] walk:
    the properties of an object, the indices of an array or of a string. *)
Definition entries (v : value) : object :=
  match v with
  | VObj o => o
  | VArr l => indexed (fun x => x) 0 l
  | VStr s => indexed (fun c => VStr [c]) 0 s
  | _ => []
  end.

(** [v[k]] for any value. *)
Definition prop (v : value) (k : jstring) : value := get (entries v) k.

(** ['' + v]: the string conversion of the concatenation operator. *)
Fixpoint join (sep : jstring) (l : list jstring) : jstring :=
  match l with
  | [] => []
  | [s] => s
  | s :: l' => s ++ sep ++ join sep l'
  end.

Fixpoint toString (v : value) : jstring :=
  match v with
  | VUndefined => js "undefined"
  | VNull => js "null"
  | VStr s => s
  | VArr l =>
      join (js ",")
        (map (fun x => match x with
                       | VUndefined | VNull => []
                       | _ => toString x
                       end) l)
  | VObj _ => js "[object Object]"
  end.

(** ** Results *)

(** [Unmodelled]: the run comes to a value that [value] has no term for,
    a function or the prototype that a read has found on
    [Object.prototype], or a number beyond the exact integers.  The model
    says nothing of such a run. *)
Inductive result (A : Type) : Type :=
| Ok (a : A)
| Throw (msg : string)
| OutOfFuel
| Unmodelled.
Arguments Ok {A} a.
Arguments Throw {A} msg.
Arguments OutOfFuel {A}.
Arguments Unmodelled {A}.

Definition bind {A B} (r : result A) (k : A -> result B) : result B :=
  match r with
  | Ok a => k a
  | Throw m => Throw m
  | OutOfFuel => OutOfFuel
  | Unmodelled => Unmodelled
  end.

Notation "x <- e ;; k" := (bind e (fun x => k))
  (at level 61, e at next level, right associativity).
Notation "' p <- e ;; k" := (bind e (fun x => let 'p := x in k))
  (at level 61, p pattern, e at next level, right associativity).

Definition throws {A} (r : result A) : Prop := exists msg, r = Throw msg.

(** *** Reads and writes under a key of the data *)

(** [o[k]] on a plain object: the own property; without one, what
    [Object.prototype] holds under [k], a function or the prototype, for
    which [value] has no term; and [undefined] otherwise. *)
Definition owns (o : object) (k : jstring) : bool :=
  existsb (fun kv => str_eqb (fst kv) k) o.

Definition lookup (o : object) (k : jstring) : result value :=
  if owns o k then Ok (get o k)
  else if inherited k then Unmodelled
  else Ok VUndefined.

(** [o[k] = v] on a plain object, for a key that comes from the data.
    Under [__proto__] the assignment goes to the setter that
    [Object.prototype] has for that name: it makes no property; it does
    nothing when [v] is neither an object nor null, and gives the object
    a new prototype otherwise. *)
Definition assign (o : object) (k : jstring) (v : value) : result object :=
  if str_eqb k (js "__proto__") then
    match v with
    | VUndefined | VStr _ => Ok o
    | _ => Unmodelled
    end
  else Ok (set o k v).

(** [v + '|']: the string conversion of [toString], as long as no object
    on the way has a property [toString] of its own.  Such a property
    hides the method of [Object.prototype]; in a tree of data it is no
    function, and the conversion throws a TypeError. *)
Fixpoint stringOf (v : value) : result jstring :=
  match v with
  | VArr l =>
      parts <-
        (fix each (l : list value) : result (list jstring) :=
           match l with
           | [] => Ok []
           | x :: l' =>
               s <- match x with
                    | VUndefined | VNull => Ok []
                    | _ => stringOf x
                    end ;;
               ss <- each l' ;;
               Ok (s :: ss)
           end) l ;;
      Ok (join (js ",") parts)
  | VObj o =>
      if owns o (js "toString") then Throw "TypeError"
      else Ok (js "[object Object]")
  | _ => Ok (toString v)
  end.

(** No object on the way of the string conversion has a property
    [toString] of its own. *)
Fixpoint printable (v : value) : bool :=
  match v with
  | VArr l => forallb printable l
  | VObj o => negb (owns o (js "toString"))
  | _ => true
  end.

Definition printables (ns : object) : bool :=
  forallb (fun kv => printable (snd kv)) ns.

(** [for (x of l) a = f(a, x)], as long as [f] returns. *)
Fixpoint foldM {A B : Type} (f : A -> B -> result A) (l : list B) (a : A)
  : result A :=
  match l with
  | [] => Ok a
  | b :: l' => a' <- f a b ;; foldM f l' a'
  end.

(** ** Character tables *)

Definition LF : Z := 10.
Definition LT : Z := 60.
Definition GT : Z := 62.
Definition EXCLAM : Z := 33.
Definition QMARK : Z := 63.
Definition SLASH : Z := 47.
Definition OBRA : Z := 91.
Definition EQ : Z := 61.
Definition DASH : Z := 45.
Definition AMP : Z := 38.
Definition SEMI : Z := 59.
Definition APOS : Z := 39.
Definition HASH : Z := 35.
Definition DOLLAR : Z := 36.
Definition COLON : Z := 58.

Local Open Scope Z_scope.

Definition between (lo hi c : Z) : bool := (lo <=? c) && (c <=? hi).

(** [add(begWord, 'aA', i)] for [i < 26], then [add(begWord, ':_')]. *)
Definition begWord (c : Z) : bool :=
  between 97 122 c || between 65 90 c || (c =? 58) || (c =? 95).

(** The digits, the letters, then [add(inWord, ':_-.')]. *)
Definition inWord (c : Z) : bool :=
  between 48 57 c || between 97 122 c || between 65 90 c
  || (c =? 58) || (c =? 95) || (c =? 45) || (c =? 46).

(** [add(space, ' \t\r\n')]. *)
Definition space (c : Z) : bool :=
  (c =? 32) || (c =? 9) || (c =? 13) || (c =? 10).

Definition entitiesByChar : list (Z * jstring) :=
  [ (AMP, js "amp"); (LT, js "lt"); (GT, js "gt");
    (DQUOTE, js "quot"); (APOS, js "apos") ].

Fixpoint byChar (tbl : list (Z * jstring)) (c : Z) : option jstring :=
  match tbl with
  | [] => None
  | (c', n) :: tbl' => if c' =? c then Some n else byChar tbl' c
  end.

(** [entitiesByName[entitiesByChar[ch]] = ch] for every key [ch]. *)
Definition entitiesByName : list (jstring * Z) :=
  map (fun p => (snd p, fst p)) entitiesByChar.

Fixpoint byName (tbl : list (jstring * Z)) (n : jstring) : option Z :=
  match tbl with
  | [] => None
  | (n', c) :: tbl' => if str_eqb n' n then Some c else byName tbl' n
  end.

Local Close Scope Z_scope.

(** ** The tree builder *)

(** An element under construction.  [$tag], [$index] and [$childCount] are
    the bookkeeping fields; [e_props] holds the properties that survive:
    [$], [$value], [$cdata] and the children, in insertion order.  [$parent]
    is the next element of the stack. *)
Record Element : Type := mkElement {
  e_tag : option jstring;
  e_index : option nat;
  e_childCount : nat;
  e_props : object
}.

(** [outside] is set once [push] has read an inherited name on an element:
    from then on the properties of the open elements are not those of the
    code's objects (the parent holds a sequence that begins with the
    inherited function, or has been given a new prototype).  What the
    builder throws, and when, does not depend on them: every test of the
    builder but the one of [push] is on a [$] property or on the fresh
    object of the attributes.  So the model runs on, and [getResult] gives
    no tree. *)
Record builder : Type := mkBuilder {
  elt : Element;
  parents : list Element;
  outside : bool
}.

Definition root : Element := mkElement None None 0 [].

Definition builder_init : builder := mkBuilder root [] false.

Definition with_props (e : Element) (o : object) : Element :=
  mkElement (e_tag e) (e_index e) (e_childCount e) o.

Module Builder.

(** What the parent holds for a child that is still open. *)
Definition open_child : value := VObj [].

Definition push (tag : jstring) (b : builder) : result builder :=
  let e := elt b in
  if nonnull (get (e_props e) (js "$cdata")) then
    Throw "cannot mix CDATA and children"
  else if nonnull (get (e_props e) (js "$value")) then
    Throw "cannot mix value and children"
  else
    (* [elt[tag]]: the own property, or what [Object.prototype] holds *)
    let out := outside b || inherited tag in
    let old := get (e_props e) tag in
    if nonnull old then
      let arr := match old with VArr l => l | _ => [old] end in
      let child := mkElement (Some tag) (Some (length arr)) 0 [] in
      let e' := mkElement (e_tag e) (e_index e) (S (e_childCount e))
                  (set (e_props e) tag (VArr (arr ++ [open_child]))) in
      Ok (mkBuilder child (e' :: parents b) out)
    else
      let child := mkElement (Some tag) None 0 [] in
      let e' := mkElement (e_tag e) (e_index e) (S (e_childCount e))
                  (set (e_props e) tag open_child) in
      Ok (mkBuilder child (e' :: parents b) out).

(** [tag && tag !== elt.$tag] *)
Definition mismatch (tag : option jstring) (e : Element) : bool :=
  match tag with
  | None | Some [] => false
  | Some t =>
      match e_tag e with
      | Some t' => negb (str_eqb t t')
      | None => true
      end
  end.

Definition pop (tag : option jstring) (b : builder) : result builder :=
  let e := elt b in
  if mismatch tag e then Throw "closing tag mismatch"
  else
    match parents b with
    | [] => Throw "too many closing tags"
    | parent :: rest =>
        (* if elt does not have attributes, replace it by value in parent *)
        let v :=
          if defined (get (e_props e) (js "$value"))
             && negb (truthy (get (e_props e) (js "$")))
          then get (e_props e) (js "$value")
          else VObj (e_props e) in
        let t := match e_tag e with Some t => t | None => [] end in
        let props' :=
          match e_index e with
          | None => set (e_props parent) t v
          | Some i =>
              match get (e_props parent) t with
              | VArr l => set (e_props parent) t (VArr (set_index l i v))
              | _ => e_props parent
              end
          end in
        Ok (mkBuilder (with_props parent props') rest (outside b))
    end.

Definition attribute (atb : jstring) (val : jsvalue) (b : builder)
  : result builder :=
  let e := elt b in
  let cur := get (e_props e) (js "$") in
  match (if truthy cur then cur else VObj []) with
  | VObj attrs =>
      (* [elt.$[atb] != null]: an own attribute, or an inherited name *)
      if nonnull (get attrs atb) || inherited atb then
        Throw "duplicate attribute"
      else
        Ok (mkBuilder
              (with_props e (set (e_props e) (js "$") (VObj (set attrs atb val))))
              (parents b) (outside b))
  | _ => Throw "TypeError"
  end.

Definition value (val : jsvalue) (b : builder) : result builder :=
  let e := elt b in
  if nonnull (get (e_props e) (js "$cdata")) then
    Throw "cannot mix CDATA and value"
  else if negb (Nat.eqb (e_childCount e) 0) then
    Throw "cannot mix children and value"
  else Ok (mkBuilder (with_props e (set (e_props e) (js "$value") val))
             (parents b) (outside b)).

Definition cdata (val : jsvalue) (b : builder) : result builder :=
  let e := elt b in
  if nonnull (get (e_props e) (js "$value")) then
    Throw "cannot mix value and CDATA"
  else if negb (Nat.eqb (e_childCount e) 0) then
    Throw "cannot mix children and CDATA"
  else Ok (mkBuilder (with_props e (set (e_props e) (js "$cdata") val))
             (parents b) (outside b)).

Definition getResult (b : builder) : result jsvalue :=
  match parents b with
  | _ :: _ => Throw "tag not closed"
  | [] =>
      match e_childCount (elt b) with
      | 0 => Throw "root tag not found"
      | 1 => if outside b then Unmodelled else Ok (VObj (e_props (elt b)))
      | _ => Throw "too many elements at top level"
      end
  end.

End Builder.

(** ** parse *)

Local Open Scope Z_scope.

(** The longest prefix whose units satisfy [p], and what follows it:
    [while (p[str.charCodeAt(pos)]) pos++]. *)
Fixpoint span (p : Z -> bool) (s : jstring) : jstring * jstring :=
  match s with
  | [] => ([], [])
  | c :: s' =>
      if p c then let (w, r) := span p s' in (c :: w, r) else ([], s)
  end.

(** [s] begins with [pat]. *)
Fixpoint starts (pat s : jstring) : bool :=
  match pat, s with
  | [], _ => true
  | p :: pat', c :: s' => (p =? c) && starts pat' s'
  | _ :: _, [] => false
  end.

(** [j = str.indexOf(pat, pos)]: [None] when [j < 0], else
    [str.substring(pos, j)] and the input at [j]. *)
Fixpoint indexOf (pat : jstring) (s : jstring) : option (jstring * jstring) :=
  if starts pat s then Some ([], s)
  else
    match s with
    | [] => None
    | c :: s' =>
        match indexOf pat s' with
        | Some (b, r) => Some (c :: b, r)
        | None => None
        end
    end.

Definition eatSpaces (inp : jstring) : jstring := snd (span space inp).

Definition eat (ch : Z) (inp : jstring) : result jstring :=
  match inp with
  | c :: rest => if c =? ch then Ok rest else Throw "expected character"
  | [] => Throw "expected character"
  end.

Definition eatQuote (inp : jstring) : result (Z * jstring) :=
  match inp with
  | ch :: rest =>
      if (ch =? DQUOTE) || (ch =? APOS) then Ok (ch, rest)
      else Throw "expected quote"
  | [] => Throw "expected quote"
  end.

(** *** parseInt and String.fromCharCode *)

(** The white space that [parseInt] skips (StrWhiteSpaceChar). *)
Definition strWhiteSpace (c : Z) : bool :=
  between 9 13 c || (c =? 32) || (c =? 160) || (c =? 5760)
  || between 8192 8202 c || (c =? 8232) || (c =? 8233) || (c =? 8239)
  || (c =? 8287) || (c =? 12288) || (c =? 65279).

Definition digitVal (c : Z) : option Z :=
  if between 48 57 c then Some (c - 48)
  else if between 97 122 c then Some (c - 87)
  else if between 65 90 c then Some (c - 55)
  else None.

(** The value of the longest prefix of digits of the radix; [None] when
    there is no digit. *)
Fixpoint parseDigits (radix : Z) (s : jstring) (acc : option Z) : option Z :=
  match s with
  | [] => acc
  | c :: s' =>
      match digitVal c with
      | Some d =>
          if d <? radix then
            parseDigits radix s'
              (Some (match acc with Some a => a * radix + d | None => d end))
          else acc
      | None => acc
      end
  end.

(** [parseInt(s, radix)] for radix 10 or 16; [None] is NaN, and [Some v]
    gives the integer [v] that the digits denote.  The Number that
    JavaScript makes of it is [v] itself below 2^53 in absolute value, and
    a rounded one from there on: [entity] has the test. *)
Definition parseInt (s : jstring) (radix : Z) : option Z :=
  let s := snd (span strWhiteSpace s) in
  let (neg, s) :=
    match s with
    | c :: s' => if c =? 45 then (true, s') else if c =? 43 then (false, s') else (false, s)
    | [] => (false, s)
    end in
  let s :=
    if (radix =? 16) && (starts (js "0x") s || starts (js "0X") s)
    then skipn 2 s else s in
  match parseDigits radix s None with
  | Some v => Some (if neg then - v else v)
  | None => None
  end.

(** [String.fromCharCode(v)]: the code unit [v] modulo 2^16. *)
Definition fromCharCode (v : Z) : jstring := [v mod 65536].

(** *** clean *)

(** The callback of [clean]: the replacement of [&ent;]. *)
Definition entity (ent : jstring) : result jstring :=
  match byName entitiesByName ent with
  | Some ch => Ok [ch]
  | None =>
      (* [entitiesByName[ent]] is truthy for an inherited name: the callback
         returns the function, or the prototype, that it has found *)
      if inherited ent then Unmodelled
      else
      match ent with
      | c :: ent1 =>
          if c =? HASH then
            let (ent2, radix) :=
              match ent1 with
              | x :: ent2 => if x =? 120 then (ent2, 16) else (ent1, 10)
              | [] => (ent1, 10)
              end in
            match parseInt ent2 radix with
            | Some v =>
                if Z.abs v <? 2 ^ 53 then Ok (fromCharCode v) else Unmodelled
            | None => Throw "hex value expected"
            end
          else Throw "invalid entity"
      | [] => Throw "invalid entity"
      end
  end.

(** A match of [/&([^;]+);/] right after an ampersand: the captured name,
    when the run of units up to the next semicolon is not empty. *)
Definition entityAt (rest : jstring) : option jstring :=
  let (ent, after) := span (fun c => negb (c =? SEMI)) rest in
  match ent, after with
  | _ :: _, _ :: _ => Some ent
  | _, _ => None
  end.

(** [str.replace(/&([^;]+);/g, callback)], scanning from the left.  [skip]
    counts the units of the current match that are still to be passed. *)
Fixpoint clean_from (skip : nat) (s : jstring) : result jstring :=
  match s with
  | [] => Ok []
  | c :: rest =>
      match skip with
      | S k => clean_from k rest
      | O =>
          match (if c =? AMP then entityAt rest else None) with
          | Some ent =>
              r <- entity ent ;;
              t <- clean_from (S (List.length ent)) rest ;;
              Ok (r ++ t)
          | None =>
              t <- clean_from O rest ;;
              Ok (c :: t)
          end
      end
  end.

Definition clean (s : jstring) : result jstring := clean_from O s.

(** [/[^ \t\r\n]/] *)
Definition nonBlank (c : Z) : bool :=
  negb ((c =? 32) || (c =? 9) || (c =? 13) || (c =? 10)).

Definition checkEmpty (s : jstring) : result unit :=
  if existsb nonBlank s then Throw "unexpected value" else Ok tt.

(** *** The scanner *)

(** The text of an element after the [>] of its opening tag, comments
    skipped; [val] is the text gathered so far. *)
Fixpoint content (fuel : nat) (inp val : jstring) (bld : builder)
  : result (jstring * builder) :=
  match fuel with
  | O => OutOfFuel
  | S fuel' =>
      match indexOf [LT] inp with
      | None => Throw "tag not closed"
      | Some (text, at_j) =>
          if starts (js "<!--") at_j then
            t <- clean text ;;
            match indexOf (js "-->") (skipn 4 at_j) with
            | None => Throw "unterminated comment"
            | Some (_, at_j') => content fuel' (skipn 3 at_j') (val ++ t) bld
            end
          else
            t <- clean text ;;
            let val := val ++ t in
            if starts [LT; SLASH] at_j then
              bld' <- Builder.value (VStr val) bld ;;
              Ok (at_j, bld')
            else
              _ <- checkEmpty val ;;
              Ok (inp, bld)
      end
  end.

(** The inner loop of an opening tag, after the tag name. *)
Fixpoint tagLoop (fuel : nat) (inp : jstring) (bld : builder)
  : result (jstring * builder) :=
  match fuel with
  | O => OutOfFuel
  | S fuel' =>
      match eatSpaces inp with
      | [] => Throw "unexpected character"
      | ch :: rest =>
          if ch =? SLASH then
            rest' <- eat GT rest ;;
            bld' <- Builder.pop None bld ;;
            Ok (rest', bld')
          else if begWord ch then
            let (w, rest1) := span inWord rest in
            let atb := ch :: w in
            rest2 <- eat EQ (eatSpaces rest1) ;;
            '(quote, rest3) <- eatQuote (eatSpaces rest2) ;;
            match indexOf [quote] rest3 with
            | None => Throw "double quote missing"
            | Some (raw, at_quote) =>
                v <- clean raw ;;
                bld' <- Builder.attribute atb (VStr v) bld ;;
                tagLoop fuel' (skipn 1 at_quote) bld'
            end
          else if ch =? GT then
            content (S (List.length rest)) rest [] bld
          else Throw "unexpected character"
      end
  end.

(** One turn of the main loop, up to its final [eatSpaces]. *)
Definition step (inp : jstring) (bld : builder) : result (jstring * builder) :=
  rest <- eat LT inp ;;
  match rest with
  | [] => Throw "unexpected character"
  | ch :: rest1 =>
      if begWord ch then
        let (w, rest2) := span inWord rest1 in
        bld' <- Builder.push (ch :: w) bld ;;
        tagLoop (S (List.length rest2)) rest2 bld'
      else if ch =? SLASH then
        let (tag, rest2) :=
          match rest1 with
          | c :: rest1' =>
              if begWord c then
                let (w, r) := span inWord rest1' in (Some (c :: w), r)
              else (None, rest1)
          | [] => (None, rest1)
          end in
        rest3 <- eat GT (eatSpaces rest2) ;;
        bld' <- Builder.pop tag bld ;;
        Ok (rest3, bld')
      else if ch =? EXCLAM then
        if starts (js "--") rest1 then
          match indexOf (js "-->") (skipn 2 rest1) with
          | None => Throw "--> missing"
          | Some (_, at_j) => Ok (skipn 3 at_j, bld)
          end
        else if starts (js "[CDATA[") rest1 then
          match indexOf (js "]]>") (skipn 7 rest1) with
          | None => Throw "]]> missing"
          | Some (data, at_j) =>
              bld' <- Builder.cdata (VStr data) bld ;;
              Ok (eatSpaces (skipn 3 at_j), bld')
          end
        else Throw "invalid syntax after <!"
      else if ch =? QMARK then
        match indexOf (js "?>") rest1 with
        | None => Throw "?> missing"
        | Some (_, at_j) => Ok (skipn 2 at_j, bld)
        end
      else Throw "unexpected character"
  end.

(** [while (pos < len) { ...; eatSpaces(); }] *)
Fixpoint mainLoop (fuel : nat) (inp : jstring) (bld : builder)
  : result builder :=
  match fuel with
  | O => OutOfFuel
  | S fuel' =>
      match inp with
      | [] => Ok bld
      | _ :: _ =>
          '(inp', bld') <- step inp bld ;;
          mainLoop fuel' (eatSpaces inp') bld'
      end
  end.

(** [parse(str)], without a reviver ([revive] is then the identity).  When
    [str] has no [<], [pos] is [-1]: the loop is entered and [eat(LT)]
    throws. *)
Definition parse (str : jstring) : result value :=
  match indexOf [LT] str with
  | None => Throw "expected character"
  | Some (_, inp) =>
      bld <- mainLoop (S (List.length inp)) inp builder_init ;;
      Builder.getResult bld
  end.

Local Close Scope Z_scope.

(** ** revive *)

(** A reviver is a function of the key and the value.  It is taken to be a
    function in the mathematical sense: it returns a value for every
    argument and touches nothing but the value it is given. *)
Definition Reviver : Type := jstring -> value -> value.

(** [reviveOne(key, val)]: the items of an array are revived under their
    indices, the properties of an object under their keys into a new
    object, and the reviver has the last word. *)
Fixpoint reviveOne (reviver : Reviver) (key : jstring) (val : value)
  {struct val} : result value :=
  val' <-
    match val with
    | VArr l =>
        l' <- (fix each (i : nat) (l : list value) : result (list value) :=
                 match l with
                 | [] => Ok []
                 | item :: l' =>
                     x <- reviveOne reviver (index_key i) item ;;
                     xs <- each (S i) l' ;;
                     Ok (x :: xs)
                 end) 0 l ;;
        Ok (VArr l')
    | VObj o =>
        r <- (fix reduce (o : object) (r : object) : result object :=
                match o with
                | [] => Ok r
                | (k, v) :: o' =>
                    x <- reviveOne reviver k v ;;
                    r' <- assign r k x ;;
                    reduce o' r'
                end) o [] ;;
        Ok (VObj r)
    | _ => Ok val
    end ;;
  Ok (reviver key val').

Definition revive (obj : value) (reviver : option Reviver) : result value :=
  match reviver with
  | None => Ok obj
  | Some r => reviveOne r [] obj
  end.

(** [parse(str, reviver)] *)
Definition parse_with (str : jstring) (reviver : option Reviver)
  : result value :=
  obj <- parse str ;; revive obj reviver.

(** ** The formatter *)

Local Open Scope Z_scope.

Record fstate : Type := mkFstate {
  f_str : jstring;
  f_depth : nat
}.

(** The class of [escape]'s regular expression: one of the five
    characters of [entitiesByChar], or a unit outside the ranges
    [0x20-0x7e], [0xa1-0xd7ff] and [0xe000-0xfffd]. *)
Definition unsafe (c : Z) : bool :=
  ((c =? 38) || (c =? 60) || (c =? 62) || (c =? 34) || (c =? 39))
  || negb (between 32 126 c || between 161 55295 c || between 57344 65533 c).

Definition hexDigit (d : Z) : Z := if d <? 10 then 48 + d else 87 + d.

(** [n.toString(16)] for a code unit [n], which has four digits at most. *)
Fixpoint toHex (fuel : nat) (n : Z) : jstring :=
  match fuel with
  | O => []
  | S f =>
      if n <? 16 then [hexDigit n]
      else toHex f (n / 16) ++ [hexDigit (n mod 16)]
  end.
Definition toString16 (n : Z) : jstring := toHex 4 n.

(** [while (cond(hex.length)) hex = '0' + hex] *)
Fixpoint padWhile (fuel : nat) (cond : nat -> bool) (hex : jstring) : jstring :=
  match fuel with
  | O => hex
  | S f => if cond (List.length hex) then padWhile f cond (48 :: hex) else hex
  end.

(** The callback of [escape]. *)
Definition escapeChar (ch : Z) : jstring :=
  match byChar entitiesByChar ch with
  | Some ent => AMP :: ent ++ [SEMI]
  | None =>
      let hex := toString16 ch in
      let hex := padWhile 4 (fun n => Nat.ltb n 2) hex in
      let hex := padWhile 4 (fun n => Nat.ltb 2 n && Nat.ltb n 4) hex in
      js "&#x" ++ hex ++ [SEMI]
  end.

Definition escape (val : value) : jstring :=
  match val with
  | VStr s => flat_map (fun ch => if unsafe ch then escapeChar ch else [ch]) s
  | _ => toString val
  end.

Section Formatter.

(** [options.indent]; [None] when it is absent or [null]. *)
Variable indent : option jstring.

Definition indent_on : bool :=
  match indent with Some (_ :: _) => true | _ => false end.

(** [str += '\n' + Array(depth + 1).join(options.indent || '\t')] *)
Definition do_indent (st : fstate) : fstate :=
  let unit := match indent with Some (c :: i) => c :: i | _ => [9] end in
  mkFstate (f_str st ++ [LF] ++ concat (repeat unit (f_depth st)))
           (f_depth st).

Definition beginTag (tag : jstring) (st : fstate) : fstate :=
  let st := if indent_on then do_indent st else st in
  mkFstate (f_str st ++ [LT] ++ tag) (S (f_depth st)).

Definition addAttribute (atb : jstring) (val : value) (st : fstate) : fstate :=
  mkFstate (f_str st ++ [32] ++ atb ++ [EQ] ++ dq (escape val)) (f_depth st).

Definition endTag (close : bool) (st : fstate) : fstate :=
  mkFstate (f_str st ++ (if close then js "/>" else js ">"))
           (if close then Nat.pred (f_depth st) else f_depth st).

Definition closeTag (tag : jstring) (val : value) (st : fstate) : fstate :=
  let st := mkFstate (f_str st) (Nat.pred (f_depth st)) in
  let st :=
    if nonnull val then mkFstate (f_str st ++ escape val) (f_depth st)
    else if indent_on then do_indent st else st in
  mkFstate (f_str st ++ js "</" ++ tag ++ js ">") (f_depth st).

Definition fcdata (data : value) (st : fstate) : fstate :=
  mkFstate (f_str st ++ js "<![CDATA[" ++ toString data ++ js "]]>")
           (f_depth st).

(** [str.substring(str.indexOf('<'))]; an index of [-1] counts as [0]. *)
Definition fgetResult (st : fstate) : jstring :=
  match indexOf [LT] (f_str st) with
  | Some (_, r) => r
  | None => f_str st
  end.

(** ** stringify *)

(** [key[0] === '$'] *)
Definition is_dollar (key : jstring) : bool :=
  match key with c :: _ => c =? DOLLAR | [] => false end.

Definition nil_tag (st : fstate) : fstate :=
  endTag true (addAttribute (js "xsi:nil") (VStr (js "true")) st).

Definition addAttributes (attrs : value) (st : fstate) : fstate :=
  if truthy attrs then
    fold_left (fun st kv =>
                 if nonnull (snd kv) then addAttribute (fst kv) (snd kv) st
                 else st)
              (entries attrs) st
  else st.

Fixpoint strfy (elt : value) (tag : jstring) (st : fstate) {struct elt}
  : result fstate :=
  match elt with
  | VUndefined => Ok st
  | VArr l =>
      (fix each (l : list value) (st : fstate) : result fstate :=
         match l with
         | [] => Ok st
         | child :: l' => st' <- strfy child tag st ;; each l' st'
         end) l st
  | VNull => Ok (nil_tag (beginTag tag st))
  | VStr _ => Ok (closeTag tag elt (endTag false (beginTag tag st)))
  | VObj o =>
      let st := addAttributes (get o (js "$")) (beginTag tag st) in
      let keys := filter (fun kv => negb (is_dollar (fst kv))) o in
      let val := get o (js "$value") in
      let data := get o (js "$cdata") in
      if defined val then
        match keys with
        | _ :: _ => Throw "cannot mix $value and $children"
        | [] =>
            if truthy data then Throw "cannot mix $value and $cdata"
            else
              match val with
              | VNull => Ok (nil_tag st)
              | _ => Ok (closeTag tag val (endTag false st))
              end
        end
      else if nonnull data then
        match keys with
        | _ :: _ => Throw "cannot mix $cdata and $children"
        | [] => Ok (closeTag tag VUndefined (fcdata data (endTag false st)))
        end
      else
        match keys with
        | _ :: _ =>
            st' <- (fix kids (o : object) (st : fstate) : result fstate :=
                      match o with
                      | [] => Ok st
                      | (key, v) :: o' =>
                          if is_dollar key then kids o' st
                          else st' <- strfy v key st ;; kids o' st'
                      end) o (endTag false st) ;;
            Ok (closeTag tag VUndefined st')
        | [] => Ok (endTag true st)
        end
  end.

(** [Object.keys] throws a [TypeError] on [null] and [undefined]. *)
Definition stringify_with (elt : value) : result jstring :=
  match elt with
  | VUndefined | VNull => Throw "TypeError"
  | _ =>
      match entries elt with
      | [(key, v)] =>
          st <- strfy v key (mkFstate [] 0) ;;
          Ok (fgetResult st)
      | _ => Throw "bad root element expected 1 child"
      end
  end.

End Formatter.

(** [stringify(elt)] with the default options. *)
Definition stringify (elt : value) : result jstring := stringify_with None elt.

(** ** normalizeNamespaces *)

(** [s.split(':')] *)
Fixpoint split (sep : Z) (s : jstring) : list jstring :=
  match s with
  | [] => [[]]
  | c :: s' =>
      if c =? sep then [] :: split sep s'
      else
        match split sep s' with
        | p :: ps => (c :: p) :: ps
        | [] => [[c]]
        end
  end.

(** [parts[1]] when it is truthy. *)
Definition part1 (parts : list jstring) : option jstring :=
  match parts with
  | _ :: (c :: p) :: _ => Some (c :: p)
  | _ => None
  end.

(** The qualified name of [tag] under the bindings [ns]. *)
Definition qualify (ns : object) (tag : jstring) : result jstring :=
  let parts := split COLON tag in
  match part1 parts with
  | Some p1 =>
      uri <- lookup ns (hd [] parts) ;;
      s <- stringOf uri ;;
      Ok (s ++ js "|" ++ p1)
  | None =>
      if truthy (get ns []) then
        s <- stringOf (get ns []) ;; Ok (s ++ js "|" ++ tag)
      else Ok tag
  end.

(** [for (const c in ns) ns2[c] = ns[c]] on a fresh [ns2]: the copy of
    the bindings that the first declaration of an element makes. *)
Definition cloneBindings (ns : object) : result object :=
  foldM (fun (ns2 : object) (kv : jstring * value) =>
           assign ns2 (fst kv) (snd kv))
        ns [].

(** The first loop over the attributes: the bindings, then the flags
    [nameSpaceDecl], [nameSpaceAttr] and [bareAttr]. *)
Definition scanAttributes (attributes : value) (ns : object)
  : result (object * bool * bool * bool) :=
  foldM
    (fun (acc : object * bool * bool * bool) (kv : jstring * value) =>
       let '(ns, decl, nsAttr, bare) := acc in
       let parts := split COLON (fst kv) in
       if str_eqb (hd [] parts) (js "xmlns") then
         ns2 <- (if decl then Ok ns else cloneBindings ns) ;;
         ns' <- assign ns2 (match part1 parts with Some p => p | None => [] end)
                  (snd kv) ;;
         Ok (ns', true, nsAttr, bare)
       else
         match part1 parts with
         | Some _ => Ok (ns, decl, true, bare)
         | None => Ok (ns, decl, nsAttr, true)
         end)
    (entries attributes) (ns, false, false, false).

(** The second loop: the attributes that are kept, translated. *)
Definition translateAttributes (attributes : value) (ns : object)
  : result object :=
  foldM
    (fun (res : object) (kv : jstring * value) =>
       let parts := split COLON (fst kv) in
       if str_eqb (hd [] parts) (js "xmlns") then Ok res
       else
         match part1 parts with
         | Some p1 =>
             uri <- lookup ns (hd [] parts) ;;
             s <- stringOf uri ;;
             Ok (set res (s ++ js "|" ++ p1) (snd kv))
         | None => assign res (fst kv) (snd kv)
         end)
    (entries attributes) [].

(** [_addEntry], given the pair [res] that the recursive call returned; the
    state is [result] and [onlyValue]. *)
Definition _addEntry (res : jstring * value) (st : object * bool)
  : result (object * bool) :=
  let result := fst st in
  tmp <- lookup result (fst res) ;;
  Ok (if truthy tmp then
        match tmp with
        | VArr l => set result (fst res) (VArr (l ++ [snd res]))
        | _ => set result (fst res) (VArr [tmp; snd res])
        end
      else set result (fst res) (snd res),
      false).

Definition is_empty (s : jstring) : bool :=
  match s with [] => true | _ => false end.

(** [_normalizeNamespaces(obj, ns, tag)].  An absent [tag] is the empty
    string (both are falsy); the call then returns the second component
    alone. *)
Fixpoint _normalizeNamespaces (obj : value) (ns : object) (tag : jstring)
  {struct obj} : result (jstring * value) :=
  let named (ns : object) (v : value) : result (jstring * value) :=
    if is_empty tag then Ok ([], v)
    else q <- qualify ns tag ;; Ok (q, v) in
  let body (walk : object -> object * bool -> result (object * bool)) :=
    let attributes := prop obj (js "$") in
    '(ns', decl, nsAttr, bare) <-
      (if truthy attributes then scanAttributes attributes ns
       else Ok (ns, false, false, false)) ;;
    st0 <-
      (if truthy attributes && (nsAttr || bare) then
         if decl || nsAttr then
           tr <- translateAttributes attributes ns' ;;
           Ok ([(js "$", VObj tr)], false)
         else Ok ([(js "$", attributes)], false)
       else Ok ([], true)) ;;
    '(result, onlyValue) <- walk ns' st0 ;;
    let val := prop obj (js "$value") in
    named ns'
      (if defined val then
         if onlyValue then val else VObj (set result (js "$value") val)
       else VObj result) in
  match obj with
  | VObj o =>
      body (fun ns' st0 =>
        (fix walk (o : object) (st : object * bool) : result (object * bool) :=
           match o with
           | [] => Ok st
           | (b, val) :: o' =>
               if is_dollar b || is_empty b then walk o' st
               else
                 st' <-
                   match val with
                   | VArr items =>
                       (fix each (items : list value) (st : object * bool)
                          : result (object * bool) :=
                          match items with
                          | [] => Ok st
                          | item :: items' =>
                              res <- _normalizeNamespaces item ns' b ;;
                              st' <- _addEntry res st ;;
                              each items' st'
                          end) items st
                   | _ =>
                       res <- _normalizeNamespaces val ns' b ;;
                       _addEntry res st
                   end ;;
                 walk o' st'
           end) o st0)
  | VArr l =>
      body (fun ns' st0 =>
        (fix walk (i : nat) (l : list value) (st : object * bool)
           : result (object * bool) :=
           match l with
           | [] => Ok st
           | val :: l' =>
               let b := index_key i in
               st' <-
                 match val with
                 | VArr items =>
                     (fix each (items : list value) (st : object * bool)
                        : result (object * bool) :=
                        match items with
                        | [] => Ok st
                        | item :: items' =>
                            res <- _normalizeNamespaces item ns' b ;;
                            st' <- _addEntry res st ;;
                            each items' st'
                        end) items st
                 | _ =>
                     res <- _normalizeNamespaces val ns' b ;;
                     _addEntry res st
                 end ;;
               walk (S i) l' st'
           end) 0%nat l st0)
  | _ => named ns obj
  end.

Definition normalizeNamespaces (obj : value) : result value :=
  '(_, result) <- _normalizeNamespaces obj [] [] ;; Ok result.

Local Close Scope Z_scope.

(** ** The reviver [simplify] of [lib/revivers.js] *)

(** [delete o[k]] *)
Definition delete (o : object) (k : jstring) : object :=
  filter (fun kv => negb (str_eqb (fst kv) k)) o.

(** [v === s] for a string [s] *)
Definition is_string (v : value) (s : jstring) : bool :=
  match v with VStr s' => str_eqb s' s | _ => false end.

Definition simplify (key : jstring) (val : value) : value :=
  if negb (truthy val) then val
  else if truthy (prop val (js "$"))
          && is_string (prop (prop val (js "$")) (js "xsi:nil")) (js "true")
  then VNull
  else if nonnull (prop val (js "$value")) then prop val (js "$value")
  else if nonnull (prop val (js "$cdata")) then prop val (js "$cdata")
  else
    match val with
    | VObj o =>
        match delete o (js "$") with
        | [] => VNull
        | o' => VObj o'
        end
    | VArr [] => VNull
    | _ => val
    end.

(** * Properties *)

(** ** Basic facts *)

Lemma str_eqb_refl : forall a, str_eqb a a = true.
Proof.
  induction a as [|x a IH]; simpl; [reflexivity|].
  now rewrite Z.eqb_refl, IH.
Qed.

Lemma str_eqb_eq : forall a b, str_eqb a b = true <-> a = b.
Proof.
  induction a as [|x a IH]; destruct b as [|y b]; simpl; split; intro H;
    try reflexivity; try discriminate.
  - apply andb_true_iff in H. destruct H as [H1 H2].
    apply Z.eqb_eq in H1. apply IH in H2. now subst.
  - inversion H; subst. now rewrite Z.eqb_refl, str_eqb_refl.
Qed.

Lemma str_eqb_neq : forall a b, str_eqb a b = false <-> a <> b.
Proof.
  intros a b. split.
  - intros H E. apply str_eqb_eq in E. congruence.
  - intro H. destruct (str_eqb a b) eqn:E; [|reflexivity].
    apply str_eqb_eq in E. contradiction.
Qed.

(** Lists of units are compared after reassociating their appends. *)
Ltac list_norm :=
  unfold dq; cbn;
  repeat (progress (rewrite <- ?app_assoc; cbn));
  try reflexivity.

Lemma bind_Ok : forall A B (a : A) (k : A -> result B), bind (Ok a) k = k a.
Proof. reflexivity. Qed.

(** *** Decimal digits and the indices of an array *)

Local Open Scope Z_scope.

Definition is_digit (c : Z) : bool := between 48 57 c.

Lemma parseDigits_snoc : forall l c acc,
  forallb is_digit l = true -> is_digit c = true ->
  parseDigits 10 (l ++ [c]) acc =
  match parseDigits 10 l acc with
  | Some a => Some (a * 10 + (c - 48))
  | None => Some (c - 48)
  end.
Proof.
  induction l as [|x l IH]; intros c acc Hl Hc.
  - cbn [app parseDigits]. unfold digitVal. unfold is_digit in Hc. rewrite Hc.
    assert (E : (c - 48 <? 10) = true).
    { unfold between in Hc. apply andb_true_iff in Hc.
      rewrite !Z.leb_le in Hc. apply Z.ltb_lt. lia. }
    rewrite E. now destruct acc.
  - cbn [forallb] in Hl. apply andb_true_iff in Hl. destruct Hl as [Hx Hl].
    cbn [app parseDigits]. unfold digitVal. unfold is_digit in Hx. rewrite Hx.
    assert (E : (x - 48 <? 10) = true).
    { unfold between in Hx. apply andb_true_iff in Hx.
      rewrite !Z.leb_le in Hx. apply Z.ltb_lt. lia. }
    rewrite E. now apply IH.
Qed.

Lemma is_digit_of_nat : forall k, (k < 10)%nat -> is_digit (48 + Z.of_nat k) = true.
Proof.
  intros k H. unfold is_digit, between. apply andb_true_iff.
  rewrite !Z.leb_le. lia.
Qed.

(** The decimal digits of a number, read back. *)
Lemma parseDigits_dec : forall f n,
  (n < f)%nat ->
  forallb is_digit (dec_digits f n) = true
  /\ dec_digits f n <> []
  /\ parseDigits 10 (dec_digits f n) None = Some (Z.of_nat n).
Proof.
  induction f as [|f IH]; intros n Hn; [lia|].
  cbn [dec_digits]. destruct (Nat.ltb n 10) eqn:E.
  - apply Nat.ltb_lt in E. split; [|split; [discriminate|]].
    + cbn [forallb]. now rewrite is_digit_of_nat.
    + cbn [parseDigits]. unfold digitVal.
      pose proof (is_digit_of_nat n E) as Hd. unfold is_digit in Hd.
      rewrite Hd.
      assert (E1 : (48 + Z.of_nat n - 48 <? 10) = true) by (apply Z.ltb_lt; lia).
      rewrite E1. cbn [parseDigits]. f_equal. lia.
  - apply Nat.ltb_ge in E.
    assert (Hq : (Nat.div n 10 < f)%nat).
    { pose proof (Nat.div_lt n 10). lia. }
    assert (Hr : (Nat.modulo n 10 < 10)%nat) by (apply Nat.mod_upper_bound; lia).
    destruct (IH _ Hq) as (Hd & Hne & Hp).
    split; [|split].
    + rewrite forallb_app, Hd. cbn [forallb]. now rewrite is_digit_of_nat.
    + intro H. apply app_eq_nil in H. destruct H as [_ H]. discriminate H.
    + rewrite parseDigits_snoc by (assumption || now apply is_digit_of_nat).
      rewrite Hp. f_equal.
      pose proof (Nat.div_mod_eq n 10). lia.
Qed.

(** The index of an array begins with a digit; the names that [simplify]
    looks for do not. *)
Lemma index_key_head : forall i,
  exists d ds, index_key i = d :: ds /\ is_digit d = true.
Proof.
  intro i. unfold index_key.
  destruct (parseDigits_dec (S i) i (Nat.lt_succ_diag_r i)) as (Hd & Hne & _).
  destruct (dec_digits (S i) i) as [|d ds]; [contradiction|].
  cbn [forallb] in Hd. apply andb_true_iff in Hd. exists d, ds. tauto.
Qed.

Lemma get_indexed_name : forall A (f : A -> value) l i k,
  match k with c :: _ => is_digit c | [] => false end = false ->
  get (indexed f i l) k = VUndefined.
Proof.
  intros A f l. induction l as [|x l IH]; intros i k Hk; [reflexivity|].
  cbn [indexed get]. destruct (index_key_head i) as (d & ds & -> & Hd).
  destruct k as [|c k]; [now apply IH|].
  cbn [str_eqb]. destruct (Z.eqb_spec d c) as [->|_]; [congruence|].
  cbn [andb]. now apply IH.
Qed.

Local Close Scope Z_scope.

(** ** The text before the first [<] *)

Lemma indexOf_LT_prefix : forall p x,
  ~ In LT p ->
  indexOf [LT] (p ++ x) =
  match indexOf [LT] x with
  | Some (b, r) => Some (p ++ b, r)
  | None => None
  end.
Proof.
  induction p as [|c p IH]; intros x Hp.
  - simpl. now destruct (indexOf [LT] x) as [[b r]|].
  - assert (Hc : (LT =? c)%Z = false).
    { apply Z.eqb_neq. intro E. apply Hp. now left. }
    cbn [app indexOf starts]. rewrite Hc. cbn [andb].
    rewrite IH by (intro H; apply Hp; now right).
    now destruct (indexOf [LT] x) as [[b r]|].
Qed.

Lemma indexOf_LT_none : forall s, ~ In LT s -> indexOf [LT] s = None.
Proof.
  intros s Hs. pose proof (indexOf_LT_prefix s [] Hs) as H.
  rewrite app_nil_r in H. exact H.
Qed.

(** ** Ampersands and entities *)

Lemma span_no_semi : forall v,
  ~ In SEMI v -> span (fun c => negb (c =? SEMI)%Z) v = (v, []).
Proof.
  induction v as [|c v IH]; intro H; simpl; [reflexivity|].
  assert (Hc : (c =? SEMI)%Z = false).
  { apply Z.eqb_neq. intro E. apply H. now left. }
  rewrite Hc. simpl. rewrite IH by (intro; apply H; now right). reflexivity.
Qed.

Lemma entityAt_no_semi : forall v, ~ In SEMI v -> entityAt v = None.
Proof.
  intros v H. unfold entityAt. rewrite span_no_semi by assumption.
  now destruct v.
Qed.

Lemma clean_from_no_semi : forall v, ~ In SEMI v -> clean_from 0 v = Ok v.
Proof.
  induction v as [|c v IH]; intro H; [reflexivity|].
  cbn [clean_from]. rewrite entityAt_no_semi by (intro; apply H; now right).
  rewrite IH by (intro; apply H; now right).
  now destruct (c =? AMP)%Z.
Qed.

Lemma span_semi_app : forall u w,
  span (fun c => negb (c =? SEMI)%Z) (u ++ w) =
  match span (fun c => negb (c =? SEMI)%Z) u with
  | (e, []) => let (e', a) := span (fun c => negb (c =? SEMI)%Z) w in (e ++ e', a)
  | (e, a) => (e, a ++ w)
  end.
Proof.
  induction u as [|c u IH]; intro w; simpl.
  - now destruct (span _ w).
  - destruct (negb (c =? SEMI)%Z); [|reflexivity].
    rewrite IH. destruct (span _ u) as [e [|x a]].
    + now destruct (span _ w).
    + reflexivity.
Qed.

(** An ampersand with no semicolon after it does not extend or create a
    match before it. *)
Lemma entityAt_app_amp : forall u v,
  ~ In SEMI v -> entityAt (u ++ AMP :: v) = entityAt u.
Proof.
  intros u v H. unfold entityAt. rewrite span_semi_app.
  destruct (span _ u) as [e [|x a]].
  - change (AMP :: v) with ([AMP] ++ v).
    simpl. rewrite span_no_semi by assumption.
    destruct e; simpl; reflexivity.
  - reflexivity.
Qed.

Lemma span_length : forall p s w r,
  span p s = (w, r) -> s = w ++ r.
Proof.
  induction s as [|c s IH]; intros w r H; simpl in H.
  - now inversion H.
  - destruct (p c).
    + destruct (span p s) as [w' r'] eqn:E. inversion H; subst.
      simpl. f_equal. now apply IH.
    + now inversion H.
Qed.

Lemma entityAt_length : forall u ent,
  entityAt u = Some ent -> (S (List.length ent) <= List.length u)%nat.
Proof.
  intros u ent H. unfold entityAt in H.
  destruct (span _ u) as [e a] eqn:E.
  apply span_length in E. subst u.
  destruct e; [discriminate|]. destruct a; [discriminate|].
  inversion H; subst. rewrite length_app. simpl. lia.
Qed.

Lemma clean_from_app_amp : forall v, ~ In SEMI v ->
  forall u k, (k <= List.length u)%nat ->
  clean_from k (u ++ AMP :: v) =
  (r <- clean_from k u ;; Ok (r ++ AMP :: v)).
Proof.
  intros v Hv. induction u as [|c u IH]; intros k Hk.
  - simpl in Hk. assert (k = 0)%nat by lia. subst k.
    cbn [app]. rewrite clean_from_no_semi.
    + reflexivity.
    + intros [E|E]; [discriminate E | contradiction].
  - cbn [app clean_from]. destruct k as [|k].
    + rewrite entityAt_app_amp by assumption.
      destruct (if (c =? AMP)%Z then entityAt u else None) as [ent|] eqn:E.
      * destruct (entity ent) as [r| | |]; cbn [bind]; try reflexivity.
        assert (Hl : (S (List.length ent) <= List.length u)%nat).
        { destruct (c =? AMP)%Z; [|discriminate]. now apply entityAt_length. }
        rewrite IH by exact Hl.
        destruct (clean_from (S (List.length ent)) u); cbn [bind]; try reflexivity.
        now rewrite app_assoc.
      * rewrite IH by lia. destruct (clean_from 0 u); reflexivity.
    + apply IH. simpl in Hk. lia.
Qed.

(** C10. An ampersand with no semicolon after it in the text that [clean]
    receives is left as it is, with everything that follows it, and raises
    no error: only the text before it is decoded.  So [<a>a & b</a>] parses
    to the string [a & b]. *)
Theorem clean_keeps_unterminated_ampersand (u v : jstring)
  (Hv : ~ In SEMI v) :
  clean (u ++ AMP :: v) = (r <- clean u ;; Ok (r ++ AMP :: v))
  /\ clean (AMP :: v) = Ok (AMP :: v)
  /\ parse (js "<a>a & b</a>") = Ok (VObj [(js "a", VStr (js "a & b"))]).
Proof.
  split; [|split].
  - unfold clean. apply clean_from_app_amp; [assumption | lia].
  - unfold clean. apply clean_from_no_semi.
    intros [E|E]; [discriminate E | contradiction].
  - vm_compute. reflexivity.
Qed.

Lemma clean_keeps_unterminated_ampersand_witness :
  ~ In SEMI (js " b") /\
  clean (js "x&lt;y " ++ AMP :: js " b") =
  (r <- clean (js "x&lt;y ") ;; Ok (r ++ AMP :: js " b")).
Proof.
  assert (H : ~ In SEMI (js " b")).
  { cbv. intros H. repeat (destruct H as [H|H]; [discriminate H|]). exact H. }
  split; [exact H|].
  exact (proj1 (clean_keeps_unterminated_ampersand (js "x&lt;y ") (js " b") H)).
Defined.

(** C3. Shape collapse at [parse]: a self-closing tag without attributes is
    an empty object, a closed tag with (empty) text and no attribute is the
    bare string, and attributes force the object form, with [$value] when
    the tag is closed. *)
Theorem parse_shape_collapse :
  parse (js "<a/>") = Ok (VObj [(js "a", VObj [])])
  /\ parse (js "<a></a>") = Ok (VObj [(js "a", VStr [])])
  /\ parse (js "<a x=" ++ dq (js "3") ++ js "/>") =
     Ok (VObj [(js "a", VObj [(js "$", VObj [(js "x", VStr (js "3"))])])])
  /\ parse (js "<a x=" ++ dq (js "3") ++ js "></a>") =
     Ok (VObj [(js "a", VObj [(js "$", VObj [(js "x", VStr (js "3"))]);
                              (js "$value", VStr [])])]).
Proof. repeat split; vm_compute; reflexivity. Qed.

(** ** The escaping policy *)

Local Open Scope Z_scope.

(** The policy in the words of the specification: the five special
    characters, the units that are written as they are, and the shape of a
    numeric escape. *)
Definition special (c : Z) : bool :=
  (c =? 38) || (c =? 60) || (c =? 62) || (c =? 34) || (c =? 39).

Definition safe_range (c : Z) : bool :=
  between 32 126 c || between 161 55295 c || between 57344 65533 c.

Definition lowerHex (c : Z) : bool := between 48 57 c || between 97 102 c.

Definition hexValue (h : jstring) : Z :=
  fold_left (fun a c => a * 16 + (if c <=? 57 then c - 48 else c - 87)) h 0.

Inductive escaped_as (c : Z) : jstring -> Prop :=
| esc_amp : c = 38 -> escaped_as c (js "&amp;")
| esc_lt : c = 60 -> escaped_as c (js "&lt;")
| esc_gt : c = 62 -> escaped_as c (js "&gt;")
| esc_quot : c = 34 -> escaped_as c (js "&quot;")
| esc_apos : c = 39 -> escaped_as c (js "&apos;")
| esc_verbatim : special c = false -> safe_range c = true -> escaped_as c [c]
| esc_numeric : forall h,
    special c = false -> safe_range c = false ->
    forallb lowerHex h = true ->
    hexValue h = c ->
    List.length h = (if c <? 256 then 2%nat else 4%nat) ->
    escaped_as c (js "&#x" ++ h ++ js ";").

Definition escapeUnit (ch : Z) : jstring :=
  if unsafe ch then escapeChar ch else [ch].

Lemma hexDigit_lower : forall d, 0 <= d < 16 -> lowerHex (hexDigit d) = true.
Proof.
  intros d H. unfold lowerHex, hexDigit, between.
  destruct (d <? 10) eqn:E; [apply Z.ltb_lt in E | apply Z.ltb_ge in E].
  - apply orb_true_iff. left. apply andb_true_iff. split; apply Z.leb_le; lia.
  - apply orb_true_iff. right. apply andb_true_iff. split; apply Z.leb_le; lia.
Qed.

Lemma hexDigit_value : forall d, 0 <= d < 16 ->
  (if hexDigit d <=? 57 then hexDigit d - 48 else hexDigit d - 87) = d.
Proof.
  intros d H. unfold hexDigit.
  destruct (d <? 10) eqn:E; [apply Z.ltb_lt in E | apply Z.ltb_ge in E].
  - replace (48 + d <=? 57) with true by (symmetry; apply Z.leb_le; lia). lia.
  - replace (87 + d <=? 57) with false by (symmetry; apply Z.leb_gt; lia). lia.
Qed.

(** The padded hexadecimal digits of a code unit. *)
Definition paddedHex (c : Z) : jstring :=
  padWhile 4 (fun n => Nat.ltb 2 n && Nat.ltb n 4)
    (padWhile 4 (fun n => Nat.ltb n 2) (toString16 c)).

Ltac dlia := Z.div_mod_to_equations; lia.

Lemma paddedHex_spec : forall c, 0 <= c < 65536 ->
  forallb lowerHex (paddedHex c) = true
  /\ hexValue (paddedHex c) = c
  /\ List.length (paddedHex c) = (if c <? 256 then 2%nat else 4%nat).
Proof.
  intros c Hc.
  assert (D0 := hexDigit_lower). assert (V0 := hexDigit_value).
  assert (Z0 : lowerHex 48 = true) by reflexivity.
  unfold paddedHex, toString16. cbn [toHex].
  destruct (c <? 16) eqn:E1; [apply Z.ltb_lt in E1 | apply Z.ltb_ge in E1].
  { replace (c <? 256) with true by (symmetry; apply Z.ltb_lt; dlia).
    cbn. rewrite D0 by dlia. rewrite V0 by dlia. auto. }
  destruct (c / 16 <? 16) eqn:E2; [apply Z.ltb_lt in E2 | apply Z.ltb_ge in E2].
  { replace (c <? 256) with true by (symmetry; apply Z.ltb_lt; dlia).
    cbn. rewrite !D0 by dlia. rewrite !V0 by dlia. repeat split; dlia. }
  replace (c <? 256) with false by (symmetry; apply Z.ltb_ge; dlia).
  destruct (c / 16 / 16 <? 16) eqn:E3;
    [apply Z.ltb_lt in E3 | apply Z.ltb_ge in E3].
  { cbn. rewrite !D0 by dlia. rewrite !V0 by dlia. repeat split; dlia. }
  assert (c / 16 / 16 / 16 < 16) by dlia.
  replace (c / 16 / 16 / 16 <? 16) with true by (symmetry; apply Z.ltb_lt; dlia).
  cbn. rewrite !D0 by dlia. rewrite !V0 by dlia. repeat split; dlia.
Qed.

Lemma escapeUnit_policy : forall c, is_unit c = true ->
  escaped_as c (escapeUnit c).
Proof.
  intros c Hc. unfold is_unit in Hc. apply andb_true_iff in Hc.
  destruct Hc as [H0 H1]. apply Z.leb_le in H0. apply Z.ltb_lt in H1.
  unfold escapeUnit, unsafe. fold (special c). fold (safe_range c).
  destruct (special c) eqn:Es.
  - cbn [orb]. unfold special in Es.
    repeat (apply orb_true_iff in Es; destruct Es as [Es|Es]);
      apply Z.eqb_eq in Es; subst c; cbn.
    + now apply esc_amp.
    + now apply esc_lt.
    + now apply esc_gt.
    + now apply esc_quot.
    + now apply esc_apos.
  - cbn [orb]. destruct (safe_range c) eqn:Er; cbn [negb].
    + now apply esc_verbatim.
    + unfold escapeChar.
      assert (Hn : byChar entitiesByChar c = None).
      { unfold special in Es. repeat (apply orb_false_iff in Es; destruct Es as [Es ?]).
        unfold entitiesByChar. cbn [byChar]. unfold AMP, LT, GT, DQUOTE, APOS.
        repeat match goal with H : (c =? ?k) = false |- _ =>
          rewrite (Z.eqb_sym c k) in H; rewrite H; clear H end.
        reflexivity. }
      rewrite Hn. fold (paddedHex c).
      destruct (paddedHex_spec c (conj H0 H1)) as (P1 & P2 & P3).
      change [SEMI] with (js ";"). now apply esc_numeric.
Qed.

(** C5. Every string that [stringify] writes, as the text of an element or
    as the value of an attribute, goes through [escape], which rewrites it
    unit by unit: the five special characters become their named entities,
    the other units of the ranges 0x20-0x7e, 0xa1-0xd7ff and 0xe000-0xfffd
    are written as they are, and every other unit becomes [&#x..;] with
    lower-case hexadecimal digits of its value, two of them below 0x100 and
    four from there on. *)
Theorem escape_policy (s : jstring) (Hs : is_jstring s = true) :
  (exists pieces, escape (VStr s) = concat pieces /\ Forall2 escaped_as s pieces)
  /\ (forall tag, stringify (VObj [(tag, VStr s)]) =
        Ok (js "<" ++ tag ++ js ">" ++ escape (VStr s) ++ js "</" ++ tag ++ js ">"))
  /\ (forall tag atb,
        stringify (VObj [(tag, VObj [(js "$", VObj [(atb, VStr s)])])]) =
        Ok (js "<" ++ tag ++ js " " ++ atb ++ js "=" ++ dq (escape (VStr s)) ++ js "/>")).
Proof.
  split; [|split].
  - exists (map escapeUnit s). split.
    + cbn [escape]. now rewrite flat_map_concat_map.
    + unfold is_jstring in Hs. rewrite forallb_forall in Hs.
      induction s as [|c s IH]; cbn [map]; constructor.
      * apply escapeUnit_policy. apply Hs. now left.
      * apply IH. intros x Hx. apply Hs. now right.
  - intro tag. list_norm.
  - intros tag atb. list_norm.
Qed.

Lemma escape_policy_witness :
  is_jstring [97; 60; 9; 233; 55357] = true /\
  exists pieces,
    escape (VStr [97; 60; 9; 233; 55357]) = concat pieces /\
    Forall2 escaped_as [97; 60; 9; 233; 55357] pieces.
Proof.
  split; [reflexivity|].
  exact (proj1 (escape_policy [97; 60; 9; 233; 55357] eq_refl)).
Defined.

Local Close Scope Z_scope.

(** ** The scanner consumes its input *)

Lemma length_span : forall p s w r,
  span p s = (w, r) -> (List.length r <= List.length s)%nat.
Proof.
  intros p s w r H. apply span_length in H. subst s.
  rewrite length_app. lia.
Qed.

Lemma length_eatSpaces : forall s,
  (List.length (eatSpaces s) <= List.length s)%nat.
Proof.
  intro s. unfold eatSpaces. destruct (span space s) as [w r] eqn:E.
  simpl. eapply length_span; eauto.
Qed.

Lemma length_eat : forall c s r,
  eat c s = Ok r -> List.length s = S (List.length r).
Proof.
  intros c [|x s] r H; simpl in H; [discriminate|].
  destruct (x =? c)%Z; [|discriminate]. now inversion H.
Qed.

Lemma length_eatQuote : forall s q r,
  eatQuote s = Ok (q, r) -> List.length s = S (List.length r).
Proof.
  intros [|x s] q r H; simpl in H; [discriminate|].
  destruct ((x =? DQUOTE)%Z || (x =? APOS)%Z); [|discriminate].
  now inversion H.
Qed.

Lemma indexOf_split : forall pat s b r,
  indexOf pat s = Some (b, r) -> s = b ++ r /\ starts pat r = true.
Proof.
  intros pat. induction s as [|c s IH]; intros b r H.
  - simpl in H. destruct (starts pat []) eqn:E; [|discriminate].
    inversion H; subst. auto.
  - cbn [indexOf] in H. destruct (starts pat (c :: s)) eqn:E.
    + inversion H; subst. auto.
    + destruct (indexOf pat s) as [[b' r']|] eqn:E'; [|discriminate].
      inversion H; subst. destruct (IH _ _ eq_refl) as [-> Hs].
      auto.
Qed.

Lemma length_indexOf : forall pat s b r,
  indexOf pat s = Some (b, r) -> (List.length r <= List.length s)%nat.
Proof.
  intros pat s b r H. apply indexOf_split in H. destruct H as [-> _].
  rewrite length_app. lia.
Qed.

Lemma length_skipn_le : forall n (s : jstring),
  (List.length (skipn n s) <= List.length s)%nat.
Proof. intros. rewrite length_skipn. lia. Qed.

Lemma content_shrinks : forall fuel inp val bld inp' bld',
  content fuel inp val bld = Ok (inp', bld') ->
  (List.length inp' <= List.length inp)%nat.
Proof.
  induction fuel as [|fuel IH]; intros inp val bld inp' bld' H;
    [discriminate|].
  cbn [content] in H.
  destruct (indexOf [LT] inp) as [[text at_j]|] eqn:Ei; [|discriminate].
  pose proof (length_indexOf _ _ _ _ Ei) as L1.
  destruct (starts (js "<!--") at_j).
  - destruct (clean text); try discriminate. cbn [bind] in H.
    destruct (indexOf (js "-->") (skipn 4 at_j)) as [[c at_j']|] eqn:Ec;
      [|discriminate].
    apply IH in H. pose proof (length_indexOf _ _ _ _ Ec) as L2.
    pose proof (length_skipn_le 3 at_j'). pose proof (length_skipn_le 4 at_j).
    lia.
  - destruct (clean text); try discriminate. cbn [bind] in H.
    destruct (starts [LT; SLASH] at_j).
    + destruct (Builder.value _ bld); try discriminate.
      inversion H; subst. exact L1.
    + destruct (checkEmpty _); try discriminate. inversion H; subst. lia.
Qed.

(** A turn of the tag loop that reads an attribute leaves less input. *)
Lemma tagLoop_shrinks : forall fuel inp bld inp' bld',
  tagLoop fuel inp bld = Ok (inp', bld') ->
  (List.length inp' < List.length inp)%nat.
Proof.
  induction fuel as [|fuel IH]; intros inp bld inp' bld' H; [discriminate|].
  cbn [tagLoop] in H. pose proof (length_eatSpaces inp) as L0.
  destruct (eatSpaces inp) as [|ch rest]; [discriminate|]. simpl in L0.
  destruct (ch =? SLASH)%Z.
  { destruct (eat GT rest) as [r| | |] eqn:E1; try discriminate. cbn [bind] in H.
    destruct (Builder.pop None bld); try discriminate. inversion H; subst.
    apply length_eat in E1. lia. }
  destruct (begWord ch).
  { destruct (span inWord rest) as [w rest1] eqn:E1.
    pose proof (length_span _ _ _ _ E1) as L1.
    pose proof (length_eatSpaces rest1) as L2.
    destruct (eat EQ (eatSpaces rest1)) as [rest2| | |] eqn:E2; try discriminate.
    cbn [bind] in H. apply length_eat in E2.
    pose proof (length_eatSpaces rest2) as L3.
    destruct (eatQuote (eatSpaces rest2)) as [[q rest3]| | |] eqn:E3;
      try discriminate.
    cbn [bind] in H. apply length_eatQuote in E3.
    destruct (indexOf [q] rest3) as [[raw at_q]|] eqn:E4; [|discriminate].
    pose proof (length_indexOf _ _ _ _ E4) as L4.
    destruct (clean raw); try discriminate. cbn [bind] in H.
    destruct (Builder.attribute _ _ bld); try discriminate. cbn [bind] in H.
    apply IH in H. pose proof (length_skipn_le 1 at_q). lia. }
  destruct (ch =? GT)%Z; [|discriminate].
  apply content_shrinks in H. lia.
Qed.

Lemma step_shrinks : forall inp bld inp' bld',
  step inp bld = Ok (inp', bld') ->
  (List.length inp' < List.length inp)%nat.
Proof.
  intros inp bld inp' bld' H. unfold step in H.
  destruct (eat LT inp) as [rest| | |] eqn:E0; try discriminate.
  cbn [bind] in H. apply length_eat in E0.
  destruct rest as [|ch rest1]; [discriminate|]. simpl in E0.
  destruct (begWord ch).
  { destruct (span inWord rest1) as [w rest2] eqn:E1.
    pose proof (length_span _ _ _ _ E1).
    destruct (Builder.push _ bld); try discriminate. cbn [bind] in H.
    apply tagLoop_shrinks in H. lia. }
  destruct (ch =? SLASH)%Z.
  { assert (exists tag rest2,
       (List.length rest2 <= List.length rest1)%nat /\
       (rest3 <- eat GT (eatSpaces rest2) ;;
        bld' <- Builder.pop tag bld ;; Ok (rest3, bld')) = Ok (inp', bld'))
      as (tag & rest2 & L & H').
    { destruct rest1 as [|c rest1']; [now exists None, []|].
      destruct (begWord c).
      - destruct (span inWord rest1') as [w r] eqn:E1.
        exists (Some (c :: w)), r. split; [|exact H].
        apply length_span in E1. simpl. lia.
      - exists None, (c :: rest1'). split; [lia | exact H]. }
    pose proof (length_eatSpaces rest2).
    destruct (eat GT (eatSpaces rest2)) as [r3| | |] eqn:E2; try discriminate.
    cbn [bind] in H'. apply length_eat in E2.
    destruct (Builder.pop tag bld); try discriminate. inversion H'; subst. lia. }
  destruct (ch =? EXCLAM)%Z.
  { destruct (starts (js "--") rest1).
    - destruct (indexOf _ _) as [[c at_j]|] eqn:E1; [|discriminate].
      injection H as <- <-. apply length_indexOf in E1.
      pose proof (length_skipn_le 3 at_j). pose proof (length_skipn_le 2 rest1).
      change (List.length (skipn 3 at_j) < List.length inp)%nat. lia.
    - destruct (starts (js "[CDATA[") rest1); [|discriminate].
      destruct (indexOf _ _) as [[c at_j]|] eqn:E1; [|discriminate].
      apply length_indexOf in E1.
      destruct (Builder.cdata _ bld); try discriminate. injection H as <- <-.
      pose proof (length_eatSpaces (skipn 3 at_j)).
      pose proof (length_skipn_le 3 at_j). pose proof (length_skipn_le 7 rest1).
      change (List.length (eatSpaces (skipn 3 at_j)) < List.length inp)%nat.
      lia. }
  destruct (ch =? QMARK)%Z; [|discriminate].
  destruct (indexOf _ _) as [[c at_j]|] eqn:E1; [|discriminate].
  injection H as <- <-. apply length_indexOf in E1.
  pose proof (length_skipn_le 2 at_j).
  change (List.length (skipn 2 at_j) < List.length inp)%nat. lia.
Qed.

(** With enough fuel the loops do not depend on it. *)
Lemma tagLoop_fuel : forall f1 f2 inp bld,
  (List.length inp < f1)%nat -> (List.length inp < f2)%nat ->
  tagLoop f1 inp bld = tagLoop f2 inp bld.
Proof.
  induction f1 as [|f1 IH]; intros f2 inp bld H1 H2; [lia|].
  destruct f2 as [|f2]; [lia|]. cbn [tagLoop].
  pose proof (length_eatSpaces inp) as L0.
  destruct (eatSpaces inp) as [|ch rest]; [reflexivity|]. simpl in L0.
  destruct (ch =? SLASH)%Z; [reflexivity|].
  destruct (begWord ch); [|reflexivity].
  destruct (span inWord rest) as [w rest1] eqn:E1.
  pose proof (length_span _ _ _ _ E1) as L1.
  pose proof (length_eatSpaces rest1) as L2.
  destruct (eat EQ (eatSpaces rest1)) as [rest2| | |] eqn:E2; try reflexivity.
  cbn [bind]. apply length_eat in E2.
  pose proof (length_eatSpaces rest2) as L3.
  destruct (eatQuote (eatSpaces rest2)) as [[q rest3]| | |] eqn:E3;
    try reflexivity.
  cbn [bind]. apply length_eatQuote in E3.
  destruct (indexOf [q] rest3) as [[raw at_q]|] eqn:E4; [|reflexivity].
  pose proof (length_indexOf _ _ _ _ E4) as L4.
  destruct (clean raw); try reflexivity. cbn [bind].
  destruct (Builder.attribute _ _ bld); try reflexivity. cbn [bind].
  pose proof (length_skipn_le 1 at_q). apply IH; lia.
Qed.

Lemma mainLoop_fuel : forall f1 f2 inp bld,
  (List.length inp < f1)%nat -> (List.length inp < f2)%nat ->
  mainLoop f1 inp bld = mainLoop f2 inp bld.
Proof.
  induction f1 as [|f1 IH]; intros f2 inp bld H1 H2; [lia|].
  destruct f2 as [|f2]; [lia|]. cbn [mainLoop].
  destruct inp as [|c inp]; [reflexivity|].
  destruct (step (c :: inp) bld) as [[inp' bld']| | |] eqn:E; try reflexivity.
  cbn [bind]. apply step_shrinks in E.
  pose proof (length_eatSpaces inp'). apply IH; lia.
Qed.

(** The loops with the fuel that [parse] and [step] give them, and their
    unfolding equations. *)
Definition tagLoop' (inp : jstring) (bld : builder) :=
  tagLoop (S (List.length inp)) inp bld.

Definition mainLoop' (inp : jstring) (bld : builder) :=
  mainLoop (S (List.length inp)) inp bld.

Lemma mainLoop'_nil : forall bld, mainLoop' [] bld = Ok bld.
Proof. reflexivity. Qed.

Lemma mainLoop'_step : forall inp bld,
  inp <> [] ->
  mainLoop' inp bld =
  ('(inp', bld') <- step inp bld ;; mainLoop' (eatSpaces inp') bld').
Proof.
  intros inp bld Hne. unfold mainLoop' at 1. cbn [mainLoop].
  destruct inp as [|c inp]; [contradiction|].
  destruct (step (c :: inp) bld) as [[inp' bld']| | |] eqn:E; try reflexivity.
  cbn [bind]. apply step_shrinks in E.
  pose proof (length_eatSpaces inp'). apply mainLoop_fuel; simpl in *; lia.
Qed.

(** ** Documents and their shape *)

(** An element as the scanner reads it: a self-closing tag, a tag with
    text, a tag with a CDATA section, or a tag with child elements in
    document order.  Attribute values and text are the decoded strings. *)
Inductive xml : Type :=
| XEmpty (tag : jstring) (attrs : list (jstring * jstring))
| XText (tag : jstring) (attrs : list (jstring * jstring)) (text : jstring)
| XCData (tag : jstring) (attrs : list (jstring * jstring)) (data : jstring)
| XNode (tag : jstring) (attrs : list (jstring * jstring))
        (children : list xml).

Definition xtag (x : xml) : jstring :=
  match x with
  | XEmpty t _ | XText t _ _ | XCData t _ _ | XNode t _ _ => t
  end.

Definition xattrs (x : xml) : list (jstring * jstring) :=
  match x with
  | XEmpty _ a | XText _ a _ | XCData _ a _ | XNode _ a _ => a
  end.

(** The calls that [parse] makes on the builder for an element. *)
Fixpoint feedAttrs (attrs : list (jstring * jstring)) (b : builder)
  : result builder :=
  match attrs with
  | [] => Ok b
  | (atb, v) :: attrs' =>
      b' <- Builder.attribute atb (VStr v) b ;; feedAttrs attrs' b'
  end.

Fixpoint feed (x : xml) (b : builder) : result builder :=
  match x with
  | XEmpty tag attrs =>
      b <- Builder.push tag b ;;
      b <- feedAttrs attrs b ;;
      Builder.pop None b
  | XText tag attrs text =>
      b <- Builder.push tag b ;;
      b <- feedAttrs attrs b ;;
      b <- Builder.value (VStr text) b ;;
      Builder.pop (Some tag) b
  | XCData tag attrs data =>
      b <- Builder.push tag b ;;
      b <- feedAttrs attrs b ;;
      b <- Builder.cdata (VStr data) b ;;
      Builder.pop (Some tag) b
  | XNode tag attrs cs =>
      b <- Builder.push tag b ;;
      b <- feedAttrs attrs b ;;
      b <- (fix feedAll (cs : list xml) (b : builder) : result builder :=
              match cs with
              | [] => Ok b
              | c :: cs' => b' <- feed c b ;; feedAll cs' b'
              end) cs b ;;
      Builder.pop (Some tag) b
  end.

Fixpoint feedAll (cs : list xml) (b : builder) : result builder :=
  match cs with
  | [] => Ok b
  | c :: cs' => b' <- feed c b ;; feedAll cs' b'
  end.

(** The shape rules in the words of the specification.  The values that a
    tag name has under one parent, in document order, become [slot] of
    them: the bare value for one occurrence, the sequence for two or
    more. *)
Definition occurrences (k : jstring) (kvs : list (jstring * value))
  : list value :=
  map snd (filter (fun kv => str_eqb (fst kv) k) kvs).

Definition slot (vs : list value) : value :=
  match vs with
  | [] => VUndefined
  | [v] => v
  | _ => VArr vs
  end.

(** The names of a list, each at its first occurrence. *)
Fixpoint distinct (ks : list jstring) : list jstring :=
  match ks with
  | [] => []
  | k :: ks' => k :: filter (fun k' => negb (str_eqb k k')) (distinct ks')
  end.

Definition group (kvs : list (jstring * value)) : object :=
  map (fun k => (k, slot (occurrences k kvs))) (distinct (map fst kvs)).

Definition attrsV (attrs : list (jstring * jstring)) : object :=
  match attrs with
  | [] => []
  | _ => [(js "$", VObj (map (fun av => (fst av, VStr (snd av))) attrs))]
  end.

Fixpoint shape (x : xml) : value :=
  match x with
  | XEmpty _ attrs => VObj (attrsV attrs)
  | XText _ attrs text =>
      match attrs with
      | [] => VStr text
      | _ => VObj (attrsV attrs ++ [(js "$value", VStr text)])
      end
  | XCData _ attrs data => VObj (attrsV attrs ++ [(js "$cdata", VStr data)])
  | XNode _ attrs cs =>
      VObj (attrsV attrs ++ group (map (fun c => (xtag c, shape c)) cs))
  end.

(** What the builder needs of a document: tag names that are not empty and
    do not begin with a dollar, and no attribute twice on a tag. *)
Fixpoint nodupb (ks : list jstring) : bool :=
  match ks with
  | [] => true
  | k :: ks' => negb (existsb (str_eqb k) ks') && nodupb ks'
  end.

Definition key_ok (k : jstring) : bool := negb (is_empty k) && negb (is_dollar k).

(** The names of an element are no names of [Object.prototype]: neither
    its tag nor any of its attributes. *)
Definition own_names (x : xml) : bool :=
  negb (inherited (xtag x))
  && forallb (fun av => negb (inherited (fst av))) (xattrs x).

Fixpoint wf_events (x : xml) : bool :=
  key_ok (xtag x) && (nodupb (map fst (xattrs x)) && own_names x)
  && match x with
     | XNode _ _ cs => forallb wf_events cs
     | _ => true
     end.

(** A stronger induction principle for documents. *)
Fixpoint xml_rect' (P : xml -> Prop)
  (HE : forall t a, P (XEmpty t a))
  (HT : forall t a s, P (XText t a s))
  (HC : forall t a s, P (XCData t a s))
  (HN : forall t a cs, Forall P cs -> P (XNode t a cs))
  (x : xml) {struct x} : P x :=
  match x with
  | XEmpty t a => HE t a
  | XText t a s => HT t a s
  | XCData t a s => HC t a s
  | XNode t a cs =>
      HN t a cs
        ((fix all (cs : list xml) : Forall P cs :=
            match cs with
            | [] => Forall_nil P
            | c :: cs' => Forall_cons c (xml_rect' P HE HT HC HN c) (all cs')
            end) cs)
  end.

(** *** Objects as lists of properties *)

Lemma get_absent : forall o k, ~ In k (map fst o) -> get o k = VUndefined.
Proof.
  induction o as [|[k' v] o IH]; intros k H; [reflexivity|].
  cbn [get]. destruct (str_eqb k' k) eqn:E.
  - apply str_eqb_eq in E. subst. exfalso. apply H. now left.
  - apply IH. intro. apply H. now right.
Qed.

Lemma set_absent : forall o k v,
  ~ In k (map fst o) -> set o k v = o ++ [(k, v)].
Proof.
  induction o as [|[k' v'] o IH]; intros k v H; [reflexivity|].
  cbn [set app]. destruct (str_eqb k' k) eqn:E.
  - apply str_eqb_eq in E. subst. exfalso. apply H. now left.
  - f_equal. apply IH. intro. apply H. now right.
Qed.

Lemma get_set_same : forall o k v, get (set o k v) k = v.
Proof.
  induction o as [|[k' v'] o IH]; intros k v; cbn [set get].
  - now rewrite str_eqb_refl.
  - destruct (str_eqb k' k) eqn:E; cbn [get].
    + now rewrite str_eqb_refl.
    + rewrite E. apply IH.
Qed.

Lemma get_set_other : forall o k v k',
  k <> k' -> get (set o k v) k' = get o k'.
Proof.
  induction o as [|[k0 v0] o IH]; intros k v k' H; cbn [set get].
  - apply str_eqb_neq in H. now rewrite H.
  - destruct (str_eqb k0 k) eqn:E; cbn [get].
    + apply str_eqb_eq in E. subst k0.
      apply str_eqb_neq in H. now rewrite H.
    + destruct (str_eqb k0 k'); [reflexivity|]. now apply IH.
Qed.

Lemma set_set : forall o k v v', set (set o k v) k v' = set o k v'.
Proof.
  induction o as [|[k0 v0] o IH]; intros k v v'; cbn [set].
  - now rewrite str_eqb_refl.
  - destruct (str_eqb k0 k) eqn:E; cbn [set].
    + now rewrite str_eqb_refl.
    + rewrite E. f_equal. apply IH.
Qed.

Lemma get_app_r : forall base o k,
  ~ In k (map fst base) -> get (base ++ o) k = get o k.
Proof.
  induction base as [|[k' v] base IH]; intros o k H; [reflexivity|].
  cbn [app get]. destruct (str_eqb k' k) eqn:E.
  - apply str_eqb_eq in E. subst. exfalso. apply H. now left.
  - apply IH. intro. apply H. now right.
Qed.

Lemma set_app_r : forall base o k v,
  ~ In k (map fst base) -> set (base ++ o) k v = base ++ set o k v.
Proof.
  induction base as [|[k' v'] base IH]; intros o k v H; [reflexivity|].
  cbn [app set]. destruct (str_eqb k' k) eqn:E.
  - apply str_eqb_eq in E. subst. exfalso. apply H. now left.
  - f_equal. apply IH. intro. apply H. now right.
Qed.

Lemma set_index_last : forall l x v,
  set_index (l ++ [x]) (List.length l) v = l ++ [v].
Proof.
  induction l as [|y l IH]; intros x v; [reflexivity|].
  cbn [app List.length set_index]. f_equal. apply IH.
Qed.

Lemma existsb_str_eqb : forall k ks, existsb (str_eqb k) ks = true <-> In k ks.
Proof.
  intros k ks. rewrite existsb_exists. split.
  - intros (x & Hx & E). apply str_eqb_eq in E. now subst.
  - intro H. exists k. split; [assumption | apply str_eqb_refl].
Qed.

Lemma nodupb_NoDup : forall ks, nodupb ks = true -> NoDup ks.
Proof.
  induction ks as [|k ks IH]; intro H; [constructor|].
  cbn [nodupb] in H. apply andb_true_iff in H. destruct H as [H1 H2].
  constructor; [|now apply IH].
  intro Hin. apply existsb_str_eqb in Hin. rewrite Hin in H1. discriminate.
Qed.

(** *** What a finished child does to its parent *)

(** The property [tag] of the parent receives the child [v]: alone the
    first time, in a sequence from the second time on. *)
Definition insert (o : object) (tag : jstring) (v : value) : object :=
  let old := get o tag in
  if nonnull old then
    set o tag (VArr (match old with VArr l => l | _ => [old] end ++ [v]))
  else set o tag v.

Definition add_child (e : Element) (tag : jstring) (v : value) : Element :=
  mkElement (e_tag e) (e_index e) (S (e_childCount e))
            (insert (e_props e) tag v).

(** The value that [pop] leaves in the parent for an element with the
    properties [cp]. *)
Definition finished (cp : object) : value :=
  if defined (get cp (js "$value")) && negb (truthy (get cp (js "$")))
  then get cp (js "$value")
  else VObj cp.

(** The element can take children: it has neither CDATA nor a value. *)
Definition accepting (e : Element) : Prop :=
  nonnull (get (e_props e) (js "$cdata")) = false
  /\ nonnull (get (e_props e) (js "$value")) = false.

Definition is_node (v : value) : bool :=
  match v with VStr _ | VObj _ => true | _ => false end.

Lemma occurrences_snoc : forall k kvs k' v,
  occurrences k (kvs ++ [(k', v)]) =
  occurrences k kvs ++ (if str_eqb k' k then [v] else []).
Proof.
  intros. unfold occurrences. rewrite filter_app, map_app. cbn [filter fst].
  now destruct (str_eqb k' k).
Qed.

Lemma filter_distinct_in : forall k (l : list jstring),
  filter (fun k' => negb (str_eqb k k')) (l ++ [k]) =
  filter (fun k' => negb (str_eqb k k')) l.
Proof.
  intros. rewrite filter_app. cbn [filter]. rewrite str_eqb_refl. cbn.
  apply app_nil_r.
Qed.

Lemma distinct_snoc : forall ks k,
  distinct (ks ++ [k]) =
  if existsb (str_eqb k) ks then distinct ks else distinct ks ++ [k].
Proof.
  induction ks as [|k0 ks IH]; intro k; [reflexivity|].
  cbn [app distinct existsb]. rewrite IH.
  destruct (str_eqb k k0) eqn:E.
  - apply str_eqb_eq in E. subst k0. cbn [orb].
    destruct (existsb (str_eqb k) ks); [reflexivity|].
    now rewrite filter_distinct_in.
  - cbn [orb]. destruct (existsb (str_eqb k) ks); [reflexivity|].
    rewrite filter_app. cbn [filter].
    assert (E' : str_eqb k0 k = false).
    { apply str_eqb_neq. intro; subst. now rewrite str_eqb_refl in E. }
    now rewrite E'.
Qed.

Lemma distinct_In : forall ks k, In k (distinct ks) <-> In k ks.
Proof.
  induction ks as [|k0 ks IH]; intro k; [reflexivity|].
  cbn [distinct]. split.
  - intros [H|H]; [now left|]. apply filter_In in H. right. now apply IH.
  - intros [H|H]; [now left|].
    destruct (str_eqb k0 k) eqn:E.
    + apply str_eqb_eq in E. now left.
    + right. apply filter_In. split; [now apply IH | now rewrite E].
Qed.

Lemma distinct_NoDup : forall ks, NoDup (distinct ks).
Proof.
  induction ks as [|k0 ks IH]; [constructor|].
  cbn [distinct]. constructor.
  - intro H. apply filter_In in H. destruct H as [_ H].
    now rewrite str_eqb_refl in H.
  - now apply NoDup_filter.
Qed.

Lemma get_map_keys : forall (f : jstring -> value) ks k,
  get (map (fun k => (k, f k)) ks) k =
  if existsb (str_eqb k) ks then f k else VUndefined.
Proof.
  induction ks as [|k0 ks IH]; intro k; [reflexivity|].
  cbn [map get existsb]. destruct (str_eqb k0 k) eqn:E.
  - apply str_eqb_eq in E. subst. now rewrite str_eqb_refl.
  - assert (E' : str_eqb k k0 = false).
    { apply str_eqb_neq. intro; subst. now rewrite str_eqb_refl in E. }
    rewrite E'. apply IH.
Qed.

Lemma set_map_keys : forall (f : jstring -> value) ks k v,
  NoDup ks -> In k ks ->
  set (map (fun k => (k, f k)) ks) k v =
  map (fun k' => (k', if str_eqb k' k then v else f k')) ks.
Proof.
  induction ks as [|k0 ks IH]; intros k v Hnd Hin; [contradiction|].
  cbn [map set]. inversion Hnd as [|? ? Hn Hnd']; subst.
  destruct (str_eqb k0 k) eqn:E.
  - apply str_eqb_eq in E. subst k0. f_equal.
    apply map_ext_in. intros k' Hk'.
    assert (E' : str_eqb k' k = false).
    { apply str_eqb_neq. intro; subst. contradiction. }
    now rewrite E'.
  - f_equal. apply IH; [assumption|].
    destruct Hin as [Hin|Hin]; [|assumption].
    subst. now rewrite str_eqb_refl in E.
Qed.

Lemma map_fst_group : forall kvs, map fst (group kvs) = distinct (map fst kvs).
Proof.
  intro kvs. unfold group. rewrite map_map. cbn [fst]. apply map_id.
Qed.

Lemma slot_nonnull : forall vs,
  vs <> [] -> forallb is_node vs = true -> nonnull (slot vs) = true.
Proof.
  intros [|v [|v' vs]] Hne Hn; [contradiction| |reflexivity].
  cbn in Hn. now destruct v.
Qed.

Lemma slot_items : forall vs,
  vs <> [] -> forallb is_node vs = true ->
  match slot vs with VArr l => l | _ => [slot vs] end = vs.
Proof.
  intros [|v [|v' vs]] Hne Hn; [contradiction| |reflexivity].
  cbn in Hn. now destruct v.
Qed.

Lemma slot_snoc : forall vs v, vs <> [] -> slot (vs ++ [v]) = VArr (vs ++ [v]).
Proof. intros [|x [|y vs]] v H; [contradiction| |]; reflexivity. Qed.

Lemma occurrences_nil_iff : forall k kvs,
  occurrences k kvs = [] <-> ~ In k (map fst kvs).
Proof.
  intros k kvs. unfold occurrences. induction kvs as [|[k' v] kvs IH].
  - cbn. tauto.
  - cbn [filter fst map]. destruct (str_eqb k' k) eqn:E.
    + apply str_eqb_eq in E. subst. cbn. split; [discriminate|].
      intro H. exfalso. apply H. now left.
    + rewrite IH. cbn. apply str_eqb_neq in E. tauto.
Qed.

Lemma occurrences_nodes : forall k kvs,
  forallb (fun kv => is_node (snd kv)) kvs = true ->
  forallb is_node (occurrences k kvs) = true.
Proof.
  intros k kvs H. unfold occurrences. rewrite forallb_forall in *.
  intros v Hv. apply in_map_iff in Hv. destruct Hv as ([k' v'] & <- & Hv).
  apply filter_In in Hv. destruct Hv as [Hv _]. exact (H _ Hv).
Qed.

(** One more child after the children [done]. *)
Lemma insert_group : forall base done k v,
  ~ In k (map fst base) ->
  forallb (fun kv => is_node (snd kv)) done = true ->
  insert (base ++ group done) k v = base ++ group (done ++ [(k, v)]).
Proof.
  intros base done k v Hb Hn. unfold insert.
  rewrite get_app_r by assumption.
  assert (Hget : get (group done) k =
                 if existsb (str_eqb k) (distinct (map fst done))
                 then slot (occurrences k done) else VUndefined)
    by (unfold group; apply get_map_keys).
  rewrite Hget. clear Hget.
  unfold group. rewrite map_app. cbn [map fst]. rewrite distinct_snoc.
  assert (Hex : existsb (str_eqb k) (distinct (map fst done))
                = existsb (str_eqb k) (map fst done)).
  { apply eq_true_iff_eq. rewrite !existsb_str_eqb. apply distinct_In. }
  rewrite Hex.
  destruct (existsb (str_eqb k) (map fst done)) eqn:E.
  - apply existsb_str_eqb in E.
    assert (Hne : occurrences k done <> []).
    { intro H0. apply occurrences_nil_iff in H0. contradiction. }
    pose proof (occurrences_nodes k done Hn) as Hnodes.
    rewrite slot_nonnull by assumption.
    rewrite slot_items by assumption.
    rewrite set_app_r by assumption. f_equal.
    rewrite set_map_keys;
      [| apply distinct_NoDup | now apply distinct_In].
    apply map_ext_in. intros k' _. rewrite occurrences_snoc.
    destruct (str_eqb k' k) eqn:E'.
    + apply str_eqb_eq in E'. subst k'. rewrite str_eqb_refl.
      now rewrite slot_snoc.
    + assert (E2 : str_eqb k k' = false).
      { apply str_eqb_neq. intro; subst. now rewrite str_eqb_refl in E'. }
      rewrite E2. now rewrite app_nil_r.
  - cbn [nonnull].
    assert (Hk : ~ In k (map fst done)).
    { intro H. apply existsb_str_eqb in H. congruence. }
    rewrite set_app_r by assumption. f_equal.
    rewrite set_absent.
    2:{ rewrite map_map. cbn [fst]. rewrite map_id.
        intro H. apply -> distinct_In in H. contradiction. }
    rewrite map_app. cbn [map]. f_equal.
    + apply map_ext_in. intros k' Hk'. rewrite occurrences_snoc.
      destruct (str_eqb k k') eqn:E'; [|now rewrite app_nil_r].
      apply str_eqb_eq in E'. subst k'. apply -> distinct_In in Hk'.
      contradiction.
    + rewrite occurrences_snoc, str_eqb_refl.
      apply occurrences_nil_iff in Hk. now rewrite Hk.
Qed.

Lemma fold_insert_group : forall base kvs done,
  (forall kv, In kv kvs -> ~ In (fst kv) (map fst base)) ->
  forallb (fun kv => is_node (snd kv)) (done ++ kvs) = true ->
  fold_left (fun o kv => insert o (fst kv) (snd kv)) kvs (base ++ group done)
  = base ++ group (done ++ kvs).
Proof.
  intros base. induction kvs as [|[k v] kvs IH]; intros done Hb Hn.
  - now rewrite app_nil_r.
  - cbn [fold_left fst snd]. rewrite forallb_app in Hn.
    apply andb_true_iff in Hn. destruct Hn as [Hn1 Hn2].
    cbn [forallb snd] in Hn2. apply andb_true_iff in Hn2.
    destruct Hn2 as [Hv Hn2].
    rewrite insert_group; [| exact (Hb (k, v) (or_introl eq_refl)) | exact Hn1].
    rewrite IH.
    + now rewrite <- app_assoc.
    + intros kv Hkv. apply Hb. now right.
    + rewrite !forallb_app. cbn [forallb snd]. now rewrite Hn1, Hv, Hn2.
Qed.

Lemma key_ok_not_special : forall k,
  key_ok k = true -> k <> js "$" /\ k <> js "$value" /\ k <> js "$cdata".
Proof.
  intros k H. unfold key_ok in H. apply andb_true_iff in H.
  destruct H as [_ H]. repeat split; intro; subst; discriminate.
Qed.

Lemma get_insert_other : forall o tag v k,
  tag <> k -> get (insert o tag v) k = get o k.
Proof.
  intros o tag v k H. unfold insert.
  destruct (nonnull (get o tag)); now apply get_set_other.
Qed.

Lemma accepting_add_child : forall e tag v,
  key_ok tag = true -> accepting e -> accepting (add_child e tag v).
Proof.
  intros e tag v Hk [H1 H2]. apply key_ok_not_special in Hk.
  destruct Hk as (_ & Hv & Hc). unfold accepting, add_child. cbn [e_props].
  rewrite !get_insert_other by assumption. now split.
Qed.

(** [push] opens a child, and whatever properties the child has gathered,
    [pop] leaves its finished value in the parent. *)
Lemma push_pop : forall e ps o tag,
  accepting e ->
  exists idx e',
    Builder.push tag (mkBuilder e ps o) =
      Ok (mkBuilder (mkElement (Some tag) idx 0 []) (e' :: ps)
            (o || inherited tag))
    /\ forall n cp tg o',
         tg = None \/ tg = Some tag ->
         Builder.pop tg
           (mkBuilder (mkElement (Some tag) idx n cp) (e' :: ps) o')
         = Ok (mkBuilder (add_child e tag (finished cp)) ps o').
Proof.
  intros e ps o tag [Hc Hv]. unfold Builder.push. cbn [elt parents outside].
  rewrite Hc, Hv.
  assert (Hm : forall idx n cp tg, tg = None \/ tg = Some tag ->
            Builder.mismatch tg (mkElement (Some tag) idx n cp) = false).
  { intros idx n cp tg [->| ->]; [reflexivity|]. unfold Builder.mismatch.
    destruct tag; [reflexivity|]. cbn [e_tag]. now rewrite str_eqb_refl. }
  destruct (nonnull (get (e_props e) tag)) eqn:En.
  - eexists _, _. split; [reflexivity|]. intros n cp tg o' Htg.
    unfold Builder.pop. cbn [elt parents outside]. rewrite Hm by assumption.
    cbn [e_tag e_index e_props]. rewrite get_set_same, set_index_last, set_set.
    unfold add_child, insert. rewrite En. reflexivity.
  - eexists _, _. split; [reflexivity|]. intros n cp tg o' Htg.
    unfold Builder.pop. cbn [elt parents outside]. rewrite Hm by assumption.
    cbn [e_tag e_index e_props]. rewrite set_set.
    unfold add_child, insert. rewrite En. reflexivity.
Qed.

Lemma feedAttrs_from : forall rest done t i n ps o,
  nodupb (map fst (done ++ rest)) = true ->
  forallb (fun av => negb (inherited (fst av))) rest = true ->
  feedAttrs rest (mkBuilder (mkElement t i n (attrsV done)) ps o) =
  Ok (mkBuilder (mkElement t i n (attrsV (done ++ rest))) ps o).
Proof.
  induction rest as [|[a v] rest IH]; intros done t i n ps o Hnd Hown.
  - now rewrite app_nil_r.
  - cbn [feedAttrs]. cbn [forallb fst] in Hown.
    apply andb_true_iff in Hown. destruct Hown as [Ha0 Hown].
    apply negb_true_iff in Ha0.
    assert (Ha : ~ In a (map fst done)).
    { apply nodupb_NoDup in Hnd. rewrite map_app in Hnd. cbn [map fst] in Hnd.
      apply NoDup_remove_2 in Hnd. intro H. apply Hnd. apply in_or_app.
      now left. }
    assert (Hstep :
      Builder.attribute a (VStr v)
        (mkBuilder (mkElement t i n (attrsV done)) ps o)
      = Ok (mkBuilder (mkElement t i n (attrsV (done ++ [(a, v)]))) ps o)).
    { unfold Builder.attribute. cbn [elt parents e_props outside].
      destruct done as [|d ds].
      - cbn [attrsV get truthy nonnull orb]. rewrite Ha0. reflexivity.
      - cbn [attrsV get]. rewrite str_eqb_refl. cbn [truthy].
        rewrite get_absent by (now rewrite map_map).
        cbn [nonnull orb]. rewrite Ha0. unfold with_props. cbn [e_tag e_index e_childCount set].
        rewrite str_eqb_refl.
        rewrite set_absent by (now rewrite map_map).
        cbn [app attrsV map fst snd]. rewrite map_app. reflexivity. }
    rewrite Hstep. cbn [bind]. rewrite IH.
    + now rewrite <- app_assoc.
    + now rewrite <- app_assoc.
    + assumption.
Qed.

Lemma feedAttrs_fresh : forall attrs t i n ps o,
  nodupb (map fst attrs) = true ->
  forallb (fun av => negb (inherited (fst av))) attrs = true ->
  feedAttrs attrs (mkBuilder (mkElement t i n []) ps o) =
  Ok (mkBuilder (mkElement t i n (attrsV attrs)) ps o).
Proof. intros. exact (feedAttrs_from attrs [] t i n ps o H H0). Qed.

Lemma get_attrsV_value : forall attrs k,
  k <> js "$" -> get (attrsV attrs) k = VUndefined.
Proof.
  intros [|a attrs] k H; [reflexivity|]. cbn [attrsV get].
  assert (E : str_eqb (js "$") k = false).
  { apply str_eqb_neq. congruence. }
  now rewrite E.
Qed.

Lemma shape_is_node : forall x, is_node (shape x) = true.
Proof. intros [t a|t [|a0 a] s|t a s|t a cs]; reflexivity. Qed.

Lemma wf_events_key : forall x,
  wf_events x = true ->
  key_ok (xtag x) = true /\ nodupb (map fst (xattrs x)) = true.
Proof.
  intros x H. destruct x; cbn [wf_events] in H;
    apply andb_true_iff in H; destruct H as [H _];
    apply andb_true_iff in H; destruct H as [H1 H2];
    apply andb_true_iff in H2; tauto.
Qed.

Lemma wf_events_own : forall x,
  wf_events x = true ->
  inherited (xtag x) = false
  /\ forallb (fun av => negb (inherited (fst av))) (xattrs x) = true.
Proof.
  intros x H. destruct x; cbn [wf_events] in H;
    apply andb_true_iff in H; destruct H as [H _];
    apply andb_true_iff in H; destruct H as [_ H];
    apply andb_true_iff in H; destruct H as [_ H];
    unfold own_names in H; apply andb_true_iff in H; destruct H as [H1 H2];
    apply negb_true_iff in H1; tauto.
Qed.

(** The children [cs], fed one after another to an element that can take
    them. *)
Lemma feedAll_fold : forall cs,
  Forall (fun x => wf_events x = true /\
            forall b, accepting (elt b) ->
              feed x b =
              Ok (mkBuilder (add_child (elt b) (xtag x) (shape x)) (parents b)
                    (outside b)))
         cs ->
  forall b, accepting (elt b) ->
  feedAll cs b =
  Ok (mkBuilder
        (fold_left (fun e c => add_child e (xtag c) (shape c)) cs (elt b))
        (parents b) (outside b)).
Proof.
  induction cs as [|c cs IH]; intros H b Hb.
  - now destruct b.
  - inversion H as [|? ? [Hwf Hc] Hcs]; subst. cbn [feedAll fold_left].
    rewrite Hc by assumption. cbn [bind].
    rewrite IH; [reflexivity | assumption |].
    cbn [elt]. apply accepting_add_child; [|assumption].
    now apply wf_events_key.
Qed.

Lemma fold_add_child_props : forall cs e,
  e_props (fold_left (fun e c => add_child e (xtag c) (shape c)) cs e) =
  fold_left (fun o kv => insert o (fst kv) (snd kv))
            (map (fun c => (xtag c, shape c)) cs) (e_props e).
Proof.
  induction cs as [|c cs IH]; intro e; [reflexivity|].
  cbn [fold_left map]. now rewrite IH.
Qed.

Lemma fold_add_child_eq : forall cs e,
  fold_left (fun e c => add_child e (xtag c) (shape c)) cs e =
  mkElement (e_tag e) (e_index e) (List.length cs + e_childCount e)
    (fold_left (fun o kv => insert o (fst kv) (snd kv))
               (map (fun c => (xtag c, shape c)) cs) (e_props e)).
Proof.
  induction cs as [|c cs IH]; intro e.
  - now destruct e.
  - cbn [fold_left map List.length]. rewrite IH. unfold add_child.
    cbn [e_tag e_index e_childCount e_props fst snd]. f_equal. lia.
Qed.

Lemma feed_XNode : forall t a cs b,
  feed (XNode t a cs) b =
  (b <- Builder.push t b ;;
   b <- feedAttrs a b ;;
   b <- feedAll cs b ;;
   Builder.pop (Some t) b).
Proof.
  intros. reflexivity.
Qed.

Lemma finished_children : forall a kvs,
  forallb (fun kv => key_ok (fst kv)) kvs = true ->
  finished (attrsV a ++ group kvs) = VObj (attrsV a ++ group kvs).
Proof.
  intros a kvs H. unfold finished. rewrite get_absent; [reflexivity|].
  rewrite map_app, map_fst_group. intro Hin. apply in_app_or in Hin.
  destruct Hin as [Hin|Hin].
  - destruct a; cbn in Hin; [contradiction|].
    destruct Hin as [Hin|[]]. discriminate Hin.
  - apply -> distinct_In in Hin. apply in_map_iff in Hin.
    destruct Hin as ([k v] & E & Hin). cbn [fst] in E. subst k.
    rewrite forallb_forall in H. specialize (H _ Hin). cbn [fst] in H.
    apply key_ok_not_special in H. now destruct H as (_ & H & _).
Qed.

(** The builder gives every element its shape: after the calls for the
    element [x], the parent has one more child, [shape x], under the tag
    of [x]. *)
Lemma feed_shape : forall x,
  wf_events x = true ->
  forall b, accepting (elt b) ->
  feed x b =
  Ok (mkBuilder (add_child (elt b) (xtag x) (shape x)) (parents b)
        (outside b)).
Proof.
  induction x as [t a|t a s|t a s|t a cs IH] using xml_rect';
    intros Hwf [e ps o] Hb; cbn [elt parents outside] in *;
    destruct (wf_events_key _ Hwf) as [Hk Hnd];
    destruct (wf_events_own _ Hwf) as [Hot Hoa]; cbn [xtag xattrs] in *;
    destruct (push_pop e ps o t Hb) as (idx & e' & Hpush & Hpop);
    rewrite Hot, orb_false_r in Hpush.
  - cbn [feed]. rewrite Hpush. cbn [bind].
    rewrite feedAttrs_fresh by assumption. cbn [bind].
    rewrite Hpop by (now left). do 3 f_equal. cbn [shape]. unfold finished.
    rewrite get_attrsV_value by discriminate. reflexivity.
  - cbn [feed]. rewrite Hpush. cbn [bind].
    rewrite feedAttrs_fresh by assumption. cbn [bind].
    unfold Builder.value. cbn [elt parents e_props e_childCount].
    rewrite get_attrsV_value by discriminate. cbn [nonnull Nat.eqb negb bind].
    unfold with_props. cbn [e_tag e_index e_childCount].
    rewrite Hpop by (now right). do 3 f_equal. cbn [shape]. unfold finished.
    rewrite get_set_same. rewrite get_set_other by discriminate.
    destruct a as [|a0 a]; [reflexivity|].
    cbn [attrsV get]. rewrite str_eqb_refl. cbn [defined truthy negb andb].
    rewrite set_absent; [reflexivity|]. cbn. intros [H|[]]. discriminate H.
  - cbn [feed]. rewrite Hpush. cbn [bind].
    rewrite feedAttrs_fresh by assumption. cbn [bind].
    unfold Builder.cdata. cbn [elt parents e_props e_childCount].
    rewrite get_attrsV_value by discriminate. cbn [nonnull Nat.eqb negb bind].
    unfold with_props. cbn [e_tag e_index e_childCount].
    rewrite Hpop by (now right). do 3 f_equal. cbn [shape]. unfold finished.
    rewrite get_set_other by discriminate.
    rewrite get_attrsV_value by discriminate. cbn [defined andb].
    rewrite set_absent; [reflexivity|].
    destruct a; cbn; [tauto|]. intros [H|[]]. discriminate H.
  - assert (Hcs : forallb wf_events cs = true).
    { cbn [wf_events] in Hwf. apply andb_true_iff in Hwf. tauto. }
    rewrite feed_XNode, Hpush. cbn [bind].
    rewrite feedAttrs_fresh by assumption. cbn [bind].
    rewrite feedAll_fold.
    2:{ rewrite forallb_forall in Hcs. rewrite Forall_forall in *.
        intros c Hc. split; [now apply Hcs|]. apply IH; auto. }
    2:{ cbn [elt]. split; cbn [e_props];
        now rewrite get_attrsV_value by discriminate. }
    cbn [bind elt parents]. rewrite fold_add_child_eq.
    cbn [e_tag e_index e_childCount e_props].
    rewrite Hpop by (now right). do 3 f_equal. cbn [shape].
    assert (Hkeys : forallb (fun kv => key_ok (fst kv))
                      (map (fun c => (xtag c, shape c)) cs) = true).
    { rewrite forallb_forall. intros kv Hkv. apply in_map_iff in Hkv.
      destruct Hkv as (c & <- & Hc). cbn [fst].
      rewrite forallb_forall in Hcs. now apply wf_events_key, Hcs. }
    pose proof (fold_insert_group (attrsV a)
                  (map (fun c => (xtag c, shape c)) cs) []) as Hg.
    cbn [group map distinct app] in Hg. rewrite app_nil_r in Hg.
    rewrite Hg.
    + now apply finished_children.
    + intros kv Hkv Hin. rewrite forallb_forall in Hkeys.
      specialize (Hkeys _ Hkv). apply key_ok_not_special in Hkeys.
      destruct a; cbn in Hin; [contradiction|].
      destruct Hin as [Hin|[]]. symmetry in Hin. tauto.
    + rewrite forallb_forall. intros kv Hkv. apply in_map_iff in Hkv.
      destruct Hkv as (c & <- & Hc). apply shape_is_node.
Qed.

(** ** [clean] undoes [escape] *)

Local Open Scope Z_scope.

(** All code units from [c] on, [fuel] of them. *)
Fixpoint units_from (fuel : nat) (c : Z) : list Z :=
  match fuel with
  | O => []
  | S f => c :: units_from f (c + 1)
  end.

Lemma units_from_In : forall fuel c x,
  c <= x < c + Z.of_nat fuel -> In x (units_from fuel c).
Proof.
  induction fuel as [|f IH]; intros c x H; [lia|].
  cbn [units_from]. destruct (Z.eq_dec c x) as [->|Hne]; [now left|].
  right. apply IH. lia.
Qed.

(** What [escape] writes for one unit is read back by [clean] as that
    unit: either the unit itself, which is not an ampersand, or an entity
    [&name;] that decodes to it.  Neither holds a [<] or a double quote. *)
Definition unit_roundtrip (c : Z) : bool :=
  let out := escapeUnit c in
  negb (existsb (Z.eqb LT) out) && negb (existsb (Z.eqb DQUOTE) out)
  && match out with
     | [c'] => (c' =? c) && negb (c =? AMP)
     | a :: rest =>
         (a =? AMP)
         && match span (fun x => negb (x =? SEMI)) rest with
            | (x :: name, [s]) =>
                match entity (x :: name) with
                | Ok [c'] => c' =? c
                | _ => false
                end
            | _ => false
            end
     | [] => false
     end.

Lemma all_units_roundtrip :
  forallb unit_roundtrip (units_from (Z.to_nat 65536) 0) = true.
Proof. vm_compute. reflexivity. Qed.

Lemma unit_roundtrip_ok : forall c, is_unit c = true -> unit_roundtrip c = true.
Proof.
  intros c H. unfold is_unit in H. apply andb_true_iff in H.
  destruct H as [H0 H1]. apply Z.leb_le in H0. apply Z.ltb_lt in H1.
  pose proof all_units_roundtrip as A. rewrite forallb_forall in A.
  apply A. apply units_from_In. lia.
Qed.

Lemma clean_from_skip : forall pre t,
  clean_from (List.length pre) (pre ++ t) = clean_from 0 t.
Proof.
  induction pre as [|c pre IH]; intro t; [reflexivity|].
  cbn [List.length app clean_from]. apply IH.
Qed.

Lemma span_stop : forall p w r rest,
  forallb p w = true -> p r = false -> span p (w ++ r :: rest) = (w, r :: rest).
Proof.
  induction w as [|c w IH]; intros r rest Hw Hr; cbn [app span].
  - now rewrite Hr.
  - cbn [forallb] in Hw. apply andb_true_iff in Hw. destruct Hw as [Hc Hw].
    rewrite Hc. now rewrite IH.
Qed.

Lemma span_all : forall p w, forallb p w = true -> span p w = (w, []).
Proof.
  induction w as [|c w IH]; intro Hw; [reflexivity|].
  cbn [forallb] in Hw. apply andb_true_iff in Hw. destruct Hw as [Hc Hw].
  cbn [span]. rewrite Hc. now rewrite IH.
Qed.

Lemma span_spec : forall p s w r,
  span p s = (w, r) ->
  s = w ++ r /\ forallb p w = true
  /\ match r with [] => True | x :: _ => p x = false end.
Proof.
  induction s as [|c s IH]; intros w r H; cbn [span] in H.
  - inversion H; subst. auto.
  - destruct (p c) eqn:E.
    + destruct (span p s) as [w' r'] eqn:E'. inversion H; subst.
      destruct (IH _ _ eq_refl) as (-> & Hw & Hr). cbn [forallb app].
      rewrite E, Hw. auto.
    + inversion H; subst. cbn. auto.
Qed.

(** The two forms of what [escape] writes for a unit. *)
Lemma escapeUnit_forms : forall c, is_unit c = true ->
  (~ In LT (escapeUnit c) /\ ~ In DQUOTE (escapeUnit c))
  /\ ((escapeUnit c = [c] /\ c <> AMP)
      \/ exists name, escapeUnit c = AMP :: name ++ [SEMI]
                      /\ name <> [] /\ ~ In SEMI name
                      /\ entity name = Ok [c]).
Proof.
  intros c Hc. apply unit_roundtrip_ok in Hc. unfold unit_roundtrip in Hc.
  apply andb_true_iff in Hc. destruct Hc as [Hc H3].
  apply andb_true_iff in Hc. destruct Hc as [H1 H2].
  split.
  - split; intro Hin.
    + apply negb_true_iff in H1.
      assert (existsb (Z.eqb LT) (escapeUnit c) = true)
        by (apply existsb_exists; exists LT; split; [assumption | apply Z.eqb_refl]).
      congruence.
    + apply negb_true_iff in H2.
      assert (existsb (Z.eqb DQUOTE) (escapeUnit c) = true)
        by (apply existsb_exists; exists DQUOTE; split; [assumption | apply Z.eqb_refl]).
      congruence.
  - destruct (escapeUnit c) as [|a [|b rest]] eqn:E; [discriminate| |].
    + left. apply andb_true_iff in H3. destruct H3 as [Ha Hb].
      apply Z.eqb_eq in Ha. subst a. split; [reflexivity|].
      apply negb_true_iff in Hb. now apply Z.eqb_neq.
    + right. apply andb_true_iff in H3. destruct H3 as [Ha H3].
      apply Z.eqb_eq in Ha. subst a.
      destruct (span (fun x => negb (x =? SEMI)) (b :: rest)) as [name after] eqn:Es.
      destruct name as [|x name]; [discriminate|].
      destruct after as [|s [|s' after]]; try discriminate.
      apply span_spec in Es. destruct Es as (Eq & Hn & Hs).
      exists (x :: name). rewrite Eq.
      assert (s = SEMI).
      { apply negb_false_iff in Hs. now apply Z.eqb_eq. }
      subst s. repeat split.
      * discriminate.
      * intro Hin. rewrite forallb_forall in Hn. specialize (Hn _ Hin).
        apply negb_true_iff in Hn. now rewrite Z.eqb_refl in Hn.
      * destruct (entity (x :: name)) as [[|c' [|? ?]]| | |]; try discriminate.
        apply Z.eqb_eq in H3. now subst.
Qed.

Lemma entityAt_found : forall name t,
  name <> [] -> ~ In SEMI name -> entityAt (name ++ SEMI :: t) = Some name.
Proof.
  intros name t Hne Hn. unfold entityAt. rewrite span_stop.
  - destruct name; [contradiction | reflexivity].
  - rewrite forallb_forall. intros x Hx. apply negb_true_iff, Z.eqb_neq.
    intro; subst. contradiction.
  - now rewrite Z.eqb_refl.
Qed.

Lemma clean_from_escapeUnit : forall c t,
  is_unit c = true ->
  clean_from 0 (escapeUnit c ++ t) = (r <- clean_from 0 t ;; Ok (c :: r)).
Proof.
  intros c t Hc. destruct (escapeUnit_forms c Hc) as [_ [[E Hne]|(name & E & Hn & Hs & He)]];
    rewrite E.
  - cbn [app clean_from]. apply Z.eqb_neq in Hne. now rewrite Hne.
  - cbn [app clean_from]. rewrite Z.eqb_refl. rewrite <- app_assoc. cbn [app].
    rewrite entityAt_found by assumption. rewrite He. cbn [bind].
    replace (S (List.length name)) with (List.length (name ++ [SEMI]))
      by (rewrite length_app; cbn; lia).
    replace (name ++ SEMI :: t) with ((name ++ [SEMI]) ++ t)
      by (now rewrite <- app_assoc).
    rewrite clean_from_skip.
    destruct (clean_from 0 t); reflexivity.
Qed.

Lemma escape_cons : forall c s,
  escape (VStr (c :: s)) = escapeUnit c ++ escape (VStr s).
Proof. reflexivity. Qed.

Lemma clean_escape : forall s,
  is_jstring s = true -> clean (escape (VStr s)) = Ok s.
Proof.
  unfold clean. induction s as [|c s IH]; intro H; [reflexivity|].
  cbn [is_jstring forallb] in H. apply andb_true_iff in H. destruct H as [Hc Hs].
  rewrite escape_cons, clean_from_escapeUnit by assumption.
  fold (is_jstring s) in Hs. now rewrite IH.
Qed.

Lemma escape_no_LT : forall s,
  is_jstring s = true ->
  ~ In LT (escape (VStr s)) /\ ~ In DQUOTE (escape (VStr s)).
Proof.
  induction s as [|c s IH]; intro H; [cbn; tauto|].
  cbn [is_jstring forallb] in H. apply andb_true_iff in H. destruct H as [Hc Hs].
  fold (is_jstring s) in Hs. rewrite escape_cons.
  destruct (escapeUnit_forms c Hc) as [[H1 H2] _].
  destruct (IH Hs) as [H3 H4].
  split; intro Hin; apply in_app_or in Hin; tauto.
Qed.

Local Close Scope Z_scope.

(** ** The text of a document *)

(** The compact text of a document: what [stringify] writes for its
    shape. *)
Definition renderAttrs (attrs : list (jstring * jstring)) : jstring :=
  flat_map (fun av => [32%Z] ++ fst av ++ [EQ] ++ dq (escape (VStr (snd av))))
           attrs.

Fixpoint render (x : xml) : jstring :=
  match x with
  | XEmpty t a => [LT] ++ t ++ renderAttrs a ++ js "/>"
  | XText t a s =>
      [LT] ++ t ++ renderAttrs a ++ [GT] ++ escape (VStr s)
      ++ js "</" ++ t ++ [GT]
  | XCData t a d =>
      [LT] ++ t ++ renderAttrs a ++ [GT] ++ js "<![CDATA[" ++ d ++ js "]]>"
      ++ js "</" ++ t ++ [GT]
  | XNode t a cs =>
      [LT] ++ t ++ renderAttrs a ++ [GT] ++ flat_map render cs
      ++ js "</" ++ t ++ [GT]
  end.

(** A name as the scanner reads one. *)
Definition is_name (s : jstring) : bool :=
  match s with
  | c :: w => begWord c && forallb inWord w
  | [] => false
  end.

Definition attr_ok (av : jstring * jstring) : bool :=
  is_name (fst av) && is_jstring (snd av).

Definition has (pat s : jstring) : bool :=
  match indexOf pat s with Some _ => true | None => false end.

(** A document that [render] writes without loss: names are names, and
    none of them is a name of [Object.prototype]; strings are strings of
    code units, no attribute comes twice, a CDATA section does not hold its
    own terminator, and an element with children has at least one. *)
Fixpoint wf_doc (x : xml) : bool :=
  is_name (xtag x) && forallb attr_ok (xattrs x)
  && (nodupb (map fst (xattrs x)) && own_names x)
  && match x with
     | XEmpty _ _ => true
     | XText _ _ s => is_jstring s
     | XCData _ _ d => negb (has (js "]]>") d)
     | XNode _ _ cs =>
         match cs with [] => false | _ => forallb wf_doc cs end
     end.

Local Open Scope Z_scope.

Lemma begWord_facts : forall c,
  begWord c = true ->
  space c = false /\ inWord c = true /\ c <> SLASH /\ c <> GT /\ c <> EXCLAM
  /\ c <> QMARK /\ c <> DOLLAR /\ c <> LT.
Proof.
  intros c H. unfold begWord, between in H.
  repeat rewrite orb_true_iff in H. repeat rewrite andb_true_iff in H.
  rewrite ?Z.leb_le, ?Z.eqb_eq in H.
  unfold space, inWord, between, SLASH, GT, EXCLAM, QMARK, DOLLAR, LT.
  repeat split; lia.
Qed.

Lemma eatSpaces_id : forall c s, space c = false -> eatSpaces (c :: s) = c :: s.
Proof. intros c s H. unfold eatSpaces. cbn [span]. now rewrite H. Qed.

Lemma eatSpaces_nil : eatSpaces [] = [].
Proof. reflexivity. Qed.

Lemma eatSpaces_idem : forall s, eatSpaces (eatSpaces s) = eatSpaces s.
Proof.
  intro s. unfold eatSpaces. destruct (span space s) as [w r] eqn:E.
  apply span_spec in E. destruct E as (_ & _ & Hr). cbn [snd].
  destruct r as [|x r]; [reflexivity|]. cbn [span]. now rewrite Hr.
Qed.

Lemma indexOf_char : forall c pre rest,
  ~ In c pre -> indexOf [c] (pre ++ c :: rest) = Some (pre, c :: rest).
Proof.
  induction pre as [|x pre IH]; intros rest H.
  - cbn [app indexOf starts]. now rewrite Z.eqb_refl.
  - cbn [app indexOf starts].
    assert (E : (c =? x) = false).
    { apply Z.eqb_neq. intro; subst. apply H. now left. }
    rewrite E. cbn [andb]. rewrite IH; [reflexivity|].
    intro. apply H. now right.
Qed.

Lemma tagLoop'_eq : forall inp bld,
  tagLoop' inp bld =
  match eatSpaces inp with
  | [] => Throw "unexpected character"
  | ch :: rest =>
      if ch =? SLASH then
        rest' <- eat GT rest ;;
        bld' <- Builder.pop None bld ;;
        Ok (rest', bld')
      else if begWord ch then
        let (w, rest1) := span inWord rest in
        rest2 <- eat EQ (eatSpaces rest1) ;;
        '(quote, rest3) <- eatQuote (eatSpaces rest2) ;;
        match indexOf [quote] rest3 with
        | None => Throw "double quote missing"
        | Some (raw, at_quote) =>
            v <- clean raw ;;
            bld' <- Builder.attribute (ch :: w) (VStr v) bld ;;
            tagLoop' (skipn 1 at_quote) bld'
        end
      else if ch =? GT then content (S (List.length rest)) rest [] bld
      else Throw "unexpected character"
  end.
Proof.
  intros inp bld. unfold tagLoop' at 1. cbn [tagLoop].
  pose proof (length_eatSpaces inp) as L0.
  destruct (eatSpaces inp) as [|ch rest]; [reflexivity|]. cbn [List.length] in L0.
  destruct (ch =? SLASH); [reflexivity|].
  destruct (begWord ch); [|reflexivity].
  destruct (span inWord rest) as [w rest1] eqn:E1.
  pose proof (length_span _ _ _ _ E1) as L1.
  pose proof (length_eatSpaces rest1) as L2.
  destruct (eat EQ (eatSpaces rest1)) as [rest2| | |] eqn:E2; try reflexivity.
  cbn [bind]. apply length_eat in E2.
  pose proof (length_eatSpaces rest2) as L3.
  destruct (eatQuote (eatSpaces rest2)) as [[q rest3]| | |] eqn:E3;
    try reflexivity.
  cbn [bind]. apply length_eatQuote in E3.
  destruct (indexOf [q] rest3) as [[raw at_q]|] eqn:E4; [|reflexivity].
  pose proof (length_indexOf _ _ _ _ E4) as L4.
  destruct (clean raw); try reflexivity. cbn [bind].
  destruct (Builder.attribute _ _ bld); try reflexivity. cbn [bind].
  pose proof (length_skipn_le 1 at_q). apply tagLoop_fuel; lia.
Qed.

Lemma is_name_inv : forall t,
  is_name t = true ->
  exists c w, t = c :: w /\ begWord c = true /\ forallb inWord w = true.
Proof.
  intros [|c w] H; [discriminate|]. cbn [is_name] in H.
  apply andb_true_iff in H. destruct H. now exists c, w.
Qed.

(** The scanner reads one attribute. *)
Lemma tagLoop'_attr : forall atb v tail bld,
  is_name atb = true -> is_jstring v = true ->
  tagLoop' ([32] ++ atb ++ [EQ] ++ dq (escape (VStr v)) ++ tail) bld =
  (bld' <- Builder.attribute atb (VStr v) bld ;; tagLoop' tail bld').
Proof.
  intros atb v tail bld Ha Hv.
  destruct (is_name_inv _ Ha) as (c & w & -> & Hc & Hw).
  destruct (begWord_facts _ Hc) as (Hsp & _ & Hsl & _).
  rewrite tagLoop'_eq.
  assert (E0 : eatSpaces ([32] ++ (c :: w) ++ [EQ] ++ dq (escape (VStr v)) ++ tail)
               = c :: w ++ [EQ] ++ dq (escape (VStr v)) ++ tail).
  { unfold eatSpaces. cbn [app span]. change (space 32) with true. cbn iota.
    rewrite Hsp. reflexivity. }
  rewrite E0. apply Z.eqb_neq in Hsl. rewrite Hsl, Hc.
  cbn [app]. rewrite span_stop by (assumption || reflexivity).
  rewrite eatSpaces_id by reflexivity. cbn [eat]. rewrite Z.eqb_refl.
  cbn [bind]. unfold dq. cbn [app].
  rewrite eatSpaces_id by reflexivity. cbn [eatQuote].
  change (DQUOTE =? DQUOTE) with true. cbn [orb bind].
  rewrite <- app_assoc. cbn [app].
  rewrite indexOf_char by (apply escape_no_LT; assumption).
  rewrite clean_escape by assumption. cbn [bind]. reflexivity.
Qed.

Lemma tagLoop'_attrs : forall attrs tail bld,
  forallb attr_ok attrs = true ->
  tagLoop' (renderAttrs attrs ++ tail) bld =
  (bld' <- feedAttrs attrs bld ;; tagLoop' tail bld').
Proof.
  induction attrs as [|[a v] attrs IH]; intros tail bld H; [reflexivity|].
  cbn [forallb] in H. apply andb_true_iff in H. destruct H as [Hav H].
  unfold attr_ok in Hav. cbn [fst snd] in Hav. apply andb_true_iff in Hav.
  destruct Hav as [Ha Hv].
  unfold renderAttrs. cbn [flat_map fst snd]. fold (renderAttrs attrs).
  rewrite <- !app_assoc. rewrite tagLoop'_attr by assumption.
  cbn [feedAttrs]. destruct (Builder.attribute a (VStr v) bld); try reflexivity.
  cbn [bind]. now apply IH.
Qed.

Lemma tagLoop'_selfclose : forall post bld,
  tagLoop' (js "/>" ++ post) bld =
  (bld' <- Builder.pop None bld ;; Ok (post, bld')).
Proof. intros. rewrite tagLoop'_eq. reflexivity. Qed.

Lemma tagLoop'_gt : forall rest bld,
  tagLoop' (GT :: rest) bld = content (S (List.length rest)) rest [] bld.
Proof. intros. rewrite tagLoop'_eq. reflexivity. Qed.

(** The text of an element, up to its closing tag. *)
Lemma content_text : forall n (s more : jstring) bld,
  is_jstring s = true ->
  content (S n) (escape (VStr s) ++ js "</" ++ more) [] bld =
  (bld' <- Builder.value (VStr s) bld ;; Ok (js "</" ++ more, bld')).
Proof.
  intros n s more bld Hs. cbn [content].
  change (js "</" ++ more) with (LT :: SLASH :: more).
  rewrite indexOf_char by (apply escape_no_LT; assumption).
  change (starts (js "<!--") (LT :: SLASH :: more)) with false.
  cbn iota. rewrite clean_escape by assumption. cbn [bind app].
  change (starts [LT; SLASH] (LT :: SLASH :: more)) with true. reflexivity.
Qed.

(** No text before a child element or a CDATA section. *)
Lemma content_none : forall n c more bld,
  c <> SLASH -> starts (js "<!--") (LT :: c :: more) = false ->
  content (S n) (LT :: c :: more) [] bld = Ok (LT :: c :: more, bld).
Proof.
  intros n c more bld Hc Hs. cbn [content indexOf starts].
  rewrite Z.eqb_refl. cbn [andb]. rewrite Hs. cbn [clean clean_from bind app].
  cbn [starts]. apply Z.eqb_neq in Hc. rewrite Z.eqb_sym in Hc.
  rewrite Z.eqb_refl, Hc. reflexivity.
Qed.

Lemma step_open : forall (t tail : jstring) bld,
  is_name t = true ->
  match tail with [] => True | r :: _ => inWord r = false end ->
  step (LT :: t ++ tail) bld =
  (bld' <- Builder.push t bld ;; tagLoop' tail bld').
Proof.
  intros t tail bld Ht Htail.
  destruct (is_name_inv _ Ht) as (c & w & -> & Hc & Hw).
  unfold step. cbn [eat]. rewrite Z.eqb_refl. cbn [bind app]. rewrite Hc.
  assert (E : span inWord (w ++ tail) = (w, tail)).
  { destruct tail as [|r tail].
    - rewrite app_nil_r. now apply span_all.
    - now apply span_stop. }
  rewrite E. reflexivity.
Qed.

Lemma step_close : forall (t post : jstring) bld,
  is_name t = true ->
  step (js "</" ++ t ++ [GT] ++ post) bld =
  (bld' <- Builder.pop (Some t) bld ;; Ok (post, bld')).
Proof.
  intros t post bld Ht.
  destruct (is_name_inv _ Ht) as (c & w & -> & Hc & Hw).
  unfold step. cbn [js map list_ascii_of_string app eat].
  change (Z.of_N (N_of_ascii "<") =? LT) with true. cbn [bind].
  change (begWord (Z.of_N (N_of_ascii "/"))) with false.
  change (Z.of_N (N_of_ascii "/") =? SLASH) with true. cbn iota.
  rewrite Hc. rewrite span_stop by (assumption || reflexivity).
  rewrite eatSpaces_id by reflexivity. cbn [eat]. rewrite Z.eqb_refl.
  reflexivity.
Qed.

Lemma indexOf_cdata_end : forall d rest,
  has (js "]]>") d = false ->
  indexOf (js "]]>") (d ++ js "]]>" ++ rest) = Some (d, js "]]>" ++ rest).
Proof.
  unfold has. induction d as [|c d IH]; intros rest H; [reflexivity|].
  cbn [indexOf] in H.
  destruct (starts (js "]]>") (c :: d)) eqn:Es; [discriminate|].
  destruct (indexOf (js "]]>") d) as [[b r]|] eqn:Ei; [discriminate|].
  cbn [app indexOf].
  assert (Es' : starts (js "]]>") (c :: d ++ js "]]>" ++ rest) = false).
  { destruct d as [|x [|y d]].
    - cbn -[Z.eqb]. now destruct (93 =? c).
    - cbn -[Z.eqb]. destruct (93 =? c); [|reflexivity]. now destruct (93 =? x).
    - exact Es. }
  rewrite Es'. rewrite IH by reflexivity. reflexivity.
Qed.

Lemma step_cdata : forall (d rest : jstring) bld,
  has (js "]]>") d = false ->
  step (js "<![CDATA[" ++ d ++ js "]]>" ++ rest) bld =
  (bld' <- Builder.cdata (VStr d) bld ;; Ok (eatSpaces rest, bld')).
Proof.
  intros d rest bld H. unfold step.
  change (js "<![CDATA[" ++ d ++ js "]]>" ++ rest)
    with (LT :: EXCLAM :: js "[CDATA[" ++ d ++ js "]]>" ++ rest).
  cbn [eat]. rewrite Z.eqb_refl. cbn [bind].
  change (begWord EXCLAM) with false. change (EXCLAM =? SLASH) with false.
  change (EXCLAM =? EXCLAM) with true. cbn iota.
  change (starts (js "--") (js "[CDATA[" ++ d ++ js "]]>" ++ rest)) with false.
  change (starts (js "[CDATA[") (js "[CDATA[" ++ d ++ js "]]>" ++ rest))
    with true.
  cbn iota.
  change (skipn 7 (js "[CDATA[" ++ d ++ js "]]>" ++ rest))
    with (d ++ js "]]>" ++ rest).
  rewrite indexOf_cdata_end by assumption. reflexivity.
Qed.

Lemma render_head : forall x,
  wf_doc x = true ->
  exists c more, render x = LT :: c :: more /\ begWord c = true.
Proof.
  intros x H.
  assert (Ht : is_name (xtag x) = true).
  { destruct x; cbn [wf_doc] in H;
      repeat (apply andb_true_iff in H; destruct H as [H ?]); assumption. }
  destruct (is_name_inv _ Ht) as (c & w & E & Hc & _).
  destruct x; cbn [xtag] in E; subst tag; cbn [render app];
    eexists _, _; split; try reflexivity; assumption.
Qed.

Lemma eatSpaces_children : forall cs post,
  forallb wf_doc cs = true -> eatSpaces post = post ->
  eatSpaces (flat_map render cs ++ post) = flat_map render cs ++ post.
Proof.
  intros [|c cs] post H Hp; [exact Hp|].
  cbn [forallb] in H. apply andb_true_iff in H. destruct H as [Hc _].
  destruct (render_head c Hc) as (ch & more & E & _).
  cbn [flat_map]. rewrite E. cbn [app]. now apply eatSpaces_id.
Qed.

Lemma wf_doc_parts : forall x,
  wf_doc x = true ->
  is_name (xtag x) = true /\ forallb attr_ok (xattrs x) = true
  /\ nodupb (map fst (xattrs x)) = true.
Proof.
  intros x H. destruct x; cbn [wf_doc] in H;
    apply andb_true_iff in H; destruct H as [H _];
    apply andb_true_iff in H; destruct H as [H H3];
    apply andb_true_iff in H; destruct H as [H1 H2];
    apply andb_true_iff in H3; tauto.
Qed.

Lemma wf_doc_own : forall x,
  wf_doc x = true ->
  inherited (xtag x) = false
  /\ forallb (fun av => negb (inherited (fst av))) (xattrs x) = true.
Proof.
  intros x H. destruct x; cbn [wf_doc] in H;
    apply andb_true_iff in H; destruct H as [H _];
    apply andb_true_iff in H; destruct H as [_ H];
    apply andb_true_iff in H; destruct H as [_ H];
    unfold own_names in H; apply andb_true_iff in H; destruct H as [H1 H2];
    apply negb_true_iff in H1; tauto.
Qed.

(** After the attributes comes a slash or a [>]. *)
Lemma attrs_tail_ok : forall a tail,
  match tail with [] => False | r :: _ => inWord r = false end ->
  match renderAttrs a ++ tail with [] => True | r :: _ => inWord r = false end.
Proof.
  intros [|[k v] a] tail H.
  - cbn [renderAttrs flat_map app]. destruct tail; [contradiction | exact H].
  - reflexivity.
Qed.

(** The scan of the children of an element, given the scan of each. *)
Lemma scan_children : forall cs,
  Forall (fun c => wf_doc c = true ->
            forall post bld,
              mainLoop' (render c ++ post) bld =
              (bld' <- feed c bld ;; mainLoop' (eatSpaces post) bld')) cs ->
  forallb wf_doc cs = true ->
  forall post bld,
    eatSpaces post = post ->
    mainLoop' (flat_map render cs ++ post) bld =
    (bld' <- feedAll cs bld ;; mainLoop' post bld').
Proof.
  induction cs as [|c cs IH]; intros HF Hwf post bld Hp; [reflexivity|].
  inversion HF as [|? ? Hc Hcs]; subst.
  cbn [forallb] in Hwf. apply andb_true_iff in Hwf. destruct Hwf as [Hw1 Hw2].
  cbn [flat_map feedAll]. rewrite <- app_assoc. rewrite Hc by assumption.
  destruct (feed c bld) as [b1| | |]; try reflexivity. cbn [bind].
  rewrite eatSpaces_children by assumption. now apply IH.
Qed.

(** One turn of the main loop on each kind of tag.  The input is given up
    to conversion, by an equation that [reflexivity] proves. *)
Lemma mainLoop'_open : forall (inp t tail : jstring) bld,
  inp = [LT] ++ t ++ tail ->
  is_name t = true ->
  match tail with [] => True | r :: _ => inWord r = false end ->
  mainLoop' inp bld =
  (b1 <- Builder.push t bld ;;
   '(inp', b') <- tagLoop' tail b1 ;;
   mainLoop' (eatSpaces inp') b').
Proof.
  intros inp t tail bld -> Ht Htail.
  rewrite mainLoop'_step by discriminate.
  cbn [app]. rewrite step_open by assumption.
  destruct (Builder.push t bld); reflexivity.
Qed.

Lemma mainLoop'_close : forall (inp t post : jstring) bld,
  inp = js "</" ++ t ++ [GT] ++ post ->
  is_name t = true ->
  mainLoop' (eatSpaces inp) bld =
  (bld' <- Builder.pop (Some t) bld ;; mainLoop' (eatSpaces post) bld').
Proof.
  intros inp t post bld -> Ht.
  change (js "</" ++ t ++ [GT] ++ post) with (LT :: (SLASH :: t ++ [GT] ++ post)).
  rewrite eatSpaces_id by reflexivity.
  rewrite mainLoop'_step by discriminate.
  change (LT :: (SLASH :: t ++ [GT] ++ post)) with (js "</" ++ t ++ [GT] ++ post).
  rewrite step_close by assumption.
  destruct (Builder.pop (Some t) bld); reflexivity.
Qed.

Lemma mainLoop'_cdata : forall (inp d rest : jstring) bld,
  inp = js "<![CDATA[" ++ d ++ js "]]>" ++ rest ->
  has (js "]]>") d = false ->
  mainLoop' (eatSpaces inp) bld =
  (bld' <- Builder.cdata (VStr d) bld ;; mainLoop' (eatSpaces rest) bld').
Proof.
  intros inp d rest bld -> Hd.
  change (js "<![CDATA[" ++ d ++ js "]]>" ++ rest)
    with (LT :: (EXCLAM :: js "[CDATA[" ++ d ++ js "]]>" ++ rest)).
  rewrite eatSpaces_id by reflexivity.
  rewrite mainLoop'_step by discriminate.
  change (LT :: (EXCLAM :: js "[CDATA[" ++ d ++ js "]]>" ++ rest))
    with (js "<![CDATA[" ++ d ++ js "]]>" ++ rest).
  rewrite step_cdata by assumption.
  destruct (Builder.cdata (VStr d) bld); try reflexivity.
  cbn [bind]. now rewrite eatSpaces_idem.
Qed.

Lemma tagLoop'_text : forall (inp s more : jstring) bld,
  inp = [GT] ++ escape (VStr s) ++ js "</" ++ more ->
  is_jstring s = true ->
  tagLoop' inp bld =
  (bld' <- Builder.value (VStr s) bld ;; Ok (js "</" ++ more, bld')).
Proof.
  intros inp s more bld -> Hs. cbn [app]. rewrite tagLoop'_gt.
  now apply content_text.
Qed.

Lemma tagLoop'_no_text : forall inp c more bld,
  inp = GT :: LT :: c :: more ->
  c <> SLASH -> starts (js "<!--") (LT :: c :: more) = false ->
  tagLoop' inp bld = Ok (LT :: c :: more, bld).
Proof.
  intros inp c more bld -> Hc Hs. rewrite tagLoop'_gt.
  now apply content_none.
Qed.

(** The scanner makes, for the text of a document, the calls of [feed]. *)
Lemma scan_render : forall x,
  wf_doc x = true ->
  forall post bld,
    mainLoop' (render x ++ post) bld =
    (bld' <- feed x bld ;; mainLoop' (eatSpaces post) bld').
Proof.
  induction x as [t a|t a s|t a d|t a cs IH] using xml_rect';
    intros Hwf post bld;
    destruct (wf_doc_parts _ Hwf) as (Ht & Ha & Hnd); cbn [xtag xattrs] in *.
  - cbn [render feed]. rewrite <- !app_assoc.
    rewrite (mainLoop'_open _ t (renderAttrs a ++ js "/>" ++ post) bld eq_refl Ht)
      by (now apply attrs_tail_ok).
    destruct (Builder.push t bld) as [b1| | |]; try reflexivity. cbn [bind].
    rewrite tagLoop'_attrs by assumption.
    destruct (feedAttrs a b1) as [b2| | |]; try reflexivity. cbn [bind].
    rewrite tagLoop'_selfclose.
    destruct (Builder.pop None b2) as [b3| | |]; reflexivity.
  - assert (Hs : is_jstring s = true).
    { cbn [wf_doc] in Hwf. apply andb_true_iff in Hwf. tauto. }
    cbn [render feed]. rewrite <- !app_assoc.
    rewrite (mainLoop'_open _ t
               (renderAttrs a ++ [GT] ++ escape (VStr s) ++ js "</" ++ t ++ [GT] ++ post)
               bld eq_refl Ht)
      by (now apply attrs_tail_ok).
    destruct (Builder.push t bld) as [b1| | |]; try reflexivity. cbn [bind].
    rewrite tagLoop'_attrs by assumption.
    destruct (feedAttrs a b1) as [b2| | |]; try reflexivity. cbn [bind].
    rewrite (tagLoop'_text _ s (t ++ [GT] ++ post) b2 eq_refl Hs).
    destruct (Builder.value (VStr s) b2) as [b3| | |]; try reflexivity.
    cbn [bind]. apply (mainLoop'_close _ t post b3 eq_refl Ht).
  - assert (Hd : has (js "]]>") d = false).
    { cbn [wf_doc] in Hwf. apply andb_true_iff in Hwf.
      destruct Hwf as [_ Hwf]. now apply negb_true_iff. }
    cbn [render feed]. rewrite <- !app_assoc.
    rewrite (mainLoop'_open _ t
               (renderAttrs a ++ [GT] ++ js "<![CDATA[" ++ d ++ js "]]>"
                ++ js "</" ++ t ++ [GT] ++ post)
               bld eq_refl Ht)
      by (now apply attrs_tail_ok).
    destruct (Builder.push t bld) as [b1| | |]; try reflexivity. cbn [bind].
    rewrite tagLoop'_attrs by assumption.
    destruct (feedAttrs a b1) as [b2| | |]; try reflexivity. cbn [bind].
    rewrite (tagLoop'_no_text
               ([GT] ++ js "<![CDATA[" ++ d ++ js "]]>" ++ js "</" ++ t ++ [GT] ++ post)
               EXCLAM
               (js "[CDATA[" ++ d ++ js "]]>" ++ js "</" ++ t ++ [GT] ++ post)
               b2 eq_refl)
      by (discriminate || reflexivity).
    cbn [bind].
    rewrite (mainLoop'_cdata
               (LT :: EXCLAM
                :: js "[CDATA[" ++ d ++ js "]]>" ++ js "</" ++ t ++ [GT] ++ post)
               d (js "</" ++ t ++ [GT] ++ post) b2 eq_refl Hd).
    destruct (Builder.cdata (VStr d) b2) as [b3| | |]; try reflexivity.
    cbn [bind]. apply (mainLoop'_close _ t post b3 eq_refl Ht).
  - assert (Hcs : cs <> [] /\ forallb wf_doc cs = true).
    { cbn [wf_doc] in Hwf. apply andb_true_iff in Hwf. destruct Hwf as [_ Hwf].
      destruct cs; [discriminate|]. split; [discriminate | exact Hwf]. }
    destruct Hcs as [Hne Hcs].
    rewrite feed_XNode. cbn [render]. rewrite <- !app_assoc.
    rewrite (mainLoop'_open _ t
               (renderAttrs a ++ [GT] ++ flat_map render cs
                ++ js "</" ++ t ++ [GT] ++ post)
               bld eq_refl Ht)
      by (now apply attrs_tail_ok).
    destruct (Builder.push t bld) as [b1| | |]; try reflexivity. cbn [bind].
    rewrite tagLoop'_attrs by assumption.
    destruct (feedAttrs a b1) as [b2| | |]; try reflexivity. cbn [bind].
    assert (Hhead : exists ch more,
              flat_map render cs ++ js "</" ++ t ++ [GT] ++ post
              = LT :: ch :: more /\ begWord ch = true).
    { destruct cs as [|c cs]; [contradiction|].
      cbn [forallb] in Hcs. apply andb_true_iff in Hcs. destruct Hcs as [Hc _].
      destruct (render_head c Hc) as (ch & more & E & Hch).
      cbn [flat_map]. rewrite E. cbn [app]. eauto. }
    destruct Hhead as (ch & more & Ehead & Hch).
    destruct (begWord_facts _ Hch) as (Hsp & _ & Hsl & _ & Hex & _).
    rewrite (tagLoop'_no_text _ ch more b2).
    2:{ cbn [app]. f_equal. exact Ehead. }
    2:{ exact Hsl. }
    2:{ cbn -[Z.eqb]. apply Z.eqb_neq in Hex. rewrite Z.eqb_sym in Hex.
        change 33%Z with EXCLAM. rewrite Hex. now rewrite andb_false_r. }
    cbn [bind]. rewrite eatSpaces_id by reflexivity. rewrite <- Ehead.
    rewrite scan_children; [|assumption|assumption|reflexivity].
    destruct (feedAll cs b2) as [b3| | |]; try reflexivity. cbn [bind].
    rewrite <- (mainLoop'_close _ t post b3 eq_refl Ht). reflexivity.
Qed.

Local Close Scope Z_scope.

(** ** [parse] on the text of a document *)

Lemma is_name_key_ok : forall t, is_name t = true -> key_ok t = true.
Proof.
  intros t H. destruct (is_name_inv _ H) as (c & w & -> & Hc & _).
  destruct (begWord_facts _ Hc) as (_ & _ & _ & _ & _ & _ & Hd & _).
  unfold key_ok. cbn. apply Z.eqb_neq in Hd. now rewrite Hd.
Qed.

Lemma wf_doc_events : forall x, wf_doc x = true -> wf_events x = true.
Proof.
  induction x as [t a|t a s|t a d|t a cs IH] using xml_rect'; intro H;
    destruct (wf_doc_parts _ H) as (Ht & _ & Hnd);
    destruct (wf_doc_own _ H) as (Hot & Hoa); cbn [xtag xattrs] in *;
    cbn [wf_events xtag xattrs]; unfold own_names; cbn [xtag xattrs];
    rewrite (is_name_key_ok _ Ht), Hnd, Hot, Hoa;
    try reflexivity.
  cbn [andb negb]. cbn [wf_doc] in H. apply andb_true_iff in H. destruct H as [_ H].
  destruct cs as [|c cs]; [discriminate|].
  rewrite forallb_forall in *. rewrite Forall_forall in IH.
  intros x Hx. apply IH; auto.
Qed.

Lemma accepting_root : accepting root.
Proof. split; reflexivity. Qed.

(** [parse] returns the shape of the document whose text it reads. *)
Lemma parse_render : forall x,
  wf_doc x = true -> parse (render x) = Ok (VObj [(xtag x, shape x)]).
Proof.
  intros x H. unfold parse.
  destruct (render_head x H) as (c & more & E & _).
  assert (Ei : indexOf [LT] (render x) = Some ([], render x)).
  { rewrite E. cbn [indexOf starts]. now rewrite Z.eqb_refl. }
  rewrite Ei. fold (mainLoop' (render x) builder_init).
  rewrite <- (app_nil_r (render x)), scan_render by assumption.
  rewrite feed_shape; [|now apply wf_doc_events | exact accepting_root].
  reflexivity.
Qed.

Lemma occurrences_map : forall k cs,
  occurrences k (map (fun c => (xtag c, shape c)) cs) =
  map shape (filter (fun c => str_eqb (xtag c) k) cs).
Proof.
  intros k cs. unfold occurrences. induction cs as [|c cs IH]; [reflexivity|].
  cbn [map filter fst]. destruct (str_eqb (xtag c) k); cbn [map snd];
    now rewrite IH.
Qed.

Lemma get_group : forall kvs k,
  get (group kvs) k = slot (occurrences k kvs).
Proof.
  intros kvs k. unfold group. rewrite get_map_keys.
  destruct (existsb (str_eqb k) (distinct (map fst kvs))) eqn:E; [reflexivity|].
  assert (Hk : ~ In k (map fst kvs)).
  { intro H. apply distinct_In in H. apply existsb_str_eqb in H. congruence. }
  apply occurrences_nil_iff in Hk. now rewrite Hk.
Qed.

Lemma key_ok_not_attrs : forall a k,
  key_ok k = true -> ~ In k (map fst (attrsV a)).
Proof.
  intros a k Hk Hin. apply key_ok_not_special in Hk.
  destruct a; cbn in Hin; [contradiction|].
  destruct Hin as [Hin|[]]. symmetry in Hin. tauto.
Qed.

(** C4. Under one parent, a tag name that occurs once holds the node of
    that child, never a sequence, and a tag name that occurs twice or more
    holds the sequence of the nodes of its children in document order;
    nothing but the number of occurrences decides.  This is what [parse]
    returns for the text of an element with the children [cs], each child
    having the node that [parse] returns for it alone; and it is what the
    builder makes of the children, whatever element they are fed to.
    The names of the document are no names of [Object.prototype]
    ([wf_doc]): under such a name, [valueOf] say, [push] finds in
    [elt[tag]] the function that every object inherits and makes a
    sequence that begins with it, for a tag that occurs once; the model
    has no tree for that. *)
Theorem repeated_tags_by_cardinality
  (t : jstring) (a : list (jstring * jstring)) (cs : list xml)
  (Hwf : wf_doc (XNode t a cs) = true) :
  exists props,
    parse (render (XNode t a cs)) = Ok (VObj [(t, VObj props)])
    /\ (forall k, key_ok k = true ->
          get props k =
          match filter (fun c => str_eqb (xtag c) k) cs with
          | [] => VUndefined
          | [c] => shape c
          | l => VArr (map shape l)
          end)
    /\ (forall c, In c cs ->
          isArray (shape c) = false
          /\ parse (render c) = Ok (VObj [(xtag c, shape c)]))
    /\ (forall tg idx a' ps o,
          exists e',
            feedAll cs (mkBuilder (mkElement tg idx 0 (attrsV a')) ps o)
            = Ok (mkBuilder e' ps o)
            /\ e_childCount e' = List.length cs
            /\ forall k, key_ok k = true ->
                 get (e_props e') k =
                 slot (map shape (filter (fun c => str_eqb (xtag c) k) cs)))
    /\ parse (js "<a><valueOf>1</valueOf></a>") = Unmodelled.
Proof.
  assert (Hcs : forallb wf_doc cs = true).
  { cbn [wf_doc] in Hwf. apply andb_true_iff in Hwf. destruct Hwf as [_ Hwf].
    destruct cs; [discriminate | exact Hwf]. }
  exists (attrsV a ++ group (map (fun c => (xtag c, shape c)) cs)).
  split; [|split; [|split; [|split; [|vm_compute; reflexivity]]]].
  - now rewrite parse_render.
  - intros k Hk. rewrite get_app_r by (now apply key_ok_not_attrs).
    rewrite get_group, occurrences_map.
    destruct (filter _ cs) as [|c [|c' l]]; reflexivity.
  - intros c Hc. split.
    + pose proof (shape_is_node c). now destruct (shape c).
    + apply parse_render. rewrite forallb_forall in Hcs. now apply Hcs.
  - intros tg idx a' ps o.
    assert (HF : Forall (fun x => wf_events x = true /\
                   forall b, accepting (elt b) ->
                     feed x b =
                     Ok (mkBuilder (add_child (elt b) (xtag x) (shape x))
                                   (parents b) (outside b))) cs).
    { rewrite Forall_forall. intros c Hc. rewrite forallb_forall in Hcs.
      pose proof (wf_doc_events c (Hcs c Hc)) as Hev.
      split; [exact Hev|]. intros b0 Hb0. now apply feed_shape. }
    eexists. split; [|split].
    + rewrite feedAll_fold; [reflexivity | exact HF |].
      split; cbn [elt e_props]; now rewrite get_attrsV_value by discriminate.
    + cbn [elt]. rewrite fold_add_child_eq. cbn [e_childCount]. lia.
    + intros k Hk. cbn [elt]. rewrite fold_add_child_eq. cbn [e_props].
      pose proof (fold_insert_group (attrsV a')
                    (map (fun c => (xtag c, shape c)) cs) []) as Hg.
      change (group []) with (@nil (jstring * value)) in Hg.
      rewrite app_nil_r in Hg. cbn [app] in Hg. rewrite Hg.
      * rewrite get_app_r by (now apply key_ok_not_attrs).
        now rewrite get_group, occurrences_map.
      * intros kv Hkv. apply in_map_iff in Hkv. destruct Hkv as (c & <- & Hc).
        cbn [fst]. apply key_ok_not_attrs.
        rewrite forallb_forall in Hcs.
        apply wf_events_key, wf_doc_events, Hcs, Hc.
      * rewrite forallb_forall. intros kv Hkv. apply in_map_iff in Hkv.
        destruct Hkv as (c & <- & Hc). apply shape_is_node.
Qed.

Lemma repeated_tags_by_cardinality_witness :
  let cs := [XText (js "b") [] (js "3"); XEmpty (js "c") [];
             XText (js "b") [] (js "4")] in
  wf_doc (XNode (js "a") [] cs) = true /\
  exists props,
    parse (js "<a><b>3</b><c/><b>4</b></a>") = Ok (VObj [(js "a", VObj props)])
    /\ get props (js "b") = VArr [VStr (js "3"); VStr (js "4")]
    /\ get props (js "c") = VObj [].
Proof.
  intro cs. split; [reflexivity|].
  destruct (repeated_tags_by_cardinality (js "a") [] cs eq_refl)
    as (props & Hp & Hk & _ & _ & _).
  exists props. split; [exact Hp|]. split.
  - exact (Hk (js "b") eq_refl).
  - exact (Hk (js "c") eq_refl).
Defined.

(** ** [stringify] on the shape of a document *)

(** The formatter state after writing [s]. *)
Definition emit (st : fstate) (s : jstring) : fstate :=
  mkFstate (f_str st ++ s) (f_depth st).

Fixpoint strfyEach (l : list value) (tag : jstring) (st : fstate)
  : result fstate :=
  match l with
  | [] => Ok st
  | child :: l' => st' <- strfy None child tag st ;; strfyEach l' tag st'
  end.

Fixpoint strfyKids (o : object) (st : fstate) : result fstate :=
  match o with
  | [] => Ok st
  | (key, v) :: o' =>
      if is_dollar key then strfyKids o' st
      else st' <- strfy None v key st ;; strfyKids o' st'
  end.

Lemma strfy_VArr : forall l tag st,
  strfy None (VArr l) tag st = strfyEach l tag st.
Proof.
  induction l as [|c l IH]; intros tag st; [reflexivity|].
  cbn [strfy strfyEach].
  destruct (strfy None c tag st) as [st'| | |]; try reflexivity.
  cbn [bind]. exact (IH tag st').
Qed.

Lemma strfyKids_eq : forall o st,
  (fix kids (o : object) (st : fstate) : result fstate :=
     match o with
     | [] => Ok st
     | (key, v) :: o' =>
         if is_dollar key then kids o' st
         else st' <- strfy None v key st ;; kids o' st'
     end) o st = strfyKids o st.
Proof.
  reflexivity.
Qed.

Lemma strfy_VObj : forall o tag st,
  strfy None (VObj o) tag st =
  let st := addAttributes (get o (js "$")) (beginTag None tag st) in
  let keys := filter (fun kv => negb (is_dollar (fst kv))) o in
  let val := get o (js "$value") in
  let data := get o (js "$cdata") in
  if defined val then
    match keys with
    | _ :: _ => Throw "cannot mix $value and $children"
    | [] =>
        if truthy data then Throw "cannot mix $value and $cdata"
        else
          match val with
          | VNull => Ok (nil_tag st)
          | _ => Ok (closeTag None tag val (endTag false st))
          end
    end
  else if nonnull data then
    match keys with
    | _ :: _ => Throw "cannot mix $cdata and $children"
    | [] => Ok (closeTag None tag VUndefined (fcdata data (endTag false st)))
    end
  else
    match keys with
    | _ :: _ =>
        st' <- strfyKids o (endTag false st) ;;
        Ok (closeTag None tag VUndefined st')
    | [] => Ok (endTag true st)
    end.
Proof.
  intros. cbn [strfy]. cbv zeta.
  destruct (defined (get o (js "$value"))); [reflexivity|].
  destruct (nonnull (get o (js "$cdata"))); [reflexivity|].
  destruct (filter _ o); [reflexivity|].
  now rewrite strfyKids_eq.
Qed.

Lemma emit_emit : forall st a b, emit (emit st a) b = emit st (a ++ b).
Proof. intros. unfold emit. cbn. now rewrite app_assoc. Qed.

Lemma emit_nil : forall st, emit st [] = st.
Proof. intros [s d]. unfold emit. cbn. now rewrite app_nil_r. Qed.

(** The children of a parent, one tag name after the other in the order of
    their first occurrences: the order in which [stringify] writes them. *)
Definition regroup (cs : list xml) : list xml :=
  flat_map (fun k => filter (fun c => str_eqb (xtag c) k) cs)
           (distinct (map xtag cs)).

(** A document whose siblings of one name follow one another. *)
Fixpoint canonical (x : xml) : Prop :=
  match x with
  | XNode _ _ cs =>
      regroup cs = cs
      /\ (fix all (cs : list xml) : Prop :=
            match cs with
            | [] => True
            | c :: cs' => canonical c /\ all cs'
            end) cs
  | _ => True
  end.

Lemma canonical_children : forall t a cs,
  canonical (XNode t a cs) -> regroup cs = cs /\ Forall canonical cs.
Proof.
  intros t a cs [H1 H2]. split; [exact H1|]. clear H1.
  induction cs as [|c cs IH]; constructor; destruct H2; auto.
Qed.

Lemma addAttributes_attrs : forall a st,
  addAttributes
    (match a with
     | [] => VUndefined
     | _ => VObj (map (fun av : jstring * jstring => (fst av, VStr (snd av))) a)
     end) st
  = emit st (renderAttrs a).
Proof.
  intros [|a0 a] st; [now rewrite emit_nil|].
  unfold addAttributes. cbn [truthy entries].
  generalize (a0 :: a) as l. clear. intro l. revert st.
  induction l as [|[k v] l IH]; intro st; [now rewrite emit_nil|].
  cbn [map fold_left fst snd nonnull]. rewrite IH.
  unfold addAttribute, renderAttrs. cbn [flat_map fst snd].
  fold (renderAttrs l). unfold emit. cbn [f_str f_depth].
  now rewrite <- !app_assoc.
Qed.

Lemma get_dollar_attrsV : forall a body,
  ~ In (js "$") (map fst body) ->
  get (attrsV a ++ body) (js "$") =
  match a with
  | [] => VUndefined
  | _ => VObj (map (fun av : jstring * jstring => (fst av, VStr (snd av))) a)
  end.
Proof.
  intros [|a0 a] body H.
  - cbn [attrsV app]. now apply get_absent.
  - reflexivity.
Qed.

Lemma strfyEach_children : forall l k st,
  (forall c, In c l -> xtag c = k /\
     forall st, strfy None (shape c) k st = Ok (emit st (render c))) ->
  strfyEach (map shape l) k st = Ok (emit st (flat_map render l)).
Proof.
  induction l as [|c l IH]; intros k st H; [now rewrite emit_nil|].
  cbn [map strfyEach flat_map].
  destruct (H c (or_introl eq_refl)) as [_ Hc]. rewrite Hc. cbn [bind].
  rewrite IH by (intros; apply H; now right). now rewrite emit_emit.
Qed.

Lemma strfy_slot : forall l k st,
  l <> [] ->
  (forall c, In c l -> xtag c = k /\
     forall st, strfy None (shape c) k st = Ok (emit st (render c))) ->
  strfy None (slot (map shape l)) k st = Ok (emit st (flat_map render l)).
Proof.
  intros [|c [|c' l]] k st Hne H; [contradiction| |].
  - cbn [map slot flat_map]. rewrite app_nil_r.
    now apply (H c (or_introl eq_refl)).
  - change (slot (map shape (c :: c' :: l))) with (VArr (map shape (c :: c' :: l))).
    rewrite strfy_VArr. now apply strfyEach_children.
Qed.

Lemma strfyKids_group : forall cs ks st,
  (forall c, In c cs ->
     key_ok (xtag c) = true /\
     forall st, strfy None (shape c) (xtag c) st = Ok (emit st (render c))) ->
  (forall k, In k ks -> In k (map xtag cs)) ->
  strfyKids
    (map (fun k => (k, slot (occurrences k (map (fun c => (xtag c, shape c)) cs))))
         ks) st
  = Ok (emit st (flat_map render
                   (flat_map (fun k => filter (fun c => str_eqb (xtag c) k) cs) ks))).
Proof.
  intros cs. induction ks as [|k ks IH]; intros st Hcs Hks;
    [now rewrite emit_nil|].
  cbn [map strfyKids flat_map].
  assert (Hin : In k (map xtag cs)) by (apply Hks; now left).
  apply in_map_iff in Hin. destruct Hin as (c0 & Ek & Hc0).
  destruct (Hcs c0 Hc0) as [Hk0 _]. rewrite Ek in Hk0.
  assert (Hd : is_dollar k = false).
  { unfold key_ok in Hk0. apply andb_true_iff in Hk0.
    now apply negb_true_iff. }
  rewrite Hd, occurrences_map.
  rewrite strfy_slot.
  - cbn [bind]. rewrite IH; [|assumption | intros; apply Hks; now right].
    now rewrite emit_emit, flat_map_app.
  - intro E. assert (Hf : In c0 (filter (fun c => str_eqb (xtag c) k) cs)).
    { apply filter_In. split; [assumption|]. rewrite Ek. apply str_eqb_refl. }
    rewrite E in Hf. contradiction.
  - intros c Hc. apply filter_In in Hc. destruct Hc as [Hc E].
    apply str_eqb_eq in E. split; [exact E|].
    destruct (Hcs c Hc) as [_ Hs]. now rewrite <- E.
Qed.

Lemma strfyKids_skip_attrs : forall a body st,
  strfyKids (attrsV a ++ body) st = strfyKids body st.
Proof. intros [|a0 a] body st; reflexivity. Qed.

Lemma filter_keys_attrs : forall a body,
  filter (fun kv : jstring * value => negb (is_dollar (fst kv))) (attrsV a ++ body)
  = filter (fun kv => negb (is_dollar (fst kv))) body.
Proof. intros [|a0 a] body; reflexivity. Qed.

Lemma group_keys_ok : forall cs,
  (forall c, In c cs -> key_ok (xtag c) = true) ->
  forall kv, In kv (group (map (fun c => (xtag c, shape c)) cs)) ->
  key_ok (fst kv) = true.
Proof.
  intros cs H kv Hin. unfold group in Hin. apply in_map_iff in Hin.
  destruct Hin as (k & <- & Hk). cbn [fst]. apply -> distinct_In in Hk.
  rewrite map_map in Hk. cbn [fst] in Hk. apply in_map_iff in Hk.
  destruct Hk as (c & <- & Hc). now apply H.
Qed.

Lemma not_in_attrsV : forall a k,
  k <> js "$" -> ~ In k (map fst (attrsV a)).
Proof.
  intros [|a0 a] k H; cbn [attrsV map fst In]; [tauto|].
  intros [E|[]]. now apply H.
Qed.

(** An element without children. *)
Lemma strfy_leaf : forall a body tag st,
  ~ In (js "$") (map fst body) ->
  filter (fun kv : jstring * value => negb (is_dollar (fst kv))) body = [] ->
  strfy None (VObj (attrsV a ++ body)) tag st =
  let st := emit (beginTag None tag st) (renderAttrs a) in
  let val := get body (js "$value") in
  let data := get body (js "$cdata") in
  if defined val then
    if truthy data then Throw "cannot mix $value and $cdata"
    else
      match val with
      | VNull => Ok (nil_tag st)
      | _ => Ok (closeTag None tag val (endTag false st))
      end
  else if nonnull data then
    Ok (closeTag None tag VUndefined (fcdata data (endTag false st)))
  else Ok (endTag true st).
Proof.
  intros a body tag st Hb Hf. rewrite strfy_VObj. cbv zeta.
  rewrite get_dollar_attrsV by assumption.
  rewrite filter_keys_attrs, addAttributes_attrs, Hf.
  rewrite !get_app_r by (apply not_in_attrsV; discriminate).
  reflexivity.
Qed.

(** [stringify] writes the text of a canonical document from its shape. *)
Lemma strfy_shape : forall x,
  wf_doc x = true -> canonical x ->
  forall st, strfy None (shape x) (xtag x) st = Ok (emit st (render x)).
Proof.
  induction x as [t a|t a s|t a d|t a cs IH] using xml_rect';
    intros Hwf Hcan st; cbn [xtag shape].
  - rewrite <- (app_nil_r (attrsV a)).
    rewrite strfy_leaf by (cbn; tauto). cbv zeta. cbn [get defined nonnull].
    unfold endTag, emit, beginTag. cbn [indent_on f_str f_depth render Nat.pred].
    now rewrite <- !app_assoc.
  - destruct a as [|a0 a].
    + cbn [strfy]. unfold closeTag, endTag, emit, beginTag.
      cbn [indent_on f_str f_depth render Nat.pred nonnull renderAttrs flat_map app].
      now rewrite <- !app_assoc.
    + rewrite strfy_leaf.
      2:{ cbn. intros [H|[]]. discriminate H. }
      2:{ reflexivity. }
      cbv zeta. change (get [(js "$value", VStr s)] (js "$value")) with (VStr s).
      change (get [(js "$value", VStr s)] (js "$cdata")) with VUndefined.
      cbn [defined truthy].
      unfold closeTag, endTag, emit, beginTag.
      cbn [indent_on f_str f_depth Nat.pred nonnull render].
      f_equal. f_equal. now rewrite <- !app_assoc.
  - rewrite strfy_leaf.
    2:{ cbn. intros [H|[]]. discriminate H. }
    2:{ reflexivity. }
    cbv zeta. change (get [(js "$cdata", VStr d)] (js "$value")) with VUndefined.
    change (get [(js "$cdata", VStr d)] (js "$cdata")) with (VStr d).
    cbn [defined nonnull].
    unfold closeTag, fcdata, endTag, emit, beginTag.
    cbn [indent_on f_str f_depth Nat.pred nonnull toString render].
    f_equal. f_equal. now rewrite <- !app_assoc.
  - destruct (canonical_children _ _ _ Hcan) as [Hre Hcc].
    assert (Hcs : cs <> [] /\ forallb wf_doc cs = true).
    { cbn [wf_doc] in Hwf. apply andb_true_iff in Hwf. destruct Hwf as [_ Hwf].
      destruct cs; [discriminate|]. split; [discriminate | exact Hwf]. }
    destruct Hcs as [Hne Hcs].
    assert (Hkeys : forall c, In c cs -> key_ok (xtag c) = true).
    { intros c Hc. rewrite forallb_forall in Hcs.
      apply wf_events_key, wf_doc_events, Hcs, Hc. }
    set (kvs := map (fun c => (xtag c, shape c)) cs).
    assert (Hg : forall k, key_ok k = false ->
               ~ In k (map fst (group kvs))).
    { intros k Hk Hin. apply in_map_iff in Hin. destruct Hin as (kv & <- & Hin).
      apply (group_keys_ok cs Hkeys) in Hin. congruence. }
    rewrite strfy_VObj. cbv zeta.
    rewrite get_dollar_attrsV by (now apply Hg).
    rewrite filter_keys_attrs, addAttributes_attrs.
    rewrite !get_app_r.
    2,3: (destruct a; cbn; [tauto|]; intros [H|[]]; discriminate H).
    rewrite !get_absent by (now apply Hg). cbn [defined nonnull].
    assert (Hfilter : filter (fun kv : jstring * value => negb (is_dollar (fst kv)))
                        (group kvs) = group kvs).
    { apply forallb_filter_id. rewrite forallb_forall. intros kv Hin.
      apply (group_keys_ok cs Hkeys) in Hin. unfold key_ok in Hin.
      apply andb_true_iff in Hin. tauto. }
    rewrite Hfilter.
    assert (Hgne : group kvs <> []).
    { unfold group, kvs. rewrite map_map. cbn [fst].
      destruct cs as [|c cs]; [contradiction|]. discriminate. }
    destruct (group kvs) as [|g0 gs] eqn:Eg; [contradiction|]. rewrite <- Eg.
    rewrite strfyKids_skip_attrs. unfold group, kvs. rewrite map_map. cbn [fst].
    rewrite strfyKids_group.
    + cbn [bind].
      change (flat_map (fun k : jstring =>
                          filter (fun c : xml => str_eqb (xtag c) k) cs)
                (distinct (map (fun x : xml => xtag x) cs)))
        with (regroup cs).
      rewrite Hre.
      unfold closeTag, endTag, emit, beginTag.
      cbn [indent_on f_str f_depth Nat.pred nonnull render].
      f_equal. f_equal. now rewrite <- !app_assoc.
    + intros c Hc. split; [now apply Hkeys|].
      rewrite Forall_forall in IH, Hcc. rewrite forallb_forall in Hcs.
      intro st0. apply IH; auto.
    + intros k Hk. apply -> distinct_In in Hk. exact Hk.
Qed.

(** ** Siblings in any order *)

(** The document with the siblings of one name brought together, at every
    level: the document whose text [stringify] writes. *)
Fixpoint canon (x : xml) : xml :=
  match x with
  | XNode t a cs => XNode t a (regroup (map canon cs))
  | _ => x
  end.

Lemma xtag_canon : forall x, xtag (canon x) = xtag x.
Proof. destruct x; reflexivity. Qed.

Lemma xattrs_canon : forall x, xattrs (canon x) = xattrs x.
Proof. destruct x; reflexivity. Qed.

Lemma In_regroup : forall l c, In c (regroup l) <-> In c l.
Proof.
  intros l c. unfold regroup. rewrite in_flat_map. split.
  - intros (k & _ & H). now apply filter_In in H.
  - intro H. exists (xtag c). split.
    + apply distinct_In. now apply in_map.
    + apply filter_In. split; [assumption | apply str_eqb_refl].
Qed.

Lemma filter_filter_tag : forall (cs : list xml) k k0,
  filter (fun c => str_eqb (xtag c) k)
    (filter (fun c => str_eqb (xtag c) k0) cs)
  = if str_eqb k k0 then filter (fun c => str_eqb (xtag c) k) cs else [].
Proof.
  induction cs as [|c cs IH]; intros k k0.
  - now destruct (str_eqb k k0).
  - cbn [filter].
    destruct (str_eqb (xtag c) k0) eqn:E0; cbn [filter];
      destruct (str_eqb (xtag c) k) eqn:E1; rewrite IH;
      destruct (str_eqb k k0) eqn:E2; try reflexivity; exfalso;
      rewrite ?str_eqb_eq, ?str_eqb_neq in *; congruence.
Qed.

Lemma filter_select : forall (cs : list xml) ks k,
  NoDup ks ->
  filter (fun c => str_eqb (xtag c) k)
    (flat_map (fun k' => filter (fun c => str_eqb (xtag c) k') cs) ks)
  = if existsb (str_eqb k) ks
    then filter (fun c => str_eqb (xtag c) k) cs else [].
Proof.
  intros cs ks k. induction ks as [|k0 ks IH]; intro Hnd; [reflexivity|].
  inversion Hnd as [|? ? Hk0 Hnd']; subst.
  cbn [flat_map existsb]. rewrite filter_app, filter_filter_tag, IH by assumption.
  destruct (str_eqb k k0) eqn:E; [|reflexivity].
  apply str_eqb_eq in E. subst k0. cbn [orb].
  destruct (existsb (str_eqb k) ks) eqn:Ex.
  - apply existsb_str_eqb in Ex. contradiction.
  - apply app_nil_r.
Qed.

Lemma filter_absent_tag : forall (cs : list xml) k,
  ~ In k (map xtag cs) -> filter (fun c => str_eqb (xtag c) k) cs = [].
Proof.
  induction cs as [|c cs IH]; intros k H; [reflexivity|].
  cbn [filter]. destruct (str_eqb (xtag c) k) eqn:E.
  - apply str_eqb_eq in E. exfalso. apply H. now left.
  - apply IH. intro Hin. apply H. now right.
Qed.

Lemma filter_regroup : forall cs k,
  filter (fun c => str_eqb (xtag c) k) (regroup cs)
  = filter (fun c => str_eqb (xtag c) k) cs.
Proof.
  intros cs k. unfold regroup. rewrite filter_select by apply distinct_NoDup.
  destruct (existsb (str_eqb k) (distinct (map xtag cs))) eqn:Ex; [reflexivity|].
  symmetry. apply filter_absent_tag. intro Hin.
  apply distinct_In, existsb_str_eqb in Hin. congruence.
Qed.

Lemma filter_differ_twice : forall k (l : list jstring),
  filter (fun k' => negb (str_eqb k k'))
    (filter (fun k' => negb (str_eqb k k')) l)
  = filter (fun k' => negb (str_eqb k k')) l.
Proof.
  intros k l. apply forallb_filter_id. rewrite forallb_forall.
  intros x Hx. now apply filter_In in Hx.
Qed.

Lemma distinct_run : forall (l1 l2 : list jstring) k,
  l1 <> [] -> (forall x, In x l1 -> x = k) ->
  distinct (l1 ++ l2)
  = k :: filter (fun k' => negb (str_eqb k k')) (distinct l2).
Proof.
  induction l1 as [|a l1 IH]; intros l2 k Hne Hall; [contradiction|].
  assert (a = k) by (apply Hall; now left). subst a.
  destruct l1 as [|b l1]; [reflexivity|].
  change ((k :: b :: l1) ++ l2) with (k :: ((b :: l1) ++ l2)).
  cbn [distinct]. rewrite (IH l2 k).
  - cbn [filter]. rewrite str_eqb_refl. cbn [negb].
    now rewrite filter_differ_twice.
  - discriminate.
  - intros x Hx. apply Hall. now right.
Qed.

Lemma distinct_runs : forall (cs : list xml) ks,
  NoDup ks ->
  (forall k, In k ks -> In k (map xtag cs)) ->
  distinct (map xtag
    (flat_map (fun k => filter (fun c => str_eqb (xtag c) k) cs) ks)) = ks.
Proof.
  intros cs. induction ks as [|k0 ks IH]; intros Hnd Hks; [reflexivity|].
  inversion Hnd as [|? ? Hk0 Hnd']; subst.
  cbn [flat_map]. rewrite map_app.
  rewrite (distinct_run _ _ k0).
  - rewrite IH by (auto; intros; apply Hks; now right).
    f_equal. apply forallb_filter_id. rewrite forallb_forall.
    intros x Hx. apply negb_true_iff, str_eqb_neq. congruence.
  - assert (Hin : In k0 (map xtag cs)) by (apply Hks; now left).
    apply in_map_iff in Hin. destruct Hin as (c & E & Hc).
    intro Hnil.
    assert (Hf : In (xtag c)
                   (map xtag (filter (fun c => str_eqb (xtag c) k0) cs))).
    { apply in_map, filter_In. split; [assumption|]. rewrite E.
      apply str_eqb_refl. }
    rewrite Hnil in Hf. contradiction.
  - intros x Hx. apply in_map_iff in Hx. destruct Hx as (c & <- & Hc).
    apply filter_In in Hc. now apply str_eqb_eq.
Qed.

Lemma tags_regroup : forall cs,
  distinct (map xtag (regroup cs)) = distinct (map xtag cs).
Proof.
  intro cs. unfold regroup. apply distinct_runs.
  - apply distinct_NoDup.
  - intros k Hk. now apply distinct_In.
Qed.

Lemma regroup_regroup : forall cs, regroup (regroup cs) = regroup cs.
Proof.
  intro cs. unfold regroup at 1. rewrite tags_regroup.
  unfold regroup at 2. apply flat_map_ext. intro k. apply filter_regroup.
Qed.

Lemma canonical_node : forall t a cs,
  regroup cs = cs -> Forall canonical cs -> canonical (XNode t a cs).
Proof.
  intros t a cs H1 H2. split; [exact H1|]. clear H1.
  induction H2; [exact I | now split].
Qed.

Lemma canonical_canon : forall x, canonical (canon x).
Proof.
  induction x as [t a|t a s|t a d|t a cs IH] using xml_rect'; try exact I.
  cbn [canon]. apply canonical_node; [apply regroup_regroup|].
  apply Forall_forall. intros c Hc. apply In_regroup, in_map_iff in Hc.
  destruct Hc as (c' & <- & Hc'). rewrite Forall_forall in IH. now apply IH.
Qed.

Lemma wf_doc_canon : forall x, wf_doc x = true -> wf_doc (canon x) = true.
Proof.
  induction x as [t a|t a s|t a d|t a cs IH] using xml_rect';
    intro Hwf; try exact Hwf.
  cbn [canon]. cbn [wf_doc xtag xattrs] in Hwf |- *.
  unfold own_names in Hwf |- *. cbn [xtag xattrs] in Hwf |- *.
  apply andb_true_iff in Hwf. destruct Hwf as [Hhead Hcs]. rewrite Hhead.
  cbn [andb].
  destruct cs as [|c0 cs]; [discriminate|].
  assert (Hall : forallb wf_doc (regroup (map canon (c0 :: cs))) = true).
  { rewrite forallb_forall. intros c Hc. apply In_regroup, in_map_iff in Hc.
    destruct Hc as (c' & <- & Hc'). rewrite Forall_forall in IH.
    rewrite forallb_forall in Hcs. apply IH; auto. }
  destruct (regroup (map canon (c0 :: cs))) as [|r rs] eqn:E; [|exact Hall].
  assert (Hin : In (canon c0) (regroup (map canon (c0 :: cs))))
    by (apply In_regroup; now left).
  rewrite E in Hin. contradiction.
Qed.

Lemma shape_filter_canon : forall cs k,
  Forall (fun c => shape (canon c) = shape c) cs ->
  map shape (filter (fun c => str_eqb (xtag c) k) (map canon cs))
  = map shape (filter (fun c => str_eqb (xtag c) k) cs).
Proof.
  intros cs k H. induction H as [|c cs Hc _ IH]; [reflexivity|].
  cbn [map filter]. rewrite xtag_canon.
  destruct (str_eqb (xtag c) k); cbn [map]; congruence.
Qed.

(** Bringing the siblings of one name together does not change the tree. *)
Lemma shape_canon : forall x, shape (canon x) = shape x.
Proof.
  induction x as [t a|t a s|t a d|t a cs IH] using xml_rect'; try reflexivity.
  cbn [canon shape]. do 2 f_equal. unfold group. rewrite !map_map. cbn [fst].
  change (fun x : xml => xtag x) with xtag.
  rewrite tags_regroup, map_map.
  rewrite (map_ext (fun x => xtag (canon x)) xtag xtag_canon).
  apply map_ext. intro k. f_equal. f_equal.
  rewrite !occurrences_map, filter_regroup. now apply shape_filter_canon.
Qed.

(** ** Round trip *)

Lemma stringify_shape : forall d,
  wf_doc d = true -> canonical d ->
  stringify (VObj [(xtag d, shape d)]) = Ok (render d).
Proof.
  intros d Hwf Hcan. unfold stringify, stringify_with. cbn [entries].
  rewrite strfy_shape by assumption. cbn [bind]. unfold fgetResult, emit.
  cbn [f_str app].
  destruct (render_head d Hwf) as (c & more & E & _). rewrite E.
  cbn [indexOf starts]. now rewrite Z.eqb_refl.
Qed.

(** The tree that [parse] returns for a well-formed document, written back
    by [stringify]: the text of the document with the siblings of one name
    brought together. *)
Lemma stringify_tree : forall d,
  wf_doc d = true ->
  stringify (VObj [(xtag d, shape d)]) = Ok (render (canon d)).
Proof.
  intros d Hwf. rewrite <- (xtag_canon d), <- (shape_canon d).
  apply stringify_shape; [now apply wf_doc_canon | apply canonical_canon].
Qed.

(** C1, as amended.  Let [t] be the tree that [parse] returns for the text
    of a well-formed document [d].  Then [stringify t] is the compact text
    of [d] with the siblings of one name brought together, [parse] gives
    [t] back from it, and so every [x] that [stringify] returns for [t]
    satisfies [stringify (parse x) = x].  (No name of a well-formed
    document is a name of [Object.prototype].) *)
Theorem roundtrip_on_documents (d : xml) (Hwf : wf_doc d = true) :
  let t := VObj [(xtag d, shape d)] in
  parse (render d) = Ok t
  /\ stringify t = Ok (render (canon d))
  /\ forall x, stringify t = Ok x ->
       parse x = Ok t /\ (t' <- parse x ;; stringify t') = Ok x.
Proof.
  intro t. pose proof (stringify_tree d Hwf) as Hs.
  pose proof (parse_render d Hwf) as Hp.
  pose proof (parse_render (canon d) (wf_doc_canon d Hwf)) as Hc.
  rewrite xtag_canon, shape_canon in Hc. fold t in Hs, Hp, Hc.
  split; [exact Hp|]. split; [exact Hs|].
  intros x Hx. rewrite Hs in Hx. injection Hx as <-.
  split; [exact Hc|]. rewrite Hc. cbn [bind]. exact Hs.
Qed.

Lemma roundtrip_on_documents_witness :
  let d := XNode (js "a") [(js "x", js "1<2")]
             [XText (js "b") [] (js "3 & 4"); XCData (js "c") [] (js "<raw>");
              XText (js "b") [(js "y", [])] []; XEmpty (js "d") []] in
  wf_doc d = true /\
  exists x, stringify (VObj [(xtag d, shape d)]) = Ok x
            /\ (t' <- parse x ;; stringify t') = Ok x.
Proof.
  intro d.
  assert (Hwf : wf_doc d = true) by reflexivity.
  split; [exact Hwf|].
  destruct (roundtrip_on_documents d Hwf) as (_ & Hs & Hx).
  exists (render (canon d)). split; [exact Hs|]. exact (proj2 (Hx _ Hs)).
Defined.

(** C1, as stated, fails: [stringify] writes CDATA as it is, so a CDATA
    string that holds the terminator gives a text that [parse] rejects. *)
Lemma roundtrip_fails_on_cdata_terminator :
  let t := VObj [(js "a", VObj [(js "$cdata", VStr (js "]]>"))])] in
  exists x, stringify t = Ok x
            /\ x = js "<a><![CDATA[]]>]]></a>"
            /\ parse x = Throw "expected character"
            /\ (t' <- parse x ;; stringify t') <> Ok x.
Proof.
  intro t. exists (js "<a><![CDATA[]]>]]></a>").
  split; [vm_compute; reflexivity|]. split; [reflexivity|].
  split; [vm_compute; reflexivity|]. vm_compute. discriminate.
Qed.

(** ** [normalizeNamespaces] on trees with plain names

    The functions below are those of the code with every read and write
    taken on own properties.  They give what the code returns for a tree
    in which no name, and no part of a name before or after a colon, is a
    name of [Object.prototype]: [normalize_plain] below. *)

Local Open Scope Z_scope.

(** The qualified name of [tag] under the bindings [ns], from the own
    bindings alone. *)
Definition qualified (ns : object) (tag : jstring) : jstring :=
  let parts := split COLON tag in
  match part1 parts with
  | Some p1 => toString (get ns (hd [] parts)) ++ js "|" ++ p1
  | None =>
      if truthy (get ns []) then toString (get ns []) ++ js "|" ++ tag
      else tag
  end.

(** The first loop over the attributes: the bindings, then the flags
    [nameSpaceDecl], [nameSpaceAttr] and [bareAttr]. *)
Definition scanned (attributes : value) (ns : object)
  : object * bool * bool * bool :=
  fold_left
    (fun (acc : object * bool * bool * bool) (kv : jstring * value) =>
       let '(ns, decl, nsAttr, bare) := acc in
       let parts := split COLON (fst kv) in
       if str_eqb (hd [] parts) (js "xmlns") then
         (set ns (match part1 parts with Some p => p | None => [] end) (snd kv),
          true, nsAttr, bare)
       else
         match part1 parts with
         | Some _ => (ns, decl, true, bare)
         | None => (ns, decl, nsAttr, true)
         end)
    (entries attributes) (ns, false, false, false).

(** The second loop: the attributes that are kept, translated. *)
Definition translated (attributes : value) (ns : object) : object :=
  fold_left
    (fun (res : object) (kv : jstring * value) =>
       let parts := split COLON (fst kv) in
       if str_eqb (hd [] parts) (js "xmlns") then res
       else
         match part1 parts with
         | Some p1 =>
             set res (toString (get ns (hd [] parts)) ++ js "|" ++ p1) (snd kv)
         | None => set res (fst kv) (snd kv)
         end)
    (entries attributes) [].

(** The state after [_addEntry], from the own properties of [result]. *)
Definition added (res : jstring * value) (st : object * bool)
  : object * bool :=
  let result := fst st in
  let tmp := get result (fst res) in
  (if truthy tmp then
     match tmp with
     | VArr l => set result (fst res) (VArr (l ++ [snd res]))
     | _ => set result (fst res) (VArr [tmp; snd res])
     end
   else set result (fst res) (snd res),
   false).

(** The pair that [_normalizeNamespaces] returns for [obj], [ns] and
    [tag] when no name of the tree is a name of [Object.prototype]. *)
Fixpoint normalized (obj : value) (ns : object) (tag : jstring)
  {struct obj} : jstring * value :=
  let body (walk : object -> object * bool -> object * bool) :=
    let attributes := prop obj (js "$") in
    let '(ns', decl, nsAttr, bare) :=
      if truthy attributes then scanned attributes ns
      else (ns, false, false, false) in
    let st0 : object * bool :=
      if truthy attributes && (nsAttr || bare) then
        ([(js "$",
           if decl || nsAttr then VObj (translated attributes ns')
           else attributes)], false)
      else ([], true) in
    let '(result, onlyValue) := walk ns' st0 in
    let val := prop obj (js "$value") in
    let result :=
      if defined val then
        if onlyValue then val else VObj (set result (js "$value") val)
      else VObj result in
    (if is_empty tag then [] else qualified ns' tag, result) in
  match obj with
  | VObj o =>
      body (fun ns' st0 =>
        (fix walk (o : object) (st : object * bool) : object * bool :=
           match o with
           | [] => st
           | (b, val) :: o' =>
               if is_dollar b || is_empty b then walk o' st
               else
                 walk o'
                   match val with
                   | VArr items =>
                       (fix each (items : list value) (st : object * bool) :=
                          match items with
                          | [] => st
                          | item :: items' =>
                              each items'
                                (added (normalized item ns' b) st)
                          end) items st
                   | _ => added (normalized val ns' b) st
                   end
           end) o st0)
  | VArr l =>
      body (fun ns' st0 =>
        (fix walk (i : nat) (l : list value) (st : object * bool)
           : object * bool :=
           match l with
           | [] => st
           | val :: l' =>
               let b := index_key i in
               walk (S i) l'
                 match val with
                 | VArr items =>
                     (fix each (items : list value) (st : object * bool) :=
                        match items with
                        | [] => st
                        | item :: items' =>
                            each items'
                              (added (normalized item ns' b) st)
                        end) items st
                 | _ => added (normalized val ns' b) st
                 end
           end) 0%nat l st0)
  | _ => (if is_empty tag then [] else qualified ns tag, obj)
  end.

Definition normalizedTree (obj : value) : value :=
  snd (normalized obj [] []).

Local Close Scope Z_scope.

(** *** Names, colons and [Object.prototype] *)

Local Open Scope Z_scope.

(** A name without a colon. *)
Definition no_colon (s : jstring) : bool := negb (existsb (Z.eqb COLON) s).

Lemma split_no_colon : forall s, no_colon s = true -> split COLON s = [s].
Proof.
  unfold no_colon. induction s as [|c s IH]; intro H; [reflexivity|].
  cbn [existsb] in H. apply negb_true_iff, orb_false_iff in H.
  destruct H as [Hc Hs]. cbn [split]. rewrite Z.eqb_sym, Hc.
  rewrite IH by (now apply negb_true_iff). reflexivity.
Qed.

Lemma split_colon_parts : forall p rest,
  no_colon p = true -> split COLON (p ++ COLON :: rest) = p :: split COLON rest.
Proof.
  unfold no_colon. induction p as [|c p IH]; intros rest H.
  - cbn [app split]. now rewrite Z.eqb_refl.
  - cbn [existsb] in H. apply negb_true_iff, orb_false_iff in H.
    destruct H as [Hc Hp]. cbn [app split]. rewrite Z.eqb_sym, Hc.
    rewrite IH by (now apply negb_true_iff). reflexivity.
Qed.

Lemma split_head : forall s, exists p ps, split COLON s = p :: ps.
Proof.
  induction s as [|c s (p & ps & E)]; [now exists [], []|].
  cbn [split]. destruct (c =? COLON); [now eexists _, _|].
  rewrite E. now eexists _, _.
Qed.

Lemma not_inherited_proto : forall k,
  inherited k = false -> str_eqb k (js "__proto__") = false.
Proof.
  intros k H. destruct (str_eqb k (js "__proto__")) eqn:E; [|reflexivity].
  apply str_eqb_eq in E. subst k. discriminate H.
Qed.

Local Close Scope Z_scope.

(** ** Merging the children in [normalizeNamespaces] *)

(** The bindings in force inside an object: those of the parent, then the
    declarations among its own attributes. *)
Definition scope (o : object) (ns : object) : result object :=
  let attributes := get o (js "$") in
  if truthy attributes then
    '(ns', _, _, _) <- scanAttributes attributes ns ;; Ok ns'
  else Ok ns.

(** The same from the own properties alone. *)
Definition plain_scope (o : object) (ns : object) : object :=
  let attributes := get o (js "$") in
  if truthy attributes then
    let '(ns', _, _, _) := scanned attributes ns in ns'
  else ns.

(** The children of an object in the order in which [for (b in obj)] meets
    them: property after property, and inside a sequence item after
    item. *)
Definition child_items (o : object) : list (jstring * value) :=
  flat_map (fun bv : jstring * value =>
              if is_dollar (fst bv) || is_empty (fst bv) then []
              else match snd bv with
                   | VArr items => map (fun item => (fst bv, item)) items
                   | v => [(fst bv, v)]
                   end) o.

Fixpoint mapM {A B : Type} (f : A -> result B) (l : list A)
  : result (list B) :=
  match l with
  | [] => Ok []
  | x :: l' => y <- f x ;; ys <- mapM f l' ;; Ok (y :: ys)
  end.

(** What the recursive calls return for the children: qualified name and
    normalized value. *)
Definition child_results (o : object) (ns : object)
  : result (list (jstring * value)) :=
  ns' <- scope o ns ;;
  mapM (fun bi => _normalizeNamespaces (snd bi) ns' (fst bi)) (child_items o).

(** The same from the own properties alone. *)
Definition plain_results (o : object) (ns : object) : list (jstring * value) :=
  map (fun bi => normalized (snd bi) (plain_scope o ns) (fst bi))
      (child_items o).

Definition normWalk (ns' : object) : object -> object * bool -> object * bool :=
  fix walk (o : object) (st : object * bool) : object * bool :=
    match o with
    | [] => st
    | (b, val) :: o' =>
        if is_dollar b || is_empty b then walk o' st
        else
          walk o'
            match val with
            | VArr items =>
                (fix each (items : list value) (st : object * bool) :=
                   match items with
                   | [] => st
                   | item :: items' =>
                       each items'
                         (added (normalized item ns' b) st)
                   end) items st
            | _ => added (normalized val ns' b) st
            end
    end.

Lemma normalize_VObj : forall o ns tag,
  normalized (VObj o) ns tag =
  let attributes := get o (js "$") in
  let '(ns', decl, nsAttr, bare) :=
    if truthy attributes then scanned attributes ns
    else (ns, false, false, false) in
  let st0 : object * bool :=
    if truthy attributes && (nsAttr || bare) then
      ([(js "$",
         if decl || nsAttr then VObj (translated attributes ns')
         else attributes)], false)
    else ([], true) in
  let '(result, onlyValue) := normWalk ns' o st0 in
  let val := get o (js "$value") in
  let result :=
    if defined val then
      if onlyValue then val else VObj (set result (js "$value") val)
    else VObj result in
  (if is_empty tag then [] else qualified ns' tag, result).
Proof. reflexivity. Qed.

Lemma normWalk_fold : forall ns' o st,
  normWalk ns' o st =
  fold_left (fun st bi => added (normalized (snd bi) ns' (fst bi)) st)
            (child_items o) st.
Proof.
  intros ns'. induction o as [|[b val] o IH]; intro st; [reflexivity|].
  cbn [normWalk child_items flat_map fst snd]. fold (normWalk ns').
  fold (child_items o).
  destruct (is_dollar b || is_empty b); [apply IH|].
  rewrite fold_left_app, IH. f_equal.
  destruct val as [| |s|items|props]; try reflexivity.
  clear. revert st. induction items as [|item items IHi]; intro st;
    [reflexivity|].
  cbn [map fold_left fst snd]. apply IHi.
Qed.

(** On values that are truthy and are not sequences, [added] is the
    insertion of a child. *)
Lemma addEntry_fold : forall base rs done flag,
  (forall r, In r rs -> ~ In (fst r) (map fst base)) ->
  forallb (fun r => is_node (snd r) && truthy (snd r)) (done ++ rs) = true ->
  rs <> [] ->
  fold_left (fun st r => added r st) rs (base ++ group done, flag)
  = (base ++ group (done ++ rs), false).
Proof.
  intros base. induction rs as [|[k v] rs IH]; intros done flag Hb Hall Hne;
    [contradiction|].
  cbn [fold_left].
  assert (Hd : forallb (fun r => is_node (snd r) && truthy (snd r)) done = true
               /\ is_node v = true /\ truthy v = true
               /\ forallb (fun r => is_node (snd r) && truthy (snd r)) rs = true).
  { rewrite forallb_app in Hall. apply andb_true_iff in Hall.
    destruct Hall as [H1 H2]. cbn [forallb snd] in H2.
    apply andb_true_iff in H2. destruct H2 as [H2 H3].
    apply andb_true_iff in H2. tauto. }
  destruct Hd as (Hdone & Hv & Htv & Hrs).
  assert (Hnodes : forallb (fun kv => is_node (snd kv)) done = true).
  { rewrite forallb_forall in *. intros r Hr. specialize (Hdone r Hr).
    apply andb_true_iff in Hdone. tauto. }
  assert (Hstep : added (k, v) (base ++ group done, flag)
                  = (base ++ group (done ++ [(k, v)]), false)).
  { unfold added. cbn [fst snd]. f_equal.
    rewrite <- insert_group
      by (assumption || exact (Hb (k, v) (or_introl eq_refl))).
    unfold insert.
    rewrite get_app_r by (exact (Hb (k, v) (or_introl eq_refl))).
    rewrite get_group.
    destruct (occurrences k done) as [|v0 [|v1 vs]] eqn:Eo.
    - reflexivity.
    - cbn [slot].
      assert (Hin : In v0 (occurrences k done)) by (rewrite Eo; now left).
      unfold occurrences in Hin. apply in_map_iff in Hin.
      destruct Hin as (r & <- & Hr). apply filter_In in Hr.
      destruct Hr as [Hr _]. rewrite forallb_forall in Hdone.
      specialize (Hdone r Hr). apply andb_true_iff in Hdone.
      destruct Hdone as [Hn Ht]. rewrite Ht.
      destruct (snd r); try discriminate; reflexivity.
    - reflexivity. }
  rewrite Hstep. destruct rs as [|r rs].
  - reflexivity.
  - rewrite IH.
    + now rewrite <- app_assoc.
    + intros r' Hr'. apply Hb. now right.
    + rewrite <- app_assoc. exact Hall.
    + discriminate.
Qed.

Lemma qualify_not_special : forall ns b,
  is_dollar b = false ->
  qualified ns b <> js "$" /\ qualified ns b <> js "$value".
Proof.
  intros ns b Hb.
  assert (Hbar : forall (x y : jstring),
            x ++ js "|" ++ y <> js "$" /\ x ++ js "|" ++ y <> js "$value").
  { intros x y. split; intro E;
      assert (Hin : In 124%Z (x ++ js "|" ++ y))
        by (apply in_or_app; right; now left);
      rewrite E in Hin; cbv in Hin;
      repeat (destruct Hin as [Hin|Hin]; [discriminate Hin|]); exact Hin. }
  unfold qualified. destruct (part1 (split COLON b)); [apply Hbar|].
  destruct (truthy (get ns [])); [apply Hbar|].
  split; intro E; rewrite E in Hb; discriminate.
Qed.

Lemma normalize_fst : forall v ns b,
  is_empty b = false ->
  exists ns', fst (normalized v ns b) = qualified ns' b.
Proof.
  intros v ns b Hb. destruct v as [| |s|l|o].
  - exists ns. cbn. now rewrite Hb.
  - exists ns. cbn. now rewrite Hb.
  - exists ns. cbn. now rewrite Hb.
  - cbn [normalized]. cbv zeta.
    destruct (if truthy (prop (VArr l) (js "$")) then _ else _)
      as [[[ns' decl] nsAttr] bare].
    match goal with |- context [let '(r, f) := ?w in _] => destruct w end.
    exists ns'. cbn [fst]. now rewrite Hb.
  - rewrite normalize_VObj. cbv zeta.
    destruct (if truthy (get o (js "$")) then _ else _)
      as [[[ns' decl] nsAttr] bare].
    destruct (normWalk ns' o _). exists ns'. cbn [fst]. now rewrite Hb.
Qed.

Lemma child_items_keys : forall o bi,
  In bi (child_items o) -> is_dollar (fst bi) = false /\ is_empty (fst bi) = false.
Proof.
  intros o bi H. unfold child_items in H. apply in_flat_map in H.
  destruct H as ([b val] & _ & H). cbn [fst snd] in H.
  destruct (is_dollar b || is_empty b) eqn:E; [contradiction|].
  apply orb_false_iff in E.
  destruct val; cbn in H;
    try (destruct H as [<-|[]]; exact E).
  apply in_map_iff in H. destruct H as (item & <- & _). exact E.
Qed.

Lemma child_results_keys : forall o ns' r,
  In r (map (fun bi => normalized (snd bi) ns' (fst bi))
            (child_items o)) ->
  fst r <> js "$" /\ fst r <> js "$value".
Proof.
  intros o ns' r H. apply in_map_iff in H.
  destruct H as (bi & <- & Hbi). apply child_items_keys in Hbi.
  destruct Hbi as [Hd He].
  destruct (normalize_fst (snd bi) ns' (fst bi) He) as (ns2 & ->).
  now apply qualify_not_special.
Qed.

Lemma fold_left_map_fuse : forall (A B C : Type) (f : C -> B -> C) (g : A -> B)
  (l : list A) (c : C),
  fold_left (fun c a => f c (g a)) l c = fold_left f (map g l) c.
Proof.
  intros A B C f g. induction l as [|a l IH]; intro c; [reflexivity|].
  cbn [map fold_left]. apply IH.
Qed.

(** *** The code on trees with plain names *)

(** A name of [Object.prototype] holds no colon and no bar, and does not
    begin with a digit. *)
Lemma inherited_chars : forall k,
  inherited k = true ->
  no_colon k = true /\ ~ In 124%Z k
  /\ match k with c :: _ => is_digit c = false | [] => False end.
Proof.
  intros k H. unfold inherited in H. apply existsb_exists in H.
  destruct H as (n & Hn & E). apply str_eqb_eq in E. subst n.
  vm_compute in Hn.
  repeat (destruct Hn as [<-|Hn];
          [split; [reflexivity|split; [|reflexivity]];
           intro Hin; vm_compute in Hin;
           repeat (destruct Hin as [Hin|Hin]; [discriminate Hin|]);
           exact Hin|]).
  contradiction.
Qed.

Lemma bar_not_inherited : forall x y : jstring,
  inherited (x ++ js "|" ++ y) = false.
Proof.
  intros x y. destruct (inherited (x ++ js "|" ++ y)) eqn:E; [|reflexivity].
  destruct (inherited_chars _ E) as (_ & H & _). exfalso. apply H.
  apply in_or_app. right. now left.
Qed.

(** No part of [k], before or after a colon, is a name of
    [Object.prototype]. *)
Definition name_ok (k : jstring) : bool :=
  forallb (fun p => negb (inherited p)) (split COLON k).

(** Every key of the tree is such a name. *)
Fixpoint names_ok (v : value) : bool :=
  match v with
  | VArr l => forallb names_ok l
  | VObj o =>
      (fix all (o : object) : bool :=
         match o with
         | [] => true
         | (k, x) :: o' => name_ok k && names_ok x && all o'
         end) o
  | _ => true
  end.

Lemma names_ok_VObj : forall o,
  names_ok (VObj o)
  = forallb (fun kv => name_ok (fst kv) && names_ok (snd kv)) o.
Proof.
  induction o as [|[k x] o IH]; [reflexivity|].
  cbn [names_ok forallb fst snd] in *. now rewrite IH.
Qed.

Lemma name_ok_own : forall k, name_ok k = true -> inherited k = false.
Proof.
  intros k H. destruct (inherited k) eqn:E; [|reflexivity].
  destruct (inherited_chars _ E) as (Hc & _).
  unfold name_ok in H. rewrite split_no_colon in H by assumption.
  cbn [forallb] in H. rewrite E in H. discriminate H.
Qed.

Lemma own_name_ok : forall k,
  no_colon k = true -> inherited k = false -> name_ok k = true.
Proof.
  intros k Hc Hi. unfold name_ok. rewrite split_no_colon by assumption.
  cbn [forallb]. now rewrite Hi.
Qed.

Lemma name_ok_hd : forall k,
  name_ok k = true -> inherited (hd [] (split COLON k)) = false.
Proof.
  intros k H. unfold name_ok in H. destruct (split_head k) as (p & ps & E).
  rewrite E in *. cbn [forallb hd] in *. apply andb_true_iff in H.
  now apply negb_true_iff.
Qed.

Lemma name_ok_part1 : forall k p,
  name_ok k = true -> part1 (split COLON k) = Some p -> inherited p = false.
Proof.
  intros k p H E. unfold name_ok in H.
  destruct (split COLON k) as [|p0 [|[|c p1] ps]]; try discriminate E.
  cbn [part1] in E. injection E as <-. cbn [forallb] in H.
  apply andb_true_iff in H. destruct H as [_ H].
  apply andb_true_iff in H. now apply negb_true_iff.
Qed.

Lemma digits_no_colon : forall s, forallb is_digit s = true -> no_colon s = true.
Proof.
  unfold no_colon. induction s as [|c s IH]; intro H; [reflexivity|].
  cbn [forallb] in H. apply andb_true_iff in H. destruct H as [Hc Hs].
  cbn [existsb]. apply negb_true_iff, orb_false_iff. split.
  - unfold is_digit, between in Hc. apply andb_true_iff in Hc.
    rewrite !Z.leb_le in Hc. apply Z.eqb_neq. unfold COLON. lia.
  - apply negb_true_iff. now apply IH.
Qed.

Lemma name_ok_index : forall i,
  name_ok (index_key i) = true /\ is_empty (index_key i) = false.
Proof.
  intro i.
  destruct (parseDigits_dec (S i) i (Nat.lt_succ_diag_r i)) as (Hd & Hne & _).
  fold (index_key i) in Hd, Hne. split.
  - apply own_name_ok; [now apply digits_no_colon|].
    destruct (inherited (index_key i)) eqn:E; [|reflexivity].
    destruct (inherited_chars _ E) as (_ & _ & H).
    destruct (index_key i) as [|c s]; [contradiction|].
    cbn [forallb] in Hd. apply andb_true_iff in Hd. destruct Hd as [Hd _].
    congruence.
  - destruct (index_key i); [contradiction | reflexivity].
Qed.

Lemma indexed_names_ok : forall A (f : A -> value) l i,
  forallb (fun kv => name_ok (fst kv)) (indexed f i l) = true.
Proof.
  intros A f. induction l as [|x l IH]; intro i; [reflexivity|].
  cbn [indexed forallb fst]. rewrite (proj1 (name_ok_index i)). apply IH.
Qed.

Lemma names_ok_get : forall o k,
  names_ok (VObj o) = true -> names_ok (get o k) = true.
Proof.
  intros o k. rewrite names_ok_VObj.
  induction o as [|[k' v] o IH]; intro H; [reflexivity|].
  cbn [forallb fst snd] in H. apply andb_true_iff in H. destruct H as [H1 H2].
  apply andb_true_iff in H1. cbn [get].
  destruct (str_eqb k' k); [tauto | now apply IH].
Qed.

Lemma names_ok_entries : forall v,
  names_ok v = true ->
  forallb (fun kv => name_ok (fst kv)) (entries v) = true.
Proof.
  intros [| |s|l|o] H; try reflexivity; cbn [entries].
  - apply indexed_names_ok.
  - apply indexed_names_ok.
  - rewrite names_ok_VObj in H. rewrite forallb_forall in *.
    intros kv Hkv. specialize (H kv Hkv). apply andb_true_iff in H. tauto.
Qed.

Lemma names_ok_attributes : forall v,
  names_ok v = true ->
  forallb (fun kv => name_ok (fst kv)) (entries (prop v (js "$"))) = true.
Proof.
  intros [| |s|l|o] H; unfold prop; cbn [entries];
    try (rewrite ?get_indexed_name by reflexivity; reflexivity).
  apply names_ok_entries. now apply names_ok_get.
Qed.

Lemma owns_false : forall o k, owns o k = false -> get o k = VUndefined.
Proof.
  induction o as [|[k' v] o IH]; intros k H; [reflexivity|].
  unfold owns in H. cbn [existsb fst] in H. apply orb_false_iff in H.
  destruct H as [H1 H2]. cbn [get]. rewrite H1. now apply IH.
Qed.

(** Under a name that [Object.prototype] does not have, a read finds the
    own property and a write makes one. *)
Lemma lookup_plain : forall o k,
  inherited k = false -> lookup o k = Ok (get o k).
Proof.
  intros o k H. unfold lookup. destruct (owns o k) eqn:E; [reflexivity|].
  rewrite H. now rewrite owns_false.
Qed.

Lemma assign_plain : forall o k v,
  inherited k = false -> assign o k v = Ok (set o k v).
Proof. intros o k v H. unfold assign. now rewrite not_inherited_proto. Qed.

Lemma foldM_plain : forall (A B : Type) (f : A -> B -> result A)
  (g : A -> B -> A) l a,
  (forall a b, In b l -> f a b = Ok (g a b)) ->
  foldM f l a = Ok (fold_left g l a).
Proof.
  intros A B f g. induction l as [|b l IH]; intros a H; [reflexivity|].
  cbn [foldM fold_left]. rewrite H by now left. cbn [bind].
  apply IH. intros a' b' Hb. apply H. now right.
Qed.

Definition stringItems : list value -> result (list jstring) :=
  fix each (l : list value) : result (list jstring) :=
    match l with
    | [] => Ok []
    | x :: l' =>
        s <- match x with
             | VUndefined | VNull => Ok []
             | _ => stringOf x
             end ;;
        ss <- each l' ;;
        Ok (s :: ss)
    end.

Lemma stringOf_VArr : forall l,
  stringOf (VArr l) = (parts <- stringItems l ;; Ok (join (js ",") parts)).
Proof. reflexivity. Qed.

Lemma stringItems_cons : forall x l,
  stringItems (x :: l)
  = (s <- match x with
          | VUndefined | VNull => Ok []
          | _ => stringOf x
          end ;;
     ss <- stringItems l ;;
     Ok (s :: ss)).
Proof. reflexivity. Qed.

(** The conversion returns, and returns [toString], when no object on its
    way has a property [toString]. *)
Lemma stringOf_printable : forall v,
  printable v = true -> stringOf v = Ok (toString v).
Proof.
  induction v as [| |s|l IH|o IH] using value_ind'; intro Hp;
    try reflexivity.
  - rewrite stringOf_VArr. cbn [printable] in Hp. cbn [toString].
    assert (E : stringItems l
                = Ok (map (fun x => match x with
                                    | VUndefined | VNull => []
                                    | _ => toString x
                                    end) l)).
    { induction IH as [|x l Hx _ IHl]; [reflexivity|].
      cbn [forallb] in Hp. apply andb_true_iff in Hp.
      destruct Hp as [Hx' Hl]. rewrite stringItems_cons, IHl by assumption.
      cbn [map].
      destruct x; try reflexivity; rewrite (Hx Hx'); reflexivity. }
    rewrite E. reflexivity.
  - cbn [printable] in Hp. apply negb_true_iff in Hp.
    cbn [stringOf toString]. now rewrite Hp.
Qed.

Lemma names_ok_printable : forall v, names_ok v = true -> printable v = true.
Proof.
  induction v as [| |s|l IH|o IH] using value_ind'; intro Hn;
    try reflexivity.
  - cbn [names_ok printable] in *. rewrite forallb_forall in *.
    rewrite Forall_forall in IH. intros x Hx. apply IH; auto.
  - cbn [printable]. apply negb_true_iff.
    destruct (owns o (js "toString")) eqn:E; [|reflexivity].
    unfold owns in E. apply existsb_exists in E. destruct E as (kv & Hkv & E).
    apply str_eqb_eq in E. rewrite names_ok_VObj, forallb_forall in Hn.
    specialize (Hn kv Hkv). rewrite E in Hn. discriminate Hn.
Qed.

Lemma printable_get : forall ns k,
  printables ns = true -> printable (get ns k) = true.
Proof.
  unfold printables. induction ns as [|[k' v] ns IH]; intros k H;
    [reflexivity|].
  cbn [forallb snd] in H. apply andb_true_iff in H. destruct H as [Hv Hns].
  cbn [get]. destruct (str_eqb k' k); [assumption | now apply IH].
Qed.

Lemma printables_set : forall ns k v,
  printables ns = true -> printable v = true -> printables (set ns k v) = true.
Proof.
  unfold printables. induction ns as [|[k' v'] ns IH]; intros k v H Hv.
  - cbn [set forallb snd]. now rewrite Hv.
  - cbn [forallb snd] in H. apply andb_true_iff in H. destruct H as [Hv' Hns].
    cbn [set]. destruct (str_eqb k' k); cbn [forallb snd].
    + now rewrite Hv, Hns.
    + rewrite Hv'. now apply IH.
Qed.

Lemma indexed_printables : forall A (f : A -> value) l i,
  (forall x, In x l -> printable (f x) = true) ->
  printables (indexed f i l) = true.
Proof.
  intros A f. unfold printables. induction l as [|x l IH]; intros i H;
    [reflexivity|].
  cbn [indexed forallb snd]. rewrite H by now left.
  apply IH. intros y Hy. apply H. now right.
Qed.

Lemma entries_printable : forall v,
  names_ok v = true -> printables (entries v) = true.
Proof.
  intros [| |s|l|o] H; try reflexivity; cbn [entries].
  - apply indexed_printables. reflexivity.
  - apply indexed_printables. cbn [names_ok] in H.
    rewrite forallb_forall in H. intros x Hx.
    apply names_ok_printable. now apply H.
  - unfold printables. rewrite names_ok_VObj in H.
    rewrite forallb_forall in *.
    intros kv Hkv. specialize (H kv Hkv). apply andb_true_iff in H.
    apply names_ok_printable. tauto.
Qed.

Lemma map_fst_set : forall o k v,
  map fst (set o k v)
  = if existsb (str_eqb k) (map fst o) then map fst o else map fst o ++ [k].
Proof.
  induction o as [|[k' v'] o IH]; intros k v; [reflexivity|].
  cbn [set map fst existsb].
  destruct (str_eqb k' k) eqn:E.
  - apply str_eqb_eq in E. subst k'. now rewrite str_eqb_refl.
  - assert (E' : str_eqb k k' = false).
    { apply str_eqb_neq. intro H. subst k'. now rewrite str_eqb_refl in E. }
    rewrite E'. cbn [orb map fst]. rewrite IH.
    now destruct (existsb (str_eqb k) (map fst o)).
Qed.

Lemma NoDup_set : forall o k v,
  NoDup (map fst o) -> NoDup (map fst (set o k v)).
Proof.
  intros o k v H. rewrite map_fst_set.
  destruct (existsb (str_eqb k) (map fst o)) eqn:E; [exact H|].
  assert (Hk : ~ In k (map fst o)).
  { intro Hin. apply existsb_str_eqb in Hin. congruence. }
  clear E. induction (map fst o) as [|x l IH]; cbn [app].
  - constructor; [tauto | constructor].
  - inversion H; subst. constructor.
    + intro Hin. apply in_app_or in Hin. destruct Hin as [Hin|[<-|[]]].
      * contradiction.
      * apply Hk. now left.
    + apply IH; [assumption|]. intro Hin. apply Hk. now right.
Qed.

Lemma owns_set_other : forall o k k' v,
  str_eqb k k' = false -> owns (set o k v) k' = owns o k'.
Proof.
  unfold owns. induction o as [|[k0 v0] o IH]; intros k k' v H.
  - cbn [set existsb fst]. now rewrite H.
  - cbn [set]. destruct (str_eqb k0 k) eqn:E; cbn [existsb fst].
    + apply str_eqb_eq in E. subst k0. now rewrite H.
    + now rewrite IH.
Qed.

(** Bindings as an object has them: one value under a key, no property
    [__proto__], and values that have a string conversion. *)
Definition bindings_ok (ns : object) : bool :=
  nodupb (map fst ns) && negb (owns ns (js "__proto__")) && printables ns.

Definition bindings (ns : object) : Prop :=
  NoDup (map fst ns) /\ owns ns (js "__proto__") = false
  /\ printables ns = true.

Lemma bindings_ok_bindings : forall ns, bindings_ok ns = true -> bindings ns.
Proof.
  intros ns H. unfold bindings_ok in H.
  apply andb_true_iff in H. destruct H as [H Hp].
  apply andb_true_iff in H. destruct H as [Hn Ho].
  apply negb_true_iff in Ho. split; [now apply nodupb_NoDup | tauto].
Qed.

Lemma bindings_nil : bindings [].
Proof. split; [constructor | split; reflexivity]. Qed.

Lemma bindings_set : forall ns k v,
  bindings ns -> inherited k = false -> printable v = true ->
  bindings (set ns k v).
Proof.
  intros ns k v (Hn & Ho & Hp) Hk Hv. split; [|split].
  - now apply NoDup_set.
  - rewrite owns_set_other; [exact Ho | now apply not_inherited_proto].
  - now apply printables_set.
Qed.

(** The copy of such bindings is the bindings. *)
Lemma cloneBindings_from : forall o acc,
  NoDup (map fst (acc ++ o)) -> owns o (js "__proto__") = false ->
  foldM (fun (ns2 : object) (kv : jstring * value) =>
           assign ns2 (fst kv) (snd kv)) o acc
  = Ok (acc ++ o).
Proof.
  induction o as [|[k v] o IH]; intros acc Hnd Hp.
  - cbn [foldM]. now rewrite app_nil_r.
  - unfold owns in Hp. cbn [existsb fst] in Hp. apply orb_false_iff in Hp.
    destruct Hp as [Hk Ho]. cbn [foldM fst snd]. unfold assign. rewrite Hk.
    cbn [bind].
    assert (Hnk : ~ In k (map fst acc)).
    { rewrite map_app in Hnd. cbn [map fst] in Hnd.
      apply NoDup_remove_2 in Hnd. intro H. apply Hnd, in_or_app. now left. }
    rewrite set_absent by assumption.
    rewrite IH; [now rewrite <- app_assoc | | exact Ho].
    now rewrite <- app_assoc.
Qed.

Lemma cloneBindings_plain : forall ns,
  bindings ns -> cloneBindings ns = Ok ns.
Proof.
  intros ns (Hn & Ho & _). unfold cloneBindings.
  now rewrite cloneBindings_from.
Qed.

Lemma qualify_plain : forall ns tag,
  printables ns = true -> name_ok tag = true ->
  qualify ns tag = Ok (qualified ns tag).
Proof.
  intros ns tag Hns H. unfold qualify, qualified. cbv zeta.
  destruct (part1 (split COLON tag)) eqn:E.
  - rewrite lookup_plain by (now apply name_ok_hd). cbn [bind].
    now rewrite stringOf_printable by (now apply printable_get).
  - destruct (truthy (get ns [])); [|reflexivity].
    now rewrite stringOf_printable by (now apply printable_get).
Qed.

Lemma qualified_own : forall ns tag,
  name_ok tag = true -> inherited (qualified ns tag) = false.
Proof.
  intros ns tag H. unfold qualified.
  destruct (part1 (split COLON tag)); [apply bar_not_inherited|].
  destruct (truthy (get ns [])); [apply bar_not_inherited|].
  now apply name_ok_own.
Qed.

Lemma scanAttributes_plain : forall attributes ns,
  bindings ns ->
  forallb (fun kv => name_ok (fst kv)) (entries attributes) = true ->
  printables (entries attributes) = true ->
  scanAttributes attributes ns = Ok (scanned attributes ns)
  /\ bindings (fst (fst (fst (scanned attributes ns)))).
Proof.
  intros attributes ns Hns Hn Hp. unfold scanAttributes, scanned.
  assert (H : bindings (fst (fst (fst (ns, false, false, false)))))
    by exact Hns.
  revert H. generalize (ns, false, false, false). unfold printables in Hp.
  induction (entries attributes) as [|kv l IH];
    intros [[[ns0 decl] nsAttr] bare] H; [now split|].
  cbn [forallb] in Hn, Hp. apply andb_true_iff in Hn, Hp.
  destruct Hn as [Hk Hl]. destruct Hp as [Hv Hpl].
  cbn [foldM fold_left fst] in *. cbv zeta.
  destruct (str_eqb (hd [] (split COLON (fst kv))) (js "xmlns")).
  - assert (Hi : inherited (match part1 (split COLON (fst kv)) with
                            | Some p => p
                            | None => []
                            end) = false).
    { destruct (part1 (split COLON (fst kv))) eqn:E;
        [now apply (name_ok_part1 (fst kv)) | reflexivity]. }
    assert (E : (if decl then Ok ns0 else cloneBindings ns0) = Ok ns0).
    { destruct decl; [reflexivity | now apply cloneBindings_plain]. }
    rewrite E. cbn [bind]. rewrite assign_plain by assumption. cbn [bind].
    apply IH; try assumption. cbn [fst]. now apply bindings_set.
  - destruct (part1 (split COLON (fst kv))); cbn [bind]; now apply IH.
Qed.

Lemma translateAttributes_plain : forall attributes ns,
  printables ns = true ->
  forallb (fun kv => name_ok (fst kv)) (entries attributes) = true ->
  translateAttributes attributes ns = Ok (translated attributes ns).
Proof.
  intros attributes ns Hns H. unfold translateAttributes, translated.
  apply foldM_plain.
  intros res kv Hkv. rewrite forallb_forall in H.
  specialize (H _ Hkv). cbv zeta.
  destruct (str_eqb (hd [] (split COLON (fst kv))) (js "xmlns"));
    [reflexivity|].
  destruct (part1 (split COLON (fst kv))).
  - rewrite lookup_plain by (now apply name_ok_hd). cbn [bind].
    now rewrite stringOf_printable by (now apply printable_get).
  - apply assign_plain. now apply name_ok_own.
Qed.

Lemma addEntry_plain : forall res st,
  inherited (fst res) = false -> _addEntry res st = Ok (added res st).
Proof.
  intros res st H. unfold _addEntry, added. cbv zeta.
  now rewrite lookup_plain.
Qed.

(** The parts of [_normalizeNamespaces], named. *)
Definition bodyM (obj : value) (ns : object) (tag : jstring)
  (walk : object -> object * bool -> result (object * bool))
  : result (jstring * value) :=
  let attributes := prop obj (js "$") in
  '(ns', decl, nsAttr, bare) <-
    (if truthy attributes then scanAttributes attributes ns
     else Ok (ns, false, false, false)) ;;
  st0 <-
    (if truthy attributes && (nsAttr || bare) then
       if decl || nsAttr then
         tr <- translateAttributes attributes ns' ;;
         Ok ([(js "$", VObj tr)], false)
       else Ok ([(js "$", attributes)], false)
     else Ok ([], true)) ;;
  '(result, onlyValue) <- walk ns' st0 ;;
  let val := prop obj (js "$value") in
  let v :=
    if defined val then
      if onlyValue then val else VObj (set result (js "$value") val)
    else VObj result in
  if is_empty tag then Ok ([], v)
  else q <- qualify ns' tag ;; Ok (q, v).

Definition eachM (ns' : object) (b : jstring)
  : list value -> object * bool -> result (object * bool) :=
  fix each (items : list value) (st : object * bool)
    : result (object * bool) :=
    match items with
    | [] => Ok st
    | item :: items' =>
        res <- _normalizeNamespaces item ns' b ;;
        st' <- _addEntry res st ;;
        each items' st'
    end.

Definition childM (ns' : object) (b : jstring) (val : value)
  (st : object * bool) : result (object * bool) :=
  match val with
  | VArr items => eachM ns' b items st
  | _ => res <- _normalizeNamespaces val ns' b ;; _addEntry res st
  end.

Definition walkObj (ns' : object)
  : object -> object * bool -> result (object * bool) :=
  fix walk (o : object) (st : object * bool) : result (object * bool) :=
    match o with
    | [] => Ok st
    | (b, val) :: o' =>
        if is_dollar b || is_empty b then walk o' st
        else st' <- childM ns' b val st ;; walk o' st'
    end.

Definition walkArr (ns' : object)
  : nat -> list value -> object * bool -> result (object * bool) :=
  fix walk (i : nat) (l : list value) (st : object * bool)
    : result (object * bool) :=
    match l with
    | [] => Ok st
    | val :: l' =>
        st' <- childM ns' (index_key i) val st ;; walk (S i) l' st'
    end.

Lemma normalizeNamespaces_VObj : forall o ns tag,
  _normalizeNamespaces (VObj o) ns tag
  = bodyM (VObj o) ns tag (fun ns' st0 => walkObj ns' o st0).
Proof. reflexivity. Qed.

Lemma normalizeNamespaces_VArr : forall l ns tag,
  _normalizeNamespaces (VArr l) ns tag
  = bodyM (VArr l) ns tag (fun ns' st0 => walkArr ns' 0 l st0).
Proof. reflexivity. Qed.

Lemma eachM_cons : forall ns' b item items st,
  eachM ns' b (item :: items) st
  = (res <- _normalizeNamespaces item ns' b ;;
     st' <- _addEntry res st ;;
     eachM ns' b items st').
Proof. reflexivity. Qed.

Lemma walkObj_cons : forall ns' b val o st,
  walkObj ns' ((b, val) :: o) st
  = if is_dollar b || is_empty b then walkObj ns' o st
    else st' <- childM ns' b val st ;; walkObj ns' o st'.
Proof. reflexivity. Qed.

Lemma walkArr_cons : forall ns' i val l st,
  walkArr ns' i (val :: l) st
  = (st' <- childM ns' (index_key i) val st ;; walkArr ns' (S i) l st').
Proof. reflexivity. Qed.

(** The same parts of [normalized]. *)
Definition bodyP (obj : value) (ns : object) (tag : jstring)
  (walk : object -> object * bool -> object * bool) : jstring * value :=
  let attributes := prop obj (js "$") in
  let '(ns', decl, nsAttr, bare) :=
    if truthy attributes then scanned attributes ns
    else (ns, false, false, false) in
  let st0 : object * bool :=
    if truthy attributes && (nsAttr || bare) then
      ([(js "$",
         if decl || nsAttr then VObj (translated attributes ns')
         else attributes)], false)
    else ([], true) in
  let '(result, onlyValue) := walk ns' st0 in
  let val := prop obj (js "$value") in
  let result :=
    if defined val then
      if onlyValue then val else VObj (set result (js "$value") val)
    else VObj result in
  (if is_empty tag then [] else qualified ns' tag, result).

Definition eachP (ns' : object) (b : jstring)
  : list value -> object * bool -> object * bool :=
  fix each (items : list value) (st : object * bool) : object * bool :=
    match items with
    | [] => st
    | item :: items' => each items' (added (normalized item ns' b) st)
    end.

Definition childP (ns' : object) (b : jstring) (val : value)
  (st : object * bool) : object * bool :=
  match val with
  | VArr items => eachP ns' b items st
  | _ => added (normalized val ns' b) st
  end.

Definition normWalkArr (ns' : object)
  : nat -> list value -> object * bool -> object * bool :=
  fix walk (i : nat) (l : list value) (st : object * bool) : object * bool :=
    match l with
    | [] => st
    | val :: l' => walk (S i) l' (childP ns' (index_key i) val st)
    end.

Lemma normalized_VObj : forall o ns tag,
  normalized (VObj o) ns tag = bodyP (VObj o) ns tag (fun ns' st0 => normWalk ns' o st0).
Proof. reflexivity. Qed.

Lemma normalized_VArr : forall l ns tag,
  normalized (VArr l) ns tag
  = bodyP (VArr l) ns tag (fun ns' st0 => normWalkArr ns' 0 l st0).
Proof. reflexivity. Qed.

Lemma normWalk_cons : forall ns' b val o st,
  normWalk ns' ((b, val) :: o) st
  = if is_dollar b || is_empty b then normWalk ns' o st
    else normWalk ns' o (childP ns' b val st).
Proof. reflexivity. Qed.

Lemma body_plain : forall obj ns tag wM wP,
  names_ok (prop obj (js "$")) = true ->
  bindings ns -> name_ok tag = true ->
  (forall ns' st, bindings ns' -> wM ns' st = Ok (wP ns' st)) ->
  bodyM obj ns tag wM = Ok (bodyP obj ns tag wP).
Proof.
  intros obj ns tag wM wP Hat Hns Ht Hw. unfold bodyM, bodyP. cbv zeta.
  pose proof (names_ok_entries _ Hat) as Ha.
  pose proof (entries_printable _ Hat) as Hpa.
  set (attributes := prop obj (js "$")) in *.
  assert (Hns' : bindings
                   (fst (fst (fst (if truthy attributes
                                   then scanned attributes ns
                                   else (ns, false, false, false)))))).
  { destruct (truthy attributes);
      [now apply scanAttributes_plain | exact Hns]. }
  assert (E1 : (if truthy attributes then scanAttributes attributes ns
                else Ok (ns, false, false, false))
               = Ok (if truthy attributes then scanned attributes ns
                     else (ns, false, false, false))).
  { destruct (truthy attributes);
      [now apply scanAttributes_plain | reflexivity]. }
  rewrite E1. cbn [bind].
  destruct (if truthy attributes then scanned attributes ns
            else (ns, false, false, false)) as [[[ns' decl] nsAttr] bare].
  cbn [fst] in Hns'.
  assert (E2 : (if truthy attributes && (nsAttr || bare) then
                  if decl || nsAttr then
                    tr <- translateAttributes attributes ns' ;;
                    Ok ([(js "$", VObj tr)], false)
                  else Ok ([(js "$", attributes)], false)
                else Ok ([], true))
               = Ok (if truthy attributes && (nsAttr || bare) then
                       ([(js "$",
                          if decl || nsAttr
                          then VObj (translated attributes ns')
                          else attributes)], false)
                     else ([], true))).
  { destruct (truthy attributes && (nsAttr || bare)); [|reflexivity].
    destruct (decl || nsAttr); [|reflexivity].
    rewrite translateAttributes_plain; [reflexivity | apply Hns' | exact Ha]. }
  rewrite E2. cbn [bind]. rewrite Hw by assumption. cbn [bind].
  destruct (wP ns' _) as [result onlyValue].
  destruct (is_empty tag); [reflexivity|].
  rewrite qualify_plain; [reflexivity | apply Hns' | exact Ht].
Qed.

(** [_normalizeNamespaces] returns what [normalized] gives. *)
Definition plain_at (v : value) : Prop :=
  forall ns tag, bindings ns -> name_ok tag = true ->
    _normalizeNamespaces v ns tag = Ok (normalized v ns tag).

Definition plain_below (v : value) : Prop :=
  names_ok v = true ->
  plain_at v /\ forall items, v = VArr items -> Forall plain_at items.

Lemma key_plain : forall v ns b,
  is_empty b = false -> name_ok b = true ->
  inherited (fst (normalized v ns b)) = false.
Proof.
  intros v ns b He Hb. destruct (normalize_fst v ns b He) as (ns2 & ->).
  now apply qualified_own.
Qed.

Lemma eachM_plain : forall ns' b items,
  bindings ns' ->
  is_empty b = false -> name_ok b = true -> Forall plain_at items ->
  forall st, eachM ns' b items st = Ok (eachP ns' b items st).
Proof.
  intros ns' b items Hns He Hb H. induction H as [|item items Hi _ IH];
    intro st; [reflexivity|].
  rewrite eachM_cons, (Hi ns' b Hns Hb). cbn [bind].
  rewrite addEntry_plain by (now apply key_plain). cbn [bind]. apply IH.
Qed.

Lemma childM_plain : forall ns' b val,
  bindings ns' ->
  plain_below val -> names_ok val = true ->
  is_empty b = false -> name_ok b = true ->
  forall st, childM ns' b val st = Ok (childP ns' b val st).
Proof.
  intros ns' b val Hns H Hn He Hb st. destruct (H Hn) as [HR HI].
  destruct val as [| |s|items|o];
    try (unfold childM, childP; rewrite (HR ns' b Hns Hb); cbn [bind];
         apply addEntry_plain; now apply key_plain).
  apply eachM_plain; auto.
Qed.

Lemma walkObj_plain : forall ns' o,
  bindings ns' ->
  Forall (fun kv => plain_below (snd kv)) o -> names_ok (VObj o) = true ->
  forall st, walkObj ns' o st = Ok (normWalk ns' o st).
Proof.
  intros ns' o Hns H. induction H as [|[b val] o Hv _ IH]; intros Hn st;
    [reflexivity|].
  rewrite names_ok_VObj in Hn. cbn [forallb fst snd] in Hn.
  apply andb_true_iff in Hn. destruct Hn as [Hn Ho].
  apply andb_true_iff in Hn. destruct Hn as [Hb Hval].
  rewrite <- names_ok_VObj in Ho.
  rewrite walkObj_cons, normWalk_cons.
  destruct (is_dollar b || is_empty b) eqn:E; [now apply IH|].
  apply orb_false_iff in E. destruct E as [_ E].
  rewrite childM_plain by assumption. cbn [bind]. now apply IH.
Qed.

Lemma walkArr_plain : forall ns' l,
  bindings ns' ->
  Forall plain_below l -> forallb names_ok l = true ->
  forall i st, walkArr ns' i l st = Ok (normWalkArr ns' i l st).
Proof.
  intros ns' l Hns H. induction H as [|val l Hv _ IH]; intros Hn i st;
    [reflexivity|].
  cbn [forallb] in Hn. apply andb_true_iff in Hn. destruct Hn as [Hval Hl].
  rewrite walkArr_cons. destruct (name_ok_index i) as [Hb He].
  rewrite childM_plain by assumption. cbn [bind].
  change (normWalkArr ns' i (val :: l) st)
    with (normWalkArr ns' (S i) l (childP ns' (index_key i) val st)).
  now apply IH.
Qed.

Lemma normalize_plain_below : forall v, plain_below v.
Proof.
  induction v as [| |s|l IH|o IH] using value_ind'; intro Hn.
  - split; [|discriminate]. intros ns tag Hns Ht.
    cbn [_normalizeNamespaces normalized].
    destruct (is_empty tag); [reflexivity|].
    rewrite qualify_plain; [reflexivity | apply Hns | exact Ht].
  - split; [|discriminate]. intros ns tag Hns Ht.
    cbn [_normalizeNamespaces normalized].
    destruct (is_empty tag); [reflexivity|].
    rewrite qualify_plain; [reflexivity | apply Hns | exact Ht].
  - split; [|discriminate]. intros ns tag Hns Ht.
    cbn [_normalizeNamespaces normalized].
    destruct (is_empty tag); [reflexivity|].
    rewrite qualify_plain; [reflexivity | apply Hns | exact Ht].
  - split.
    + intros ns tag Hns Ht.
      rewrite normalizeNamespaces_VArr, normalized_VArr.
      apply body_plain; try assumption.
      * unfold prop. cbn [entries].
        now rewrite get_indexed_name by reflexivity.
      * intros ns' st Hns'. now apply walkArr_plain.
    + intros items E. injection E as <-. cbn [names_ok] in Hn.
      rewrite Forall_forall in *. rewrite forallb_forall in Hn.
      intros x Hx. exact (proj1 (IH x Hx (Hn x Hx))).
  - split; [|discriminate]. intros ns tag Hns Ht.
    rewrite normalizeNamespaces_VObj, normalized_VObj.
    apply body_plain; try assumption.
    + unfold prop. cbn [entries]. now apply names_ok_get.
    + intros ns' st Hns'. now apply walkObj_plain.
Qed.

(** On a tree with plain names the code returns, and returns what
    [normalized] gives. *)
Lemma normalize_plain : forall v ns tag,
  names_ok v = true -> bindings ns -> name_ok tag = true ->
  _normalizeNamespaces v ns tag = Ok (normalized v ns tag).
Proof.
  intros v ns tag Hn Hns Ht.
  exact (proj1 (normalize_plain_below v Hn) ns tag Hns Ht).
Qed.

Lemma normalizeNamespaces_plain : forall v,
  names_ok v = true -> normalizeNamespaces v = Ok (normalizedTree v).
Proof.
  intros v Hn. unfold normalizeNamespaces, normalizedTree.
  rewrite normalize_plain by (assumption || reflexivity || exact bindings_nil).
  cbn [bind]. now destruct (normalized v [] []).
Qed.

(** The merge, from the own properties alone. *)
Lemma plain_merge : forall o ns tag,
  forallb (fun r => is_node (snd r) && truthy (snd r))
          (plain_results o ns) = true ->
  forall q, In q (map fst (plain_results o ns)) ->
    prop (snd (normalized (VObj o) ns tag)) q
    = slot (occurrences q (plain_results o ns)).
Proof.
  intros o ns tag Hv q Hq.
  assert (Hne : plain_results o ns <> [])
    by (destruct (plain_results o ns); [contradiction | discriminate]).
  assert (Hq' : q <> js "$" /\ q <> js "$value").
  { apply in_map_iff in Hq. destruct Hq as (r & <- & Hr).
    now apply (child_results_keys o (plain_scope o ns)). }
  destruct Hq' as [Hq1 Hq2].
  rewrite normalize_VObj. cbv zeta.
  unfold plain_results, plain_scope in *. cbv zeta in *.
  destruct (if truthy (get o (js "$")) then scanned (get o (js "$")) ns
            else (ns, false, false, false)) as [[[ns' decl] nsAttr] bare] eqn:Esc.
  assert (Ens : (if truthy (get o (js "$"))
                 then let '(ns'0, _, _, _) := scanned (get o (js "$")) ns in ns'0
                 else ns) = ns').
  { destruct (truthy (get o (js "$"))).
    - now rewrite Esc.
    - now inversion Esc. }
  rewrite Ens in *. clear Ens.
  set (rs := map (fun bi => normalized (snd bi) ns' (fst bi)) (child_items o)) in *.
  rewrite normWalk_fold.
  rewrite (fold_left_map_fuse _ _ _ (fun st r => added r st)
             (fun bi => normalized (snd bi) ns' (fst bi))).
  fold rs.
  set (st0 := if truthy (get o (js "$")) && (nsAttr || bare) then _ else _).
  assert (Hst0 : exists base flag,
            st0 = (base ++ group [], flag)
            /\ forall k, k <> js "$" -> ~ In k (map fst base)).
  { unfold st0. destruct (truthy (get o (js "$")) && (nsAttr || bare)).
    - eexists [_], _. split; [reflexivity|]. cbn. intros k Hk [E|[]].
      now apply Hk.
    - exists [], true. split; [reflexivity|]. cbn. tauto. }
  destruct Hst0 as (base & flag & -> & Hbase).
  rewrite addEntry_fold; [| | exact Hv | exact Hne].
  2:{ intros r Hr. apply Hbase. now apply (child_results_keys o ns'). }
  cbn [app].
  assert (Hget : get (base ++ group rs) q = slot (occurrences q rs)).
  { rewrite get_app_r by (now apply Hbase). apply get_group. }
  unfold prop. destruct (defined (get o (js "$value"))); cbn [snd entries].
  - rewrite get_set_other by congruence. exact Hget.
  - exact Hget.
Qed.

Lemma mapM_plain : forall (A B : Type) (f : A -> result B) (g : A -> B) l,
  (forall x, In x l -> f x = Ok (g x)) -> mapM f l = Ok (map g l).
Proof.
  intros A B f g. induction l as [|x l IH]; intro H; [reflexivity|].
  cbn [mapM map]. rewrite H by now left. cbn [bind].
  rewrite IH by (intros; apply H; now right). reflexivity.
Qed.

Lemma child_items_names : forall o bi,
  names_ok (VObj o) = true -> In bi (child_items o) ->
  name_ok (fst bi) = true /\ names_ok (snd bi) = true.
Proof.
  intros o bi Hn H. rewrite names_ok_VObj, forallb_forall in Hn.
  unfold child_items in H. apply in_flat_map in H.
  destruct H as ([b val] & Hin & H). specialize (Hn _ Hin).
  cbn [fst snd] in *. apply andb_true_iff in Hn. destruct Hn as [Hb Hval].
  destruct (is_dollar b || is_empty b); [contradiction|].
  destruct val as [| |s|items|props];
    try (destruct H as [<-|[]]; now split).
  apply in_map_iff in H. destruct H as (item & <- & Hitem).
  split; [assumption|]. cbn [names_ok] in Hval.
  rewrite forallb_forall in Hval. now apply Hval.
Qed.

Lemma scope_plain : forall o ns,
  names_ok (VObj o) = true -> bindings ns ->
  scope o ns = Ok (plain_scope o ns) /\ bindings (plain_scope o ns).
Proof.
  intros o ns Hn Hns. unfold scope, plain_scope. cbv zeta.
  destruct (truthy (get o (js "$"))); [|now split].
  pose proof (names_ok_get o (js "$") Hn) as Ha.
  destruct (scanAttributes_plain (get o (js "$")) ns Hns
              (names_ok_entries _ Ha) (entries_printable _ Ha)) as [E Hb].
  rewrite E. cbn [bind].
  now destruct (scanned (get o (js "$")) ns) as [[[ns' ?] ?] ?].
Qed.

Lemma child_results_plain : forall o ns,
  names_ok (VObj o) = true -> bindings ns ->
  child_results o ns = Ok (plain_results o ns).
Proof.
  intros o ns Hn Hns. unfold child_results, plain_results.
  destruct (scope_plain o ns Hn Hns) as [E Hb]. rewrite E. cbn [bind].
  apply mapM_plain. intros bi Hbi.
  destruct (child_items_names o bi Hn Hbi) as [Hb' Hv].
  now apply normalize_plain.
Qed.

(** The example of the specification: siblings that resolve to [abc|a]
    under the raw names [a] and [x:a], interleaved. *)
Definition interleaved_example : jstring :=
  js "<t xmlns:x=" ++ dq (js "abc") ++ js ">"
  ++ js "<a xmlns=" ++ dq (js "abc") ++ js ">1</a>"
  ++ js "<x:a>2</x:a>"
  ++ js "<a xmlns=" ++ dq (js "def") ++ js ">3</a>"
  ++ js "<a xmlns=" ++ dq (js "abc") ++ js ">4</a>"
  ++ js "</t>".

(** C2, as amended.  The children of one parent whose names resolve to the
    same qualified key [k] are merged under [k]: alone when there is one,
    in one sequence when there are more.  The sequence follows the order
    in which the properties of the parent list the children, raw tag name
    after raw tag name and, under one raw tag name, in document order: for
    the example of the specification it is 1, 4, 2.  This is for a tree in
    which no name, and no part of a name before or after a colon, is a
    name of [Object.prototype] ([names_ok]), under bindings that an
    object can hold ([bindings_ok]), and for children whose normalized
    values are objects or non-empty strings; [rs] is what the recursive
    calls return for the children. *)
Theorem normalize_merges_in_property_order (o ns : object) (tag : jstring)
  (Hn : names_ok (VObj o) = true) (Hns : bindings_ok ns = true)
  (Ht : name_ok tag = true) :
  (exists rs q r,
     child_results o ns = Ok rs
     /\ _normalizeNamespaces (VObj o) ns tag = Ok (q, r)
     /\ (forallb (fun r => is_node (snd r) && truthy (snd r)) rs = true ->
         forall k, In k (map fst rs) ->
           prop r k = slot (occurrences k rs)))
  /\ (t <- parse interleaved_example ;; normalizeNamespaces t) =
     Ok (VObj [(js "t",
                VObj [(js "abc|a", VArr [VStr (js "1"); VStr (js "4"); VStr (js "2")]);
                      (js "def|a", VStr (js "3"))])]).
Proof.
  split; [|vm_compute; reflexivity].
  exists (plain_results o ns), (fst (normalized (VObj o) ns tag)),
         (snd (normalized (VObj o) ns tag)).
  apply bindings_ok_bindings in Hns.
  split; [now apply child_results_plain|]. split.
  - rewrite normalize_plain by assumption.
    now destruct (normalized (VObj o) ns tag).
  - intros Hv k Hk. now apply plain_merge.
Qed.

Lemma normalize_merges_in_property_order_witness :
  let o := [(js "a", VArr [VStr (js "1"); VStr (js "4")]); (js "x:a", VStr (js "2"))] in
  let ns := [([], VStr (js "abc")); (js "x", VStr (js "abc"))] in
  names_ok (VObj o) = true /\ bindings_ok ns = true
  /\ name_ok (js "t") = true
  /\ exists r,
       _normalizeNamespaces (VObj o) ns (js "t") = Ok (js "abc|t", r)
       /\ prop r (js "abc|a")
          = VArr [VStr (js "1"); VStr (js "4"); VStr (js "2")].
Proof.
  intros o ns. split; [reflexivity|]. split; [reflexivity|].
  split; [reflexivity|].
  destruct (proj1 (normalize_merges_in_property_order o ns (js "t")
                     eq_refl eq_refl eq_refl))
    as (rs & q & r & Hrs & Hr & Hm).
  vm_compute in Hrs. injection Hrs as <-.
  vm_compute in Hr. injection Hr as <- <-.
  eexists. split; [vm_compute; reflexivity|].
  exact (Hm eq_refl (js "abc|a") (or_introl eq_refl)).
Defined.

(** C2, as stated, fails on its own example: the sequence under [abc|a]
    is 1, 4, 2 and not the document order 1, 2, 4. *)
Lemma normalize_not_in_document_order :
  exists t n,
    parse interleaved_example = Ok t
    /\ normalizeNamespaces t = Ok n
    /\ prop (prop n (js "t")) (js "abc|a")
       = VArr [VStr (js "1"); VStr (js "4"); VStr (js "2")]
    /\ prop (prop n (js "t")) (js "abc|a")
       <> VArr [VStr (js "1"); VStr (js "2"); VStr (js "4")].
Proof.
  destruct (parse interleaved_example) as [t| | |] eqn:E;
    [| vm_compute in E; discriminate E | vm_compute in E; discriminate E
     | vm_compute in E; discriminate E].
  vm_compute in E. injection E as <-.
  eexists _, _. split; [reflexivity|].
  split; [vm_compute; reflexivity|].
  split; [vm_compute; reflexivity|].
  vm_compute. discriminate.
Qed.

(** ** Text and what follows it *)

Local Open Scope Z_scope.

(** The text of an element with comments in it: pieces of text, each one
    followed by a comment, and a last piece. *)
Fixpoint commented (pieces : list (jstring * jstring)) (last : jstring)
  : jstring :=
  match pieces with
  | [] => last
  | (text, com) :: pieces' =>
      text ++ js "<!--" ++ com ++ js "-->" ++ commented pieces' last
  end.

(** What pieces of text decode to, one after the other. *)
Fixpoint cleanAll (texts : list jstring) : result jstring :=
  match texts with
  | [] => Ok []
  | text :: texts' =>
      v <- clean text ;; vs <- cleanAll texts' ;; Ok (v ++ vs)
  end.

Lemma cleanAll_snoc : forall texts last v,
  cleanAll (texts ++ [last]) = Ok v ->
  exists v0 v1, cleanAll texts = Ok v0 /\ clean last = Ok v1 /\ v = v0 ++ v1.
Proof.
  induction texts as [|x texts IH]; intros last v H.
  - cbn [app cleanAll] in H.
    destruct (clean last) as [v1|?| |] eqn:E; try discriminate.
    cbn [bind] in H. injection H as <-. exists [], v1.
    rewrite app_nil_r. auto.
  - cbn [app cleanAll] in H |- *.
    destruct (clean x) as [vx|?| |]; try discriminate. cbn [bind] in H |- *.
    destruct (cleanAll (texts ++ [last])) as [vs|?| |] eqn:E; try discriminate.
    cbn [bind] in H. injection H as <-.
    destruct (IH _ _ E) as (v0 & v1 & -> & Hl & ->).
    exists (vx ++ v0), v1. cbn [bind]. rewrite app_assoc. auto.
Qed.

Lemma length_commented :
  forall (pieces : list (jstring * jstring)) (last tail : jstring),
  (List.length pieces <= List.length (commented pieces last ++ tail))%nat.
Proof.
  induction pieces as [|[text com] pieces IH]; intros last tail;
    cbn [commented List.length]; [lia|].
  specialize (IH last tail). rewrite <- !app_assoc, !length_app in *.
  cbn [js map list_ascii_of_string List.length]. lia.
Qed.

Lemma indexOf_comment_end : forall com rest,
  has (js "-->") com = false ->
  indexOf (js "-->") (com ++ js "-->" ++ rest) = Some (com, js "-->" ++ rest).
Proof.
  unfold has. induction com as [|c d IH]; intros rest H; [reflexivity|].
  cbn [indexOf] in H.
  destruct (starts (js "-->") (c :: d)) eqn:Es; [discriminate|].
  destruct (indexOf (js "-->") d) as [[b r]|] eqn:Ei; [discriminate|].
  cbn [app indexOf].
  assert (Es' : starts (js "-->") (c :: d ++ js "-->" ++ rest) = false).
  { destruct d as [|x [|y d]].
    - cbn -[Z.eqb]. now destruct (45 =? c).
    - cbn -[Z.eqb]. destruct (45 =? c); [|reflexivity]. now destruct (45 =? x).
    - exact Es. }
  rewrite Es'. rewrite IH by reflexivity. reflexivity.
Qed.

(** The comments are passed and the text before each of them is kept. *)
Lemma content_comments :
  forall (pieces : list (jstring * jstring)) (last tail : jstring)
         fuel (val : jstring) bld v0,
  (forall s, In s (map fst pieces) -> ~ In LT s) ->
  (forall c, In c (map snd pieces) -> has (js "-->") c = false) ->
  cleanAll (map fst pieces) = Ok v0 ->
  (List.length pieces < fuel)%nat ->
  content fuel (commented pieces last ++ tail) val bld
  = content (fuel - List.length pieces) (last ++ tail) (val ++ v0) bld.
Proof.
  induction pieces as [|[text com] pieces IH];
    intros last tail fuel val bld v0 Ht Hc Hv Hf.
  - cbn in Hv. injection Hv as <-. cbn [commented List.length].
    now rewrite Nat.sub_0_r, app_nil_r.
  - cbn [map fst cleanAll] in Hv.
    destruct (clean text) as [v1|?| |] eqn:E1; try discriminate.
    cbn [bind] in Hv.
    destruct (cleanAll (map fst pieces)) as [vs|?| |] eqn:E2; try discriminate.
    cbn [bind] in Hv. injection Hv as <-.
    destruct fuel as [|fuel]; [inversion Hf|].
    cbn [commented List.length Nat.sub]. rewrite <- !app_assoc.
    set (rest := commented pieces last ++ tail).
    change (js "<!--" ++ com ++ js "-->" ++ rest)
      with (LT :: (js "!--" ++ com ++ js "-->" ++ rest)).
    cbn [content]. rewrite indexOf_char by (apply Ht; now left).
    change (starts (js "<!--") (LT :: js "!--" ++ com ++ js "-->" ++ rest))
      with true.
    cbn iota. rewrite E1. cbn [bind].
    change (skipn 4 (LT :: js "!--" ++ com ++ js "-->" ++ rest))
      with (com ++ js "-->" ++ rest).
    rewrite indexOf_comment_end by (apply Hc; now left).
    change (skipn 3 (js "-->" ++ rest)) with rest. subst rest.
    rewrite (IH last tail fuel (val ++ v1) bld vs).
    + now rewrite <- app_assoc.
    + intros s Hs. apply Ht. now right.
    + intros c Hcc. apply Hc. now right.
    + reflexivity.
    + cbn [List.length] in Hf. lia.
Qed.

Lemma content_value : forall n (text more v val : jstring) bld,
  ~ In LT text -> clean text = Ok v ->
  content (S n) (text ++ js "</" ++ more) val bld =
  (bld' <- Builder.value (VStr (val ++ v)) bld ;; Ok (js "</" ++ more, bld')).
Proof.
  intros n text more v val bld Ht Hv. cbn [content].
  change (js "</" ++ more) with (LT :: SLASH :: more).
  rewrite indexOf_char by assumption.
  change (starts (js "<!--") (LT :: SLASH :: more)) with false.
  cbn iota. rewrite Hv. cbn [bind app].
  change (starts [LT; SLASH] (LT :: SLASH :: more)) with true. reflexivity.
Qed.

Lemma content_reject : forall n (text rest v val : jstring) c bld,
  ~ In LT text -> clean text = Ok v ->
  c <> SLASH -> starts (js "<!--") (LT :: c :: rest) = false ->
  existsb nonBlank (val ++ v) = true ->
  content (S n) (text ++ LT :: c :: rest) val bld = Throw "unexpected value".
Proof.
  intros n text rest v val c bld Ht Hv Hc Hs Hb. cbn [content].
  rewrite indexOf_char by assumption. rewrite Hs, Hv. cbn [bind app].
  cbn [starts]. apply Z.eqb_neq in Hc. rewrite Z.eqb_sym in Hc.
  rewrite Z.eqb_refl, Hc. cbn [andb]. unfold checkEmpty. now rewrite Hb.
Qed.

Lemma eatSpaces_app : forall ws s,
  forallb space ws = true -> eatSpaces (ws ++ s) = eatSpaces s.
Proof.
  induction ws as [|c ws IH]; intros s H; [reflexivity|].
  cbn [forallb] in H. apply andb_true_iff in H. destruct H as [Hc Hws].
  specialize (IH s Hws). unfold eatSpaces in *. cbn [app span]. rewrite Hc.
  destruct (span space (ws ++ s)) as [w r]. exact IH.
Qed.

(** A text of blanks before another tag is passed over: the scanner
    stays where the text begins. *)
Lemma content_skip : forall n (text rest v val : jstring) c bld,
  ~ In LT text -> clean text = Ok v ->
  c <> SLASH -> starts (js "<!--") (LT :: c :: rest) = false ->
  existsb nonBlank (val ++ v) = false ->
  content (S n) (text ++ LT :: c :: rest) val bld
  = Ok (text ++ LT :: c :: rest, bld).
Proof.
  intros n text rest v val c bld Ht Hv Hc Hs Hb. cbn [content].
  rewrite indexOf_char by assumption. rewrite Hs, Hv. cbn [bind app].
  cbn [starts]. apply Z.eqb_neq in Hc. rewrite Z.eqb_sym in Hc.
  rewrite Z.eqb_refl, Hc. cbn [andb]. unfold checkEmpty. now rewrite Hb.
Qed.

Lemma content_unclosed : forall n (text val : jstring) bld,
  ~ In LT text -> content (S n) text val bld = Throw "tag not closed".
Proof.
  intros n text val bld Ht. cbn [content].
  now rewrite indexOf_LT_none by assumption.
Qed.

Section Commented.

Variables (pieces : list (jstring * jstring)) (last v : jstring).
Hypothesis Htext : forall s, In s (map fst pieces ++ [last]) -> ~ In LT s.
Hypothesis Hcom : forall c, In c (map snd pieces) -> has (js "-->") c = false.
Hypothesis Hv : cleanAll (map fst pieces ++ [last]) = Ok v.

Lemma commented_last : ~ In LT last.
Proof. apply Htext, in_or_app. right. now left. Qed.

Lemma commented_texts : forall s, In s (map fst pieces) -> ~ In LT s.
Proof. intros s Hs. apply Htext, in_or_app. now left. Qed.

(** The whole text has been read when its last piece is reached. *)
Lemma content_commented : forall (tail : jstring) bld,
  exists n v0 v1,
    clean last = Ok v1 /\ v = v0 ++ v1 /\
    content (S (List.length (commented pieces last ++ tail)))
            (commented pieces last ++ tail) [] bld
    = content (S n) (last ++ tail) v0 bld.
Proof.
  intros tail bld. destruct (cleanAll_snoc _ _ _ Hv) as (v0 & v1 & H0 & H1 & E).
  pose proof (length_commented pieces last tail) as Hlen.
  exists (List.length (commented pieces last ++ tail) - List.length pieces)%nat,
    v0, v1.
  split; [exact H1|]. split; [exact E|].
  rewrite (content_comments pieces last tail _ [] bld v0 commented_texts Hcom H0)
    by lia.
  cbn [app]. f_equal. lia.
Qed.

Lemma content_commented_value : forall more bld,
  content (S (List.length (commented pieces last ++ js "</" ++ more)))
          (commented pieces last ++ js "</" ++ more) [] bld
  = (bld' <- Builder.value (VStr v) bld ;; Ok (js "</" ++ more, bld')).
Proof.
  intros more bld.
  destruct (content_commented (js "</" ++ more) bld)
    as (n & v0 & v1 & H1 & -> & ->).
  now rewrite (content_value n last more v1 v0 bld commented_last H1).
Qed.

Lemma content_commented_reject : forall c rest bld,
  c <> SLASH -> starts (js "<!--") (LT :: c :: rest) = false ->
  existsb nonBlank v = true ->
  content (S (List.length (commented pieces last ++ LT :: c :: rest)))
          (commented pieces last ++ LT :: c :: rest) [] bld
  = Throw "unexpected value".
Proof.
  intros c rest bld Hc Hs Hb.
  destruct (content_commented (LT :: c :: rest) bld)
    as (n & v0 & v1 & H1 & E & ->). subst v.
  now apply (content_reject n last rest v1 v0 c bld commented_last H1).
Qed.

Lemma content_commented_skip : forall c rest bld,
  c <> SLASH -> starts (js "<!--") (LT :: c :: rest) = false ->
  existsb nonBlank v = false ->
  content (S (List.length (commented pieces last ++ LT :: c :: rest)))
          (commented pieces last ++ LT :: c :: rest) [] bld
  = Ok (last ++ LT :: c :: rest, bld).
Proof.
  intros c rest bld Hc Hs Hb.
  destruct (content_commented (LT :: c :: rest) bld)
    as (n & v0 & v1 & H1 & E & ->). subst v.
  now apply (content_skip n last rest v1 v0 c bld commented_last H1).
Qed.

Lemma content_commented_unclosed : forall bld,
  content (S (List.length (commented pieces last)))
          (commented pieces last) [] bld
  = Throw "tag not closed".
Proof.
  intro bld.
  destruct (content_commented [] bld) as (n & v0 & v1 & _ & _ & E).
  rewrite !app_nil_r in E. rewrite E.
  apply content_unclosed, commented_last.
Qed.

End Commented.

Lemma push_result : forall t b,
  (exists b', Builder.push t b = Ok b') \/ throws (Builder.push t b).
Proof.
  intros t b. unfold Builder.push, throws.
  destruct (nonnull (get (e_props (elt b)) (js "$cdata"))); [right; eauto|].
  destruct (nonnull (get (e_props (elt b)) (js "$value"))); [right; eauto|].
  destruct (nonnull (get (e_props (elt b)) t)); left; eauto.
Qed.

Lemma feedAttrs_result : forall a b,
  (exists b', feedAttrs a b = Ok b') \/ throws (feedAttrs a b).
Proof.
  induction a as [|[k v] a IH]; intro b; [left; now exists b|].
  cbn [feedAttrs]. unfold Builder.attribute.
  destruct (if truthy (get (e_props (elt b)) (js "$"))
            then get (e_props (elt b)) (js "$") else VObj [])
    as [| |s|l|attrs].
  1-4: right; now eexists.
  destruct (nonnull (get attrs k) || inherited k); [right; now eexists|].
  cbn [bind]. apply IH.
Qed.

Lemma parse_at_LT : forall inp,
  parse (LT :: inp) =
  (bld <- mainLoop' (LT :: inp) builder_init ;; Builder.getResult bld).
Proof.
  intro inp. unfold parse. cbn [indexOf starts]. now rewrite Z.eqb_refl.
Qed.

(** An opening tag and what [content] makes of the rest. *)
Lemma scan_open_tag : forall (t tail : jstring) a bld,
  is_name t = true -> forallb attr_ok a = true ->
  mainLoop' ([LT] ++ t ++ renderAttrs a ++ [GT] ++ tail) bld
  = (b1 <- Builder.push t bld ;;
     b2 <- feedAttrs a b1 ;;
     '(inp', b') <- content (S (List.length tail)) tail [] b2 ;;
     mainLoop' (eatSpaces inp') b').
Proof.
  intros t tail a bld Ht Ha.
  rewrite (mainLoop'_open _ t (renderAttrs a ++ [GT] ++ tail) bld eq_refl Ht)
    by (now apply attrs_tail_ok).
  destruct (Builder.push t bld) as [b1| | |]; try reflexivity. cbn [bind].
  rewrite tagLoop'_attrs by assumption.
  destruct (feedAttrs a b1) as [b2| | |]; [|reflexivity|reflexivity|reflexivity].
  cbn [bind]. change ([GT] ++ tail) with (GT :: tail). now rewrite tagLoop'_gt.
Qed.

(** An element with text between its tags. *)
Lemma scan_text_element : forall (t v post : jstring) pieces last a bld,
  is_name t = true -> forallb attr_ok a = true ->
  (forall s, In s (map fst pieces ++ [last]) -> ~ In LT s) ->
  (forall c, In c (map snd pieces) -> has (js "-->") c = false) ->
  cleanAll (map fst pieces ++ [last]) = Ok v ->
  mainLoop' ([LT] ++ t ++ renderAttrs a ++ [GT] ++ commented pieces last
             ++ js "</" ++ t ++ [GT] ++ post) bld
  = (bld' <- feed (XText t a v) bld ;; mainLoop' (eatSpaces post) bld').
Proof.
  intros t v post pieces last a bld Ht Ha Htext Hcom Hv.
  rewrite scan_open_tag by assumption. cbn [feed].
  destruct (Builder.push t bld) as [b1| | |]; try reflexivity. cbn [bind].
  destruct (feedAttrs a b1) as [b2| | |]; try reflexivity. cbn [bind].
  rewrite (content_commented_value pieces last v Htext Hcom Hv).
  destruct (Builder.value (VStr v) b2) as [b3| | |]; try reflexivity.
  cbn [bind]. apply (mainLoop'_close _ t post b3 eq_refl Ht).
Qed.

(** The text of an element, all blanks once decoded and ending in blanks
    as written, before the children of the element. *)
Lemma scan_blank_text : forall (t v : jstring) pieces last a cs post bld,
  wf_doc (XNode t a cs) = true ->
  (forall s, In s (map fst pieces ++ [last]) -> ~ In LT s) ->
  (forall c, In c (map snd pieces) -> has (js "-->") c = false) ->
  cleanAll (map fst pieces ++ [last]) = Ok v ->
  existsb nonBlank v = false -> forallb space last = true ->
  mainLoop' ([LT] ++ t ++ renderAttrs a ++ [GT] ++ commented pieces last
             ++ flat_map render cs ++ js "</" ++ t ++ [GT] ++ post) bld
  = (bld' <- feed (XNode t a cs) bld ;; mainLoop' (eatSpaces post) bld').
Proof.
  intros t v pieces last a cs post bld Hwf Htext Hcom Hv Hb Hl.
  destruct (wf_doc_parts _ Hwf) as (Ht & Ha & Hnd). cbn [xtag xattrs] in *.
  assert (Hcs : cs <> [] /\ forallb wf_doc cs = true).
  { cbn [wf_doc] in Hwf. apply andb_true_iff in Hwf. destruct Hwf as [_ Hwf].
    destruct cs; [discriminate|]. split; [discriminate | exact Hwf]. }
  destruct Hcs as [Hne Hcs].
  assert (Hhead : exists c more,
            flat_map render cs ++ js "</" ++ t ++ [GT] ++ post = LT :: c :: more
            /\ c <> SLASH /\ c <> EXCLAM).
  { destruct cs as [|c0 cs]; [contradiction|].
    cbn [forallb] in Hcs. apply andb_true_iff in Hcs. destruct Hcs as [Hc0 _].
    destruct (render_head c0 Hc0) as (ch & more & E & Hch).
    destruct (begWord_facts _ Hch) as (_ & _ & Hsl & _ & Hex & _).
    exists ch, (more ++ flat_map render cs ++ js "</" ++ t ++ [GT] ++ post).
    cbn [flat_map]. rewrite E. rewrite <- !app_assoc. cbn [app]. auto. }
  destruct Hhead as (c & more & E & Hsl & Hex).
  rewrite scan_open_tag by assumption. rewrite feed_XNode.
  destruct (Builder.push t bld) as [b1| | |]; try reflexivity. cbn [bind].
  destruct (feedAttrs a b1) as [b2| | |]; try reflexivity. cbn [bind].
  rewrite E.
  rewrite (content_commented_skip pieces last v Htext Hcom Hv c more b2).
  - cbn [bind]. rewrite eatSpaces_app by assumption.
    rewrite eatSpaces_id by reflexivity. rewrite <- E.
    rewrite scan_children.
    + destruct (feedAll cs b2) as [b3| | |]; try reflexivity. cbn [bind].
      replace (js "</" ++ t ++ [GT] ++ post)
        with (eatSpaces (js "</" ++ t ++ [GT] ++ post))
        by (exact (eatSpaces_id LT (SLASH :: t ++ [GT] ++ post) eq_refl)).
      apply (mainLoop'_close _ t post b3 eq_refl Ht).
    + rewrite Forall_forall. intros x _ Hx. now apply scan_render.
    + assumption.
    + now apply eatSpaces_id.
  - assumption.
  - cbn -[Z.eqb]. apply Z.eqb_neq in Hex. rewrite Z.eqb_sym in Hex.
    change 33%Z with EXCLAM. rewrite Hex. now rewrite andb_false_r.
  - assumption.
Qed.



Local Close Scope Z_scope.

(** ** Two places where the code misses a case *)

(** C6.  An unknown name makes [clean] throw, and so does a numeric
    reference without a digit; but a numeric reference whose digits are
    followed by other characters is decoded from the digits alone, because
    [parseInt] stops at the first character that is not a digit:
    [&#12abc;] is read as the character 12. *)
Theorem numeric_entity_trailing_characters :
  parse (js "<a>&#12abc;</a>") = Ok (VObj [(js "a", VStr [12%Z])])
  /\ entity (js "#12abc") = Ok [12%Z]
  /\ entity (js "#x41") = Ok [65%Z]
  /\ entity (js "#65") = Ok [65%Z]
  /\ map entity [js "amp"; js "lt"; js "gt"; js "quot"; js "apos"]
     = [Ok [AMP]; Ok [LT]; Ok [GT]; Ok [DQUOTE]; Ok [APOS]]
  /\ entity (js "#xzz") = Throw "hex value expected"
  /\ entity (js "bogus") = Throw "invalid entity"
  /\ parse (js "<a>&bogus;</a>") = Throw "invalid entity".
Proof. repeat split; vm_compute; reflexivity. Qed.

(** C8.  [stringify] throws when the root has no key or several, when
    [$value] comes with a child or with a CDATA string that is not empty,
    and when [$cdata], empty or not, comes with a child; but [$value] with
    an empty CDATA string is written as if the CDATA were absent, because
    that one test is on the truth of [$cdata] and not on its presence. *)
Theorem stringify_value_with_empty_cdata :
  stringify (VObj [(js "a", VObj [(js "$value", VStr (js "x"));
                                  (js "$cdata", VStr [])])])
  = Ok (js "<a>x</a>")
  /\ stringify (VObj [(js "a", VObj [(js "$value", VStr (js "x"));
                                     (js "$cdata", VStr (js "d"))])])
     = Throw "cannot mix $value and $cdata"
  /\ stringify (VObj [(js "a", VObj [(js "$cdata", VStr []);
                                     (js "b", VStr (js "y"))])])
     = Throw "cannot mix $cdata and $children"
  /\ stringify (VObj [(js "a", VObj [(js "$value", VStr (js "x"));
                                     (js "b", VStr (js "y"))])])
     = Throw "cannot mix $value and $children"
  /\ stringify (VObj []) = Throw "bad root element expected 1 child"
  /\ stringify (VObj [(js "a", VStr []); (js "b", VStr [])])
     = Throw "bad root element expected 1 child"
  /\ parse (js "<a><![CDATA[]]></a>")
     = Ok (VObj [(js "a", VObj [(js "$cdata", VStr [])])]).
Proof. repeat split; vm_compute; reflexivity. Qed.

(** ** The fuel of [parse] is enough *)

Definition terminates {A} (r : result A) : Prop := r <> OutOfFuel.

Lemma terminates_bind : forall A B (r : result A) (k : A -> result B),
  terminates r -> (forall a, r = Ok a -> terminates (k a)) ->
  terminates (bind r k).
Proof.
  intros A B [a|m| |] k Hr Hk; cbn [bind].
  - now apply Hk.
  - discriminate.
  - contradiction.
  - discriminate.
Qed.

Lemma entity_terminates : forall ent, terminates (entity ent).
Proof.
  intro ent. unfold entity, terminates.
  destruct (byName entitiesByName ent); [discriminate|].
  destruct (inherited ent); [discriminate|].
  destruct ent as [|c ent1]; [discriminate|].
  destruct (c =? HASH)%Z; [|discriminate].
  destruct (match ent1 with
            | [] => (ent1, 10%Z)
            | x :: ent2 => if (x =? 120)%Z then (ent2, 16%Z) else (ent1, 10%Z)
            end) as [ent2 radix].
  destruct (parseInt ent2 radix) as [v|]; [|discriminate].
  destruct (Z.abs v <? 2 ^ 53)%Z; discriminate.
Qed.

Lemma clean_from_terminates : forall s skip, terminates (clean_from skip s).
Proof.
  induction s as [|c s IH]; intro skip; [discriminate|].
  cbn [clean_from]. destruct skip as [|k]; [|apply IH].
  destruct (if (c =? AMP)%Z then entityAt s else None) as [ent|].
  - apply terminates_bind; [apply entity_terminates|]. intros r _.
    apply terminates_bind; [apply IH|]. discriminate.
  - apply terminates_bind; [apply IH|]. discriminate.
Qed.

Lemma value_terminates : forall v b, terminates (Builder.value v b).
Proof.
  intros v b. unfold Builder.value, terminates.
  destruct (nonnull _); [discriminate|]. destruct (negb _); discriminate.
Qed.

Lemma cdata_terminates : forall v b, terminates (Builder.cdata v b).
Proof.
  intros v b. unfold Builder.cdata, terminates.
  destruct (nonnull _); [discriminate|]. destruct (negb _); discriminate.
Qed.

Lemma pop_terminates : forall t b, terminates (Builder.pop t b).
Proof.
  intros t b. unfold Builder.pop, terminates.
  destruct (Builder.mismatch t (elt b)); [discriminate|].
  destruct (parents b); discriminate.
Qed.

Lemma push_terminates : forall t b, terminates (Builder.push t b).
Proof.
  intros t b. destruct (push_result t b) as [[b' E]|[m E]]; rewrite E;
    discriminate.
Qed.

Lemma attribute_terminates : forall k v b,
  terminates (Builder.attribute k v b).
Proof.
  intros k v b. unfold Builder.attribute, terminates.
  destruct (if truthy _ then _ else _); try discriminate.
  destruct (nonnull _ || inherited k); discriminate.
Qed.

Lemma eat_terminates : forall c s, terminates (eat c s).
Proof.
  intros c [|x s]; cbn [eat]; [discriminate|].
  destruct (x =? c)%Z; discriminate.
Qed.

Lemma eatQuote_terminates : forall s, terminates (eatQuote s).
Proof.
  intros [|x s]; cbn [eatQuote]; [discriminate|].
  destruct ((x =? DQUOTE)%Z || (x =? APOS)%Z); discriminate.
Qed.

Lemma starts_length : forall pat s,
  starts pat s = true -> (List.length pat <= List.length s)%nat.
Proof.
  induction pat as [|p pat IH]; intros s H; [cbn; lia|].
  destruct s as [|c s]; [discriminate|]. cbn [starts] in H.
  apply andb_true_iff in H. destruct H as [_ H]. apply IH in H. cbn. lia.
Qed.

Lemma content_terminates : forall fuel inp val bld,
  (List.length inp < fuel)%nat -> terminates (content fuel inp val bld).
Proof.
  induction fuel as [|fuel IH]; intros inp val bld Hf; [lia|].
  cbn [content].
  destruct (indexOf [LT] inp) as [[text at_j]|] eqn:Ei; [|discriminate].
  pose proof (length_indexOf _ _ _ _ Ei) as L1.
  destruct (starts (js "<!--") at_j) eqn:Es.
  - apply starts_length in Es. cbn in Es.
    apply terminates_bind; [apply clean_from_terminates|]. intros t _.
    destruct (indexOf (js "-->") (skipn 4 at_j)) as [[c at_j']|] eqn:Ec;
      [|discriminate].
    apply IH. pose proof (length_indexOf _ _ _ _ Ec) as L2.
    pose proof (length_skipn_le 3 at_j'). rewrite length_skipn in L2. lia.
  - apply terminates_bind; [apply clean_from_terminates|]. intros t _.
    destruct (starts [LT; SLASH] at_j).
    + apply terminates_bind; [apply value_terminates|]. discriminate.
    + unfold checkEmpty. destruct (existsb nonBlank _); discriminate.
Qed.

Lemma tagLoop_terminates : forall fuel inp bld,
  (List.length inp < fuel)%nat -> terminates (tagLoop fuel inp bld).
Proof.
  induction fuel as [|fuel IH]; intros inp bld Hf; [lia|].
  cbn [tagLoop]. pose proof (length_eatSpaces inp) as L0.
  destruct (eatSpaces inp) as [|ch rest]; [discriminate|].
  cbn [List.length] in L0.
  destruct (ch =? SLASH)%Z.
  { apply terminates_bind; [apply eat_terminates|]. intros r _.
    apply terminates_bind; [apply pop_terminates|]. discriminate. }
  destruct (begWord ch).
  { destruct (span inWord rest) as [w rest1] eqn:E1.
    pose proof (length_span _ _ _ _ E1) as L1.
    pose proof (length_eatSpaces rest1) as L2.
    apply terminates_bind; [apply eat_terminates|]. intros rest2 E2.
    apply length_eat in E2. pose proof (length_eatSpaces rest2) as L3.
    apply terminates_bind; [apply eatQuote_terminates|]. intros [q rest3] E3.
    apply length_eatQuote in E3.
    destruct (indexOf [q] rest3) as [[raw at_q]|] eqn:E4; [|discriminate].
    pose proof (length_indexOf _ _ _ _ E4) as L4.
    apply terminates_bind; [apply clean_from_terminates|]. intros v _.
    apply terminates_bind; [apply attribute_terminates|]. intros b' _.
    apply IH. pose proof (length_skipn_le 1 at_q). lia. }
  destruct (ch =? GT)%Z; [|discriminate].
  apply content_terminates. lia.
Qed.

Lemma step_terminates : forall inp bld, terminates (step inp bld).
Proof.
  intros inp bld. unfold step.
  apply terminates_bind; [apply eat_terminates|]. intros rest _.
  destruct rest as [|ch rest1]; [discriminate|].
  destruct (begWord ch).
  { destruct (span inWord rest1) as [w rest2].
    apply terminates_bind; [apply push_terminates|]. intros b' _.
    apply tagLoop_terminates. lia. }
  destruct (ch =? SLASH)%Z.
  { destruct (match rest1 with
              | [] => (None, rest1)
              | c :: rest1' =>
                  if begWord c
                  then let (w, r) := span inWord rest1' in (Some (c :: w), r)
                  else (None, rest1)
              end) as [tag rest2].
    apply terminates_bind; [apply eat_terminates|]. intros r _.
    apply terminates_bind; [apply pop_terminates|]. discriminate. }
  destruct (ch =? EXCLAM)%Z.
  { destruct (starts (js "--") rest1).
    - destruct (indexOf _ _) as [[c at_j]|]; discriminate.
    - destruct (starts (js "[CDATA[") rest1); [|discriminate].
      destruct (indexOf _ _) as [[c at_j]|]; [|discriminate].
      apply terminates_bind; [apply cdata_terminates|]. discriminate. }
  destruct (ch =? QMARK)%Z; [|discriminate].
  destruct (indexOf _ _) as [[c at_j]|]; discriminate.
Qed.

Lemma mainLoop_terminates : forall fuel inp bld,
  (List.length inp < fuel)%nat -> terminates (mainLoop fuel inp bld).
Proof.
  induction fuel as [|fuel IH]; intros inp bld Hf; [lia|].
  cbn [mainLoop]. destruct inp as [|c inp]; [discriminate|].
  apply terminates_bind; [apply step_terminates|]. intros [inp' bld'] E.
  apply step_shrinks in E. pose proof (length_eatSpaces inp').
  apply IH. lia.
Qed.

(** The fuel of the model never runs out: [parse] returns a tree, throws,
    or is [Unmodelled]. *)
Lemma parse_terminates : forall str, terminates (parse str).
Proof.
  intro str. unfold parse.
  destruct (indexOf [LT] str) as [[b inp]|]; [|discriminate].
  apply terminates_bind; [apply mainLoop_terminates; lia|]. intros bld _.
  unfold Builder.getResult. destruct (parents bld); [|discriminate].
  destruct (e_childCount (elt bld)) as [|[|n]]; try discriminate.
  destruct (outside bld); discriminate.
Qed.

(** * Further properties of the code *)

Local Open Scope Z_scope.

(** ** What [escape] writes *)

(** A unit that stands for itself in a text and in an attribute value
    between quotes of either kind. *)
Definition plain_unit (c : Z) : bool :=
  (between 32 126 c || between 161 55295 c || between 57344 65533 c)
  && negb ((c =? LT) || (c =? GT) || (c =? DQUOTE) || (c =? APOS)).

Lemma all_units_plain :
  forallb (fun c => forallb plain_unit (escapeUnit c))
          (units_from (Z.to_nat 65536) 0) = true.
Proof. vm_compute. reflexivity. Qed.

Lemma escapeUnit_plain : forall c,
  is_unit c = true -> forallb plain_unit (escapeUnit c) = true.
Proof.
  intros c H. unfold is_unit in H. apply andb_true_iff in H.
  destruct H as [H0 H1]. apply Z.leb_le in H0. apply Z.ltb_lt in H1.
  pose proof all_units_plain as A. rewrite forallb_forall in A.
  apply (A c). apply units_from_In. lia.
Qed.

(** X1.  Whatever string [escape] is given, it writes only units of the
    printable ranges, none of them [<], [>] or a quote, and [clean] reads
    the string back from what it wrote. *)
Theorem escape_is_plain_and_decodes (s : jstring) (Hs : is_jstring s = true) :
  forallb plain_unit (escape (VStr s)) = true
  /\ clean (escape (VStr s)) = Ok s.
Proof.
  split; [|now apply clean_escape].
  induction s as [|c s IH]; [reflexivity|].
  cbn [is_jstring forallb] in Hs. apply andb_true_iff in Hs.
  destruct Hs as [Hc Hs]. rewrite escape_cons, forallb_app.
  rewrite (escapeUnit_plain c Hc). now apply IH.
Qed.

Lemma escape_is_plain_and_decodes_witness :
  let s := js "a<b>&" ++ [DQUOTE; 9; 233; 55357; 56832; 65535] in
  is_jstring s = true
  /\ escape (VStr s)
     = js "a&lt;b&gt;&amp;&quot;&#x09;" ++ [233] ++ js "&#xd83d;&#xde00;&#xffff;"
  /\ clean (escape (VStr s)) = Ok s.
Proof.
  intro s. split; [reflexivity|]. split; [vm_compute; reflexivity|].
  exact (proj2 (escape_is_plain_and_decodes s eq_refl)).
Defined.

(** ** Numeric references *)

Lemma parseInt_dec : forall n, parseInt (index_key n) 10 = Some (Z.of_nat n).
Proof.
  intro n. unfold index_key.
  destruct (parseDigits_dec (S n) n (Nat.lt_succ_diag_r n)) as (Hd & Hne & Hp).
  destruct (dec_digits (S n) n) as [|c ds] eqn:E; [contradiction|].
  cbn [forallb] in Hd. apply andb_true_iff in Hd. destruct Hd as [Hc _].
  unfold is_digit, between in Hc. apply andb_true_iff in Hc.
  rewrite !Z.leb_le in Hc.
  unfold parseInt. cbn [span].
  assert (Ew : strWhiteSpace c = false).
  { unfold strWhiteSpace, between.
    repeat rewrite orb_false_iff. repeat rewrite andb_false_iff.
    rewrite ?Z.leb_gt, ?Z.eqb_neq. lia. }
  rewrite Ew. cbn [snd].
  assert (E45 : (c =? 45) = false) by (apply Z.eqb_neq; lia).
  assert (E43 : (c =? 43) = false) by (apply Z.eqb_neq; lia).
  rewrite E45, E43. change (10 =? 16) with false. cbn [andb].
  now rewrite Hp.
Qed.

(** X2.  A decimal reference [&#n;] is read as the code unit [n] modulo
    2^16, whatever the number [n]: beyond 65535 the number wraps around,
    it is neither refused nor written as a surrogate pair.  (The bound is
    that of the exact integers of JavaScript.) *)
Theorem decimal_reference_wraps (n : nat) (Hn : Z.of_nat n < 2 ^ 53) :
  entity (HASH :: index_key n) = Ok [Z.of_nat n mod 65536]
  /\ clean (js "&#" ++ index_key n ++ js ";") = Ok [Z.of_nat n mod 65536].
Proof.
  assert (He : entity (HASH :: index_key n) = Ok [Z.of_nat n mod 65536]).
  { pose proof (parseInt_dec n) as Hp. unfold index_key in *.
    destruct (parseDigits_dec (S n) n (Nat.lt_succ_diag_r n)) as (Hd & Hne & _).
    destruct (dec_digits (S n) n) as [|c ds] eqn:E; [contradiction|].
    cbn [forallb] in Hd. apply andb_true_iff in Hd. destruct Hd as [Hc _].
    unfold is_digit, between in Hc. apply andb_true_iff in Hc.
    rewrite !Z.leb_le in Hc.
    unfold entity. change (byName entitiesByName (HASH :: c :: ds)) with (@None Z).
    change (HASH =? HASH) with true. cbn iota.
    change (inherited (HASH :: c :: ds)) with false. cbn iota.
    assert (Ex : (c =? 120) = false) by (apply Z.eqb_neq; lia).
    rewrite Ex, Hp.
    assert (Hb : (Z.abs (Z.of_nat n) <? 2 ^ 53) = true)
      by (apply Z.ltb_lt; lia).
    rewrite Hb. reflexivity. }
  split; [exact He|].
  assert (Hname : ~ In SEMI (HASH :: index_key n)).
  { unfold index_key.
    destruct (parseDigits_dec (S n) n (Nat.lt_succ_diag_r n)) as (Hd & _ & _).
    rewrite forallb_forall in Hd. intros [H|H]; [discriminate H|].
    apply Hd in H. unfold is_digit, between in H. apply andb_true_iff in H.
    rewrite !Z.leb_le in H. unfold SEMI in H. lia. }
  unfold clean.
  change (js "&#" ++ index_key n ++ js ";")
    with (AMP :: (HASH :: index_key n) ++ SEMI :: []).
  cbn [clean_from]. rewrite Z.eqb_refl.
  rewrite entityAt_found by (discriminate || assumption).
  rewrite He. cbn [bind].
  replace (S (List.length (HASH :: index_key n)))
    with (List.length ((HASH :: index_key n) ++ [SEMI]))
    by (rewrite length_app; cbn [List.length]; lia).
  rewrite <- (app_nil_r ((HASH :: index_key n) ++ [SEMI])) at 2.
  rewrite clean_from_skip. reflexivity.
Qed.

Lemma decimal_reference_wraps_witness :
  let n := Z.to_nat 128512 in
  Z.of_nat n < 2 ^ 53
  /\ clean (js "&#128512;") = Ok [62976].
Proof.
  intro n. split; [reflexivity|].
  exact (proj2 (decimal_reference_wraps n eq_refl)).
Defined.

(** ** Attributes in an opening tag *)

Lemma space_not_inWord : forall c, space c = true -> inWord c = false.
Proof.
  intros c H. unfold space in H. repeat rewrite orb_true_iff in H.
  rewrite !Z.eqb_eq in H. unfold inWord, between.
  repeat rewrite orb_false_iff. repeat rewrite andb_false_iff.
  rewrite ?Z.leb_gt, ?Z.eqb_neq. lia.
Qed.

Lemma tagLoop'_spaces : forall ws inp bld,
  forallb space ws = true -> tagLoop' (ws ++ inp) bld = tagLoop' inp bld.
Proof.
  intros ws inp bld H. rewrite !tagLoop'_eq. now rewrite eatSpaces_app.
Qed.

(** An attribute as [parse] accepts it: blanks before the name and around
    the [=], the value between two quotes of the same kind. *)
Lemma tagLoop'_attr_quoted :
  forall (ws0 atb ws1 ws2 raw tail v : jstring) (q : Z) bld,
  forallb space ws0 = true -> forallb space ws1 = true ->
  forallb space ws2 = true ->
  is_name atb = true -> q = DQUOTE \/ q = APOS ->
  ~ In q raw -> clean raw = Ok v ->
  tagLoop' (ws0 ++ atb ++ ws1 ++ [EQ] ++ ws2 ++ [q] ++ raw ++ [q] ++ tail) bld =
  (bld' <- Builder.attribute atb (VStr v) bld ;; tagLoop' tail bld').
Proof.
  intros ws0 atb ws1 ws2 raw tail v q bld H0 H1 H2 Ha Hq Hraw Hv.
  destruct (is_name_inv _ Ha) as (c & w & -> & Hc & Hw).
  destruct (begWord_facts _ Hc) as (Hsp & _ & Hsl & _).
  assert (Hqs : space q = false /\ (q =? DQUOTE) || (q =? APOS) = true).
  { destruct Hq as [-> | ->]; split; reflexivity. }
  destruct Hqs as [Hqs Hqq].
  rewrite tagLoop'_eq, eatSpaces_app by assumption.
  cbn [app]. rewrite eatSpaces_id by assumption.
  apply Z.eqb_neq in Hsl. rewrite Hsl, Hc.
  assert (E : span inWord (w ++ ws1 ++ EQ :: ws2 ++ q :: raw ++ q :: tail)
              = (w, ws1 ++ EQ :: ws2 ++ q :: raw ++ q :: tail)).
  { destruct ws1 as [|s ws1].
    - cbn [app]. now apply span_stop.
    - cbn [app]. apply span_stop; [assumption|].
      cbn [forallb] in H1. apply andb_true_iff in H1.
      apply space_not_inWord. tauto. }
  rewrite E. rewrite eatSpaces_app by assumption.
  rewrite eatSpaces_id by reflexivity.
  cbn [eat]. rewrite Z.eqb_refl. cbn [bind].
  rewrite eatSpaces_app by assumption. rewrite eatSpaces_id by assumption.
  cbn [eatQuote]. rewrite Hqq. cbn [bind].
  rewrite indexOf_char by assumption. rewrite Hv. cbn [bind]. reflexivity.
Qed.

Lemma parse_open : forall inp,
  parse ([LT] ++ inp) =
  (bld <- mainLoop' ([LT] ++ inp) builder_init ;; Builder.getResult bld).
Proof. intro inp. exact (parse_at_LT inp). Qed.

Lemma push_root : forall t,
  exists idx e',
    Builder.push t builder_init =
      Ok (mkBuilder (mkElement (Some t) idx 0 []) [e'] (inherited t))
    /\ forall n cp tg o,
         tg = None \/ tg = Some t ->
         Builder.pop tg (mkBuilder (mkElement (Some t) idx n cp) [e'] o)
         = Ok (mkBuilder (add_child root t (finished cp)) [] o).
Proof. intro t. exact (push_pop root [] false t accepting_root). Qed.

(** X3.  The value of an attribute stands between two double quotes or
    between two single quotes, and is everything up to the second one,
    decoded: it may hold the other quote, and also [<] and [>].  Blanks
    are allowed before the name (one at least after the tag name), around
    the equals sign and before the end of the tag.  (The tag and the
    attribute are no names of [Object.prototype].) *)
Theorem attribute_between_quotes
  (t k raw v ws0 ws1 ws2 ws3 : jstring) (q : Z)
  (Ht : is_name t = true) (Hk : is_name k = true)
  (Hot : inherited t = false) (Hok : inherited k = false)
  (Hq : q = DQUOTE \/ q = APOS)
  (H0 : forallb space ws0 = true) (H1 : forallb space ws1 = true)
  (H2 : forallb space ws2 = true) (H3 : forallb space ws3 = true)
  (Hraw : ~ In q raw) (Hv : clean raw = Ok v) :
  parse ([LT] ++ t ++ [32] ++ ws0 ++ k ++ ws1 ++ [EQ] ++ ws2
         ++ [q] ++ raw ++ [q] ++ ws3 ++ js "/>")
  = Ok (VObj [(t, VObj [(js "$", VObj [(k, VStr v)])])]).
Proof.
  rewrite parse_open.
  rewrite (mainLoop'_open _ t
             ([32] ++ ws0 ++ k ++ ws1 ++ [EQ] ++ ws2
              ++ [q] ++ raw ++ [q] ++ ws3 ++ js "/>")
             builder_init eq_refl Ht) by reflexivity.
  destruct (push_root t) as (idx & e' & Hpush & Hpop). rewrite Hpush.
  cbn [bind].
  change ([32] ++ ws0 ++ k ++ ws1 ++ [EQ] ++ ws2
          ++ [q] ++ raw ++ [q] ++ ws3 ++ js "/>")
    with ((32 :: ws0) ++ k ++ ws1 ++ [EQ] ++ ws2
          ++ [q] ++ raw ++ [q] ++ ws3 ++ js "/>").
  rewrite (tagLoop'_attr_quoted (32 :: ws0) k ws1 ws2 raw (ws3 ++ js "/>") v q)
    by (assumption || (cbn [forallb]; now rewrite H0)).
  unfold Builder.attribute.
  cbn [elt parents outside e_props get truthy nonnull orb]. rewrite Hok.
  cbn [bind].
  rewrite tagLoop'_spaces by assumption.
  rewrite <- (app_nil_r (js "/>")), tagLoop'_selfclose.
  unfold with_props. cbn [e_tag e_index e_childCount set].
  rewrite Hpop by (now left). cbn [bind]. rewrite Hot. reflexivity.
Qed.

Lemma attribute_between_quotes_witness :
  parse (js "<a  x = '" ++ dq (js "1 &lt; 2 > 0") ++ js "' />")
  = Ok (VObj [(js "a",
               VObj [(js "$", VObj [(js "x", VStr (dq (js "1 < 2 > 0")))])])]).
Proof.
  assert (Hraw : ~ In APOS (dq (js "1 &lt; 2 > 0"))).
  { cbv. intros H. repeat (destruct H as [H|H]; [discriminate H|]). exact H. }
  exact (attribute_between_quotes (js "a") (js "x") (dq (js "1 &lt; 2 > 0"))
           (dq (js "1 < 2 > 0")) [32] [32] [32] [32] APOS
           eq_refl eq_refl eq_refl eq_refl (or_intror eq_refl)
           eq_refl eq_refl eq_refl eq_refl Hraw eq_refl).
Defined.

Lemma get_attr_present : forall (a : list (jstring * jstring)) k,
  In k (map fst a) ->
  nonnull (get (map (fun av => (fst av, VStr (snd av))) a) k) = true.
Proof.
  induction a as [|[k' v] a IH]; intros k H; [contradiction|].
  cbn [map fst snd get]. destruct (str_eqb k' k) eqn:E; [reflexivity|].
  apply IH. destruct H as [H|H]; [|exact H].
  cbn [fst] in H. apply str_eqb_neq in E. contradiction.
Qed.

Lemma attribute_fresh : forall a v done t i n ps o,
  ~ In a (map fst done) -> inherited a = false ->
  Builder.attribute a (VStr v)
    (mkBuilder (mkElement t i n (attrsV done)) ps o)
  = Ok (mkBuilder (mkElement t i n (attrsV (done ++ [(a, v)]))) ps o).
Proof.
  intros a v done t i n ps o Ha Ha0.
  unfold Builder.attribute. cbn [elt parents e_props outside].
  destruct done as [|d ds].
  - cbn [attrsV get truthy nonnull orb]. rewrite Ha0. reflexivity.
  - cbn [attrsV get]. rewrite str_eqb_refl. cbn [truthy].
    rewrite get_absent by (now rewrite map_map).
    cbn [nonnull orb]. rewrite Ha0. unfold with_props.
    cbn [e_tag e_index e_childCount set].
    rewrite str_eqb_refl.
    rewrite set_absent by (now rewrite map_map).
    cbn [app attrsV map fst snd]. rewrite map_app. reflexivity.
Qed.

(** The attributes of a tag, whatever their names: the first one that is
    a name of [Object.prototype] makes the builder throw. *)
Lemma feedAttrs_any : forall rest done t i n ps o,
  nodupb (map fst (done ++ rest)) = true ->
  feedAttrs rest (mkBuilder (mkElement t i n (attrsV done)) ps o) =
  if existsb (fun av => inherited (fst av)) rest
  then Throw "duplicate attribute"
  else Ok (mkBuilder (mkElement t i n (attrsV (done ++ rest))) ps o).
Proof.
  induction rest as [|[a v] rest IH]; intros done t i n ps o Hnd.
  - now rewrite app_nil_r.
  - cbn [feedAttrs existsb fst].
    assert (Ha : ~ In a (map fst done)).
    { apply nodupb_NoDup in Hnd. rewrite map_app in Hnd. cbn [map fst] in Hnd.
      apply NoDup_remove_2 in Hnd. intro H. apply Hnd. apply in_or_app.
      now left. }
    destruct (inherited a) eqn:Ei.
    + cbn [orb]. unfold Builder.attribute. cbn [elt parents e_props outside].
      destruct (if truthy (get (attrsV done) (js "$"))
                then get (attrsV done) (js "$") else VObj []) eqn:Ed;
        try (destruct done; discriminate Ed).
      rewrite Ei, orb_true_r. reflexivity.
    + cbn [orb]. rewrite attribute_fresh by assumption.
      cbn [bind]. rewrite IH by (now rewrite <- app_assoc).
      now rewrite <- app_assoc.
Qed.

(** X4.  An attribute name that comes a second time in a tag makes [parse]
    throw, wherever the two stand among the attributes, whatever the
    values and whatever follows. *)
Theorem duplicate_attribute_rejected
  (t k v tail : jstring) (a : list (jstring * jstring))
  (Ht : is_name t = true) (Ha : forallb attr_ok a = true)
  (Hnd : nodupb (map fst a) = true)
  (Hk : In k (map fst a)) (Hv : is_jstring v = true) :
  parse ([LT] ++ t ++ renderAttrs a ++ renderAttrs [(k, v)] ++ tail)
  = Throw "duplicate attribute".
Proof.
  assert (Hkn : is_name k = true).
  { apply in_map_iff in Hk. destruct Hk as ([k' v'] & E & Hin).
    cbn [fst] in E. subst k'. rewrite forallb_forall in Ha.
    apply Ha in Hin. unfold attr_ok in Hin. cbn [fst] in Hin.
    apply andb_true_iff in Hin. tauto. }
  rewrite parse_open.
  rewrite (mainLoop'_open _ t (renderAttrs a ++ renderAttrs [(k, v)] ++ tail)
             builder_init eq_refl Ht).
  2:{ destruct a as [|[k0 v0] a]; [contradiction | reflexivity]. }
  destruct (push_root t) as (idx & e' & Hpush & _). rewrite Hpush.
  cbn [bind]. rewrite tagLoop'_attrs by assumption.
  pose proof (feedAttrs_any a [] (Some t) idx 0%nat [e'] (inherited t) Hnd)
    as Hf.
  cbn [attrsV app] in Hf. rewrite Hf. clear Hf.
  destruct (existsb (fun av => inherited (fst av)) a); [reflexivity|].
  cbn [bind app].
  unfold renderAttrs at 1. cbn [flat_map fst snd]. rewrite app_nil_r.
  rewrite <- !app_assoc. rewrite tagLoop'_attr by assumption.
  unfold Builder.attribute. cbn [elt parents e_props].
  destruct a as [|a0 a]; [contradiction|].
  cbn [attrsV get]. rewrite str_eqb_refl. cbn [truthy].
  now rewrite get_attr_present.
Qed.

Lemma duplicate_attribute_rejected_witness :
  parse (js "<a x=" ++ dq (js "1") ++ js " y=" ++ dq (js "2")
         ++ js " x=" ++ dq (js "1") ++ js "/>")
  = Throw "duplicate attribute".
Proof.
  exact (duplicate_attribute_rejected (js "a") (js "x") (js "1") (js "/>")
           [(js "x", js "1"); (js "y", js "2")]
           eq_refl eq_refl eq_refl (or_introl eq_refl) eq_refl).
Defined.

(** ** Closing tags and the end of the input *)

(** An element that has a closing tag. *)
Definition paired (x : xml) : bool :=
  match x with XEmpty _ _ => false | _ => true end.

(** The text of an element up to its closing tag, and the calls that the
    builder receives for it. *)
Definition stem (x : xml) : jstring :=
  match x with
  | XEmpty t a => [LT] ++ t ++ renderAttrs a
  | XText t a s => [LT] ++ t ++ renderAttrs a ++ [GT] ++ escape (VStr s)
  | XCData t a d =>
      [LT] ++ t ++ renderAttrs a ++ [GT] ++ js "<![CDATA[" ++ d ++ js "]]>"
  | XNode t a cs => [LT] ++ t ++ renderAttrs a ++ [GT] ++ flat_map render cs
  end.

Definition feed_stem (x : xml) (b : builder) : result builder :=
  b <- Builder.push (xtag x) b ;;
  b <- feedAttrs (xattrs x) b ;;
  match x with
  | XEmpty _ _ => Ok b
  | XText _ _ s => Builder.value (VStr s) b
  | XCData _ _ d => Builder.cdata (VStr d) b
  | XNode _ _ cs => feedAll cs b
  end.

Lemma feed_stem_pop : forall x b,
  paired x = true ->
  feed x b = (b' <- feed_stem x b ;; Builder.pop (Some (xtag x)) b').
Proof.
  intros x b Hp. destruct x as [t a|t a s|t a d|t a cs]; [discriminate| | |];
    [| |rewrite feed_XNode]; unfold feed_stem; cbn [feed xtag xattrs];
    destruct (Builder.push t b) as [b1| | |]; try reflexivity; cbn [bind];
    destruct (feedAttrs a b1) as [b2| | |]; reflexivity.
Qed.

Lemma scan_stem : forall x (rest : jstring) bld,
  wf_doc x = true -> paired x = true ->
  eatSpaces rest = rest ->
  (forall t a s, x = XText t a s -> exists r, rest = js "</" ++ r) ->
  mainLoop' (stem x ++ rest) bld =
  (b <- feed_stem x bld ;; mainLoop' rest b).
Proof.
  intros x rest bld Hwf Hp Hrest Htext.
  destruct (wf_doc_parts _ Hwf) as (Ht & Ha & Hnd).
  destruct x as [t a|t a s|t a d|t a cs]; [discriminate| | |];
    cbn [xtag xattrs] in *; unfold feed_stem; cbn [stem xtag xattrs].
  - destruct (Htext t a s eq_refl) as (r & ->).
    assert (Hs : is_jstring s = true).
    { cbn [wf_doc] in Hwf. apply andb_true_iff in Hwf. tauto. }
    rewrite <- !app_assoc.
    rewrite (mainLoop'_open _ t
               (renderAttrs a ++ [GT] ++ escape (VStr s) ++ js "</" ++ r)
               bld eq_refl Ht)
      by (now apply attrs_tail_ok).
    destruct (Builder.push t bld) as [b1| | |]; try reflexivity. cbn [bind].
    rewrite tagLoop'_attrs by assumption.
    destruct (feedAttrs a b1) as [b2| | |]; try reflexivity. cbn [bind].
    rewrite (tagLoop'_text _ s r b2 eq_refl Hs).
    destruct (Builder.value (VStr s) b2) as [b3| | |]; reflexivity.
  - assert (Hd : has (js "]]>") d = false).
    { cbn [wf_doc] in Hwf. apply andb_true_iff in Hwf.
      destruct Hwf as [_ Hwf]. now apply negb_true_iff. }
    rewrite <- !app_assoc.
    rewrite (mainLoop'_open _ t
               (renderAttrs a ++ [GT] ++ js "<![CDATA[" ++ d ++ js "]]>" ++ rest)
               bld eq_refl Ht)
      by (now apply attrs_tail_ok).
    destruct (Builder.push t bld) as [b1| | |]; try reflexivity. cbn [bind].
    rewrite tagLoop'_attrs by assumption.
    destruct (feedAttrs a b1) as [b2| | |]; try reflexivity. cbn [bind].
    rewrite (tagLoop'_no_text
               ([GT] ++ js "<![CDATA[" ++ d ++ js "]]>" ++ rest)
               EXCLAM (js "[CDATA[" ++ d ++ js "]]>" ++ rest) b2 eq_refl)
      by (discriminate || reflexivity).
    cbn [bind].
    rewrite (mainLoop'_cdata
               (LT :: EXCLAM :: js "[CDATA[" ++ d ++ js "]]>" ++ rest)
               d rest b2 eq_refl Hd).
    now rewrite Hrest.
  - assert (Hcs : cs <> [] /\ forallb wf_doc cs = true).
    { cbn [wf_doc] in Hwf. apply andb_true_iff in Hwf. destruct Hwf as [_ Hwf].
      destruct cs; [discriminate|]. split; [discriminate | exact Hwf]. }
    destruct Hcs as [Hne Hcs].
    rewrite <- !app_assoc.
    rewrite (mainLoop'_open _ t
               (renderAttrs a ++ [GT] ++ flat_map render cs ++ rest)
               bld eq_refl Ht)
      by (now apply attrs_tail_ok).
    destruct (Builder.push t bld) as [b1| | |]; try reflexivity. cbn [bind].
    rewrite tagLoop'_attrs by assumption.
    destruct (feedAttrs a b1) as [b2| | |]; try reflexivity. cbn [bind].
    assert (Hhead : exists ch more,
              flat_map render cs ++ rest = LT :: ch :: more
              /\ begWord ch = true).
    { destruct cs as [|c cs]; [contradiction|].
      cbn [forallb] in Hcs. apply andb_true_iff in Hcs. destruct Hcs as [Hc _].
      destruct (render_head c Hc) as (ch & more & E & Hch).
      cbn [flat_map]. rewrite E. cbn [app]. eauto. }
    destruct Hhead as (ch & more & Ehead & Hch).
    destruct (begWord_facts _ Hch) as (Hsp & _ & Hsl & _ & Hex & _).
    rewrite (tagLoop'_no_text _ ch more b2).
    2:{ cbn [app]. f_equal. exact Ehead. }
    2:{ exact Hsl. }
    2:{ cbn -[Z.eqb]. apply Z.eqb_neq in Hex. rewrite Z.eqb_sym in Hex.
        change 33%Z with EXCLAM. rewrite Hex. now rewrite andb_false_r. }
    cbn [bind]. rewrite eatSpaces_id by reflexivity. rewrite <- Ehead.
    apply scan_children; [|assumption|assumption].
    apply Forall_forall. intros c _ Hc. now apply scan_render.
Qed.

Lemma pop_Ok_inv : forall tg b r,
  Builder.pop tg b = Ok r ->
  Builder.mismatch tg (elt b) = false /\ parents b <> []
  /\ Builder.pop None b = Ok r.
Proof.
  intros tg b r H. unfold Builder.pop in H |- *.
  destruct (Builder.mismatch tg (elt b)); [discriminate|].
  cbn [Builder.mismatch].
  destruct (parents b) as [|p ps]; [discriminate|].
  split; [reflexivity|]. split; [discriminate | exact H].
Qed.

(** The builder when the closing tag of [x] is due. *)
Lemma stem_state : forall x bld,
  wf_doc x = true -> paired x = true -> accepting (elt bld) ->
  exists b3,
    feed_stem x bld = Ok b3
    /\ parents b3 <> []
    /\ e_tag (elt b3) = Some (xtag x)
    /\ forall tg, tg = None \/ tg = Some (xtag x) ->
         Builder.pop tg b3 =
         Ok (mkBuilder (add_child (elt bld) (xtag x) (shape x)) (parents bld)
                (outside bld)).
Proof.
  intros x bld Hwf Hp Hacc.
  pose proof (feed_shape x (wf_doc_events x Hwf) bld Hacc) as Hf.
  rewrite feed_stem_pop in Hf by assumption.
  destruct (feed_stem x bld) as [b3| | |]; try discriminate. cbn [bind] in Hf.
  exists b3. split; [reflexivity|].
  destruct (pop_Ok_inv _ _ _ Hf) as (Hm & Hps & Hnone).
  split; [exact Hps|].
  destruct (wf_doc_parts _ Hwf) as (Ht & _ & _).
  destruct (is_name_inv _ Ht) as (c & w & Et & _ & _).
  split.
  - rewrite Et in Hm |- *. unfold Builder.mismatch in Hm.
    destruct (e_tag (elt b3)) as [t'|]; [|discriminate].
    apply negb_false_iff, str_eqb_eq in Hm. now subst.
  - intros tg [->| ->]; assumption.
Qed.

Lemma stem_head : forall x, exists more, stem x = [LT] ++ more.
Proof. intros [t a|t a s|t a d|t a cs]; eexists; reflexivity. Qed.

Lemma parse_stem : forall x (rest : jstring),
  wf_doc x = true -> paired x = true ->
  eatSpaces rest = rest ->
  (forall t a s, x = XText t a s -> exists r, rest = js "</" ++ r) ->
  exists b3,
    parse (stem x ++ rest) =
      (b <- mainLoop' rest b3 ;; Builder.getResult b)
    /\ parents b3 <> []
    /\ e_tag (elt b3) = Some (xtag x)
    /\ forall tg, tg = None \/ tg = Some (xtag x) ->
         Builder.pop tg b3 =
         Ok (mkBuilder (add_child root (xtag x) (shape x)) [] false).
Proof.
  intros x rest Hwf Hp Hrest Htext.
  destruct (stem_state x builder_init Hwf Hp accepting_root)
    as (b3 & Hf & Hps & Htag & Hpop).
  exists b3. split; [|now repeat split].
  pose proof (scan_stem x rest builder_init Hwf Hp Hrest Htext) as Hs.
  destruct (stem_head x) as (more & E). rewrite E in Hs |- *.
  rewrite <- app_assoc, parse_open. rewrite <- app_assoc in Hs.
  now rewrite Hs, Hf.
Qed.

(** X5.  The name in a closing tag has to be the name of the element that
    is open, or [parse] throws; but a closing tag without a name closes
    whatever element is open. *)
Theorem closing_tag_name (x : xml) (u : jstring)
  (Hwf : wf_doc x = true) (Hp : paired x = true) (Hu : is_name u = true) :
  parse (stem x ++ js "</" ++ u ++ [GT])
  = (if str_eqb u (xtag x) then Ok (VObj [(xtag x, shape x)])
     else Throw "closing tag mismatch")
  /\ parse (stem x ++ js "</>") = Ok (VObj [(xtag x, shape x)]).
Proof.
  split.
  - destruct (parse_stem x (js "</" ++ u ++ [GT]) Hwf Hp eq_refl)
      as (b3 & -> & Hps & Htag & Hpop); [intros; now eexists|].
    rewrite mainLoop'_step by discriminate.
    rewrite <- (app_nil_r [GT]). rewrite step_close by assumption.
    destruct (str_eqb u (xtag x)) eqn:E.
    + apply str_eqb_eq in E. subst u.
      rewrite Hpop by (now right). reflexivity.
    + unfold Builder.pop, Builder.mismatch. rewrite Htag.
      destruct (is_name_inv _ Hu) as (c & w & -> & _ & _). now rewrite E.
  - destruct (parse_stem x (js "</>") Hwf Hp eq_refl)
      as (b3 & -> & Hps & Htag & Hpop); [intros; now eexists|].
    rewrite mainLoop'_step by discriminate.
    unfold step. cbn [js map list_ascii_of_string eat].
    change (Z.of_N (N_of_ascii "<") =? LT) with true. cbn [bind].
    change (begWord (Z.of_N (N_of_ascii "/"))) with false.
    change (Z.of_N (N_of_ascii "/") =? SLASH) with true. cbn iota.
    change (begWord (Z.of_N (N_of_ascii ">"))) with false. cbn iota.
    rewrite eatSpaces_id by reflexivity. cbn [eat].
    change (Z.of_N (N_of_ascii ">") =? GT) with true. cbn [bind].
    rewrite Hpop by (now left). reflexivity.
Qed.

Lemma closing_tag_name_witness :
  let x := XNode (js "a") [] [XText (js "b") [] (js "1")] in
  parse (js "<a><b>1</b></c>") = Throw "closing tag mismatch"
  /\ parse (js "<a><b>1</b></>")
     = Ok (VObj [(js "a", VObj [(js "b", VStr (js "1"))])]).
Proof.
  intro x.
  destruct (closing_tag_name x (js "c") eq_refl eq_refl eq_refl) as [H1 H2].
  split; [exact H1 | exact H2].
Defined.

(** X6.  When the input ends before the closing tag of an element, after
    its text, its CDATA section or its last child, [parse] throws. *)
Theorem unclosed_element_rejected (x : xml)
  (Hwf : wf_doc x = true) (Hp : paired x = true) :
  parse (stem x) = Throw "tag not closed".
Proof.
  destruct (wf_doc_parts _ Hwf) as (Ht & Ha & Hnd).
  destruct (wf_doc_own _ Hwf) as (Hot & Hoa).
  destruct x as [t a|t a s|t a d|t a cs] eqn:Ex; [discriminate| | |].
  - cbn [stem xtag xattrs] in *. rewrite parse_open.
    rewrite scan_open_tag by assumption.
    destruct (push_root t) as (idx & e' & Hpush & _). rewrite Hpush.
    cbn [bind]. rewrite feedAttrs_fresh by assumption. cbn [bind].
    assert (Hs : is_jstring s = true).
    { cbn [wf_doc] in Hwf. apply andb_true_iff in Hwf. tauto. }
    rewrite content_unclosed; [reflexivity|].
    now apply escape_no_LT.
  - rewrite <- Ex in *. rewrite <- (app_nil_r (stem x)).
    destruct (parse_stem x [] Hwf Hp eq_refl)
      as (b3 & -> & Hps & _); [intros; subst; discriminate|].
    rewrite mainLoop'_nil. cbn [bind]. unfold Builder.getResult.
    destruct (parents b3); [contradiction | reflexivity].
  - rewrite <- Ex in *. rewrite <- (app_nil_r (stem x)).
    destruct (parse_stem x [] Hwf Hp eq_refl)
      as (b3 & -> & Hps & _); [intros; subst; discriminate|].
    rewrite mainLoop'_nil. cbn [bind]. unfold Builder.getResult.
    destruct (parents b3); [contradiction | reflexivity].
Qed.

Lemma unclosed_element_rejected_witness :
  parse (js "<a x=" ++ dq (js "1") ++ js "><b/><c>2</c>")
  = Throw "tag not closed".
Proof.
  exact (unclosed_element_rejected
           (XNode (js "a") [(js "x", js "1")]
              [XEmpty (js "b") []; XText (js "c") [] (js "2")])
           eq_refl eq_refl).
Defined.

(** ** The top level *)

Lemma scan_all : forall ds (post : jstring) bld,
  forallb wf_doc ds = true -> eatSpaces post = post ->
  mainLoop' (flat_map render ds ++ post) bld =
  (bld' <- feedAll ds bld ;; mainLoop' post bld').
Proof.
  intros ds post bld Hwf Hpost. apply scan_children; [|assumption|assumption].
  apply Forall_forall. intros c _ Hc. now apply scan_render.
Qed.

Lemma feedAll_root : forall ds,
  forallb wf_doc ds = true ->
  exists props,
    feedAll ds builder_init =
    Ok (mkBuilder (mkElement None None (List.length ds) props) [] false).
Proof.
  intros ds Hwf. rewrite feedAll_fold; [|..|exact accepting_root].
  - rewrite fold_add_child_eq. cbn [elt parents builder_init root e_tag
      e_index e_childCount e_props]. rewrite Nat.add_0_r. now eexists.
  - apply Forall_forall. intros x Hx. rewrite forallb_forall in Hwf.
    split; [now apply wf_doc_events, Hwf|].
    intros b Hb. apply feed_shape; [|assumption].
    now apply wf_doc_events, Hwf.
Qed.

(** X7.  A text made of complete elements one after another is a document
    only if there is exactly one of them: with two or more, [parse]
    throws after having read them all. *)
Theorem one_root_element (ds : list xml) (Hwf : forallb wf_doc ds = true) :
  parse (flat_map render ds) =
  match ds with
  | [] => Throw "expected character"
  | [d] => Ok (VObj [(xtag d, shape d)])
  | _ => Throw "too many elements at top level"
  end.
Proof.
  destruct ds as [|d [|d' ds]].
  - reflexivity.
  - cbn [flat_map]. rewrite app_nil_r. apply parse_render.
    cbn [forallb] in Hwf. apply andb_true_iff in Hwf. tauto.
  - assert (Hd : wf_doc d = true).
    { cbn [forallb] in Hwf. apply andb_true_iff in Hwf. tauto. }
    destruct (render_head d Hd) as (c & more & E & _).
    assert (Ep : parse (flat_map render (d :: d' :: ds)) =
                 (bld <- mainLoop' (flat_map render (d :: d' :: ds)) builder_init ;;
                  Builder.getResult bld)).
    { cbn [flat_map]. rewrite E. apply parse_at_LT. }
    rewrite Ep. rewrite <- (app_nil_r (flat_map render (d :: d' :: ds))).
    rewrite scan_all by (assumption || reflexivity).
    destruct (feedAll_root _ Hwf) as (props & ->). reflexivity.
Qed.

Lemma one_root_element_witness :
  parse (js "<a/><b>1</b>") = Throw "too many elements at top level".
Proof.
  exact (one_root_element [XEmpty (js "a") []; XText (js "b") [] (js "1")]
           eq_refl).
Defined.

(** X8.  After the root element nothing but blanks, comments and
    processing instructions may come: any other character makes [parse]
    throw. *)
Theorem text_after_root_rejected (d : xml) (ws rest : jstring) (c : Z)
  (Hwf : wf_doc d = true) (Hws : forallb space ws = true)
  (Hc : space c = false) (Hlt : c <> LT) :
  parse (render d ++ ws ++ c :: rest) = Throw "expected character".
Proof.
  destruct (render_head d Hwf) as (ch & more & E & _).
  assert (Ep : parse (render d ++ ws ++ c :: rest) =
               (bld <- mainLoop' (render d ++ ws ++ c :: rest) builder_init ;;
                Builder.getResult bld)).
  { rewrite E. apply parse_at_LT. }
  rewrite Ep, scan_render by assumption.
  rewrite feed_shape; [|now apply wf_doc_events | exact accepting_root].
  cbn [bind]. rewrite eatSpaces_app, eatSpaces_id by assumption.
  rewrite mainLoop'_step by discriminate. unfold step. cbn [eat].
  apply Z.eqb_neq in Hlt. now rewrite Hlt.
Qed.

Lemma text_after_root_rejected_witness :
  parse (js "<a>1</a> b") = Throw "expected character".
Proof.
  exact (text_after_root_rejected (XText (js "a") [] (js "1")) [32] [] 98
           eq_refl eq_refl eq_refl ltac:(discriminate)).
Defined.

Local Close Scope Z_scope.

(** ** Revivers *)

(** What [reviveOne] returns when no key of the tree is [__proto__]: every
    assignment then makes a property. *)
Fixpoint revived (reviver : Reviver) (key : jstring) (val : value)
  {struct val} : value :=
  reviver key
    match val with
    | VArr l =>
        VArr ((fix each (i : nat) (l : list value) : list value :=
                 match l with
                 | [] => []
                 | item :: l' =>
                     revived reviver (index_key i) item :: each (S i) l'
                 end) 0 l)
    | VObj o =>
        VObj ((fix reduce (o : object) (r : object) : object :=
                 match o with
                 | [] => r
                 | (k, v) :: o' => reduce o' (set r k (revived reviver k v))
                 end) o [])
    | _ => val
    end.

(** No object of the tree has a key [__proto__]. *)
Fixpoint proto_free (v : value) : bool :=
  match v with
  | VArr l => forallb proto_free l
  | VObj o =>
      (fix all (o : object) : bool :=
         match o with
         | [] => true
         | (k, x) :: o' =>
             negb (str_eqb k (js "__proto__")) && proto_free x && all o'
         end) o
  | _ => true
  end.

Section Revive.

Variable r : Reviver.

Fixpoint reviveEach (i : nat) (l : list value) : list value :=
  match l with
  | [] => []
  | item :: l' => revived r (index_key i) item :: reviveEach (S i) l'
  end.

Fixpoint reviveProps (o : object) (acc : object) : object :=
  match o with
  | [] => acc
  | (k, v) :: o' => reviveProps o' (set acc k (revived r k v))
  end.

Lemma revived_VArr : forall key l,
  revived r key (VArr l) = r key (VArr (reviveEach 0 l)).
Proof. reflexivity. Qed.

Lemma revived_VObj : forall key o,
  revived r key (VObj o) = r key (VObj (reviveProps o [])).
Proof. reflexivity. Qed.

(** The properties of an object, whose keys differ from one another, are
    revived each in its place. *)
Lemma reviveProps_map : forall o acc,
  NoDup (map fst (acc ++ o)) ->
  reviveProps o acc =
  acc ++ map (fun kv => (fst kv, revived r (fst kv) (snd kv))) o.
Proof.
  induction o as [|[k v] o IH]; intros acc Hnd.
  - now rewrite app_nil_r.
  - cbn [reviveProps map fst snd].
    assert (Hk : ~ In k (map fst acc)).
    { rewrite map_app in Hnd. cbn [map fst] in Hnd.
      apply NoDup_remove_2 in Hnd. intro H. apply Hnd, in_or_app. now left. }
    rewrite set_absent by assumption. rewrite IH.
    + now rewrite <- app_assoc.
    + rewrite <- app_assoc. rewrite !map_app in *. exact Hnd.
Qed.

End Revive.

(** The keys of every object of a tree differ from one another, as the
    keys of an object do. *)
Fixpoint unique_keys (v : value) : bool :=
  match v with
  | VArr l => forallb unique_keys l
  | VObj o =>
      nodupb (map fst o)
      && (fix all (o : object) : bool :=
            match o with
            | [] => true
            | (_, x) :: o' => unique_keys x && all o'
            end) o
  | _ => true
  end.

Lemma unique_keys_VObj : forall o,
  unique_keys (VObj o) =
  nodupb (map fst o) && forallb (fun kv => unique_keys (snd kv)) o.
Proof.
  intro o. cbn [unique_keys]. f_equal.
  induction o as [|[k x] o IH]; [reflexivity|].
  cbn [forallb snd]. now rewrite IH.
Qed.

Section Reviving.

Variable r : Reviver.

Fixpoint reviveItems (i : nat) (l : list value) : result (list value) :=
  match l with
  | [] => Ok []
  | item :: l' =>
      x <- reviveOne r (index_key i) item ;;
      xs <- reviveItems (S i) l' ;;
      Ok (x :: xs)
  end.

Fixpoint reviveInto (o : object) (acc : object) : result object :=
  match o with
  | [] => Ok acc
  | (k, v) :: o' =>
      x <- reviveOne r k v ;;
      acc' <- assign acc k x ;;
      reviveInto o' acc'
  end.

Lemma reviveOne_VArr : forall key l,
  reviveOne r key (VArr l) =
  (val' <- (l' <- reviveItems 0 l ;; Ok (VArr l')) ;; Ok (r key val')).
Proof. reflexivity. Qed.

Lemma reviveOne_VObj : forall key o,
  reviveOne r key (VObj o) =
  (val' <- (acc <- reviveInto o [] ;; Ok (VObj acc)) ;; Ok (r key val')).
Proof. reflexivity. Qed.

Lemma proto_free_VObj : forall o,
  proto_free (VObj o) =
  forallb (fun kv => negb (str_eqb (fst kv) (js "__proto__"))
                     && proto_free (snd kv)) o.
Proof.
  intro o. cbn [proto_free].
  induction o as [|[k x] o IH]; [reflexivity|].
  cbn [forallb fst snd]. now rewrite IH.
Qed.

(** Without a key [__proto__], [reviveOne] builds the tree [revived]. *)
Lemma reviveOne_revived : forall v,
  proto_free v = true ->
  forall key, reviveOne r key v = Ok (revived r key v).
Proof.
  induction v as [| |s|l IH|o IH] using value_ind'; intros Hp key;
    try reflexivity.
  - rewrite reviveOne_VArr, revived_VArr. cbn [proto_free] in Hp.
    assert (E : forall i, reviveItems i l = Ok (reviveEach r i l)).
    { induction IH as [|x l Hx _ IHl]; intro i; [reflexivity|].
      cbn [forallb] in Hp. apply andb_true_iff in Hp. destruct Hp as [H1 H2].
      cbn [reviveItems reviveEach]. rewrite Hx by assumption. cbn [bind].
      now rewrite IHl. }
    now rewrite E.
  - rewrite reviveOne_VObj, revived_VObj. rewrite proto_free_VObj in Hp.
    assert (E : forall acc, reviveInto o acc = Ok (reviveProps r o acc)).
    { induction IH as [|[k x] o Hx _ IHo]; intro acc; [reflexivity|].
      cbn [forallb fst snd] in Hp. apply andb_true_iff in Hp.
      destruct Hp as [Hk Ho]. apply andb_true_iff in Hk.
      destruct Hk as [Hk Hx']. apply negb_true_iff in Hk.
      cbn [reviveInto reviveProps]. cbn [snd] in Hx.
      rewrite Hx by assumption. cbn [bind]. unfold assign. rewrite Hk.
      cbn [bind]. now apply IHo. }
    now rewrite E.
Qed.

End Reviving.

Lemma revived_identity : forall v,
  unique_keys v = true ->
  forall key, revived (fun _ x => x) key v = v.
Proof.
  induction v as [| |s|l IH|o IH] using value_ind'; intros Hv key;
    try reflexivity.
  - rewrite revived_VArr. f_equal. cbn [unique_keys] in Hv.
    generalize 0. induction IH as [|x l Hx _ IHl]; intro i; [reflexivity|].
    cbn [forallb] in Hv. apply andb_true_iff in Hv. destruct Hv as [H1 H2].
    cbn [reviveEach]. rewrite Hx by assumption. f_equal. now apply IHl.
  - rewrite revived_VObj, unique_keys_VObj in *.
    apply andb_true_iff in Hv. destruct Hv as [Hnd Hall].
    rewrite reviveProps_map by (now apply nodupb_NoDup). cbn [app]. f_equal.
    clear Hnd. induction IH as [|[k x] o Hx _ IHo]; [reflexivity|].
    cbn [forallb snd] in Hall. apply andb_true_iff in Hall.
    destruct Hall as [H1 H2]. cbn [map fst snd]. cbn [snd] in Hx.
    rewrite Hx by assumption. f_equal. now apply IHo.
Qed.

(** X9.  With a reviver that gives back the value it receives, [revive]
    returns a tree equal to the one it was given, when no key of the tree
    is [__proto__]: every array and every object is built anew with the
    same items, the same keys and the same order.  A key [__proto__] that
    holds a string is lost: the assignment that would copy it makes no
    property. *)
Theorem revive_with_identity (v : value)
  (Hv : unique_keys v = true) (Hp : proto_free v = true) :
  revive v (Some (fun _ x => x)) = Ok v
  /\ forall s, revive (VObj [(js "__proto__", VStr s); (js "a", v)])
                 (Some (fun _ x => x))
               = Ok (VObj [(js "a", v)]).
Proof.
  split.
  - unfold revive. rewrite reviveOne_revived by assumption.
    now rewrite revived_identity.
  - intro s. unfold revive. rewrite reviveOne_VObj.
    cbn [reviveInto]. cbn [reviveOne bind]. unfold assign at 1.
    change (str_eqb (js "__proto__") (js "__proto__")) with true.
    cbn iota. cbn [bind]. rewrite reviveOne_revived by assumption.
    rewrite revived_identity by assumption. reflexivity.
Qed.

Lemma revive_with_identity_witness :
  let v := VObj [(js "a", VObj [(js "$", VObj [(js "x", VStr (js "1"))]);
                                (js "b", VArr [VStr (js "2"); VNull])])] in
  unique_keys v = true /\ proto_free v = true
  /\ revive v (Some (fun _ x => x)) = Ok v.
Proof.
  intro v. split; [reflexivity|]. split; [reflexivity|].
  exact (proj1 (revive_with_identity v eq_refl eq_refl)).
Defined.

(** *** [simplify] on the tree of a document *)

Lemma simplify_VStr : forall key s, simplify key (VStr s) = VStr s.
Proof.
  intros key [|c s]; [reflexivity|]. unfold simplify, prop.
  cbn [truthy negb entries].
  now rewrite !get_indexed_name by reflexivity.
Qed.

Lemma simplify_VArr : forall key x l,
  simplify key (VArr (x :: l)) = VArr (x :: l).
Proof.
  intros key x l. unfold simplify, prop. cbn [truthy negb entries].
  now rewrite !get_indexed_name by reflexivity.
Qed.

(** The attribute [xsi:nil="true"]. *)
Definition nil_attr (a : list (jstring * jstring)) : bool :=
  is_string (get (map (fun av => (fst av, VStr (snd av))) a) (js "xsi:nil"))
            (js "true").

(** What [simplify] leaves of a document: [null] for an element marked
    nil and for an element without content, the string for a text or a
    CDATA section, and for the others the children by tag name. *)
Fixpoint simple (x : xml) : value :=
  if nil_attr (xattrs x) then VNull
  else
    match x with
    | XEmpty _ _ => VNull
    | XText _ _ s => VStr s
    | XCData _ _ d => VStr d
    | XNode _ _ cs => VObj (group (map (fun c => (xtag c, simple c)) cs))
    end.

Lemma occurrences_by : forall (f : xml -> value) k cs,
  occurrences k (map (fun c => (xtag c, f c)) cs) =
  map f (filter (fun c => str_eqb (xtag c) k) cs).
Proof.
  intros f k cs. unfold occurrences. induction cs as [|c cs IH]; [reflexivity|].
  cbn [map filter fst]. destruct (str_eqb (xtag c) k); cbn [map snd];
    now rewrite IH.
Qed.

Lemma delete_absent : forall o k, ~ In k (map fst o) -> delete o k = o.
Proof.
  intros o k H. unfold delete. apply forallb_filter_id.
  rewrite forallb_forall. intros [k' v] Hin. cbn [fst].
  apply negb_true_iff, str_eqb_neq. intros ->. apply H.
  now apply (in_map fst) in Hin.
Qed.

Lemma is_name_not_dollar : forall k, is_name k = true -> is_dollar k = false.
Proof.
  intros k H. apply is_name_key_ok in H. unfold key_ok in H.
  apply andb_true_iff in H. now apply negb_true_iff.
Qed.

Lemma get_not_dollar : forall (o : object) k,
  is_dollar k = true ->
  forallb (fun kv => negb (is_dollar (fst kv))) o = true ->
  get o k = VUndefined.
Proof.
  intros o k Hk Ho. apply get_absent. intro Hin.
  apply in_map_iff in Hin. destruct Hin as ([k' v] & E & Hin).
  cbn [fst] in E. subst k'. rewrite forallb_forall in Ho. apply Ho in Hin.
  cbn [fst] in Hin. now rewrite Hk in Hin.
Qed.

(** The attributes of an element come out of the reviver as they are. *)
Lemma revive_attributes : forall a key,
  a <> [] -> forallb attr_ok a = true -> nodupb (map fst a) = true ->
  revived simplify key (VObj (map (fun av => (fst av, VStr (snd av))) a))
  = VObj (map (fun av => (fst av, VStr (snd av))) a).
Proof.
  intros a key Hne Ha Hnd. rewrite revived_VObj.
  rewrite reviveProps_map.
  2:{ cbn [app]. rewrite map_map. cbn [fst]. now apply nodupb_NoDup. }
  cbn [app]. rewrite map_map. cbn [fst snd].
  rewrite (map_ext _ (fun av : jstring * jstring => (fst av, VStr (snd av))))
    by (intros; cbn [revived]; now rewrite simplify_VStr).
  set (o := map (fun av : jstring * jstring => (fst av, VStr (snd av))) a).
  assert (Ho : forallb (fun kv => negb (is_dollar (fst kv))) o = true).
  { unfold o. rewrite forallb_forall. intros kv Hin. apply in_map_iff in Hin.
    destruct Hin as (av & <- & Hin). cbn [fst]. rewrite forallb_forall in Ha.
    apply Ha in Hin. unfold attr_ok in Hin. apply andb_true_iff in Hin.
    apply negb_true_iff, is_name_not_dollar. tauto. }
  assert (Hoe : o <> []) by (unfold o; destruct a; [contradiction|discriminate]).
  unfold simplify, prop. cbn [truthy negb entries].
  rewrite (get_not_dollar o (js "$")), (get_not_dollar o (js "$value")),
    (get_not_dollar o (js "$cdata")) by (assumption || reflexivity).
  cbn [truthy andb nonnull]. rewrite delete_absent.
  - destruct o; [contradiction | reflexivity].
  - intro Hin. apply in_map_iff in Hin. destruct Hin as ([k' v] & E & Hin).
    cbn [fst] in E. subst k'. rewrite forallb_forall in Ho. apply Ho in Hin.
    discriminate Hin.
Qed.

(** An element as [pop] leaves it, its body already revived. *)
Lemma simplify_element : forall a body key,
  forallb attr_ok a = true -> nodupb (map fst a) = true ->
  ~ In (js "$") (map fst body) ->
  simplify key (VObj (attrsV a ++ body)) =
  if nil_attr a then VNull
  else if nonnull (get body (js "$value")) then get body (js "$value")
  else if nonnull (get body (js "$cdata")) then get body (js "$cdata")
  else match body with [] => VNull | _ => VObj body end.
Proof.
  intros a body key Ha Hnd Hb. unfold simplify, prop.
  cbn [truthy negb entries].
  rewrite (get_app_r (attrsV a) body (js "$value")),
    (get_app_r (attrsV a) body (js "$cdata"))
    by (apply not_in_attrsV; discriminate).
  destruct a as [|a0 a].
  - cbn [attrsV app]. rewrite (get_absent body (js "$")) by assumption.
    cbn [truthy andb]. unfold nil_attr. cbn [map get is_string].
    destruct (nonnull (get body (js "$value"))); [reflexivity|].
    destruct (nonnull (get body (js "$cdata"))); [reflexivity|].
    rewrite delete_absent by assumption. now destruct body.
  - cbn [attrsV app get]. change (str_eqb (js "$") (js "$")) with true.
    cbn [truthy andb entries]. fold (nil_attr (a0 :: a)).
    destruct (nil_attr (a0 :: a)); [reflexivity|].
    destruct (nonnull (get body (js "$value"))); [reflexivity|].
    destruct (nonnull (get body (js "$cdata"))); [reflexivity|].
    unfold delete. cbn [filter fst].
    change (str_eqb (js "$") (js "$")) with true. cbn [negb].
    fold (delete body (js "$")). rewrite delete_absent by assumption.
    now destruct body.
Qed.

Lemma revive_element : forall a body key,
  forallb attr_ok a = true -> nodupb (map fst a) = true ->
  NoDup (map fst body) -> ~ In (js "$") (map fst body) ->
  revived simplify key (VObj (attrsV a ++ body)) =
  simplify key
    (VObj (attrsV a
           ++ map (fun kv => (fst kv, revived simplify (fst kv) (snd kv)))
                  body)).
Proof.
  intros a body key Ha Hnd Hb Hd. rewrite revived_VObj.
  rewrite reviveProps_map.
  2:{ cbn [app]. rewrite map_app. destruct a as [|a0 a]; [exact Hb|].
      cbn [attrsV map fst app]. now constructor. }
  cbn [app]. rewrite map_app. f_equal. f_equal. f_equal.
  destruct a as [|a0 a]; [reflexivity|].
  change (map (fun kv : jstring * value =>
                 (fst kv, revived simplify (fst kv) (snd kv)))
            (attrsV (a0 :: a)))
    with [(js "$",
           revived simplify (js "$")
             (VObj (map (fun av : jstring * jstring => (fst av, VStr (snd av)))
                      (a0 :: a))))].
  now rewrite revive_attributes.
Qed.

Lemma revive_slot : forall key l,
  l <> [] ->
  Forall (fun c => forall key, revived simplify key (shape c) = simple c) l ->
  revived simplify key (slot (map shape l)) = slot (map simple l).
Proof.
  intros key [|c [|c' l]] Hne HF; [contradiction| |].
  - inversion HF; subst. cbn [map slot]. auto.
  - change (slot (map shape (c :: c' :: l)))
      with (VArr (map shape (c :: c' :: l))).
    rewrite revived_VArr.
    assert (E : forall i l,
              Forall (fun c => forall key,
                        revived simplify key (shape c) = simple c) l ->
              reviveEach simplify i (map shape l) = map simple l).
    { clear. intros i l HF. revert i.
      induction HF as [|c l Hc _ IH]; intro i; [reflexivity|].
      cbn [map reviveEach]. now rewrite Hc, IH. }
    rewrite E by assumption. cbn [map]. now rewrite simplify_VArr.
Qed.

Lemma group_not_special : forall (f : xml -> value) cs k,
  is_dollar k = true ->
  (forall x, In x cs -> is_name (xtag x) = true) ->
  ~ In k (map fst (group (map (fun x => (xtag x, f x)) cs))).
Proof.
  intros f cs k Hk Hcs Hin. rewrite map_fst_group in Hin.
  apply -> distinct_In in Hin. rewrite map_map in Hin. cbn [fst] in Hin.
  apply in_map_iff in Hin. destruct Hin as (x & E & Hx).
  apply Hcs, is_name_not_dollar in Hx. rewrite E in Hx. congruence.
Qed.

(** [simplify], applied by [revive] from the leaves up, turns the tree of
    a document into [simple] of the document. *)
Lemma revive_shape : forall x,
  wf_doc x = true ->
  forall key, revived simplify key (shape x) = simple x.
Proof.
  induction x as [t a|t a s|t a d|t a cs IH] using xml_rect';
    intros Hwf key;
    destruct (wf_doc_parts _ Hwf) as (Ht & Ha & Hnd); cbn [xtag xattrs] in *.
  - cbn [shape simple xattrs]. rewrite <- (app_nil_r (attrsV a)).
    rewrite revive_element; try assumption; [|constructor|tauto].
    cbn [map]. rewrite simplify_element by (assumption || tauto).
    cbn [get nonnull]. now destruct (nil_attr a).
  - cbn [simple xattrs]. destruct a as [|a0 a].
    + cbn [shape revived]. now rewrite simplify_VStr.
    + change (shape (XText t (a0 :: a) s))
        with (VObj (attrsV (a0 :: a) ++ [(js "$value", VStr s)])).
      rewrite revive_element; try assumption.
      2:{ constructor; [tauto | constructor]. }
      2:{ cbn. intros [H|[]]. discriminate H. }
      cbn [map fst snd revived]. rewrite simplify_VStr.
      rewrite simplify_element; try assumption.
      2:{ cbn. intros [H|[]]. discriminate H. }
      reflexivity.
  - cbn [shape simple xattrs].
    rewrite revive_element; try assumption.
    2:{ constructor; [tauto | constructor]. }
    2:{ cbn. intros [H|[]]. discriminate H. }
    cbn [map fst snd revived]. rewrite simplify_VStr.
    rewrite simplify_element; try assumption.
    2:{ cbn. intros [H|[]]. discriminate H. }
    reflexivity.
  - assert (Hcs : cs <> [] /\ forallb wf_doc cs = true).
    { cbn [wf_doc] in Hwf. apply andb_true_iff in Hwf. destruct Hwf as [_ Hwf].
      destruct cs; [discriminate|]. split; [discriminate | exact Hwf]. }
    destruct Hcs as [Hne Hcs].
    assert (Hnames : forall x, In x cs -> is_name (xtag x) = true).
    { intros x Hx. rewrite forallb_forall in Hcs.
      now apply wf_doc_parts, Hcs. }
    assert (IH' : Forall (fun c => forall key,
                            revived simplify key (shape c) = simple c) cs).
    { rewrite Forall_forall in *. intros c Hc key'. rewrite forallb_forall in Hcs.
      apply IH; auto. }
    cbn [shape simple xattrs].
    set (kvs := map (fun c => (xtag c, shape c)) cs).
    rewrite revive_element; try assumption.
    2:{ rewrite map_fst_group. apply distinct_NoDup. }
    2:{ now apply group_not_special. }
    assert (E : map (fun kv => (fst kv, revived simplify (fst kv) (snd kv)))
                  (group kvs)
                = group (map (fun c => (xtag c, simple c)) cs)).
    { unfold group, kvs. rewrite !map_map. cbn [fst snd].
      apply map_ext_in. intros k Hk. f_equal.
      rewrite occurrences_map, occurrences_by.
      apply revive_slot.
      - apply -> distinct_In in Hk. apply in_map_iff in Hk.
        destruct Hk as (c & Ec & Hc). intro Hnil.
        assert (Hf : In c (filter (fun c => str_eqb (xtag c) k) cs)).
        { apply filter_In. split; [assumption|]. rewrite Ec.
          apply str_eqb_refl. }
        rewrite Hnil in Hf. contradiction.
      - rewrite Forall_forall in *. intros c Hc. apply filter_In in Hc.
        apply IH'. tauto. }
    rewrite E.
    rewrite simplify_element; try assumption.
    2:{ now apply group_not_special. }
    rewrite !get_absent by (now apply group_not_special).
    cbn [nonnull].
    destruct (group (map (fun c => (xtag c, simple c)) cs)) eqn:Eg;
      [|reflexivity].
    exfalso. unfold group in Eg. rewrite map_map in Eg. cbn [fst] in Eg.
    destruct cs; [contradiction | discriminate Eg].
Qed.

Lemma proto_free_attrsV : forall a,
  forallb (fun av => negb (inherited (fst av))) a = true ->
  proto_free (VObj (attrsV a)) = true.
Proof.
  intros [|a0 a] H; [reflexivity|].
  cbn [attrsV]. rewrite proto_free_VObj. cbn [forallb fst snd].
  change (str_eqb (js "$") (js "__proto__")) with false.
  cbn [negb andb]. rewrite andb_true_r, proto_free_VObj.
  rewrite forallb_forall. intros kv Hkv. apply in_map_iff in Hkv.
  destruct Hkv as (av & <- & Hav). cbn [fst snd proto_free].
  rewrite forallb_forall in H. specialize (H _ Hav).
  apply negb_true_iff in H. rewrite (not_inherited_proto _ H). reflexivity.
Qed.

Lemma proto_free_app : forall o1 o2,
  proto_free (VObj (o1 ++ o2)) =
  proto_free (VObj o1) && proto_free (VObj o2).
Proof. intros. rewrite !proto_free_VObj. apply forallb_app. Qed.

(** The tree of a document has no key [__proto__]. *)
Lemma proto_free_shape : forall x,
  wf_doc x = true -> proto_free (shape x) = true.
Proof.
  induction x as [t a|t a s|t a d|t a cs IH] using xml_rect'; intro Hwf;
    destruct (wf_doc_own _ Hwf) as (_ & Hoa); cbn [xtag xattrs] in *.
  - cbn [shape]. now apply proto_free_attrsV.
  - cbn [shape]. destruct a as [|a0 a]; [reflexivity|].
    rewrite proto_free_app, proto_free_attrsV by assumption. reflexivity.
  - cbn [shape]. rewrite proto_free_app, proto_free_attrsV by assumption.
    reflexivity.
  - cbn [shape]. rewrite proto_free_app, proto_free_attrsV by assumption.
    cbn [andb]. rewrite proto_free_VObj, forallb_forall.
    assert (Hcs : forallb wf_doc cs = true).
    { cbn [wf_doc] in Hwf. apply andb_true_iff in Hwf. destruct Hwf as [_ Hwf].
      destruct cs; [discriminate | exact Hwf]. }
    intros [k v] Hkv. unfold group in Hkv. apply in_map_iff in Hkv.
    destruct Hkv as (k' & E & Hk). injection E as -> <-. cbn [fst snd].
    apply -> distinct_In in Hk. rewrite map_map in Hk. cbn [fst] in Hk.
    apply in_map_iff in Hk. destruct Hk as (c & <- & Hc).
    rewrite forallb_forall in Hcs.
    destruct (wf_doc_own _ (Hcs c Hc)) as (Hot & _).
    rewrite (not_inherited_proto _ Hot). cbn [negb andb].
    rewrite occurrences_map.
    assert (Hall : forallb proto_free
                     (map shape (filter (fun c0 => str_eqb (xtag c0) (xtag c)) cs))
                   = true).
    { rewrite forallb_forall. intros v Hv. apply in_map_iff in Hv.
      destruct Hv as (c' & <- & Hc'). apply filter_In in Hc'.
      rewrite Forall_forall in IH. apply IH; [tauto|]. apply Hcs. tauto. }
    destruct (map shape (filter (fun c0 => str_eqb (xtag c0) (xtag c)) cs))
      as [|v [|v' l]]; [reflexivity| |exact Hall].
    cbn [slot]. cbn [forallb] in Hall. now rewrite andb_true_r in Hall.
Qed.

(** [simplify] on the root: the object that holds the root element stays
    as it is. *)
Lemma revive_root : forall d,
  wf_doc d = true ->
  revive (VObj [(xtag d, shape d)]) (Some simplify)
  = Ok (VObj [(xtag d, simple d)]).
Proof.
  intros d Hwf. cbn [revive].
  rewrite reviveOne_revived.
  2:{ rewrite proto_free_VObj. cbn [forallb fst snd].
      destruct (wf_doc_own _ Hwf) as (Hot & _).
      now rewrite (not_inherited_proto _ Hot), proto_free_shape. }
  f_equal.
  rewrite revived_VObj. cbn [reviveProps set].
  rewrite revive_shape by assumption.
  destruct (wf_doc_parts _ Hwf) as (Ht & _ & _).
  pose proof (is_name_not_dollar _ Ht) as Hd.
  destruct (xtag d) as [|c w] eqn:E; [discriminate|].
  assert (Hb : forallb (fun kv : jstring * value => negb (is_dollar (fst kv)))
                 [(c :: w, simple d)] = true).
  { cbn [forallb fst]. now rewrite Hd. }
  change (VObj [(c :: w, simple d)])
    with (VObj (attrsV [] ++ [(c :: w, simple d)])) at 1.
  rewrite simplify_element; [|reflexivity|reflexivity|].
  - rewrite (get_not_dollar _ (js "$value")), (get_not_dollar _ (js "$cdata"))
      by (assumption || reflexivity).
    reflexivity.
  - cbn [map fst In]. intros [H|[]]. rewrite H in Hd. discriminate Hd.
Qed.

(** X10.  [parse] with the reviver [simplify] gives, for the text of a
    document, the tree without its attributes: the text of an element as a
    bare string, its CDATA string likewise, [null] for an element without
    content or marked [xsi:nil="true"], and for an element with children
    its children by tag name, alone or in a sequence. *)
Theorem parse_with_simplify (d : xml) (Hwf : wf_doc d = true) :
  parse_with (render d) (Some simplify) = Ok (VObj [(xtag d, simple d)]).
Proof.
  unfold parse_with. rewrite parse_render by assumption. cbn [bind].
  now rewrite revive_root.
Qed.

Lemma parse_with_simplify_witness :
  parse_with
    (js "<a atb1=" ++ dq (js "x") ++ js "><b atb2=" ++ dq (js "y")
     ++ js ">3</b><c>4</c><c y=" ++ dq (js "3") ++ js ">5</c><c xsi:nil="
     ++ dq (js "true") ++ js "/></a>")
    (Some simplify)
  = Ok (VObj [(js "a",
               VObj [(js "b", VStr (js "3"));
                     (js "c", VArr [VStr (js "4"); VStr (js "5"); VNull])])]).
Proof.
  exact (parse_with_simplify
           (XNode (js "a") [(js "atb1", js "x")]
              [XText (js "b") [(js "atb2", js "y")] (js "3");
               XText (js "c") [] (js "4");
               XText (js "c") [(js "y", js "3")] (js "5");
               XEmpty (js "c") [(js "xsi:nil", js "true")]])
           eq_refl).
Defined.

Local Open Scope Z_scope.

(** ** Blanks, comments and processing instructions *)

(** What may stand between the elements of a text. *)
Inductive misc : Type :=
| Blank (ws : jstring)
| Comment (body : jstring)
| Instruction (body : jstring).

Definition gap : Type := list misc.

Definition renderMisc (m : misc) : jstring :=
  match m with
  | Blank ws => ws
  | Comment b => js "<!--" ++ b ++ js "-->"
  | Instruction b => js "<?" ++ b ++ js "?>"
  end.

Definition renderGap (g : gap) : jstring := flat_map renderMisc g.

Definition misc_ok (m : misc) : bool :=
  match m with
  | Blank ws => forallb space ws
  | Comment b => negb (has (js "-->") b)
  | Instruction b => negb (has (js "?>") b)
  end.

Definition gap_ok (g : gap) : bool := forallb misc_ok g.

Lemma indexOf_pi_end : forall b rest,
  has (js "?>") b = false ->
  indexOf (js "?>") (b ++ js "?>" ++ rest) = Some (b, js "?>" ++ rest).
Proof.
  unfold has. induction b as [|c d IH]; intros rest H; [reflexivity|].
  cbn [indexOf] in H.
  destruct (starts (js "?>") (c :: d)) eqn:Es; [discriminate|].
  destruct (indexOf (js "?>") d) as [[x r]|] eqn:Ei; [discriminate|].
  cbn [app indexOf].
  assert (Es' : starts (js "?>") (c :: d ++ js "?>" ++ rest) = false).
  { destruct d as [|x d].
    - cbn -[Z.eqb]. now destruct (63 =? c).
    - exact Es. }
  rewrite Es'. rewrite IH by reflexivity. reflexivity.
Qed.

Lemma step_comment : forall (b rest : jstring) bld,
  has (js "-->") b = false ->
  step (js "<!--" ++ b ++ js "-->" ++ rest) bld = Ok (rest, bld).
Proof.
  intros b rest bld H. unfold step.
  change (js "<!--" ++ b ++ js "-->" ++ rest)
    with (LT :: EXCLAM :: js "--" ++ b ++ js "-->" ++ rest).
  cbn [eat]. rewrite Z.eqb_refl. cbn [bind].
  change (begWord EXCLAM) with false. change (EXCLAM =? SLASH) with false.
  change (EXCLAM =? EXCLAM) with true. cbn iota.
  change (starts (js "--") (js "--" ++ b ++ js "-->" ++ rest)) with true.
  cbn iota.
  change (skipn 2 (js "--" ++ b ++ js "-->" ++ rest))
    with (b ++ js "-->" ++ rest).
  rewrite indexOf_comment_end by assumption. reflexivity.
Qed.

Lemma step_instruction : forall (b rest : jstring) bld,
  has (js "?>") b = false ->
  step (js "<?" ++ b ++ js "?>" ++ rest) bld = Ok (rest, bld).
Proof.
  intros b rest bld H. unfold step.
  change (js "<?" ++ b ++ js "?>" ++ rest)
    with (LT :: QMARK :: b ++ js "?>" ++ rest).
  cbn [eat]. rewrite Z.eqb_refl. cbn [bind].
  change (begWord QMARK) with false. change (QMARK =? SLASH) with false.
  change (QMARK =? EXCLAM) with false. change (QMARK =? QMARK) with true.
  cbn iota. rewrite indexOf_pi_end by assumption. reflexivity.
Qed.

(** The main loop passes a gap. *)
Lemma mainLoop'_gap : forall g (rest : jstring) bld,
  gap_ok g = true ->
  mainLoop' (eatSpaces (renderGap g ++ rest)) bld =
  mainLoop' (eatSpaces rest) bld.
Proof.
  induction g as [|m g IH]; intros rest bld H; [reflexivity|].
  cbn [gap_ok forallb] in H. apply andb_true_iff in H. destruct H as [Hm Hg].
  fold (gap_ok g) in Hg.
  unfold renderGap. cbn [flat_map]. fold (renderGap g). rewrite <- app_assoc.
  destruct m as [ws|b|b]; cbn [renderMisc misc_ok] in *.
  - rewrite eatSpaces_app by assumption. now apply IH.
  - apply negb_true_iff in Hm. rewrite <- !app_assoc.
    change (js "<!--" ++ b ++ js "-->" ++ renderGap g ++ rest)
      with (LT :: (js "!--" ++ b ++ js "-->" ++ renderGap g ++ rest)).
    rewrite eatSpaces_id by reflexivity.
    rewrite mainLoop'_step by discriminate.
    change (LT :: (js "!--" ++ b ++ js "-->" ++ renderGap g ++ rest))
      with (js "<!--" ++ b ++ js "-->" ++ renderGap g ++ rest).
    rewrite step_comment by assumption. cbn [bind]. now apply IH.
  - apply negb_true_iff in Hm. rewrite <- !app_assoc.
    change (js "<?" ++ b ++ js "?>" ++ renderGap g ++ rest)
      with (LT :: (js "?" ++ b ++ js "?>" ++ renderGap g ++ rest)).
    rewrite eatSpaces_id by reflexivity.
    rewrite mainLoop'_step by discriminate.
    change (LT :: (js "?" ++ b ++ js "?>" ++ renderGap g ++ rest))
      with (js "<?" ++ b ++ js "?>" ++ renderGap g ++ rest).
    rewrite step_instruction by assumption. cbn [bind]. now apply IH.
Qed.

Lemma space_facts : forall c,
  space c = true -> c <> LT /\ c <> SEMI /\ nonBlank c = false.
Proof.
  intros c H. unfold nonBlank. unfold space in H. rewrite H.
  repeat rewrite orb_true_iff in H. rewrite !Z.eqb_eq in H.
  unfold LT, SEMI. repeat split; try reflexivity; lia.
Qed.

Lemma spaces_facts : forall w,
  forallb space w = true ->
  ~ In LT w /\ clean w = Ok w /\ existsb nonBlank w = false.
Proof.
  intros w H. rewrite forallb_forall in H. repeat split.
  - intro Hin. apply H, space_facts in Hin. tauto.
  - apply clean_from_no_semi. intro Hin. apply H, space_facts in Hin. tauto.
  - apply not_true_is_false. intro E. apply existsb_exists in E.
    destruct E as (c & Hc & Hn). apply H, space_facts in Hc.
    destruct Hc as (_ & _ & Hc). congruence.
Qed.

(** After the [>] of an opening tag, [content] passes the blanks and the
    comments of a gap and leaves the rest of it to the main loop. *)
Lemma content_gap : forall g (w val more : jstring) c fuel bld,
  gap_ok g = true -> forallb space w = true ->
  existsb nonBlank val = false ->
  c <> SLASH -> starts (js "<!--") (LT :: c :: more) = false ->
  (List.length (w ++ renderGap g ++ LT :: c :: more) < fuel)%nat ->
  exists inp',
    content fuel (w ++ renderGap g ++ LT :: c :: more) val bld = Ok (inp', bld)
    /\ forall b, mainLoop' (eatSpaces inp') b = mainLoop' (LT :: c :: more) b.
Proof.
  induction g as [|m g IH]; intros w val more c fuel bld Hg Hw Hval Hc Hs Hf.
  - destruct fuel as [|fuel]; [inversion Hf|].
    destruct (spaces_facts w Hw) as (Hlt & Hcl & Hb).
    cbn [renderGap flat_map app]. exists (w ++ LT :: c :: more). split.
    + cbn [content]. rewrite indexOf_char by assumption.
      rewrite Hs, Hcl. cbn [bind]. cbn [starts].
      apply Z.eqb_neq in Hc. rewrite Z.eqb_sym in Hc.
      rewrite Z.eqb_refl, Hc. cbn [andb]. unfold checkEmpty.
      now rewrite existsb_app, Hval, Hb.
    + intro b. rewrite eatSpaces_app by assumption.
      now rewrite eatSpaces_id by reflexivity.
  - cbn [gap_ok forallb] in Hg. apply andb_true_iff in Hg.
    destruct Hg as [Hm Hg]. fold (gap_ok g) in Hg.
    unfold renderGap in *. cbn [flat_map] in *. fold (renderGap g) in *.
    rewrite <- app_assoc in *.
    destruct m as [ws|b|b]; cbn [renderMisc misc_ok] in *.
    + rewrite app_assoc in *. apply IH; try assumption.
      now rewrite forallb_app, Hw.
    + apply negb_true_iff in Hm. rewrite <- !app_assoc in *.
      destruct fuel as [|fuel]; [inversion Hf|].
      destruct (spaces_facts w Hw) as (Hlt & Hcl & Hb).
      set (rest := renderGap g ++ LT :: c :: more) in *.
      destruct (IH [] (val ++ w) more c fuel bld) as (inp' & E & Hloop);
        try assumption; try reflexivity.
      * now rewrite existsb_app, Hval, Hb.
      * cbn [app]. fold rest. rewrite !length_app in Hf.
        change (List.length (js "<!--")) with 4%nat in Hf. lia.
      * exists inp'. split; [|exact Hloop].
        change (js "<!--" ++ b ++ js "-->" ++ rest)
          with (LT :: (js "!--" ++ b ++ js "-->" ++ rest)).
        cbn [content]. rewrite indexOf_char by assumption.
        change (starts (js "<!--") (LT :: js "!--" ++ b ++ js "-->" ++ rest))
          with true.
        cbn iota. rewrite Hcl. cbn [bind].
        change (skipn 4 (LT :: js "!--" ++ b ++ js "-->" ++ rest))
          with (b ++ js "-->" ++ rest).
        rewrite indexOf_comment_end by assumption.
        change (skipn 3 (js "-->" ++ rest)) with rest. exact E.
    + apply negb_true_iff in Hm. rewrite <- !app_assoc in *.
      destruct fuel as [|fuel]; [inversion Hf|].
      destruct (spaces_facts w Hw) as (Hlt & Hcl & Hb).
      set (rest := renderGap g ++ LT :: c :: more) in *.
      exists (w ++ js "<?" ++ b ++ js "?>" ++ rest). split.
      * change (js "<?" ++ b ++ js "?>" ++ rest)
          with (LT :: (js "?" ++ b ++ js "?>" ++ rest)).
        cbn [content]. rewrite indexOf_char by assumption.
        change (starts (js "<!--") (LT :: js "?" ++ b ++ js "?>" ++ rest))
          with false.
        cbn iota. rewrite Hcl. cbn [bind].
        change (starts [LT; SLASH] (LT :: js "?" ++ b ++ js "?>" ++ rest))
          with false.
        cbn iota. unfold checkEmpty.
        now rewrite existsb_app, Hval, Hb.
      * intro b0. rewrite eatSpaces_app by assumption.
        pose proof (mainLoop'_gap (Instruction b :: g) (LT :: c :: more) b0)
          as Hgap.
        unfold renderGap in Hgap. cbn [flat_map renderMisc] in Hgap.
        fold (renderGap g) in Hgap. rewrite <- !app_assoc in Hgap.
        fold rest in Hgap. rewrite Hgap.
        -- now rewrite eatSpaces_id by reflexivity.
        -- cbn [gap_ok forallb misc_ok]. rewrite Hm. exact Hg.
Qed.

(** *** Documents with gaps between their elements *)

Inductive lxml : Type :=
| LEmpty (tag : jstring) (attrs : list (jstring * jstring))
| LText (tag : jstring) (attrs : list (jstring * jstring)) (text : jstring)
| LCData (tag : jstring) (attrs : list (jstring * jstring))
         (before : gap) (data : jstring) (after : gap)
| LNode (tag : jstring) (attrs : list (jstring * jstring))
        (children : list (gap * lxml)) (last : gap).

(** The document without its gaps. *)
Fixpoint erase (x : lxml) : xml :=
  match x with
  | LEmpty t a => XEmpty t a
  | LText t a s => XText t a s
  | LCData t a _ d _ => XCData t a d
  | LNode t a kids _ => XNode t a (map (fun k => let '(_, c) := k in erase c) kids)
  end.

Fixpoint lrender (x : lxml) : jstring :=
  match x with
  | LEmpty t a => render (XEmpty t a)
  | LText t a s => render (XText t a s)
  | LCData t a g1 d g2 =>
      [LT] ++ t ++ renderAttrs a ++ [GT] ++ renderGap g1
      ++ js "<![CDATA[" ++ d ++ js "]]>" ++ renderGap g2
      ++ js "</" ++ t ++ [GT]
  | LNode t a kids g =>
      [LT] ++ t ++ renderAttrs a ++ [GT]
      ++ flat_map (fun k => let '(g, c) := k in renderGap g ++ lrender c) kids
      ++ renderGap g ++ js "</" ++ t ++ [GT]
  end.

Fixpoint gaps_ok (x : lxml) : bool :=
  match x with
  | LCData _ _ g1 _ g2 => gap_ok g1 && gap_ok g2
  | LNode _ _ kids g =>
      forallb (fun k => let '(g, c) := k in gap_ok g && gaps_ok c) kids
      && gap_ok g
  | _ => true
  end.

Fixpoint lxml_ind' (P : lxml -> Prop)
  (HE : forall t a, P (LEmpty t a))
  (HT : forall t a s, P (LText t a s))
  (HC : forall t a g1 d g2, P (LCData t a g1 d g2))
  (HN : forall t a kids g,
          Forall (fun k => P (snd k)) kids -> P (LNode t a kids g))
  (x : lxml) {struct x} : P x :=
  match x with
  | LEmpty t a => HE t a
  | LText t a s => HT t a s
  | LCData t a g1 d g2 => HC t a g1 d g2
  | LNode t a kids g =>
      HN t a kids g
        ((fix all (kids : list (gap * lxml))
            : Forall (fun k => P (snd k)) kids :=
            match kids with
            | [] => Forall_nil _
            | (g0, c) :: kids' =>
                Forall_cons (g0, c) (lxml_ind' P HE HT HC HN c) (all kids')
            end) kids)
  end.

Definition kidsText (kids : list (gap * lxml)) : jstring :=
  flat_map (fun k => let '(g, c) := k in renderGap g ++ lrender c) kids.

Definition kidsDocs (kids : list (gap * lxml)) : list xml :=
  map (fun k => let '(_, c) := k in erase c) kids.

Lemma lrender_head : forall x,
  wf_doc (erase x) = true ->
  exists c more, lrender x = LT :: c :: more /\ begWord c = true.
Proof.
  intros x H.
  assert (Ht : is_name (xtag (erase x)) = true) by (now apply wf_doc_parts).
  destruct (is_name_inv _ Ht) as (c & w & E & Hc & _).
  destruct x; cbn [erase xtag] in E; subst tag; cbn [lrender render app];
    eexists _, _; split; try reflexivity; assumption.
Qed.

(** The scan of children that come each after a gap. *)
Lemma scan_kids : forall kids,
  Forall (fun k => wf_doc (erase (snd k)) = true -> gaps_ok (snd k) = true ->
            forall post bld,
              mainLoop' (lrender (snd k) ++ post) bld =
              (bld' <- feed (erase (snd k)) bld ;;
               mainLoop' (eatSpaces post) bld')) kids ->
  forallb wf_doc (kidsDocs kids) = true ->
  forallb (fun k => let '(g, c) := k in gap_ok g && gaps_ok c) kids = true ->
  forall (post : jstring) bld,
    mainLoop' (eatSpaces (kidsText kids ++ post)) bld =
    (bld' <- feedAll (kidsDocs kids) bld ;; mainLoop' (eatSpaces post) bld').
Proof.
  induction kids as [|[g c] kids IH]; intros HF Hwf Hg post bld;
    [reflexivity|].
  inversion HF as [|? ? Hc Hkids]; subst. cbn [snd] in Hc.
  cbn [kidsDocs map forallb] in Hwf. fold (kidsDocs kids) in Hwf.
  apply andb_true_iff in Hwf. destruct Hwf as [Hw1 Hw2].
  cbn [forallb] in Hg. apply andb_true_iff in Hg. destruct Hg as [Hg1 Hg2].
  apply andb_true_iff in Hg1. destruct Hg1 as [Hgap Hgc].
  unfold kidsText. cbn [flat_map]. fold (kidsText kids).
  rewrite <- !app_assoc. rewrite mainLoop'_gap by assumption.
  destruct (lrender_head c Hw1) as (ch & more & E & Hch).
  destruct (begWord_facts _ Hch) as (Hsp & _).
  assert (Eid : eatSpaces (lrender c ++ kidsText kids ++ post)
                = lrender c ++ kidsText kids ++ post).
  { rewrite E. cbn [app]. now apply eatSpaces_id. }
  rewrite Eid, Hc by assumption.
  cbn [kidsDocs map feedAll]. fold (kidsDocs kids).
  destruct (feed (erase c) bld) as [b1| | |]; try reflexivity. cbn [bind].
  now apply IH.
Qed.

(** The scanner makes, for a text with gaps, the calls that it makes for
    the text without them. *)
Lemma scan_lrender : forall x,
  wf_doc (erase x) = true -> gaps_ok x = true ->
  forall (post : jstring) bld,
    mainLoop' (lrender x ++ post) bld =
    (bld' <- feed (erase x) bld ;; mainLoop' (eatSpaces post) bld').
Proof.
  induction x as [t a|t a s|t a g1 d g2|t a kids g IH] using lxml_ind';
    intros Hwf Hg post bld.
  - now apply scan_render.
  - now apply scan_render.
  - destruct (wf_doc_parts _ Hwf) as (Ht & Ha & Hnd).
    cbn [erase xtag xattrs] in *.
    assert (Hd : has (js "]]>") d = false).
    { cbn [wf_doc] in Hwf. apply andb_true_iff in Hwf.
      destruct Hwf as [_ Hwf]. now apply negb_true_iff. }
    cbn [gaps_ok] in Hg. apply andb_true_iff in Hg. destruct Hg as [Hg1 Hg2].
    cbn [lrender feed]. rewrite <- !app_assoc.
    set (tail := renderGap g2 ++ js "</" ++ t ++ [GT] ++ post).
    set (cd := js "[CDATA[" ++ d ++ js "]]>" ++ tail).
    rewrite (scan_open_tag t
               (renderGap g1 ++ js "<![CDATA[" ++ d ++ js "]]>" ++ tail)
               a bld Ht Ha).
    destruct (Builder.push t bld) as [b1| | |]; try reflexivity. cbn [bind].
    destruct (feedAttrs a b1) as [b2| | |]; try reflexivity. cbn [bind].
    destruct (content_gap g1 [] [] cd EXCLAM
                (S (List.length (renderGap g1 ++ LT :: EXCLAM :: cd))) b2)
      as (inp' & E & Hloop); try assumption; try reflexivity;
      try discriminate; [cbn [app]; lia|].
    cbn [app] in E.
    change (js "<![CDATA[" ++ d ++ js "]]>" ++ tail) with (LT :: EXCLAM :: cd).
    rewrite E. cbn [bind]. rewrite Hloop.
    pose proof (mainLoop'_cdata (LT :: EXCLAM :: cd) d tail b2 eq_refl Hd)
      as Hcd.
    rewrite eatSpaces_id in Hcd by reflexivity. rewrite Hcd.
    destruct (Builder.cdata (VStr d) b2) as [b3| | |]; try reflexivity.
    cbn [bind]. unfold tail. rewrite mainLoop'_gap by assumption.
    apply (mainLoop'_close _ t post b3 eq_refl Ht).
  - destruct (wf_doc_parts _ Hwf) as (Ht & Ha & Hnd).
    cbn [erase xtag xattrs] in *. fold (kidsDocs kids) in *.
    assert (Hcs : kids <> [] /\ forallb wf_doc (kidsDocs kids) = true).
    { cbn [wf_doc] in Hwf. apply andb_true_iff in Hwf. destruct Hwf as [_ Hwf].
      destruct kids; [discriminate|]. split; [discriminate | exact Hwf]. }
    destruct Hcs as [Hne Hcs].
    cbn [gaps_ok] in Hg. apply andb_true_iff in Hg. destruct Hg as [Hgk Hgl].
    rewrite feed_XNode. cbn [lrender]. fold (kidsText kids).
    rewrite <- !app_assoc.
    set (tail := renderGap g ++ js "</" ++ t ++ [GT] ++ post).
    rewrite (scan_open_tag t (kidsText kids ++ tail) a bld Ht Ha).
    destruct (Builder.push t bld) as [b1| | |]; try reflexivity. cbn [bind].
    destruct (feedAttrs a b1) as [b2| | |]; try reflexivity. cbn [bind].
    destruct kids as [|[g0 c0] kids]; [contradiction|].
    inversion IH as [|? ? Hc0 Hkids]; subst. cbn [snd] in Hc0.
    cbn [kidsDocs map forallb] in Hcs. fold (kidsDocs kids) in Hcs.
    apply andb_true_iff in Hcs. destruct Hcs as [Hw0 Hws].
    cbn [forallb] in Hgk. apply andb_true_iff in Hgk.
    destruct Hgk as [Hg0 Hgk]. apply andb_true_iff in Hg0.
    destruct Hg0 as [Hgap0 Hgc0].
    destruct (lrender_head c0 Hw0) as (ch & more & E0 & Hch).
    destruct (begWord_facts _ Hch) as (Hsp & _ & Hsl & _ & Hex & _).
    unfold kidsText. cbn [flat_map]. fold (kidsText kids).
    rewrite <- !app_assoc. rewrite E0. cbn [app].
    destruct (content_gap g0 [] [] (more ++ kidsText kids ++ tail) ch
                (S (List.length
                      (renderGap g0 ++ LT :: ch :: more ++ kidsText kids ++ tail)))
                b2)
      as (inp' & E & Hloop); try assumption; try reflexivity;
      [|cbn [app]; lia|].
    { cbn -[Z.eqb]. apply Z.eqb_neq in Hex. rewrite Z.eqb_sym in Hex.
      change 33%Z with EXCLAM. rewrite Hex. now rewrite andb_false_r. }
    cbn [app] in E. rewrite E. cbn [bind]. rewrite Hloop.
    change (LT :: ch :: more ++ kidsText kids ++ tail)
      with ((LT :: ch :: more) ++ kidsText kids ++ tail).
    rewrite <- E0. rewrite Hc0 by assumption.
    cbn [kidsDocs map feedAll]. fold (kidsDocs kids).
    destruct (feed (erase c0) b2) as [b3| | |]; try reflexivity. cbn [bind].
    rewrite scan_kids by assumption.
    destruct (feedAll (kidsDocs kids) b3) as [b4| | |]; try reflexivity.
    cbn [bind]. unfold tail. rewrite mainLoop'_gap by assumption.
    apply (mainLoop'_close _ t post b4 eq_refl Ht).
Qed.

(** The first [<] of a text that begins with a gap. *)
Lemma indexOf_gap : forall g (w rest : jstring),
  gap_ok g = true -> forallb space w = true ->
  exists pre inp,
    indexOf [LT] (w ++ renderGap g ++ LT :: rest) = Some (pre, inp)
    /\ forall b, mainLoop' inp b = mainLoop' (LT :: rest) b.
Proof.
  induction g as [|m g IH]; intros w rest Hg Hw.
  - destruct (spaces_facts w Hw) as (Hlt & _).
    exists w, (LT :: rest). split; [|reflexivity].
    cbn [renderGap flat_map app]. now apply indexOf_char.
  - cbn [gap_ok forallb] in Hg. apply andb_true_iff in Hg.
    destruct Hg as [Hm Hg]. fold (gap_ok g) in Hg.
    destruct (spaces_facts w Hw) as (Hlt & _).
    pose proof (mainLoop'_gap (m :: g) (LT :: rest)) as Hgap.
    assert (Hmg : gap_ok (m :: g) = true).
    { cbn [gap_ok forallb]. now rewrite Hm. }
    unfold renderGap in *. cbn [flat_map] in *. fold (renderGap g) in *.
    rewrite <- app_assoc in *.
    destruct m as [ws|b|b]; cbn [renderMisc misc_ok] in *.
    + rewrite app_assoc. apply IH; [assumption|].
      now rewrite forallb_app, Hw.
    + rewrite <- !app_assoc in *.
      exists w, (js "<!--" ++ b ++ js "-->" ++ renderGap g ++ LT :: rest).
      split.
      * change (js "<!--" ++ b ++ js "-->" ++ renderGap g ++ LT :: rest)
          with (LT :: (js "!--" ++ b ++ js "-->" ++ renderGap g ++ LT :: rest)).
        now apply indexOf_char.
      * intro b0. specialize (Hgap b0 Hmg).
        rewrite !eatSpaces_id in Hgap by reflexivity. exact Hgap.
    + rewrite <- !app_assoc in *.
      exists w, (js "<?" ++ b ++ js "?>" ++ renderGap g ++ LT :: rest).
      split.
      * change (js "<?" ++ b ++ js "?>" ++ renderGap g ++ LT :: rest)
          with (LT :: (js "?" ++ b ++ js "?>" ++ renderGap g ++ LT :: rest)).
        now apply indexOf_char.
      * intro b0. specialize (Hgap b0 Hmg).
        rewrite !eatSpaces_id in Hgap by reflexivity. exact Hgap.
Qed.

(** [parse] on a text with gaps. *)
Lemma parse_gaps : forall (x : lxml) (before after : gap),
  wf_doc (erase x) = true -> gaps_ok x = true ->
  gap_ok before = true -> gap_ok after = true ->
  parse (renderGap before ++ lrender x ++ renderGap after)
  = Ok (VObj [(xtag (erase x), shape (erase x))]).
Proof.
  intros x before after Hwf Hg Hb Ha.
  destruct (lrender_head x Hwf) as (c & more & E & _).
  destruct (indexOf_gap before [] (c :: more ++ renderGap after) Hb eq_refl)
    as (pre & inp & Ei & Hloop).
  cbn [app] in Ei. unfold parse. rewrite E. cbn [app]. rewrite Ei.
  fold (mainLoop' inp builder_init). rewrite Hloop.
  change (LT :: c :: more ++ renderGap after)
    with ((LT :: c :: more) ++ renderGap after).
  rewrite <- E. rewrite scan_lrender by assumption.
  rewrite feed_shape; [|now apply wf_doc_events | exact accepting_root].
  cbn [bind]. rewrite <- (app_nil_r (renderGap after)).
  rewrite mainLoop'_gap by assumption. reflexivity.
Qed.

(** C9. [parse] starts at the first [<] of its input: a prefix [p] without
    [<] changes nothing, whatever it holds.  So [parse (p ++ x)] is
    [parse x] for every [x]; for the text of a document, compact or with
    blanks, comments and processing instructions between its elements, it
    returns, and returns the tree of the document; and an input without
    any [<], such as [p] alone, makes [parse] throw. *)
Theorem parse_skips_prefix (p : jstring) (Hp : ~ In LT p) :
  (forall x, parse (p ++ x) = parse x)
  /\ (forall d, wf_doc d = true ->
        parse (p ++ render d) = Ok (VObj [(xtag d, shape d)]))
  /\ (forall (x : lxml) (before after : gap),
        wf_doc (erase x) = true -> gaps_ok x = true ->
        gap_ok before = true -> gap_ok after = true ->
        parse (p ++ renderGap before ++ lrender x ++ renderGap after)
        = Ok (VObj [(xtag (erase x), shape (erase x))]))
  /\ throws (parse p).
Proof.
  assert (Hx : forall x, parse (p ++ x) = parse x).
  { intro x. unfold parse. rewrite indexOf_LT_prefix by assumption.
    now destruct (indexOf [LT] x) as [[b r]|]. }
  split; [exact Hx|]. split; [|split].
  - intros d Hwf. rewrite Hx. now apply parse_render.
  - intros x before after Hwf Hg Hb Ha. rewrite Hx. now apply parse_gaps.
  - unfold parse. rewrite indexOf_LT_none by assumption.
    now exists "expected character"%string.
Qed.

Lemma parse_skips_prefix_witness :
  ~ In LT (js "junk; ")
  /\ parse (js "junk; " ++ js "<a>5</a>") = Ok (VObj [(js "a", VStr (js "5"))])
  /\ throws (parse (js "junk; ")).
Proof.
  assert (H : ~ In LT (js "junk; ")).
  { cbv. intros H. repeat (destruct H as [H|H]; [discriminate H|]). exact H. }
  split; [exact H|].
  destruct (parse_skips_prefix (js "junk; ") H) as (_ & Hd & _ & Ht).
  split; [|exact Ht].
  exact (Hd (XText (js "a") [] (js "5")) eq_refl).
Defined.

(** X11.  Blanks, comments and processing instructions before the root
    element, after it, between the opening tag of an element and its first
    child, between children, before a closing tag that follows a child,
    and around a CDATA section, change nothing: [parse] returns the tree
    of the text without them. *)
Theorem gaps_are_skipped (x : lxml) (before after : gap)
  (Hwf : wf_doc (erase x) = true) (Hg : gaps_ok x = true)
  (Hb : gap_ok before = true) (Ha : gap_ok after = true) :
  parse (renderGap before ++ lrender x ++ renderGap after)
  = Ok (VObj [(xtag (erase x), shape (erase x))])
  /\ parse (render (erase x)) = Ok (VObj [(xtag (erase x), shape (erase x))]).
Proof.
  split; [now apply parse_gaps | now apply parse_render].
Qed.

Lemma gaps_are_skipped_witness :
  parse (js "<?xml version='1.0'?>" ++ [10] ++ js "<!-- list -->"
         ++ js "<a> <!-- first --> <b>1</b>" ++ [10; 9]
         ++ js "<b><![CDATA[2]]> </b><?pi?> </a>" ++ [10])
  = Ok (VObj [(js "a", VObj [(js "b", VArr [VStr (js "1");
                                            VObj [(js "$cdata", VStr (js "2"))]])])]).
Proof.
  exact (proj1 (gaps_are_skipped
           (LNode (js "a") []
              [([Blank [32]; Comment (js " first "); Blank [32]],
                LText (js "b") [] (js "1"));
               ([Blank [10; 9]],
                LCData (js "b") [] [] (js "2") [Blank [32]])]
              [Instruction (js "pi"); Blank [32]])
           [Instruction (js "xml version='1.0'"); Blank [10];
            Comment (js " list ")]
           [Blank [10]]
           eq_refl eq_refl eq_refl eq_refl)).
Defined.

Local Close Scope Z_scope.

(** ** Indentation *)

Section Pretty.

(** The indent, a string that is not empty. *)
Variables (i0 : Z) (i1 : jstring).
Let ind : jstring := i0 :: i1.
Let opt : option jstring := Some ind.

(** A line break and the indent of the depth [k]. *)
Definition newline (k : nat) : jstring := [LF] ++ concat (repeat ind k).

(** The document as [stringify] lays it out at the depth [k]: every child
    on a line of its own, one indent deeper than its parent, and the
    closing tag that follows a child or a CDATA section on a line of its
    own. *)
Fixpoint pretty (k : nat) (x : xml) : lxml :=
  match x with
  | XEmpty t a => LEmpty t a
  | XText t a s => LText t a s
  | XCData t a d => LCData t a [] d [Blank (newline k)]
  | XNode t a cs =>
      LNode t a (map (fun c => ([Blank (newline (S k))], pretty (S k) c)) cs)
            [Blank (newline k)]
  end.

(** An element on its line. *)
Definition line (k : nat) (x : xml) : jstring :=
  newline k ++ lrender (pretty k x).

Fixpoint strfyEachI (l : list value) (tag : jstring) (st : fstate)
  : result fstate :=
  match l with
  | [] => Ok st
  | child :: l' => st' <- strfy opt child tag st ;; strfyEachI l' tag st'
  end.

Fixpoint strfyKidsI (o : object) (st : fstate) : result fstate :=
  match o with
  | [] => Ok st
  | (key, v) :: o' =>
      if is_dollar key then strfyKidsI o' st
      else st' <- strfy opt v key st ;; strfyKidsI o' st'
  end.

Lemma strfyI_VArr : forall l tag st,
  strfy opt (VArr l) tag st = strfyEachI l tag st.
Proof.
  induction l as [|c l IH]; intros tag st; [reflexivity|].
  cbn [strfy strfyEachI].
  destruct (strfy opt c tag st) as [st'| | |]; try reflexivity.
  cbn [bind]. exact (IH tag st').
Qed.

Lemma beginTagI : forall tag st,
  beginTag opt tag st =
  mkFstate (f_str st ++ newline (f_depth st) ++ [LT] ++ tag) (S (f_depth st)).
Proof.
  intros tag st. unfold beginTag, indent_on, do_indent, opt, ind, newline.
  cbn [f_str f_depth]. now rewrite <- !app_assoc.
Qed.

Lemma closeTagI_value : forall tag s st,
  closeTag opt tag (VStr s) st =
  mkFstate (f_str st ++ escape (VStr s) ++ js "</" ++ tag ++ js ">")
           (Nat.pred (f_depth st)).
Proof.
  intros. unfold closeTag. cbn [nonnull f_str f_depth].
  now rewrite <- !app_assoc.
Qed.

Lemma closeTagI_line : forall tag st,
  closeTag opt tag VUndefined st =
  mkFstate (f_str st ++ newline (Nat.pred (f_depth st))
            ++ js "</" ++ tag ++ js ">")
           (Nat.pred (f_depth st)).
Proof.
  intros. unfold closeTag, indent_on, do_indent, opt, ind, newline.
  cbn [nonnull f_str f_depth]. now rewrite <- !app_assoc.
Qed.

Lemma strfyI_VObj : forall o tag st,
  strfy opt (VObj o) tag st =
  let st := addAttributes (get o (js "$")) (beginTag opt tag st) in
  let keys := filter (fun kv => negb (is_dollar (fst kv))) o in
  let val := get o (js "$value") in
  let data := get o (js "$cdata") in
  if defined val then
    match keys with
    | _ :: _ => Throw "cannot mix $value and $children"
    | [] =>
        if truthy data then Throw "cannot mix $value and $cdata"
        else
          match val with
          | VNull => Ok (nil_tag st)
          | _ => Ok (closeTag opt tag val (endTag false st))
          end
    end
  else if nonnull data then
    match keys with
    | _ :: _ => Throw "cannot mix $cdata and $children"
    | [] => Ok (closeTag opt tag VUndefined (fcdata data (endTag false st)))
    end
  else
    match keys with
    | _ :: _ =>
        st' <- strfyKidsI o (endTag false st) ;;
        Ok (closeTag opt tag VUndefined st')
    | [] => Ok (endTag true st)
    end.
Proof. reflexivity. Qed.

Lemma strfyEachI_children : forall l k st,
  (forall c, In c l -> xtag c = k /\
     forall st, strfy opt (shape c) k st = Ok (emit st (line (f_depth st) c))) ->
  strfyEachI (map shape l) k st
  = Ok (emit st (flat_map (line (f_depth st)) l)).
Proof.
  induction l as [|c l IH]; intros k st H; [now rewrite emit_nil|].
  cbn [map strfyEachI flat_map].
  destruct (H c (or_introl eq_refl)) as [_ Hc]. rewrite Hc. cbn [bind].
  rewrite IH by (intros; apply H; now right). now rewrite emit_emit.
Qed.

Lemma strfyI_slot : forall l k st,
  l <> [] ->
  (forall c, In c l -> xtag c = k /\
     forall st, strfy opt (shape c) k st = Ok (emit st (line (f_depth st) c))) ->
  strfy opt (slot (map shape l)) k st
  = Ok (emit st (flat_map (line (f_depth st)) l)).
Proof.
  intros [|c [|c' l]] k st Hne H; [contradiction| |].
  - cbn [map slot flat_map]. rewrite app_nil_r.
    now apply (H c (or_introl eq_refl)).
  - change (slot (map shape (c :: c' :: l)))
      with (VArr (map shape (c :: c' :: l))).
    rewrite strfyI_VArr. now apply strfyEachI_children.
Qed.

Lemma strfyKidsI_group : forall cs ks st,
  (forall c, In c cs ->
     key_ok (xtag c) = true /\
     forall st, strfy opt (shape c) (xtag c) st
                = Ok (emit st (line (f_depth st) c))) ->
  (forall k, In k ks -> In k (map xtag cs)) ->
  strfyKidsI
    (map (fun k => (k, slot (occurrences k (map (fun c => (xtag c, shape c)) cs))))
         ks) st
  = Ok (emit st (flat_map (line (f_depth st))
                   (flat_map (fun k => filter (fun c => str_eqb (xtag c) k) cs) ks))).
Proof.
  intros cs. induction ks as [|k ks IH]; intros st Hcs Hks;
    [now rewrite emit_nil|].
  cbn [map strfyKidsI flat_map].
  assert (Hin : In k (map xtag cs)) by (apply Hks; now left).
  apply in_map_iff in Hin. destruct Hin as (c0 & Ek & Hc0).
  destruct (Hcs c0 Hc0) as [Hk0 _]. rewrite Ek in Hk0.
  assert (Hd : is_dollar k = false).
  { unfold key_ok in Hk0. apply andb_true_iff in Hk0.
    now apply negb_true_iff. }
  rewrite Hd, occurrences_map.
  rewrite strfyI_slot.
  - cbn [bind]. rewrite IH; [|assumption | intros; apply Hks; now right].
    cbn [emit f_depth]. now rewrite emit_emit, flat_map_app.
  - intro E. assert (Hf : In c0 (filter (fun c => str_eqb (xtag c) k) cs)).
    { apply filter_In. split; [assumption|]. rewrite Ek. apply str_eqb_refl. }
    rewrite E in Hf. contradiction.
  - intros c Hc. apply filter_In in Hc. destruct Hc as [Hc E].
    apply str_eqb_eq in E. split; [exact E|].
    destruct (Hcs c Hc) as [_ Hs]. now rewrite <- E.
Qed.

Lemma strfyKidsI_skip_attrs : forall a body st,
  strfyKidsI (attrsV a ++ body) st = strfyKidsI body st.
Proof. intros [|a0 a] body st; reflexivity. Qed.

Lemma kidsText_pretty : forall k cs,
  kidsText (map (fun c => ([Blank (newline k)], pretty k c)) cs)
  = flat_map (line k) cs.
Proof.
  intros k cs. unfold kidsText. induction cs as [|c cs IH]; [reflexivity|].
  cbn [map flat_map]. rewrite IH. unfold line, renderGap.
  cbn [flat_map renderMisc]. now rewrite app_nil_r.
Qed.

Lemma strfyI_leaf : forall a body tag st,
  ~ In (js "$") (map fst body) ->
  filter (fun kv : jstring * value => negb (is_dollar (fst kv))) body = [] ->
  strfy opt (VObj (attrsV a ++ body)) tag st =
  let st := emit (beginTag opt tag st) (renderAttrs a) in
  let val := get body (js "$value") in
  let data := get body (js "$cdata") in
  if defined val then
    if truthy data then Throw "cannot mix $value and $cdata"
    else
      match val with
      | VNull => Ok (nil_tag st)
      | _ => Ok (closeTag opt tag val (endTag false st))
      end
  else if nonnull data then
    Ok (closeTag opt tag VUndefined (fcdata data (endTag false st)))
  else Ok (endTag true st).
Proof.
  intros a body tag st Hb Hf. rewrite strfyI_VObj. cbv zeta.
  rewrite get_dollar_attrsV by assumption.
  rewrite filter_keys_attrs, addAttributes_attrs, Hf.
  rewrite !get_app_r by (apply not_in_attrsV; discriminate).
  reflexivity.
Qed.

(** With an indent, [stringify] writes every element of a document on its
    line. *)
Lemma strfy_pretty : forall x,
  wf_doc x = true -> canonical x ->
  forall st, strfy opt (shape x) (xtag x) st
             = Ok (emit st (line (f_depth st) x)).
Proof.
  induction x as [t a|t a s|t a d|t a cs IH] using xml_rect';
    intros Hwf Hcan st; cbn [xtag shape]; unfold line; cbn [pretty lrender render].
  - rewrite <- (app_nil_r (attrsV a)).
    rewrite strfyI_leaf by (cbn; tauto). cbv zeta. cbn [get defined nonnull].
    rewrite beginTagI. unfold endTag, emit. cbn [f_str f_depth Nat.pred].
    now rewrite <- !app_assoc.
  - destruct a as [|a0 a].
    + cbn [strfy]. rewrite beginTagI, closeTagI_value.
      unfold endTag, emit.
      cbn [f_str f_depth Nat.pred renderAttrs flat_map app].
      f_equal. f_equal. now rewrite <- !app_assoc.
    + rewrite strfyI_leaf.
      2:{ cbn. intros [H|[]]. discriminate H. }
      2:{ reflexivity. }
      cbv zeta. change (get [(js "$value", VStr s)] (js "$value")) with (VStr s).
      change (get [(js "$value", VStr s)] (js "$cdata")) with VUndefined.
      cbn [defined truthy].
      rewrite closeTagI_value, beginTagI. unfold endTag, emit.
      cbn [f_str f_depth Nat.pred]. f_equal. f_equal.
      now rewrite <- !app_assoc.
  - rewrite strfyI_leaf.
    2:{ cbn. intros [H|[]]. discriminate H. }
    2:{ reflexivity. }
    cbv zeta. change (get [(js "$cdata", VStr d)] (js "$value")) with VUndefined.
    change (get [(js "$cdata", VStr d)] (js "$cdata")) with (VStr d).
    cbn [defined nonnull].
    rewrite closeTagI_line, beginTagI. unfold fcdata, endTag, emit, renderGap.
    cbn [f_str f_depth Nat.pred toString flat_map renderMisc app].
    f_equal. f_equal. rewrite app_nil_r. now rewrite <- !app_assoc.
  - destruct (canonical_children _ _ _ Hcan) as [Hre Hcc].
    assert (Hcs : cs <> [] /\ forallb wf_doc cs = true).
    { cbn [wf_doc] in Hwf. apply andb_true_iff in Hwf. destruct Hwf as [_ Hwf].
      destruct cs; [discriminate|]. split; [discriminate | exact Hwf]. }
    destruct Hcs as [Hne Hcs].
    assert (Hkeys : forall c, In c cs -> key_ok (xtag c) = true).
    { intros c Hc. rewrite forallb_forall in Hcs.
      apply wf_events_key, wf_doc_events, Hcs, Hc. }
    set (kvs := map (fun c => (xtag c, shape c)) cs).
    assert (Hg : forall k, key_ok k = false ->
               ~ In k (map fst (group kvs))).
    { intros k Hk Hin. apply in_map_iff in Hin. destruct Hin as (kv & <- & Hin).
      apply (group_keys_ok cs Hkeys) in Hin. congruence. }
    rewrite strfyI_VObj. cbv zeta.
    rewrite get_dollar_attrsV by (now apply Hg).
    rewrite filter_keys_attrs, addAttributes_attrs.
    rewrite !get_app_r.
    2,3: (destruct a; cbn; [tauto|]; intros [H|[]]; discriminate H).
    rewrite !get_absent by (now apply Hg). cbn [defined nonnull].
    assert (Hfilter : filter (fun kv : jstring * value => negb (is_dollar (fst kv)))
                        (group kvs) = group kvs).
    { apply forallb_filter_id. rewrite forallb_forall. intros kv Hin.
      apply (group_keys_ok cs Hkeys) in Hin. unfold key_ok in Hin.
      apply andb_true_iff in Hin. tauto. }
    rewrite Hfilter.
    assert (Hgne : group kvs <> []).
    { unfold group, kvs. rewrite map_map. cbn [fst].
      destruct cs as [|c cs]; [contradiction|]. discriminate. }
    destruct (group kvs) as [|g0 gs] eqn:Eg; [contradiction|]. rewrite <- Eg.
    rewrite strfyKidsI_skip_attrs. unfold group, kvs. rewrite map_map. cbn [fst].
    rewrite strfyKidsI_group.
    + cbn [bind].
      change (flat_map (fun k : jstring =>
                          filter (fun c : xml => str_eqb (xtag c) k) cs)
                (distinct (map (fun x : xml => xtag x) cs)))
        with (regroup cs).
      rewrite Hre. rewrite closeTagI_line, beginTagI.
      fold (kidsText (map (fun c => ([Blank (newline (S (f_depth st)))],
                                     pretty (S (f_depth st)) c)) cs)).
      rewrite kidsText_pretty.
      unfold endTag, emit, renderGap.
      cbn [f_str f_depth Nat.pred flat_map renderMisc app].
      f_equal. f_equal. rewrite app_nil_r. now rewrite <- !app_assoc.
    + intros c Hc. split; [now apply Hkeys|].
      rewrite Forall_forall in IH, Hcc. rewrite forallb_forall in Hcs.
      intro st0. apply IH; auto.
    + intros k Hk. apply -> distinct_In in Hk. exact Hk.
Qed.

Lemma erase_pretty : forall x k, erase (pretty k x) = x.
Proof.
  induction x as [t a|t a s|t a d|t a cs IH] using xml_rect'; intro k;
    try reflexivity.
  cbn [pretty erase]. f_equal. rewrite map_map.
  rewrite <- (map_id cs) at 2. apply map_ext_in. intros c Hc.
  rewrite Forall_forall in IH. now apply IH.
Qed.

Lemma newline_blank : forall k,
  forallb space ind = true -> forallb space (newline k) = true.
Proof.
  intros k H. unfold newline. rewrite forallb_app. cbn [forallb].
  change (space LF) with true. cbn [andb].
  induction k as [|k IH]; [reflexivity|].
  cbn [repeat concat]. now rewrite forallb_app, H.
Qed.

Lemma gaps_ok_pretty : forall x k,
  forallb space ind = true -> gaps_ok (pretty k x) = true.
Proof.
  induction x as [t a|t a s|t a d|t a cs IH] using xml_rect'; intros k H;
    try reflexivity.
  - cbn [pretty gaps_ok gap_ok forallb misc_ok].
    now rewrite newline_blank.
  - cbn [pretty gaps_ok gap_ok forallb misc_ok].
    rewrite (newline_blank k H). cbn [andb]. rewrite andb_true_r.
    rewrite forallb_forall. intros [g c] Hin. apply in_map_iff in Hin.
    destruct Hin as (c' & E & Hc'). inversion E; subst.
    cbn [gap_ok forallb misc_ok]. rewrite (newline_blank (S k) H).
    rewrite Forall_forall in IH. cbn [andb]. now apply IH.
Qed.

End Pretty.

Lemma stringify_pretty : forall (d : xml) (i0 : Z) (i1 : jstring),
  wf_doc d = true ->
  stringify_with (Some (i0 :: i1)) (VObj [(xtag d, shape d)])
  = Ok (lrender (pretty i0 i1 0 (canon d))).
Proof.
  intros d i0 i1 Hwf. unfold stringify_with. cbn [entries].
  rewrite <- (xtag_canon d), <- (shape_canon d).
  rewrite strfy_pretty by (now apply wf_doc_canon || apply canonical_canon).
  cbn [bind]. unfold fgetResult, emit, line, newline.
  cbn [f_str f_depth repeat concat app].
  destruct (lrender_head (pretty i0 i1 0 (canon d))) as (c & more & E & _).
  - rewrite erase_pretty. now apply wf_doc_canon.
  - rewrite E. reflexivity.
Qed.

(** X12.  With an indent that is not empty, [stringify] writes the tree of
    a document with every child on a line of its own, one indent deeper
    than its parent, and without a line break before the root; and when
    the indent is made of blanks, [parse] reads the same tree back from
    the indented text. *)
Theorem indented_text_parses_back (d : xml) (i0 : Z) (i1 : jstring)
  (Hwf : wf_doc d = true) :
  let t := VObj [(xtag d, shape d)] in
  let text := lrender (pretty i0 i1 0 (canon d)) in
  stringify_with (Some (i0 :: i1)) t = Ok text
  /\ (forallb space (i0 :: i1) = true -> parse text = Ok t).
Proof.
  intros t text. split; [now apply stringify_pretty|].
  intro Hsp.
  pose proof (parse_gaps (pretty i0 i1 0 (canon d)) [] []) as H.
  rewrite erase_pretty in H. cbn [renderGap flat_map app] in H.
  rewrite app_nil_r in H. rewrite xtag_canon, shape_canon in H.
  apply H; try reflexivity.
  - now apply wf_doc_canon.
  - now apply gaps_ok_pretty.
Qed.

Lemma indented_text_parses_back_witness :
  let d := XNode (js "a") []
             [XText (js "b") [(js "x", js "3")] (js "5");
              XNode (js "c") [] [XEmpty (js "d") []]] in
  stringify_with (Some [9%Z]) (VObj [(xtag d, shape d)])
  = Ok (js "<a>" ++ [10; 9]%Z ++ js "<b x=" ++ dq (js "3") ++ js ">5</b>"
        ++ [10; 9]%Z ++ js "<c>" ++ [10; 9; 9]%Z ++ js "<d/>" ++ [10; 9]%Z
        ++ js "</c>" ++ [10]%Z ++ js "</a>")
  /\ parse (js "<a>" ++ [10; 9]%Z ++ js "<b x=" ++ dq (js "3") ++ js ">5</b>"
            ++ [10; 9]%Z ++ js "<c>" ++ [10; 9; 9]%Z ++ js "<d/>" ++ [10; 9]%Z
            ++ js "</c>" ++ [10]%Z ++ js "</a>")
     = Ok (VObj [(xtag d, shape d)]).
Proof.
  intro d.
  destruct (indented_text_parses_back d 9%Z [] eq_refl) as [H1 H2].
  split; [exact H1 | exact (H2 eq_refl)].
Defined.

Local Open Scope Z_scope.

(** ** [normalizeNamespaces] without namespaces *)

(** The name of an attribute that is neither qualified nor a
    declaration. *)
Definition local_attr (s : jstring) : bool :=
  no_colon s && negb (str_eqb s (js "xmlns")).

(** An element whose text is the empty string and that has no
    attribute: its node is the empty string, which is falsy. *)
Definition empty_text (x : xml) : bool :=
  match x with XText _ [] [] => true | _ => false end.

(** A document that uses no namespace, and in which no child is an empty
    text. *)
Fixpoint local (x : xml) : bool :=
  no_colon (xtag x) && forallb (fun av => local_attr (fst av)) (xattrs x)
  && match x with
     | XNode _ _ cs => forallb (fun c => local c && negb (empty_text c)) cs
     | _ => true
     end.

(** The document with an empty element in place of every CDATA
    section. *)
Fixpoint uncdata (x : xml) : xml :=
  match x with
  | XCData t a _ => XEmpty t a
  | XNode t a cs => XNode t a (map uncdata cs)
  | _ => x
  end.

Lemma qualify_local : forall tag, no_colon tag = true -> qualified [] tag = tag.
Proof.
  intros tag H. unfold qualified. rewrite split_no_colon by assumption.
  reflexivity.
Qed.

Lemma scanAttributes_local : forall (l : object) ns b,
  forallb (fun kv => local_attr (fst kv)) l = true ->
  fold_left
    (fun (acc : object * bool * bool * bool) (kv : jstring * value) =>
       let '(ns, decl, nsAttr, bare) := acc in
       let parts := split COLON (fst kv) in
       if str_eqb (hd [] parts) (js "xmlns") then
         (set ns (match part1 parts with Some p => p | None => [] end) (snd kv),
          true, nsAttr, bare)
       else
         match part1 parts with
         | Some _ => (ns, decl, true, bare)
         | None => (ns, decl, nsAttr, true)
         end)
    l (ns, false, false, b)
  = (ns, false, false, match l with [] => b | _ => true end).
Proof.
  induction l as [|[k v] l IH]; intros ns b H; [reflexivity|].
  cbn [forallb fst] in H. apply andb_true_iff in H. destruct H as [Hk Hl].
  unfold local_attr in Hk. apply andb_true_iff in Hk. destruct Hk as [Hc Hx].
  apply negb_true_iff in Hx.
  cbn [fold_left fst snd]. rewrite split_no_colon by assumption.
  cbn [hd part1]. rewrite Hx. rewrite IH by assumption. now destruct l.
Qed.

Lemma attrs_local : forall (a : list (jstring * jstring)),
  forallb (fun av => local_attr (fst av)) a = true ->
  forallb (fun kv : jstring * value => local_attr (fst kv))
          (map (fun av => (fst av, VStr (snd av))) a) = true.
Proof.
  intros a H. rewrite forallb_forall in *. intros kv Hin.
  apply in_map_iff in Hin. destruct Hin as (av & <- & Hin). now apply H.
Qed.

Lemma normWalk_skip_attrs : forall ns a body st,
  normWalk ns (attrsV a ++ body) st = normWalk ns body st.
Proof. intros ns [|a0 a] body st; reflexivity. Qed.

(** An element without namespaces: its attributes are kept as they are,
    its text is kept, its CDATA section is not. *)
Lemma normalize_element : forall a body tag,
  forallb (fun av => local_attr (fst av)) a = true ->
  no_colon tag = true -> is_empty tag = false ->
  ~ In (js "$") (map fst body) ->
  normalized (VObj (attrsV a ++ body)) [] tag =
  let '(result, onlyValue) :=
    normWalk [] body (attrsV a, match a with [] => true | _ => false end) in
  let val := get body (js "$value") in
  (tag,
   if defined val then
     if onlyValue then val else VObj (set result (js "$value") val)
   else VObj result).
Proof.
  intros a body tag Ha Ht Hne Hb. rewrite normalize_VObj. cbv zeta.
  rewrite get_dollar_attrsV by assumption.
  rewrite (get_app_r (attrsV a) body (js "$value"))
    by (apply not_in_attrsV; discriminate).
  rewrite Hne.
  destruct a as [|a0 a].
  - cbn [truthy andb]. rewrite normWalk_skip_attrs.
    rewrite qualify_local by assumption. reflexivity.
  - cbn [truthy]. unfold scanned. cbn [entries].
    rewrite scanAttributes_local by (now apply attrs_local).
    change (match map (fun av : jstring * jstring => (fst av, VStr (snd av)))
                    (a0 :: a) with [] => false | _ => true end) with true.
    cbn [andb orb]. rewrite normWalk_skip_attrs.
    rewrite qualify_local by assumption. reflexivity.
Qed.

Lemma child_items_group : forall (kvs : list (jstring * value)) ks,
  (forall k, In k ks -> key_ok k = true /\ occurrences k kvs <> []) ->
  forallb (fun kv => is_node (snd kv)) kvs = true ->
  child_items (map (fun k => (k, slot (occurrences k kvs))) ks)
  = flat_map (fun k => map (fun v => (k, v)) (occurrences k kvs)) ks.
Proof.
  intros kvs ks Hks Hn. induction ks as [|k ks IH]; [reflexivity|].
  unfold child_items in *. cbn [map flat_map fst snd].
  rewrite IH by (intros; apply Hks; now right). f_equal.
  destruct (Hks k (or_introl eq_refl)) as [Hk Ho].
  unfold key_ok in Hk. apply andb_true_iff in Hk. destruct Hk as [He Hd].
  apply negb_true_iff in He, Hd. rewrite He, Hd. cbn [orb].
  destruct (occurrences k kvs) as [|v [|v' vs]] eqn:E; [contradiction| |].
  - cbn [slot map].
    assert (Hv : is_node v = true).
    { assert (Hin : In v (occurrences k kvs)) by (rewrite E; now left).
      unfold occurrences in Hin. apply in_map_iff in Hin.
      destruct Hin as (kv & <- & Hkv). apply filter_In in Hkv.
      rewrite forallb_forall in Hn. now apply Hn. }
    destruct v; try discriminate; reflexivity.
  - reflexivity.
Qed.

Lemma map_flat_map : forall (A B C : Type) (f : B -> C) (g : A -> list B) l,
  map f (flat_map g l) = flat_map (fun x => map f (g x)) l.
Proof.
  intros A B C f g. induction l as [|x l IH]; [reflexivity|].
  cbn [flat_map]. now rewrite map_app, IH.
Qed.

Lemma group_regroup : forall (f : xml -> value) cs,
  group (map (fun c => (xtag c, f c)) (regroup cs))
  = group (map (fun c => (xtag c, f c)) cs).
Proof.
  intros f cs. unfold group. rewrite !map_map. cbn [fst].
  change (fun x : xml => xtag x) with xtag. rewrite tags_regroup.
  apply map_ext. intro k. rewrite !occurrences_by. now rewrite filter_regroup.
Qed.

Lemma xtag_uncdata : forall x, xtag (uncdata x) = xtag x.
Proof. destruct x; reflexivity. Qed.

Lemma normalize_local : forall x,
  wf_doc x = true -> local x = true ->
  normalized (shape x) [] (xtag x) = (xtag x, shape (uncdata x)).
Proof.
  induction x as [t a|t a s|t a d|t a cs IH] using xml_rect';
    intros Hwf Hl;
    destruct (wf_doc_parts _ Hwf) as (Ht & Ha & Hnd); cbn [xtag xattrs] in *;
    assert (Hte : is_empty t = false)
      by (destruct t; [discriminate Ht | reflexivity]);
    assert (Hl' : no_colon t = true
                  /\ forallb (fun av => local_attr (fst av)) a = true)
      by (cbn [local xtag xattrs] in Hl;
          repeat (apply andb_true_iff in Hl; destruct Hl as [Hl ?]);
          try apply andb_true_iff in Hl; tauto);
    destruct Hl' as [Hlt Hla].
  - cbn [shape uncdata]. rewrite <- (app_nil_r (attrsV a)) at 1.
    rewrite normalize_element by (assumption || (cbn; tauto)).
    cbn [normWalk get defined]. reflexivity.
  - cbn [uncdata]. destruct a as [|a0 a].
    + cbn [shape normalized]. rewrite Hte.
      now rewrite qualify_local.
    + change (shape (XText t (a0 :: a) s))
        with (VObj (attrsV (a0 :: a) ++ [(js "$value", VStr s)])).
      rewrite normalize_element; try assumption.
      2:{ cbn. intros [H|[]]. discriminate H. }
      reflexivity.
  - cbn [shape uncdata].
    rewrite normalize_element; try assumption.
    2:{ cbn. intros [H|[]]. discriminate H. }
    reflexivity.
  - assert (Hcs : cs <> [] /\ forallb wf_doc cs = true).
    { cbn [wf_doc] in Hwf. apply andb_true_iff in Hwf. destruct Hwf as [_ Hwf].
      destruct cs; [discriminate|]. split; [discriminate | exact Hwf]. }
    destruct Hcs as [Hne Hcs].
    assert (Hlc : forall c, In c cs -> local c = true /\ empty_text c = false).
    { cbn [local] in Hl. apply andb_true_iff in Hl. destruct Hl as [_ Hl].
      rewrite forallb_forall in Hl. intros c Hc. specialize (Hl c Hc).
      apply andb_true_iff in Hl. destruct Hl as [H1 H2].
      apply negb_true_iff in H2. tauto. }
    assert (Hkeys : forall c, In c cs -> key_ok (xtag c) = true).
    { intros c Hc. rewrite forallb_forall in Hcs.
      apply wf_events_key, wf_doc_events, Hcs, Hc. }
    cbn [shape uncdata].
    set (kvs := map (fun c => (xtag c, shape c)) cs).
    assert (Hg : forall k, key_ok k = false -> ~ In k (map fst (group kvs))).
    { intros k Hk Hin. apply in_map_iff in Hin. destruct Hin as (kv & <- & Hin).
      apply (group_keys_ok cs Hkeys) in Hin. congruence. }
    rewrite normalize_element; try assumption; [|now apply Hg].
    rewrite normWalk_fold.
    assert (Hitems : child_items (group kvs)
                     = map (fun c => (xtag c, shape c)) (regroup cs)).
    { unfold group. rewrite child_items_group.
      - unfold kvs, regroup. rewrite map_map. cbn [fst].
        change (fun x : xml => xtag x) with xtag.
        rewrite map_flat_map. apply flat_map_ext. intro k.
        rewrite occurrences_map, !map_map. apply map_ext_in.
        intros c Hc. apply filter_In in Hc. destruct Hc as [_ Hc].
        apply str_eqb_eq in Hc. now subst.
      - intros k Hk. apply -> distinct_In in Hk. unfold kvs in Hk.
        rewrite map_map in Hk. cbn [fst] in Hk. apply in_map_iff in Hk.
        destruct Hk as (c & <- & Hc). split; [now apply Hkeys|].
        unfold kvs. rewrite occurrences_map. intro Hnil.
        assert (Hf : In c (filter (fun c' => str_eqb (xtag c') (xtag c)) cs)).
        { apply filter_In. split; [assumption | apply str_eqb_refl]. }
        apply (in_map shape) in Hf. rewrite Hnil in Hf. contradiction.
      - unfold kvs. rewrite forallb_forall. intros kv Hin.
        apply in_map_iff in Hin. destruct Hin as (c & <- & _).
        apply shape_is_node. }
    rewrite Hitems.
    rewrite (fold_left_map_fuse _ _ _ (fun st r => added r st)
               (fun bi : jstring * value =>
                  normalized (snd bi) [] (fst bi))).
    rewrite map_map. cbn [fst snd].
    assert (Hrs : map (fun c => normalized (shape c) [] (xtag c))
                    (regroup cs)
                  = map (fun c => (xtag c, shape (uncdata c))) (regroup cs)).
    { apply map_ext_in. intros c Hc. apply -> In_regroup in Hc.
      rewrite Forall_forall in IH. rewrite forallb_forall in Hcs.
      apply IH; auto. exact (proj1 (Hlc c Hc)). }
    rewrite Hrs.
    rewrite <- (app_nil_r (attrsV a)) at 1.
    change (@nil (jstring * value)) with (group []) at 1.
    rewrite addEntry_fold.
    + cbn [app]. rewrite group_regroup.
      rewrite get_absent by (now apply Hg). cbn [defined].
      rewrite map_map.
      rewrite (map_ext (fun c => (xtag (uncdata c), shape (uncdata c)))
                 (fun c => (xtag c, shape (uncdata c))))
        by (intro; now rewrite xtag_uncdata).
      reflexivity.
    + intros r Hr. apply in_map_iff in Hr. destruct Hr as (c & <- & Hc).
      cbn [fst]. apply key_ok_not_attrs. apply Hkeys. now apply In_regroup.
    + cbn [app]. rewrite forallb_forall. intros r Hr.
      apply in_map_iff in Hr. destruct Hr as (c & <- & Hc). cbn [snd].
      rewrite shape_is_node. cbn [andb]. apply -> In_regroup in Hc.
      destruct (Hlc c Hc) as [_ He].
      destruct c as [t' a'|t' [|a0 a'] [|s0 s']|t' a' d'|t' a' cs'];
        try reflexivity. discriminate He.
    + intro Hnil. apply map_eq_nil in Hnil.
      destruct cs as [|c cs]; [contradiction|].
      assert (Hin : In c (regroup (c :: cs))) by (apply In_regroup; now left).
      rewrite Hnil in Hin. contradiction.
Qed.

Lemma normalizedTree_local : forall d,
  wf_doc d = true -> local d = true ->
  normalizedTree (VObj [(xtag d, shape d)])
  = VObj [(xtag d, shape (uncdata d))].
Proof.
  intros d Hwf Hl.
  destruct (wf_doc_parts _ Hwf) as (Ht & _ & _).
  pose proof (is_name_key_ok _ Ht) as Hk.
  unfold key_ok in Hk. apply andb_true_iff in Hk. destruct Hk as [He Hd].
  apply negb_true_iff in He, Hd.
  unfold normalizedTree. rewrite normalize_VObj. cbv zeta.
  assert (Hn : ~ In (js "$") [xtag d] /\ ~ In (js "$value") [xtag d]).
  { split; intros [H|[]]; rewrite H in Hd; discriminate Hd. }
  destruct Hn as [Hn1 Hn2].
  rewrite !get_absent by assumption. cbn [truthy andb defined].
  cbn [normWalk]. rewrite He, Hd. cbn [orb].
  assert (Hs : exists v, shape d = v /\ isArray v = false).
  { exists (shape d). split; [reflexivity|].
    pose proof (shape_is_node d). destruct (shape d); try discriminate;
      reflexivity. }
  destruct Hs as (v & Ev & Hv). rewrite Ev.
  assert (Hstep : match v with
                  | VArr items =>
                      (fix each (items : list value) (st : object * bool) :=
                         match items with
                         | [] => st
                         | item :: items' =>
                             each items'
                               (added
                                  (normalized item [] (xtag d)) st)
                         end) items ([], true)
                  | _ => added (normalized v [] (xtag d)) ([], true)
                  end
                  = added (normalized v [] (xtag d)) ([], true)).
  { destruct v; try reflexivity. discriminate Hv. }
  rewrite Hstep. rewrite <- Ev. rewrite normalize_local by assumption.
  reflexivity.
Qed.

Lemma names_ok_attrsV : forall a,
  forallb (fun av => local_attr (fst av)) a = true ->
  forallb (fun av => negb (inherited (fst av))) a = true ->
  names_ok (VObj (attrsV a)) = true.
Proof.
  intros [|a0 a] Hl Ho; [reflexivity|].
  cbn [attrsV]. rewrite names_ok_VObj. cbn [forallb fst snd].
  rewrite andb_true_r. change (name_ok (js "$")) with true. cbn [andb].
  rewrite names_ok_VObj, forallb_forall. intros kv Hkv.
  apply in_map_iff in Hkv. destruct Hkv as (av & <- & Hav).
  cbn [fst snd names_ok]. rewrite andb_true_r.
  rewrite forallb_forall in Hl, Ho. specialize (Hl _ Hav).
  specialize (Ho _ Hav). unfold local_attr in Hl.
  apply andb_true_iff in Hl. apply negb_true_iff in Ho.
  now apply own_name_ok.
Qed.

Lemma names_ok_app : forall o1 o2,
  names_ok (VObj (o1 ++ o2)) = names_ok (VObj o1) && names_ok (VObj o2).
Proof. intros. rewrite !names_ok_VObj. apply forallb_app. Qed.

(** The tree of a document without namespaces has plain names only. *)
Lemma names_ok_shape : forall x,
  wf_doc x = true -> local x = true ->
  name_ok (xtag x) = true /\ names_ok (shape x) = true.
Proof.
  induction x as [t a|t a s|t a d|t a cs IH] using xml_rect';
    intros Hwf Hl;
    destruct (wf_doc_own _ Hwf) as (Hot & Hoa); cbn [xtag xattrs] in *;
    assert (Hl' : no_colon t = true
                  /\ forallb (fun av => local_attr (fst av)) a = true)
      by (cbn [local xtag xattrs] in Hl;
          repeat (apply andb_true_iff in Hl; destruct Hl as [Hl ?]);
          try apply andb_true_iff in Hl; tauto);
    destruct Hl' as [Hlt Hla];
    (split; [now apply own_name_ok|]).
  - cbn [shape]. now apply names_ok_attrsV.
  - cbn [shape]. destruct a as [|a0 a]; [reflexivity|].
    rewrite names_ok_app, names_ok_attrsV by assumption. reflexivity.
  - cbn [shape]. rewrite names_ok_app, names_ok_attrsV by assumption.
    reflexivity.
  - cbn [shape]. rewrite names_ok_app, names_ok_attrsV by assumption.
    cbn [andb]. rewrite names_ok_VObj, forallb_forall.
    assert (Hcs : forallb wf_doc cs = true).
    { cbn [wf_doc] in Hwf. apply andb_true_iff in Hwf. destruct Hwf as [_ Hwf].
      destruct cs; [discriminate | exact Hwf]. }
    assert (Hlc : forall c, In c cs -> local c = true).
    { cbn [local] in Hl. apply andb_true_iff in Hl. destruct Hl as [_ Hl].
      rewrite forallb_forall in Hl. intros c Hc. specialize (Hl c Hc).
      apply andb_true_iff in Hl. tauto. }
    rewrite forallb_forall in Hcs. rewrite Forall_forall in IH.
    intros [k v] Hkv. unfold group in Hkv. apply in_map_iff in Hkv.
    destruct Hkv as (k' & E & Hk). injection E as -> <-. cbn [fst snd].
    apply -> distinct_In in Hk. rewrite map_map in Hk. cbn [fst] in Hk.
    apply in_map_iff in Hk. destruct Hk as (c & <- & Hc).
    rewrite (proj1 (IH c Hc (Hcs c Hc) (Hlc c Hc))). cbn [andb].
    rewrite occurrences_map.
    assert (Hall : forallb names_ok
                     (map shape (filter (fun c0 => str_eqb (xtag c0) (xtag c)) cs))
                   = true).
    { rewrite forallb_forall. intros v Hv. apply in_map_iff in Hv.
      destruct Hv as (c' & <- & Hc'). apply filter_In in Hc'.
      destruct Hc' as [Hc' _].
      exact (proj2 (IH c' Hc' (Hcs c' Hc') (Hlc c' Hc'))). }
    destruct (map shape (filter (fun c0 => str_eqb (xtag c0) (xtag c)) cs))
      as [|v [|v' l]]; [reflexivity| |exact Hall].
    cbn [slot]. cbn [forallb] in Hall. now rewrite andb_true_r in Hall.
Qed.

(** X13.  On the tree of a document that uses no namespace (no colon in a
    name, no [xmlns] attribute) and in which no child is an empty text,
    [normalizeNamespaces] returns, and changes one thing only: an element
    with a CDATA section comes out as an empty element, its CDATA string
    dropped.  (The names of a document, [wf_doc], are not names of
    [Object.prototype].) *)
Theorem normalize_without_namespaces (d : xml)
  (Hwf : wf_doc d = true) (Hl : local d = true) :
  normalizeNamespaces (VObj [(xtag d, shape d)])
  = Ok (VObj [(xtag d, shape (uncdata d))]).
Proof.
  destruct (names_ok_shape d Hwf Hl) as [Ht Hs].
  rewrite normalizeNamespaces_plain.
  - now rewrite normalizedTree_local.
  - rewrite names_ok_VObj. cbn [forallb fst snd]. now rewrite Ht, Hs.
Qed.

Lemma normalize_without_namespaces_witness :
  let d := XNode (js "a") [(js "x", js "1")]
             [XText (js "b") [] (js "2"); XCData (js "c") [] (js "3");
              XText (js "b") [(js "y", [])] []] in
  wf_doc d = true /\ local d = true
  /\ normalizeNamespaces (VObj [(xtag d, shape d)])
     = Ok (VObj [(js "a",
                  VObj [(js "$", VObj [(js "x", VStr (js "1"))]);
                        (js "b", VArr [VStr (js "2");
                                       VObj [(js "$", VObj [(js "y", VStr [])]);
                                             (js "$value", VStr [])]]);
                        (js "c", VObj [])])]).
Proof.
  intro d. split; [reflexivity|]. split; [reflexivity|].
  exact (normalize_without_namespaces d eq_refl eq_refl).
Defined.

Local Open Scope Z_scope.

(** ** Prefixes that are not declared *)

(** X14.  A name of the form [prefix:local] is qualified with whatever
    [ns[prefix]] holds, as a string, then a bar, then the local part.
    Only the first two parts of a name count: what follows a second colon
    is dropped.  When the prefix is not declared and is no name of
    [Object.prototype], [ns[prefix]] is [undefined] and the name comes out
    as [undefined|local]: an undeclared prefix is no error.  (A name that
    begins with a dollar is no child at all.) *)
Theorem qualify_prefixed_name (ns : object) (p l more : jstring)
  (Hp : no_colon p = true) (Hl : no_colon l = true) (Hne : l <> []) :
  qualify ns (p ++ js ":" ++ l)
  = (uri <- lookup ns p ;; s <- stringOf uri ;; Ok (s ++ js "|" ++ l))
  /\ qualify ns (p ++ js ":" ++ l ++ js ":" ++ more)
     = (uri <- lookup ns p ;; s <- stringOf uri ;; Ok (s ++ js "|" ++ l))
  /\ (owns ns p = false -> inherited p = false -> is_dollar p = false ->
      _normalizeNamespaces (VObj [(p ++ js ":" ++ l, VObj [])]) ns []
      = Ok ([], VObj [(js "undefined|" ++ l, VObj [])])).
Proof.
  assert (E1 : split COLON (p ++ js ":" ++ l) = [p; l]).
  { change (js ":" ++ l) with (COLON :: l).
    rewrite split_colon_parts, split_no_colon by assumption. reflexivity. }
  assert (E2 : exists ps, split COLON (p ++ js ":" ++ l ++ js ":" ++ more)
                          = p :: l :: ps).
  { change (js ":" ++ l ++ js ":" ++ more) with (COLON :: l ++ COLON :: more).
    rewrite !split_colon_parts by assumption.
    destruct (split_head more) as (q & qs & ->). now eexists. }
  destruct E2 as (ps & E2).
  assert (Hq : qualify ns (p ++ js ":" ++ l)
               = (uri <- lookup ns p ;; s <- stringOf uri ;;
                  Ok (s ++ js "|" ++ l))).
  { unfold qualify. rewrite E1. cbn [part1 hd].
    destruct l; [contradiction | reflexivity]. }
  split; [exact Hq|]. split.
  - unfold qualify. rewrite E2. cbn [part1 hd].
    destruct l; [contradiction | reflexivity].
  - intros Ho Hi Hdp.
    assert (Hu : lookup ns p = Ok VUndefined).
    { unfold lookup. now rewrite Ho, Hi. }
    rewrite Hu in Hq. cbn [bind stringOf toString] in Hq.
    rewrite normalizeNamespaces_VObj. unfold bodyM. cbv zeta.
    assert (Hk : is_dollar (p ++ js ":" ++ l) = false
                 /\ is_empty (p ++ js ":" ++ l) = false).
    { destruct p as [|c p]; split; try reflexivity. exact Hdp. }
    destruct Hk as [Hd He].
    assert (Hg : get [(p ++ js ":" ++ l, VObj [])] (js "$") = VUndefined
                 /\ get [(p ++ js ":" ++ l, VObj [])] (js "$value") = VUndefined).
    { split; apply get_absent; cbn [map fst In]; intros [H|[]];
        rewrite H in Hd; discriminate Hd. }
    destruct Hg as [Hg1 Hg2]. unfold prop. cbn [entries].
    rewrite Hg1, Hg2. cbn [truthy andb defined bind].
    rewrite walkObj_cons, Hd, He. cbn [orb].
    unfold childM. rewrite normalizeNamespaces_VObj. unfold bodyM. cbv zeta.
    unfold prop. cbn [entries get truthy andb bind walkObj defined].
    assert (He' : is_empty (p ++ js ":" ++ l) = false) by exact He.
    rewrite He', Hq. cbn [bind].
    rewrite addEntry_plain by (apply bar_not_inherited).
    reflexivity.
Qed.

Lemma qualify_prefixed_name_witness :
  no_colon (js "x") = true /\ no_colon (js "a") = true
  /\ inherited (js "x") = false
  /\ _normalizeNamespaces (VObj [(js "x:a", VObj [])]) [] []
     = Ok ([], VObj [(js "undefined|a", VObj [])]).
Proof.
  split; [reflexivity|]. split; [reflexivity|]. split; [reflexivity|].
  exact (proj2 (proj2 (qualify_prefixed_name [] (js "x") (js "a") []
                         eq_refl eq_refl ltac:(discriminate)))
               eq_refl eq_refl eq_refl).
Defined.

(** ** Mixed content *)

(** The element that is open when the closing tag of [x] is due. *)
Lemma stem_element : forall x,
  wf_doc x = true -> paired x = true ->
  exists idx e',
    feed_stem x builder_init =
    Ok (mkBuilder
          (mkElement (Some (xtag x)) idx
             (match x with XNode _ _ cs => List.length cs | _ => 0 end)
             (match shape x with
              | VObj props => props
              | v => [(js "$value", v)]
              end))
          [e'] false)
    /\ forall n cp tg o,
         tg = None \/ tg = Some (xtag x) ->
         Builder.pop tg (mkBuilder (mkElement (Some (xtag x)) idx n cp) [e'] o)
         = Ok (mkBuilder (add_child root (xtag x) (finished cp)) [] o).
Proof.
  intros x Hwf Hp.
  destruct (wf_doc_parts _ Hwf) as (Ht & Ha & Hnd).
  destruct (wf_doc_own _ Hwf) as (Hot & Hoa).
  destruct (push_root (xtag x)) as (idx & e' & Hpush & Hpop).
  exists idx, e'. split; [|exact Hpop].
  unfold feed_stem. rewrite Hpush, Hot. cbn [bind].
  rewrite feedAttrs_fresh by assumption. cbn [bind].
  destruct x as [t a|t a s|t a d|t a cs]; [discriminate| | |];
    cbn [xtag xattrs] in *.
  - unfold Builder.value. cbn [elt parents e_props e_childCount Nat.eqb negb].
    rewrite get_attrsV_value by discriminate. cbn [nonnull].
    unfold with_props. cbn [e_tag e_index e_childCount e_props].
    rewrite <- (app_nil_r (attrsV a)) at 1.
    rewrite set_app_r by (apply not_in_attrsV; discriminate).
    cbn [set]. now destruct a.
  - unfold Builder.cdata. cbn [elt parents e_props e_childCount Nat.eqb negb].
    rewrite get_attrsV_value by discriminate. cbn [nonnull].
    unfold with_props. cbn [e_tag e_index e_childCount e_props].
    rewrite <- (app_nil_r (attrsV a)) at 1.
    rewrite set_app_r by (apply not_in_attrsV; discriminate).
    reflexivity.
  - assert (Hcs : forallb wf_doc cs = true).
    { cbn [wf_doc] in Hwf. apply andb_true_iff in Hwf. destruct Hwf as [_ Hwf].
      destruct cs; [discriminate | exact Hwf]. }
    assert (Hkeys : forall c, In c cs -> key_ok (xtag c) = true).
    { intros c Hc. rewrite forallb_forall in Hcs.
      apply wf_events_key, wf_doc_events, Hcs, Hc. }
    rewrite feedAll_fold.
    + cbn [elt parents]. rewrite fold_add_child_eq.
      cbn [e_tag e_index e_childCount e_props]. rewrite Nat.add_0_r.
      rewrite <- (app_nil_r (attrsV a)) at 1.
      change (@nil (jstring * value)) with (group []) at 1.
      rewrite fold_insert_group.
      * reflexivity.
      * intros kv Hkv. apply in_map_iff in Hkv. destruct Hkv as (c & <- & Hc).
        cbn [fst]. apply key_ok_not_attrs. now apply Hkeys.
      * cbn [app]. rewrite forallb_forall. intros kv Hkv.
        apply in_map_iff in Hkv. destruct Hkv as (c & <- & Hc).
        apply shape_is_node.
    + apply Forall_forall. intros c Hc. rewrite forallb_forall in Hcs.
      split; [now apply wf_doc_events, Hcs|].
      intros b Hb. apply feed_shape; [|assumption].
      now apply wf_doc_events, Hcs.
    + split; cbn [elt e_props]; now rewrite get_attrsV_value by discriminate.
Qed.

Lemma parse_stem_element : forall x (rest : jstring),
  wf_doc x = true -> paired x = true ->
  eatSpaces rest = rest ->
  (forall t a s, x = XText t a s -> exists r, rest = js "</" ++ r) ->
  exists idx e',
    parse (stem x ++ rest) =
    (b <- mainLoop' rest
            (mkBuilder
               (mkElement (Some (xtag x)) idx
                  (match x with XNode _ _ cs => List.length cs | _ => 0 end)
                  (match shape x with
                   | VObj props => props
                   | v => [(js "$value", v)]
                   end))
               [e'] false) ;;
     Builder.getResult b)
    /\ forall n cp tg o,
         tg = None \/ tg = Some (xtag x) ->
         Builder.pop tg (mkBuilder (mkElement (Some (xtag x)) idx n cp) [e'] o)
         = Ok (mkBuilder (add_child root (xtag x) (finished cp)) [] o).
Proof.
  intros x rest Hwf Hp Hrest Htext.
  destruct (stem_element x Hwf Hp) as (idx & e' & Hf & Hpop). exists idx, e'.
  split; [|exact Hpop].
  pose proof (scan_stem x rest builder_init Hwf Hp Hrest Htext) as Hs.
  destruct (stem_head x) as (more & E). rewrite E in Hs |- *.
  rewrite <- app_assoc, parse_open. rewrite <- app_assoc in Hs.
  now rewrite Hs, Hf.
Qed.

Lemma mainLoop'_cdata_section : forall (d rest : jstring) bld,
  has (js "]]>") d = false ->
  mainLoop' (js "<![CDATA[" ++ d ++ js "]]>" ++ rest) bld =
  (bld' <- Builder.cdata (VStr d) bld ;; mainLoop' (eatSpaces rest) bld').
Proof.
  intros d rest bld Hd.
  pose proof (mainLoop'_cdata
                (LT :: EXCLAM :: js "[CDATA[" ++ d ++ js "]]>" ++ rest)
                d rest bld eq_refl Hd) as H.
  rewrite eatSpaces_id in H by reflexivity. exact H.
Qed.

(** X15.  An element holds a CDATA section or children, not both, and no
    text after a child or a CDATA section: a child after a CDATA section,
    a CDATA section after a child, and a character that is neither a
    blank nor [<] after either of them make [parse] throw. *)
Theorem mixed_content_rejected
  (t d rest : jstring) (a : list (jstring * jstring)) (cs : list xml) (c : xml)
  (Hcd : wf_doc (XCData t a d) = true) (Hn : wf_doc (XNode t a cs) = true)
  (Hc : wf_doc c = true) :
  parse (stem (XCData t a d) ++ render c ++ rest)
  = Throw "cannot mix CDATA and children"
  /\ parse (stem (XNode t a cs) ++ js "<![CDATA[" ++ d ++ js "]]>" ++ rest)
     = Throw "cannot mix children and CDATA"
  /\ (forall x ch, x = XCData t a d \/ x = XNode t a cs ->
        space ch = false -> ch <> LT ->
        parse (stem x ++ ch :: rest) = Throw "expected character").
Proof.
  assert (Hd : has (js "]]>") d = false).
  { cbn [wf_doc] in Hcd. apply andb_true_iff in Hcd.
    destruct Hcd as [_ Hcd]. now apply negb_true_iff. }
  split; [|split].
  - destruct (render_head c Hc) as (ch & more & E & Hch).
    destruct (begWord_facts _ Hch) as (Hsp & _).
    destruct (parse_stem_element (XCData t a d) (render c ++ rest) Hcd eq_refl)
      as (idx & e' & -> & _).
    { rewrite E. cbn [app]. now apply eatSpaces_id. }
    { intros; discriminate. }
    rewrite scan_render by assumption.
    assert (Hpush : forall b, get (e_props (elt b)) (js "$cdata") = VStr d ->
              feed c b = Throw "cannot mix CDATA and children").
    { intros b Hb.
      assert (Hp : Builder.push (xtag c) b = Throw "cannot mix CDATA and children").
      { unfold Builder.push. now rewrite Hb. }
      destruct c; cbn [feed xtag] in *; now rewrite Hp. }
    rewrite Hpush; [reflexivity|].
    cbn [elt e_props shape].
    rewrite get_app_r by (apply not_in_attrsV; discriminate). reflexivity.
  - destruct (parse_stem_element (XNode t a cs)
                (js "<![CDATA[" ++ d ++ js "]]>" ++ rest) Hn eq_refl eq_refl)
      as (idx & e' & -> & _).
    { intros; discriminate. }
    rewrite mainLoop'_cdata_section by assumption.
    unfold Builder.cdata. cbn [elt e_props e_childCount shape].
    assert (Hcs : cs <> [] /\ forallb wf_doc cs = true).
    { cbn [wf_doc] in Hn. apply andb_true_iff in Hn. destruct Hn as [_ Hn].
      destruct cs; [discriminate|]. split; [discriminate | exact Hn]. }
    destruct Hcs as [Hne Hcs].
    assert (Hv : get (attrsV a ++ group (map (fun c => (xtag c, shape c)) cs))
                     (js "$value") = VUndefined).
    { rewrite get_app_r by (apply not_in_attrsV; discriminate).
      apply get_absent. intro Hin. apply in_map_iff in Hin.
      destruct Hin as (kv & E & Hin). apply group_keys_ok in Hin.
      - rewrite E in Hin. discriminate Hin.
      - intros x Hx. rewrite forallb_forall in Hcs.
        apply wf_events_key, wf_doc_events, Hcs, Hx. }
    rewrite Hv. cbn [nonnull].
    destruct cs; [contradiction | reflexivity].
  - intros x ch Hx Hsp Hlt.
    assert (Hwf : wf_doc x = true) by (destruct Hx; subst; assumption).
    assert (Hp : paired x = true) by (destruct Hx; subst; reflexivity).
    destruct (parse_stem_element x (ch :: rest) Hwf Hp)
      as (idx & e' & -> & _).
    { now apply eatSpaces_id. }
    { intros t0 a0 s0 E. destruct Hx; subst; discriminate. }
    rewrite mainLoop'_step by discriminate. unfold step. cbn [eat].
    apply Z.eqb_neq in Hlt. now rewrite Hlt.
Qed.

Lemma mixed_content_rejected_witness :
  parse (js "<a><![CDATA[1]]><b/></a>") = Throw "cannot mix CDATA and children"
  /\ parse (js "<a><b/><![CDATA[1]]></a>")
     = Throw "cannot mix children and CDATA"
  /\ parse (js "<a><b/>1</a>") = Throw "expected character".
Proof.
  destruct (mixed_content_rejected (js "a") (js "1") (js "</a>") []
              [XEmpty (js "b") []] (XEmpty (js "b") [])
              eq_refl eq_refl eq_refl) as (H1 & H2 & H3).
  split; [exact H1|]. split; [exact H2|].
  exact (H3 (XNode (js "a") [] [XEmpty (js "b") []]) 49
            (or_intror eq_refl) eq_refl ltac:(discriminate)).
Defined.

(** X16.  A second CDATA section in an element takes the place of the
    first: the element keeps the string of the last section only. *)
Theorem last_cdata_section_wins
  (t d1 d2 : jstring) (a : list (jstring * jstring))
  (H1 : wf_doc (XCData t a d1) = true) (H2 : has (js "]]>") d2 = false) :
  parse (stem (XCData t a d1) ++ js "<![CDATA[" ++ d2 ++ js "]]>"
         ++ js "</" ++ t ++ [GT])
  = Ok (VObj [(t, VObj (attrsV a ++ [(js "$cdata", VStr d2)]))]).
Proof.
  destruct (wf_doc_parts _ H1) as (Ht & Ha & Hnd). cbn [xtag xattrs] in *.
  destruct (parse_stem_element (XCData t a d1)
              (js "<![CDATA[" ++ d2 ++ js "]]>" ++ js "</" ++ t ++ [GT])
              H1 eq_refl eq_refl) as (idx & e' & -> & Hpop).
  { intros; discriminate. }
  cbn [xtag shape] in *.
  rewrite mainLoop'_cdata_section by assumption.
  unfold Builder.cdata. cbn [elt e_props e_childCount parents].
  rewrite !get_app_r by (apply not_in_attrsV; discriminate).
  cbn [get nonnull Nat.eqb negb bind]. unfold with_props.
  cbn [e_tag e_index e_childCount e_props].
  rewrite set_app_r by (apply not_in_attrsV; discriminate). cbn [set].
  change (str_eqb (js "$cdata") (js "$cdata")) with true.
  change (str_eqb (js "$cdata") (js "$value")) with false.
  cbn iota. cbn [nonnull bind].
  rewrite (mainLoop'_close (js "</" ++ t ++ [GT]) t [] _ eq_refl Ht).
  rewrite Hpop by (now right). cbn [bind]. unfold finished.
  rewrite !get_app_r by (apply not_in_attrsV; discriminate).
  reflexivity.
Qed.

Lemma last_cdata_section_wins_witness :
  parse (js "<a><![CDATA[1]]><![CDATA[2]]></a>")
  = Ok (VObj [(js "a", VObj [(js "$cdata", VStr (js "2"))])]).
Proof.
  exact (last_cdata_section_wins (js "a") (js "1") (js "2") [] eq_refl eq_refl).
Defined.

(** ** Reformatting *)

(** X17.  [stringify] after [parse] brings a text with gaps to the
    compact text of its document, the siblings of one name brought
    together; with an indent, to the indented text. *)
Theorem reformatting (x : lxml) (before after : gap) (i0 : Z) (i1 : jstring)
  (Hwf : wf_doc (erase x) = true) (Hg : gaps_ok x = true)
  (Hb : gap_ok before = true) (Ha : gap_ok after = true) :
  let text := renderGap before ++ lrender x ++ renderGap after in
  (t <- parse text ;; stringify t) = Ok (render (canon (erase x)))
  /\ (t <- parse text ;; stringify_with (Some (i0 :: i1)) t)
     = Ok (lrender (pretty i0 i1 0 (canon (erase x)))).
Proof.
  intro text. unfold text.
  rewrite (parse_gaps x before after Hwf Hg Hb Ha).
  cbn [bind]. split.
  - now apply stringify_tree.
  - now apply stringify_pretty.
Qed.

Lemma reformatting_witness :
  (t <- parse (js " <a> <b/>" ++ [10] ++ js "<c/>" ++ [9] ++ js "</a> ") ;;
   stringify t) = Ok (js "<a><b/><c/></a>").
Proof.
  exact (proj1 (reformatting
           (LNode (js "a") []
              [([Blank [32]], LEmpty (js "b") []);
               ([Blank [10]], LEmpty (js "c") [])]
              [Blank [9]])
           [Blank [32]] [Blank [32]] 9 []
           eq_refl eq_refl eq_refl eq_refl)).
Defined.

Local Open Scope Z_scope.

(** ** A text without an element *)

(** X18.  A text that holds comments and processing instructions but no
    element makes [parse] throw, once it has passed them all. *)
Theorem no_root_element (ws b : jstring) (g : gap)
  (Hws : forallb space ws = true) (Hg : gap_ok g = true) :
  (has (js "-->") b = false ->
   parse (ws ++ js "<!--" ++ b ++ js "-->" ++ renderGap g)
   = Throw "root tag not found")
  /\ (has (js "?>") b = false ->
      parse (ws ++ js "<?" ++ b ++ js "?>" ++ renderGap g)
      = Throw "root tag not found").
Proof.
  destruct (spaces_facts ws Hws) as (Hlt & _).
  assert (Hend : forall bld, mainLoop' (eatSpaces (renderGap g)) bld = Ok bld).
  { intro bld. rewrite <- (app_nil_r (renderGap g)).
    now rewrite mainLoop'_gap by assumption. }
  split; intro Hb; unfold parse.
  - change (js "<!--" ++ b ++ js "-->" ++ renderGap g)
      with (LT :: (js "!--" ++ b ++ js "-->" ++ renderGap g)).
    rewrite indexOf_char by assumption.
    fold (mainLoop' (LT :: (js "!--" ++ b ++ js "-->" ++ renderGap g))
            builder_init).
    rewrite mainLoop'_step by discriminate.
    change (LT :: (js "!--" ++ b ++ js "-->" ++ renderGap g))
      with (js "<!--" ++ b ++ js "-->" ++ renderGap g).
    rewrite step_comment by assumption. cbn [bind]. now rewrite Hend.
  - change (js "<?" ++ b ++ js "?>" ++ renderGap g)
      with (LT :: (js "?" ++ b ++ js "?>" ++ renderGap g)).
    rewrite indexOf_char by assumption.
    fold (mainLoop' (LT :: (js "?" ++ b ++ js "?>" ++ renderGap g))
            builder_init).
    rewrite mainLoop'_step by discriminate.
    change (LT :: (js "?" ++ b ++ js "?>" ++ renderGap g))
      with (js "<?" ++ b ++ js "?>" ++ renderGap g).
    rewrite step_instruction by assumption. cbn [bind]. now rewrite Hend.
Qed.

Lemma no_root_element_witness :
  parse (js " <?xml version='1.0'?> <!-- nothing --> ")
  = Throw "root tag not found".
Proof.
  exact (proj2 (no_root_element [32] (js "xml version='1.0'")
                  [Blank [32]; Comment (js " nothing "); Blank [32]]
                  eq_refl eq_refl) eq_refl).
Defined.

(** ** Namespace declarations *)

(** The attribute that declares the prefix [p], the default namespace when
    [p] is empty. *)
Definition declaration (pu : jstring * jstring) : jstring * jstring :=
  (match fst pu with [] => js "xmlns" | p => js "xmlns:" ++ p end, snd pu).

(** The bindings after the declarations [ds]. *)
Definition declare (ns : object) (ds : list (jstring * jstring)) : object :=
  fold_left (fun ns pu => set ns (fst pu) (VStr (snd pu))) ds ns.

Lemma scanAttributes_declarations : forall ds ns nsAttr bare decl,
  forallb (fun pu : jstring * jstring => no_colon (fst pu)) ds = true ->
  fold_left
    (fun (acc : object * bool * bool * bool) (kv : jstring * value) =>
       let '(ns, decl, nsAttr, bare) := acc in
       let parts := split COLON (fst kv) in
       if str_eqb (hd [] parts) (js "xmlns") then
         (set ns (match part1 parts with Some p => p | None => [] end) (snd kv),
          true, nsAttr, bare)
       else
         match part1 parts with
         | Some _ => (ns, decl, true, bare)
         | None => (ns, decl, nsAttr, true)
         end)
    (map (fun av => (fst av, VStr (snd av))) (map declaration ds))
    (ns, decl, nsAttr, bare)
  = (declare ns ds, match ds with [] => decl | _ => true end, nsAttr, bare).
Proof.
  induction ds as [|[p u] ds IH]; intros ns nsAttr bare decl H; [reflexivity|].
  cbn [forallb fst] in H. apply andb_true_iff in H. destruct H as [Hp Hds].
  cbn [map fold_left declare]. cbv beta zeta.
  assert (E : split COLON (fst (declaration (p, u)))
              = match p with [] => [js "xmlns"] | _ => [js "xmlns"; p] end).
  { unfold declaration. cbn [fst snd]. destruct p as [|c p]; [reflexivity|].
    change (js "xmlns:" ++ c :: p) with (js "xmlns" ++ COLON :: c :: p).
    rewrite split_colon_parts by reflexivity.
    now rewrite split_no_colon. }
  cbn [fst snd]. rewrite E.
  assert (E' : forall (A : Type) (yes no : jstring -> A),
             (if str_eqb
                   (hd [] (match p with [] => [js "xmlns"] | _ => [js "xmlns"; p] end))
                   (js "xmlns")
              then yes (match part1 (match p with
                                     | [] => [js "xmlns"]
                                     | _ => [js "xmlns"; p]
                                     end) with
                        | Some q => q
                        | None => []
                        end)
              else no [])
             = yes p).
  { intros A yes no. destruct p; reflexivity. }
  change (snd (declaration (p, u))) with u.
  match goal with
  | |- fold_left ?f ?l (if ?c then (set ns ?k (VStr u), true, nsAttr, bare) else ?e) = _ =>
      replace (if c then (set ns k (VStr u), true, nsAttr, bare) else e)
        with (set ns p (VStr u), true, nsAttr, bare)
  end.
  2:{ symmetry.
      exact (E' _ (fun q => (set ns q (VStr u), true, nsAttr, bare))
                (fun _ => match part1 (match p with
                                       | [] => [js "xmlns"]
                                       | _ => [js "xmlns"; p]
                                       end) with
                          | Some _ => (ns, decl, true, bare)
                          | None => (ns, decl, nsAttr, true)
                          end)). }
  rewrite IH by assumption. now destruct ds.
Qed.

(** The root: an object with the one key of the root element. *)
Lemma normalize_root : forall (t : jstring) (v : value),
  t <> [] -> is_dollar t = false -> isArray v = false ->
  normalizedTree (VObj [(t, v)])
  = VObj [(fst (normalized v [] t), snd (normalized v [] t))].
Proof.
  intros t v Ht Hd Hv.
  assert (He : is_empty t = false) by (destruct t; [contradiction|reflexivity]).
  unfold normalizedTree. rewrite normalize_VObj. cbv zeta.
  assert (Hn : ~ In (js "$") [t] /\ ~ In (js "$value") [t]).
  { split; intros [H|[]]; rewrite H in Hd; discriminate Hd. }
  destruct Hn as [Hn1 Hn2].
  rewrite !get_absent by assumption. cbn [truthy andb defined].
  cbn [normWalk]. rewrite He, Hd. cbn [orb].
  destruct v; try discriminate Hv; reflexivity.
Qed.

Lemma declarations_plain :
  forall (ns : object) (t s : jstring) (ds : list (jstring * jstring)),
  t <> [] -> forallb (fun pu => no_colon (fst pu)) ds = true ->
  normalized (shape (XText t (map declaration ds) s)) ns t
  = (qualified (declare ns ds) t, VStr s)
  /\ normalized (shape (XEmpty t (map declaration ds))) ns t
     = (qualified (declare ns ds) t, VObj [])
  /\ (is_dollar t = false ->
      normalizedTree (VObj [(t, shape (XText t (map declaration ds) s))])
      = VObj [(qualified (declare [] ds) t, VStr s)]).
Proof.
  intros ns t s ds Ht Hds.
  assert (Hmain :
    forall ns,
      normalized (shape (XText t (map declaration ds) s)) ns t
      = (qualified (declare ns ds) t, VStr s)
      /\ normalized (shape (XEmpty t (map declaration ds))) ns t
         = (qualified (declare ns ds) t, VObj [])).
  2:{ destruct (Hmain ns) as [H1 H2]. split; [exact H1|]. split; [exact H2|].
      intro Hd. rewrite normalize_root; [|assumption|assumption|].
      - now rewrite (proj1 (Hmain [])).
      - pose proof (shape_is_node (XText t (map declaration ds) s)) as Hn.
        destruct (shape (XText t (map declaration ds) s)); try reflexivity.
        discriminate Hn. }
  clear ns. intro ns.
  assert (Hte : is_empty t = false) by (destruct t; [contradiction|reflexivity]).
  destruct ds as [|d0 ds].
  - cbn [map shape attrsV declare fold_left]. split.
    + cbn [normalized]. now rewrite Hte.
    + rewrite normalize_VObj. cbv zeta. cbn. now rewrite Hte.
  - assert (Hsc : forall body,
              ~ In (js "$") (map fst body) ->
              (if truthy (get (attrsV (map declaration (d0 :: ds)) ++ body) (js "$"))
               then scanned
                      (get (attrsV (map declaration (d0 :: ds)) ++ body) (js "$")) ns
               else (ns, false, false, false))
              = (declare ns (d0 :: ds), true, false, false)).
    { intros body Hb. rewrite get_dollar_attrsV by assumption.
      cbn [map truthy]. unfold scanned. cbn [entries].
      change (declaration d0 :: map declaration ds)
        with (map declaration (d0 :: ds)).
      change ((fst (declaration d0), VStr (snd (declaration d0)))
              :: map (fun av : jstring * jstring => (fst av, VStr (snd av)))
                   (map declaration ds))
        with (map (fun av : jstring * jstring => (fst av, VStr (snd av)))
                (map declaration (d0 :: ds))).
      now rewrite scanAttributes_declarations. }
    split.
    + change (shape (XText t (map declaration (d0 :: ds)) s))
        with (VObj (attrsV (map declaration (d0 :: ds))
                    ++ [(js "$value", VStr s)])).
      rewrite normalize_VObj. cbv zeta. rewrite Hsc.
      2:{ cbn. intros [H|[]]. discriminate H. }
      rewrite andb_false_r. rewrite normWalk_skip_attrs.
      rewrite (get_app_r (attrsV (map declaration (d0 :: ds))))
        by (apply not_in_attrsV; discriminate).
      cbn [normWalk]. change (is_dollar (js "$value")) with true.
      cbn [orb get defined]. change (str_eqb (js "$value") (js "$value")) with true.
      cbn iota. cbn [defined]. now rewrite Hte.
    + cbn [shape]. rewrite <- (app_nil_r (attrsV (map declaration (d0 :: ds)))).
      rewrite normalize_VObj. cbv zeta. rewrite Hsc by (cbn; tauto).
      rewrite andb_false_r. rewrite normWalk_skip_attrs.
      rewrite (get_app_r (attrsV (map declaration (d0 :: ds))))
        by (apply not_in_attrsV; discriminate).
      cbn [normWalk get defined]. now rewrite Hte.
Qed.

Lemma names_ok_declarations : forall ds body,
  forallb (fun pu : jstring * jstring => no_colon (fst pu)) ds = true ->
  forallb (fun pu : jstring * jstring => negb (inherited (fst pu))) ds = true ->
  names_ok (VObj body) = true ->
  names_ok (VObj (attrsV (map declaration ds) ++ body)) = true.
Proof.
  intros ds body Hc Hi Hb. rewrite names_ok_app, Hb, andb_true_r.
  destruct ds as [|d0 ds]; [reflexivity|].
  change (attrsV (map declaration (d0 :: ds)))
    with [(js "$", VObj (map (fun av : jstring * jstring => (fst av, VStr (snd av)))
                           (map declaration (d0 :: ds))))].
  rewrite names_ok_VObj. cbn [forallb fst snd].
  rewrite andb_true_r. change (name_ok (js "$")) with true. cbn [andb].
  rewrite names_ok_VObj, forallb_forall. intros kv Hkv.
  apply in_map_iff in Hkv. destruct Hkv as (av & <- & Hav).
  apply in_map_iff in Hav. destruct Hav as ([p u] & <- & Hpu).
  cbn [fst snd names_ok]. rewrite andb_true_r.
  rewrite forallb_forall in Hc, Hi. specialize (Hc _ Hpu).
  specialize (Hi _ Hpu). cbn [fst] in Hc, Hi. apply negb_true_iff in Hi.
  unfold declaration, name_ok. cbn [fst].
  destruct p as [|c p]; [reflexivity|].
  change (js "xmlns:" ++ c :: p) with (js "xmlns" ++ COLON :: c :: p).
  rewrite split_colon_parts by reflexivity.
  rewrite split_no_colon by assumption.
  cbn [forallb]. rewrite Hi. reflexivity.
Qed.

Lemma declare_printables : forall ds ns,
  printables ns = true -> printables (declare ns ds) = true.
Proof.
  unfold declare. induction ds as [|[p u] ds IH]; intros ns H; [exact H|].
  cbn [fold_left fst snd]. apply IH. now apply printables_set.
Qed.

(** X19.  An element all of whose attributes are namespace declarations
    comes out of [normalizeNamespaces] as an element without attributes:
    no [$] is left, so that its text is a bare string; and its own
    declarations apply to its own name, [q] being the name under the
    bindings after them.  This is for a name no part of which, and for
    prefixes none of which, is a name of [Object.prototype], under
    bindings that an object can hold. *)
Theorem declarations_are_removed
  (ns : object) (t s : jstring) (ds : list (jstring * jstring))
  (Hns : bindings_ok ns = true)
  (Ht : t <> []) (Hn : name_ok t = true)
  (Hds : forallb (fun pu => no_colon (fst pu)) ds = true)
  (Hnd : nodupb (map fst ds) = true)
  (Hdi : forallb (fun pu => negb (inherited (fst pu))) ds = true) :
  (exists q,
     qualify (declare ns ds) t = Ok q
     /\ _normalizeNamespaces (shape (XText t (map declaration ds) s)) ns t
        = Ok (q, VStr s)
     /\ _normalizeNamespaces (shape (XEmpty t (map declaration ds))) ns t
        = Ok (q, VObj []))
  /\ (is_dollar t = false ->
      exists q,
        qualify (declare [] ds) t = Ok q
        /\ normalizeNamespaces
             (VObj [(t, shape (XText t (map declaration ds) s))])
           = Ok (VObj [(q, VStr s)])).
Proof.
  assert (He : names_ok (shape (XEmpty t (map declaration ds))) = true).
  { cbn [shape]. rewrite <- (app_nil_r (attrsV _)).
    now apply names_ok_declarations. }
  assert (Hx : names_ok (shape (XText t (map declaration ds) s)) = true).
  { destruct ds as [|d0 ds]; [reflexivity|].
    change (shape (XText t (map declaration (d0 :: ds)) s))
      with (VObj (attrsV (map declaration (d0 :: ds))
                  ++ [(js "$value", VStr s)])).
    now apply names_ok_declarations. }
  apply bindings_ok_bindings in Hns. split.
  - destruct (declarations_plain ns t s ds Ht Hds) as (H1 & H2 & _).
    exists (qualified (declare ns ds) t).
    split; [apply qualify_plain;
            [apply declare_printables, Hns | exact Hn]|].
    now rewrite !normalize_plain, H1, H2 by assumption.
  - intro Hd. destruct (declarations_plain [] t s ds Ht Hds) as (_ & _ & H3).
    exists (qualified (declare [] ds) t).
    split; [apply qualify_plain; [now apply declare_printables | exact Hn]|].
    rewrite normalizeNamespaces_plain; [now rewrite H3|].
    rewrite names_ok_VObj. cbn [forallb fst snd]. now rewrite Hn, Hx.
Qed.

Lemma declarations_are_removed_witness :
  name_ok (js "t:a") = true
  /\ (t <- parse (js "<t:a xmlns:t=" ++ dq (js "xyz") ++ js "></t:a>") ;;
      normalizeNamespaces t)
     = Ok (VObj [(js "xyz|a", VStr [])]).
Proof.
  split; [reflexivity|].
  change (parse (js "<t:a xmlns:t=" ++ dq (js "xyz") ++ js "></t:a>"))
    with (Ok (VObj [(js "t:a",
                     shape (XText (js "t:a")
                              (map declaration [(js "t", js "xyz")]) []))])).
  cbn [bind].
  destruct (proj2 (declarations_are_removed [] (js "t:a") []
                     [(js "t", js "xyz")] eq_refl
                     ltac:(discriminate) eq_refl eq_refl eq_refl eq_refl)
                  eq_refl)
    as (q & Hq & Hr).
  vm_compute in Hq. injection Hq as <-. exact Hr.
Defined.

Local Open Scope Z_scope.

(** ** Simplified trees *)

Section By.

Variable f : xml -> value.

Lemma strfyEach_by : forall l k st,
  (forall c, In c l ->
     forall st, strfy None (f c) k st = Ok (emit st (render c))) ->
  strfyEach (map f l) k st = Ok (emit st (flat_map render l)).
Proof.
  induction l as [|c l IH]; intros k st H; [now rewrite emit_nil|].
  cbn [map strfyEach flat_map].
  rewrite (H c (or_introl eq_refl)). cbn [bind].
  rewrite IH by (intros; apply H; now right). now rewrite emit_emit.
Qed.

Lemma strfy_slot_by : forall l k st,
  l <> [] ->
  (forall c, In c l ->
     forall st, strfy None (f c) k st = Ok (emit st (render c))) ->
  strfy None (slot (map f l)) k st = Ok (emit st (flat_map render l)).
Proof.
  intros [|c [|c' l]] k st Hne H; [contradiction| |].
  - cbn [map slot flat_map]. rewrite app_nil_r.
    now apply (H c (or_introl eq_refl)).
  - change (slot (map f (c :: c' :: l))) with (VArr (map f (c :: c' :: l))).
    rewrite strfy_VArr. now apply strfyEach_by.
Qed.

Lemma strfyKids_by : forall cs ks st,
  (forall c, In c cs ->
     is_dollar (xtag c) = false /\
     forall st, strfy None (f c) (xtag c) st = Ok (emit st (render c))) ->
  (forall k, In k ks -> In k (map xtag cs)) ->
  strfyKids
    (map (fun k => (k, slot (occurrences k (map (fun c => (xtag c, f c)) cs))))
         ks) st
  = Ok (emit st (flat_map render
                   (flat_map (fun k => filter (fun c => str_eqb (xtag c) k) cs) ks))).
Proof.
  intros cs. induction ks as [|k ks IH]; intros st Hcs Hks;
    [now rewrite emit_nil|].
  cbn [map strfyKids flat_map].
  assert (Hin : In k (map xtag cs)) by (apply Hks; now left).
  apply in_map_iff in Hin. destruct Hin as (c0 & Ek & Hc0).
  destruct (Hcs c0 Hc0) as [Hd _]. rewrite Ek in Hd.
  rewrite Hd, occurrences_by.
  rewrite strfy_slot_by.
  - cbn [bind]. rewrite IH; [|assumption | intros; apply Hks; now right].
    now rewrite emit_emit, flat_map_app.
  - intro E. assert (Hf : In c0 (filter (fun c => str_eqb (xtag c) k) cs)).
    { apply filter_In. split; [assumption|]. rewrite Ek. apply str_eqb_refl. }
    rewrite E in Hf. contradiction.
  - intros c Hc. apply filter_In in Hc. destruct Hc as [Hc E].
    apply str_eqb_eq in E. destruct (Hcs c Hc) as [_ Hs]. now rewrite <- E.
Qed.

End By.

(** The attributes of an element that [stringify] writes for [null]. *)
Definition nil_only (a : list (jstring * jstring)) : bool :=
  match a with
  | [(k, v)] => str_eqb k (js "xsi:nil") && str_eqb v (js "true")
  | _ => false
  end.

(** The documents of the simplified trees: an element is marked nil and
    empty, or holds a text, or holds children, and carries no other
    attribute. *)
Fixpoint plain_doc (x : xml) : bool :=
  match x with
  | XEmpty _ a => nil_only a
  | XText _ a _ => match a with [] => true | _ => false end
  | XCData _ _ _ => false
  | XNode _ a cs => match a with [] => forallb plain_doc cs | _ => false end
  end.

Lemma strfy_simple : forall x,
  wf_doc x = true -> canonical x -> plain_doc x = true ->
  forall st, strfy None (simple x) (xtag x) st = Ok (emit st (render x)).
Proof.
  induction x as [t a|t a s|t a d|t a cs IH] using xml_rect';
    intros Hwf Hcan Hp st; cbn [xtag].
  - cbn [plain_doc] in Hp. destruct a as [|[k v] [|a1 a]]; try discriminate Hp.
    cbn [nil_only] in Hp. apply andb_true_iff in Hp. destruct Hp as [Hk Hv].
    apply str_eqb_eq in Hk, Hv. subst k v.
    change (simple (XEmpty t [(js "xsi:nil", js "true")])) with VNull.
    cbn [strfy]. unfold nil_tag, endTag, addAttribute, emit, beginTag.
    cbn [indent_on f_str f_depth render Nat.pred renderAttrs flat_map fst snd].
    change (escape (VStr (js "true"))) with (js "true").
    rewrite app_nil_r. f_equal. f_equal. now rewrite <- !app_assoc.
  - cbn [plain_doc] in Hp. destruct a; [|discriminate Hp].
    change (simple (XText t [] s)) with (VStr s).
    cbn [strfy]. unfold closeTag, endTag, emit, beginTag.
    cbn [indent_on f_str f_depth render Nat.pred nonnull renderAttrs flat_map app].
    now rewrite <- !app_assoc.
  - discriminate Hp.
  - cbn [plain_doc] in Hp. destruct a; [|discriminate Hp].
    destruct (canonical_children _ _ _ Hcan) as [Hre Hcc].
    assert (Hcs : cs <> [] /\ forallb wf_doc cs = true).
    { cbn [wf_doc] in Hwf. apply andb_true_iff in Hwf. destruct Hwf as [_ Hwf].
      destruct cs; [discriminate|]. split; [discriminate | exact Hwf]. }
    destruct Hcs as [Hne Hcs].
    assert (Hnames : forall c, In c cs -> is_name (xtag c) = true).
    { intros c Hc. rewrite forallb_forall in Hcs.
      now apply wf_doc_parts, Hcs. }
    change (simple (XNode t [] cs))
      with (VObj (group (map (fun c => (xtag c, simple c)) cs))).
    set (kvs := map (fun c => (xtag c, simple c)) cs).
    assert (Hg : forall k, is_dollar k = true -> ~ In k (map fst (group kvs))).
    { intros k Hk. now apply group_not_special. }
    rewrite strfy_VObj. cbv zeta.
    rewrite !get_absent by (now apply Hg). cbn [defined nonnull].
    assert (Hfilter : filter (fun kv : jstring * value => negb (is_dollar (fst kv)))
                        (group kvs) = group kvs).
    { apply forallb_filter_id. rewrite forallb_forall. intros [k v] Hin.
      cbn [fst]. apply negb_true_iff.
      destruct (is_dollar k) eqn:Hk; [|reflexivity].
      exfalso. apply (Hg k Hk). now apply (in_map fst) in Hin. }
    rewrite Hfilter.
    assert (Hgne : group kvs <> []).
    { unfold group, kvs. rewrite map_map. cbn [fst].
      destruct cs as [|c cs]; [contradiction|]. discriminate. }
    destruct (group kvs) as [|g0 gs] eqn:Eg; [contradiction|]. rewrite <- Eg.
    unfold group, kvs. rewrite map_map. cbn [fst].
    rewrite strfyKids_by.
    + cbn [bind].
      change (flat_map (fun k : jstring =>
                          filter (fun c : xml => str_eqb (xtag c) k) cs)
                (distinct (map (fun x : xml => xtag x) cs)))
        with (regroup cs).
      rewrite Hre.
      unfold closeTag, endTag, emit, beginTag, addAttributes.
      cbn [truthy indent_on f_str f_depth Nat.pred nonnull render renderAttrs
           flat_map app].
      f_equal. f_equal. now rewrite <- !app_assoc.
    + intros c Hc. split; [now apply is_name_not_dollar, Hnames|].
      rewrite Forall_forall in IH, Hcc.
      rewrite forallb_forall in Hcs, Hp.
      intro st0. apply IH; auto.
    + intros k Hk. apply -> distinct_In in Hk. exact Hk.
Qed.

(** X20.  A tree of strings, [null]s, and objects and sequences that are
    not empty, as [parse] with [simplify] returns it, survives [stringify]
    followed by [parse] with [simplify]: [null] is written as an empty
    element marked [xsi:nil="true"], which [simplify] reads back as
    [null]. *)
Theorem simplified_tree_roundtrip (d : xml)
  (Hwf : wf_doc d = true) (Hcan : canonical d) (Hp : plain_doc d = true) :
  let t := VObj [(xtag d, simple d)] in
  stringify t = Ok (render d)
  /\ (x <- stringify t ;; parse_with x (Some simplify)) = Ok t.
Proof.
  intro t.
  assert (Hs : stringify t = Ok (render d)).
  { unfold t, stringify, stringify_with. cbn [entries].
    rewrite strfy_simple by assumption. cbn [bind]. unfold fgetResult, emit.
    cbn [f_str app].
    destruct (render_head d Hwf) as (c & more & E & _). rewrite E.
    cbn [indexOf starts]. now rewrite Z.eqb_refl. }
  split; [exact Hs|]. rewrite Hs. cbn [bind].
  unfold parse_with. rewrite parse_render by assumption. cbn [bind].
  unfold t. now rewrite revive_root.
Qed.

Lemma simplified_tree_roundtrip_witness :
  let t := VObj [(js "a",
                  VObj [(js "b", VStr (js "3"));
                        (js "c", VArr [VStr (js "4"); VStr (js "5"); VNull])])] in
  stringify t
  = Ok (js "<a><b>3</b><c>4</c><c>5</c><c xsi:nil=" ++ dq (js "true")
        ++ js "/></a>")
  /\ (x <- stringify t ;; parse_with x (Some simplify)) = Ok t.
Proof.
  exact (simplified_tree_roundtrip
           (XNode (js "a") []
              [XText (js "b") [] (js "3");
               XText (js "c") [] (js "4");
               XText (js "c") [] (js "5");
               XEmpty (js "c") [(js "xsi:nil", js "true")]])
           eq_refl
           ltac:(cbn; repeat split; reflexivity)
           eq_refl).
Defined.
